(** * llama-scratch: a shallow embedding of the inference notebook

    The notebook [llama-scratch.ipynb] implements LLaMA-2 inference:
    rotary position encoding, grouped-query attention with a key/value
    cache, the decoder stack and the generation loop with nucleus sampling.

    Conventions of the embedding.
    - A tensor is a nested list, outermost dimension first.  Floating point
      values are idealised as real numbers ([R]); casts ([.float()],
      [.type_as]) and device moves are therefore identities.
    - A Python exception is a [Raise] in the [result] monad.
    - Python [int]s whose sign matters are [Z]; sizes and positions that the
      code only uses after they were checked (or that index a tensor) are
      [nat]. *)

From Stdlib Require Import String.
From Stdlib Require Import Reals List ZArith Lia Lra Bool Arith.
From Stdlib Require Import Permutation Sorted QArith_base.
Import ListNotations.

Open Scope R_scope.

(** ** Exceptions *)

Inductive PyError : Type :=
| AssertionError (msg : string)
| ZeroDivisionError
| ValueError
| IndexError
| RuntimeError.

Inductive result (A : Type) : Type :=
| Ok (a : A)
| Raise (e : PyError).

Arguments Ok {A} a.
Arguments Raise {A} e.

Definition bind {A B} (c : result A) (k : A -> result B) : result B :=
  match c with
  | Ok a => k a
  | Raise e => Raise e
  end.

Notation "x <- c ;; k" := (bind c (fun x => k))
  (at level 61, c at next level, right associativity).
Notation "' pat <- c ;; k" := (bind c (fun x => match x with pat => k end))
  (at level 61, pat pattern, c at next level, right associativity).

Definition py_assert (b : bool) (msg : string) : result unit :=
  if b then Ok tt else Raise (AssertionError msg).

Fixpoint mapM {A B} (f : A -> result B) (l : list A) : result (list B) :=
  match l with
  | [] => Ok []
  | a :: l' => b <- f a ;; bs <- mapM f l' ;; Ok (b :: bs)
  end.

(** ** Tensors as nested lists *)

Abbreviation Vec := (list R).
Abbreviation Mat := (list (list R)).
Abbreviation Tensor3 := (list (list (list R))).
Abbreviation Tensor4 := (list (list (list (list R)))).

Definition get2 {A} (x : list (list A)) (i j : nat) : option A :=
  match nth_error x i with
  | Some r => nth_error r j
  | None => None
  end.

Definition get3 {A} (x : list (list (list A))) (i j k : nat) : option A :=
  match nth_error x i with
  | Some r => get2 r j k
  | None => None
  end.

Definition has_shape1 {A} (x : list A) (n : nat) : Prop := length x = n.

Definition has_shape2 {A} (x : list (list A)) (n m : nat) : Prop :=
  length x = n /\ Forall (fun r => has_shape1 r m) x.

Definition has_shape3 {A} (x : list (list (list A))) (n m k : nat) : Prop :=
  length x = n /\ Forall (fun r => has_shape2 r m k) x.

Definition has_shape4 {A} (x : list (list (list (list A)))) (n m k l : nat) : Prop :=
  length x = n /\ Forall (fun r => has_shape3 r m k l) x.

(** PyTorch broadcasting of one dimension of the right operand: a dimension
    of the expected size is kept, a dimension of size 1 is repeated, anything
    else is a shape error. *)
Definition broadcast_to {A} (n : nat) (l : list A) : result (list A) :=
  if length l =? n then Ok l
  else match l with
       | [a] => Ok (repeat a n)
       | _ => Raise RuntimeError
       end.

(** ** Rotary position encoding *)

Abbreviation C := (R * R)%type.

Definition Cmul (a b : C) : C :=
  (fst a * fst b - snd a * snd b, fst a * snd b + snd a * fst b).

(** [torch.polar(abs, angle)] *)
Definition polar (abs angle : R) : C := (abs * cos angle, abs * sin angle).

(** [torch.arange(0, stop, 2).float()]; a negative bound is refused. *)
Definition arange_by2 (stop : Z) : result Vec :=
  if (stop <? 0)%Z then Raise RuntimeError
  else Ok (map (fun i => INR (2 * i)) (seq 0 (Nat.div2 (Z.to_nat stop + 1)))).

(** [torch.arange(n)] *)
Definition arange (n : Z) : result Vec :=
  if (n <? 0)%Z then Raise RuntimeError else Ok (map INR (seq 0 (Z.to_nat n))).

(** [torch.outer] *)
Definition outer (u v : Vec) : Mat :=
  map (fun a => map (fun b => a * b) v) u.

Definition theta_pos_freq (head_dim seq_len : Z) (theta : R) : result (list (list C)) :=
  theta_numerator <- arange_by2 head_dim ;;
  let theta := map (fun n => 1 / Rpower theta (n / IZR head_dim)) theta_numerator in
  m <- arange seq_len ;;
  let freqs := outer m theta in
  let freqs_complex := map (map (polar 1)) freqs in
  Ok freqs_complex.

(** [torch.view_as_complex(x.reshape(..., -1, 2))] on the last dimension: an
    odd length cannot be reshaped. *)
Fixpoint view_as_complex (v : Vec) : result (list C) :=
  match v with
  | [] => Ok []
  | [_] => Raise RuntimeError
  | a :: b :: v' => cs <- view_as_complex v' ;; Ok ((a, b) :: cs)
  end.

(** [torch.view_as_real] followed by the reshape back to the shape of [x],
    on the last dimension *)
Fixpoint view_as_real (cs : list C) : Vec :=
  match cs with
  | [] => []
  | c :: cs' => fst c :: snd c :: view_as_real cs'
  end.

Definition zip_with {A B D} (f : A -> B -> D) (xs : list A) (ys : list B) : list D :=
  map (fun p => f (fst p) (snd p)) (combine xs ys).

(** One head vector at one position: the innermost step of
    [rotary_embeddings]; [f] is the table row of that position. *)
Definition rotary_vec (f : list C) (v : Vec) : result Vec :=
  x_complex <- view_as_complex v ;;
  f' <- broadcast_to (length x_complex) f ;;
  let x_rotated := zip_with Cmul x_complex f' in
  Ok (view_as_real x_rotated).

(** [x] has shape (B, Seq_Len, H, Head_Dim), [freqs_complex] has shape
    (Seq_Len, Head_Dim / 2) and is broadcast over batch and heads by the two
    [unsqueeze]s.  [x] holds at least one head vector (B, Seq_Len and H are
    at least 1): lists do not record the shape of a tensor without elements,
    on which the [reshape] of the source raises. *)
Definition rotary_embeddings (x : Tensor4) (freqs_complex : list (list C)) : result Tensor4 :=
  mapM (fun xb =>
          fs <- broadcast_to (length xb) freqs_complex ;;
          mapM (fun p => mapM (rotary_vec (snd p)) (fst p)) (combine xb fs)) x.

(** ** Grouped-query head expansion *)

(** [x[:, :, :, None, :].expand(B, S, n_kv_heads, n_rep, head_dim)] followed
    by [.reshape(B, S, n_kv_heads * n_rep, head_dim)]: every head becomes
    [n_rep] adjacent copies, and the reshape merges the two head axes in
    row-major order. *)
Definition expand_heads (n_rep : nat) (heads : Mat) : Tensor3 :=
  map (fun h => repeat h n_rep) heads.

Definition repeat_kv (x : Tensor4) (n_rep : nat) : Tensor4 :=
  if n_rep =? 1 then x
  else map (map (fun heads => concat (expand_heads n_rep heads))) x.

(** Python slice [l[start:stop]] for non-negative bounds. *)
Definition slice {A} (start stop : nat) (l : list A) : list A :=
  firstn (stop - start) (skipn start l).

(** The L2 norm of each consecutive pair of components of a vector. *)
Definition pair_norm (c : C) : R := sqrt (fst c * fst c + snd c * snd c).

Definition pair_norms (v : Vec) : result (list R) :=
  cs <- view_as_complex v ;; Ok (map pair_norm cs).

Definition is_unit (c : C) : Prop := fst c * fst c + snd c * snd c = 1.

(** The relation between a head vector and its rotated image. *)
Definition same_pair_norms (v v' : Vec) : Prop :=
  length v' = length v /\ pair_norms v' = pair_norms v.

(** ** Sampling *)

Definition sum_list (v : Vec) : R := fold_right Rplus 0 v.

(** [torch.softmax(v, dim=-1)] *)
Definition softmax (v : Vec) : Vec :=
  let e := map exp v in map (fun a => a / sum_list e) e.

(** [torch.argmax(v, dim=-1)]: the index of the first maximal value; an
    empty vector has no maximum. *)
Fixpoint argmax_from (best : R) (best_i i : nat) (v : Vec) : nat :=
  match v with
  | [] => best_i
  | a :: v' => if Rlt_dec best a then argmax_from a i (S i) v'
               else argmax_from best best_i (S i) v'
  end.

Definition argmax (v : Vec) : result nat :=
  match v with
  | [] => Raise RuntimeError
  | a :: v' => Ok (argmax_from a 0 1 v')
  end.

(** [torch.sort(probs, dim=-1, descending=True)] on one row, as the list of
    (value, original index) pairs.  Equal values keep their original order. *)
Fixpoint insert_desc (a : R * nat) (l : list (R * nat)) : list (R * nat) :=
  match l with
  | [] => [a]
  | q :: l' => if Rle_dec (fst q) (fst a) then a :: q :: l'
               else q :: insert_desc a l'
  end.

Definition sort_desc (v : Vec) : list (R * nat) :=
  fold_right insert_desc [] (combine v (seq 0 (length v))).

(** [torch.cumsum(v, dim=-1)] *)
Fixpoint cumsum_from (acc : R) (v : Vec) : Vec :=
  match v with
  | [] => []
  | a :: v' => (acc + a) :: cumsum_from (acc + a) v'
  end.

Definition cumsum (v : Vec) : Vec := cumsum_from 0 v.

(** [probs_sum - probs_sort > p] *)
Definition top_p_mask (p : R) (probs_sum probs_sort : Vec) : list bool :=
  zip_with (fun s x => if Rgt_dec (s - x) p then true else false) probs_sum probs_sort.

(** [v[mask] = c] *)
Definition masked_fill (mask : list bool) (v : Vec) (c : R) : Vec :=
  zip_with (fun (m : bool) x => if m then c else x) mask v.

(** The part of [_sample_top_p] before the random draw, on one row of
    [probs]: the truncated, renormalised distribution over sorted positions,
    and the vocabulary indices of the sorted positions. *)
Definition top_p_distribution (probs : Vec) (p : R) : Vec * list nat :=
  let sorted := sort_desc probs in
  let probs_sort := map fst sorted in
  let probs_idx := map snd sorted in
  let probs_sum := cumsum probs_sort in
  let mask := top_p_mask p probs_sum probs_sort in
  let probs_sort := masked_fill mask probs_sort 0 in
  let probs_sort := map (fun a => a / sum_list probs_sort) probs_sort in
  (probs_sort, probs_idx).

(** The tokens that the draw can select: those with positive weight in the
    truncated distribution. *)
Definition top_p_candidates (probs : Vec) (p : R) : list nat :=
  let '(probs_sort, probs_idx) := top_p_distribution probs p in
  map snd (filter (fun wt => if Rlt_dec 0 (fst wt) then true else false)
                  (combine probs_sort probs_idx)).

Section Sampler.
(** [torch.multinomial(weights, num_samples=1)] on one row is a draw from
    the generator state; it raises on weights it cannot sample from. *)
Variable Rng : Type.
Variable multinomial : Rng -> Vec -> result (nat * Rng).

Definition sample_top_p_row (rng : Rng) (probs : Vec) (p : R) : result (nat * Rng) :=
  let '(probs_sort, probs_idx) := top_p_distribution probs p in
  '(k, rng') <- multinomial rng probs_sort ;;
  match nth_error probs_idx k with          (* torch.gather *)
  | Some tok => Ok (tok, rng')
  | None => Raise RuntimeError
  end.

(** [probs] has shape (B, vocab_size); the result has shape (B, 1). *)
Fixpoint _sample_top_p (rng : Rng) (probs : Mat) (p : R) : result (list (list nat) * Rng) :=
  match probs with
  | [] => Ok ([], rng)
  | row :: probs' =>
      '(tok, rng1) <- sample_top_p_row rng row p ;;
      '(toks, rng2) <- _sample_top_p rng1 probs' p ;;
      Ok ([tok] :: toks, rng2)
  end.
End Sampler.

(** ** PyTorch and Python primitives used by the model *)

(** Python [a // b] on integers. *)
Definition py_floordiv (a b : Z) : result Z :=
  if (b =? 0)%Z then Raise ZeroDivisionError else Ok (a / b)%Z.

(** Python [int(x)] for a quotient of integers and for a rational: truncation
    towards zero. *)
Definition py_int_div (a b : Z) : Z := Z.quot a b.
Definition py_int_Q (q : Q) : Z := Z.quot (Qnum q) (Zpos (Qden q)).

(** A tensor size: PyTorch refuses a negative dimension. *)
Definition size_of (n : Z) : result nat :=
  if (n <? 0)%Z then Raise RuntimeError else Ok (Z.to_nat n).

(** The global random generator of PyTorch: parameter initialisation and
    [torch.multinomial] draw from it. *)
Record TorchRandom : Type := {
  Rng : Type;
  rand_matrix : Rng -> nat -> nat -> Mat * Rng;
  multinomial : Rng -> Vec -> result (nat * Rng)
}.

(** [nn.Linear(in_features, out_features, bias=False)]: a freshly initialised
    weight of shape (out_features, in_features). *)
Definition nn_Linear (T : TorchRandom) (rng : Rng T) (in_features out_features : Z)
  : result (Mat * Rng T) :=
  i <- size_of in_features ;;
  o <- size_of out_features ;;
  Ok (rand_matrix T rng o i).

(** [nn.Embedding(num_embeddings, embedding_dim)] *)
Definition nn_Embedding (T : TorchRandom) (rng : Rng T) (num_embeddings embedding_dim : Z)
  : result (Mat * Rng T) :=
  n <- size_of num_embeddings ;;
  d <- size_of embedding_dim ;;
  Ok (rand_matrix T rng n d).

Definition torch_ones (n : Z) : result Vec :=
  n <- size_of n ;; Ok (repeat 1 n).

Definition torch_zeros4 (a b c d : Z) : result Tensor4 :=
  a <- size_of a ;; b <- size_of b ;; c <- size_of c ;; d <- size_of d ;;
  Ok (repeat (repeat (repeat (repeat 0 d) c) b) a).

Definition dot (u v : Vec) : R := sum_list (zip_with Rmult u v).

(** [F.linear(x, W)] on the last dimension, [W] of shape (out, in). *)
Definition linear (W : Mat) (x : Vec) : Vec := map (fun w => dot x w) W.

Definition linear3 (W : Mat) (x : Tensor3) : Tensor3 := map (map (linear W)) x.

(** [v.view(n, d)] of a vector; the sizes must account for every element. *)
Definition view_heads (n d : nat) (v : Vec) : result Mat :=
  if length v =? n * d
  then Ok (map (fun h => firstn d (skipn (h * d) v)) (seq 0 n))
  else Raise RuntimeError.

(** [x.view(B, S, n, d)] of a tensor of shape (B, S, n * d). *)
Definition view4 (x : Tensor3) (n d : nat) : result Tensor4 :=
  mapM (mapM (view_heads n d)) x.

(** Transposition of the two outer dimensions of a non-empty nested list. *)
Fixpoint transpose {A} (m : list (list A)) : list (list A) :=
  match m with
  | [] => []
  | [r] => map (fun a => [a]) r
  | r :: m' => zip_with cons r (transpose m')
  end.

(** [torch.matmul] of two matrices. *)
Definition matmul (a b : Mat) : Mat :=
  map (fun row => map (fun col => dot row col) (transpose b)) a.

(** Pairing of the batch dimensions of two operands; sizes must agree. *)
Definition zip_strict {A B} (l1 : list A) (l2 : list B) : result (list (A * B)) :=
  if length l1 =? length l2 then Ok (combine l1 l2) else Raise RuntimeError.

(** Slice assignment [dst[start:stop] = src] along one dimension: the bounds
    are clamped to the length of [dst] and [src] is broadcast to the slice. *)
Definition slice_assign {A} (start stop : nat) (src dst : list A) : result (list A) :=
  let lo := Nat.min start (length dst) in
  let hi := Nat.max lo (Nat.min stop (length dst)) in
  src' <- broadcast_to (hi - lo) src ;;
  Ok (firstn lo dst ++ src' ++ skipn hi dst).

(** [cache[:batch_size, start_pos : start_pos + seq_len] = x] *)
Definition cache_write (cache : Tensor4) (batch_size start_pos seq_len : nat) (x : Tensor4)
  : result Tensor4 :=
  let nb := Nat.min batch_size (length cache) in
  rows <- broadcast_to nb x ;;
  new_rows <- mapM (fun p => slice_assign start_pos (start_pos + seq_len) (snd p) (fst p))
                   (combine (firstn nb cache) rows) ;;
  Ok (new_rows ++ skipn nb cache).

(** [cache[:batch_size, : stop]] *)
Definition cache_read (cache : Tensor4) (batch_size stop : nat) : Tensor4 :=
  map (firstn stop) (firstn batch_size cache).

(** The shape of a two-dimensional tensor given as a list of rows. (The
    length of the rows of an empty batch is not represented.) *)
Definition shape2 {A} (t : list (list A)) : nat * nat :=
  (length t, match t with [] => 0%nat | r :: _ => length r end).

(** ** Model configuration *)

Module ModelArgs.
Record t : Type := mk {
  dim : Z;
  n_layers : Z;
  n_heads : Z;
  n_kv_heads : option Z;
  vocab_size : Z;
  multiple_of : Z;
  ffn_dim_multiplier : option Q;
  norm_eps : R;
  max_batch_size : Z;
  max_seq_len : Z
}.

(** The defaults of the dataclass; [vocab_size = -1] means "not set". *)
Definition default : t :=
  mk 4096 32 32 None (-1) 256 None (1 / 100000) 32 2048.
End ModelArgs.

(** ** RMSNorm *)

Module RMSNorm.
Record t : Type := mk { eps : R; weight : Vec }.

Definition __init__ (dim : Z) (eps : R) : result t :=
  weight <- torch_ones dim ;; Ok (mk eps weight).

Definition mean (v : Vec) : R := sum_list v / INR (length v).

(** [x * torch.rsqrt(x.pow(2).mean(-1, keepdim=True) + self.eps)] *)
Definition _norm (self : t) (x : Vec) : Vec :=
  let r := / sqrt (mean (map (fun a => a * a) x) + eps self) in
  map (fun a => a * r) x.

(** [self.weight * self._norm(x)] on one vector *)
Definition forward_vec (self : t) (x : Vec) : Vec :=
  zip_with Rmult (weight self) (_norm self x).

Definition forward (self : t) (x : Tensor3) : Tensor3 :=
  map (map (forward_vec self)) x.
End RMSNorm.

(** ** Self-attention with the key/value cache *)

Module SelfAttention.
Record t : Type := mk {
  n_kv_heads : Z;
  n_heads_q : Z;
  n_rep : Z;
  head_dim : Z;
  wq : Mat;
  wk : Mat;
  wv : Mat;
  wo : Mat;
  cache_k : Tensor4;
  cache_v : Tensor4
}.

Definition __init__ (T : TorchRandom) (rng : Rng T) (args : ModelArgs.t)
  : result (t * Rng T) :=
  let n_kv_heads := match ModelArgs.n_kv_heads args with
                    | None => ModelArgs.n_heads args
                    | Some k => k
                    end in
  let n_heads_q := ModelArgs.n_heads args in
  n_rep <- py_floordiv n_heads_q n_kv_heads ;;
  head_dim <- py_floordiv (ModelArgs.dim args) (ModelArgs.n_heads args) ;;
  '(wq, rng) <- nn_Linear T rng (ModelArgs.dim args) (ModelArgs.n_heads args * head_dim) ;;
  '(wk, rng) <- nn_Linear T rng (ModelArgs.dim args) (n_kv_heads * head_dim) ;;
  '(wv, rng) <- nn_Linear T rng (ModelArgs.dim args) (n_kv_heads * head_dim) ;;
  '(wo, rng) <- nn_Linear T rng (ModelArgs.n_heads args * head_dim) (ModelArgs.dim args) ;;
  cache_k <- torch_zeros4 (ModelArgs.max_batch_size args) (ModelArgs.max_seq_len args)
                          n_kv_heads head_dim ;;
  cache_v <- torch_zeros4 (ModelArgs.max_batch_size args) (ModelArgs.max_seq_len args)
                          n_kv_heads head_dim ;;
  Ok (mk n_kv_heads n_heads_q n_rep head_dim wq wk wv wo cache_k cache_v, rng).

(** Scaled dot-product attention of one batch row: [xq] has shape
    (H_Q, Seq_Len, Head_Dim), [keys] and [values] have shape
    (H_Q, Seq_Len_KV, Head_Dim); the result has shape
    (H_Q, Seq_Len, Head_Dim).  The operands have the same number of heads:
    the broadcasting of [torch.matmul] over a head dimension of size 1 is not
    represented. *)
Definition attend (head_dim : Z) (xq keys values : Tensor3) : result Tensor3 :=
  qk <- zip_strict xq keys ;;
  let scores :=
    map (fun p => map (map (fun a => a / sqrt (IZR head_dim)))
                      (matmul (fst p) (transpose (snd p)))) qk in
  let scores := map (map softmax) scores in
  sv <- zip_strict scores values ;;
  Ok (map (fun p => matmul (fst p) (snd p)) sv).

Definition update_cache (self : t) (cache_k cache_v : Tensor4) : t :=
  mk (n_kv_heads self) (n_heads_q self) (n_rep self) (head_dim self)
     (wq self) (wk self) (wv self) (wo self) cache_k cache_v.

(** [x] has shape (B, Seq_Len, Dim).  The result is the output of the layer
    and the layer with its caches updated in place. *)
Definition forward (self : t) (x : Tensor3) (start_pos : nat) (freqs_complex : list (list C))
  : result (Tensor3 * t) :=
  let '(batch_size, seq_len) := shape2 x in
  nq <- size_of (n_heads_q self) ;;
  nkv <- size_of (n_kv_heads self) ;;
  hd <- size_of (head_dim self) ;;
  let xq := linear3 (wq self) x in
  let xk := linear3 (wk self) x in
  let xv := linear3 (wv self) x in
  xq <- view4 xq nq hd ;;
  xk <- view4 xk nkv hd ;;
  xv <- view4 xv nkv hd ;;
  xq <- rotary_embeddings xq freqs_complex ;;
  xk <- rotary_embeddings xk freqs_complex ;;
  (* Replace the entry in the cache *)
  cache_k <- cache_write (cache_k self) batch_size start_pos seq_len xk ;;
  cache_v <- cache_write (cache_v self) batch_size start_pos seq_len xv ;;
  let self := update_cache self cache_k cache_v in
  let keys := cache_read cache_k batch_size (start_pos + seq_len) in
  let values := cache_read cache_v batch_size (start_pos + seq_len) in
  n_rep <- size_of (n_rep self) ;;
  let keys := repeat_kv keys n_rep in
  let values := repeat_kv values n_rep in
  let xq := map transpose xq in
  let keys := map transpose keys in
  let values := map transpose values in
  qkv <- zip_strict xq (combine keys values) ;;
  output <- mapM (fun p => attend (head_dim self) (fst p) (fst (snd p)) (snd (snd p))) qkv ;;
  let output := map (fun o => map (@concat R) (transpose o)) output in
  Ok (linear3 (wo self) output, self).
End SelfAttention.

(** ** Feed-forward block *)

Module FeedForward.
Record t : Type := mk { w1 : Mat; w2 : Mat; w3 : Mat }.

(** The hidden size.  The product with [ffn_dim_multiplier] is taken in Q:
    the source rounds it to a float before [int] truncates it. *)
Definition hidden_dim_of (args : ModelArgs.t) : result Z :=
  let hidden_dim := (4 * ModelArgs.dim args)%Z in
  let hidden_dim := py_int_div (2 * hidden_dim) 3 in
  let hidden_dim := match ModelArgs.ffn_dim_multiplier args with
                    | Some m => py_int_Q (Qmult m (inject_Z hidden_dim))
                    | None => hidden_dim
                    end in
  q <- py_floordiv (hidden_dim + ModelArgs.multiple_of args - 1) (ModelArgs.multiple_of args) ;;
  Ok (ModelArgs.multiple_of args * q)%Z.

Definition __init__ (T : TorchRandom) (rng : Rng T) (args : ModelArgs.t)
  : result (t * Rng T) :=
  hidden_dim <- hidden_dim_of args ;;
  '(w1, rng) <- nn_Linear T rng (ModelArgs.dim args) hidden_dim ;;
  '(w2, rng) <- nn_Linear T rng hidden_dim (ModelArgs.dim args) ;;
  '(w3, rng) <- nn_Linear T rng (ModelArgs.dim args) hidden_dim ;;
  Ok (mk w1 w2 w3, rng).

(** [F.silu] *)
Definition silu (a : R) : R := a / (1 + exp (- a)).

Definition forward (self : t) (x : Tensor3) : Tensor3 :=
  let swish := map (map (map silu)) (linear3 (w1 self) x) in
  let x_V := linear3 (w3 self) x in
  let x := zip_with (zip_with (zip_with Rmult)) swish x_V in
  linear3 (w2 self) x.
End FeedForward.

(** ** Decoder layer *)

Module EncoderBlock.
Record t : Type := mk {
  n_heads : Z;
  dim : Z;
  head_dim : Z;
  attention : SelfAttention.t;
  feed_forward : FeedForward.t;
  attention_norm : RMSNorm.t;
  ffn_norm : RMSNorm.t
}.

Definition __init__ (T : TorchRandom) (rng : Rng T) (args : ModelArgs.t)
  : result (t * Rng T) :=
  head_dim <- py_floordiv (ModelArgs.dim args) (ModelArgs.n_heads args) ;;
  '(attention, rng) <- SelfAttention.__init__ T rng args ;;
  '(feed_forward, rng) <- FeedForward.__init__ T rng args ;;
  attention_norm <- RMSNorm.__init__ (ModelArgs.dim args) (ModelArgs.norm_eps args) ;;
  ffn_norm <- RMSNorm.__init__ (ModelArgs.dim args) (ModelArgs.norm_eps args) ;;
  Ok (mk (ModelArgs.n_heads args) (ModelArgs.dim args) head_dim
         attention feed_forward attention_norm ffn_norm, rng).

Definition add3 (a b : Tensor3) : Tensor3 := zip_with (zip_with (zip_with Rplus)) a b.

Definition update_attention (self : t) (attention : SelfAttention.t) : t :=
  mk (n_heads self) (dim self) (head_dim self) attention
     (feed_forward self) (attention_norm self) (ffn_norm self).

Definition forward (self : t) (x : Tensor3) (start_pos : nat) (freqs_complex : list (list C))
  : result (Tensor3 * t) :=
  '(a, attention) <- SelfAttention.forward (attention self)
                       (RMSNorm.forward (attention_norm self) x) start_pos freqs_complex ;;
  let self := update_attention self attention in
  let h := add3 x a in
  let out := add3 h (FeedForward.forward (feed_forward self)
                                         (RMSNorm.forward (ffn_norm self) h)) in
  Ok (out, self).
End EncoderBlock.

(** ** Decoder stack *)

Module Transformer.
Record t : Type := mk {
  args : ModelArgs.t;
  vocab_size : Z;
  n_layers : Z;
  tok_embeddings : Mat;
  layers : list EncoderBlock.t;
  norm : RMSNorm.t;
  output : Mat;
  freqs_complex : list (list C)
}.

(** [for layer_id in range(args.n_layers): self.layers.append(EncoderBlock(args))] *)
Fixpoint make_layers (T : TorchRandom) (rng : Rng T) (args : ModelArgs.t) (n : nat)
  : result (list EncoderBlock.t * Rng T) :=
  match n with
  | O => Ok ([], rng)
  | S n' =>
      '(layer, rng) <- EncoderBlock.__init__ T rng args ;;
      '(layers, rng) <- make_layers T rng args n' ;;
      Ok (layer :: layers, rng)
  end.

Definition __init__ (T : TorchRandom) (rng : Rng T) (args : ModelArgs.t)
  : result (t * Rng T) :=
  _ <- py_assert (negb (ModelArgs.vocab_size args =? -1)%Z) "Vocab size must be set" ;;
  let vocab_size := ModelArgs.vocab_size args in
  let n_layers := ModelArgs.n_layers args in
  '(tok_embeddings, rng) <- nn_Embedding T rng vocab_size (ModelArgs.dim args) ;;
  '(layers, rng) <- make_layers T rng args (Z.to_nat n_layers) ;;
  norm <- RMSNorm.__init__ (ModelArgs.dim args) (ModelArgs.norm_eps args) ;;
  '(output, rng) <- nn_Linear T rng (ModelArgs.dim args) vocab_size ;;
  head_dim <- py_floordiv (ModelArgs.dim args) (ModelArgs.n_heads args) ;;
  freqs_complex <- theta_pos_freq head_dim (ModelArgs.max_seq_len args * 2) 10000 ;;
  Ok (mk args vocab_size n_layers tok_embeddings layers norm output freqs_complex, rng).

(** [self.tok_embeddings(tokens)]: an index outside of the table raises. *)
Definition embedding (weight : Mat) (tokens : list (list Z)) : result Tensor3 :=
  mapM (mapM (fun tok : Z =>
                if (tok <? 0)%Z then Raise IndexError
                else match nth_error weight (Z.to_nat tok) with
                     | Some v => Ok v
                     | None => Raise IndexError
                     end)) tokens.

(** [for layer in self.layers: h = layer(h, start_pos, freqs_complex)] *)
Fixpoint run_layers (layers : list EncoderBlock.t) (h : Tensor3) (start_pos : nat)
         (freqs_complex : list (list C)) : result (Tensor3 * list EncoderBlock.t) :=
  match layers with
  | [] => Ok (h, [])
  | layer :: layers' =>
      '(h, layer) <- EncoderBlock.forward layer h start_pos freqs_complex ;;
      '(h, layers') <- run_layers layers' h start_pos freqs_complex ;;
      Ok (h, layer :: layers')
  end.

Definition update_layers (self : t) (layers : list EncoderBlock.t) : t :=
  mk (args self) (vocab_size self) (n_layers self) (tok_embeddings self) layers
     (norm self) (output self) (freqs_complex self).

(** [tokens] has shape (B, Seq_Len); the result is the logits of shape
    (B, Seq_Len, vocab_size) and the model with its caches updated. *)
Definition forward (self : t) (tokens : list (list Z)) (start_pos : nat)
  : result (Tensor3 * t) :=
  let '(batch_size, seq_len) := shape2 tokens in
  _ <- py_assert (seq_len =? 1) "Only one token at a time can be processed" ;;
  h <- embedding (tok_embeddings self) tokens ;;
  let freqs_complex := slice start_pos (start_pos + seq_len) (freqs_complex self) in
  '(h, layers) <- run_layers (layers self) h start_pos freqs_complex ;;
  let self := update_layers self layers in
  let h := RMSNorm.forward (norm self) h in
  let output := linear3 (output self) h in
  Ok (output, self).
End Transformer.

(** ** Tokenizer (external collaborator) *)

(** The Python values that an attribute of the tokenizer can hold: an
    integer, or a bound method that returns an integer when it is called. *)
Inductive PyObj : Type :=
| PyInt (z : Z)
| PyBoundMethod (ret : Z).

(** Python [z == o] for an integer [z]: a bound method is equal to no
    integer. *)
Definition py_eq_int (z : Z) (o : PyObj) : bool :=
  match o with
  | PyInt e => (z =? e)%Z
  | PyBoundMethod _ => false
  end.

Module Tokenizer.
(** [pad_id] is the value of the call [self.tokenizer.pad_id()];
    [eos_id] is the value of the attribute [self.tokenizer.eos_id], which
    [text_completion] reads without calling it; [decode] is the external
    decoder. *)
Record t : Type := mk {
  pad_id : Z;
  eos_id : PyObj;
  decode : list Z -> string
}.
End Tokenizer.

(** ** Generation loop *)

(** [max(...)] of a generator: empty input raises. *)
Definition py_max (l : list nat) : result nat :=
  match l with
  | [] => Raise ValueError
  | a :: l' => Ok (fold_left Nat.max l' a)
  end.

(** [x[:, -1]] on the second dimension. *)
Definition last_row {A} (x : list (list A)) : result (list A) :=
  mapM (fun r => match rev r with
                 | a :: _ => Ok a
                 | [] => Raise IndexError
                 end) x.

(** [row[i] = v] for an index in range. *)
Definition set_nth {A} (i : nat) (v : A) (row : list A) : list A :=
  firstn i row ++ v :: skipn (S i) row.

(** [o in l] and [l.index(o)] *)
Definition py_in (o : PyObj) (l : list Z) : bool :=
  existsb (fun z => py_eq_int z o) l.

Fixpoint py_index (o : PyObj) (l : list Z) : result nat :=
  match l with
  | [] => Raise ValueError
  | z :: l' => if py_eq_int z o then Ok 0%nat
               else i <- py_index o l' ;; Ok (S i)
  end.

Module LLaMA.
Record t : Type := mk {
  model : Transformer.t;
  tokenizer : Tokenizer.t;
  args : ModelArgs.t
}.

(** The variables of [text_completion] that change in the loop; [cur_pos]
    is the last position that the loop visited (0 before the first
    iteration). *)
Record GenState (T : TorchRandom) : Type := mkGen {
  tokens : list (list Z);
  eos_reached : list bool;
  cur_pos : nat;
  gen_model : Transformer.t;
  gen_rng : Rng T
}.
Arguments mkGen {T}.
Arguments tokens {T}.
Arguments eos_reached {T}.
Arguments cur_pos {T}.
Arguments gen_model {T}.
Arguments gen_rng {T}.

(** The token grid before the loop: [torch.full] with the pad id, then the
    prompts written at the start of the rows. *)
Definition initial_tokens (pad_id : Z) (total_len : nat) (prompt_tokens : list (list Z))
  : result (list (list Z)) :=
  mapM (fun t => slice_assign 0 (length t) t (repeat pad_id total_len)) prompt_tokens.

(** [tokens != pad_id] *)
Definition prompt_mask (pad_id : Z) (tokens : list (list Z)) : list (list bool) :=
  map (map (fun tok => negb (tok =? pad_id)%Z)) tokens.

(** The next token of every row from the logits of the last position. *)
Definition sample (T : TorchRandom) (temperature top_p : R) (logits : Mat) (rng : Rng T)
  : result (list Z * Rng T) :=
  if Rlt_dec 0 temperature then
    (* The temperature is applied before the softmax *)
    let probs := map (fun l => softmax (map (fun a => a / temperature) l)) logits in
    '(next_token, rng) <- _sample_top_p (Rng T) (multinomial T) rng probs top_p ;;
    Ok (map Z.of_nat (concat next_token), rng)
  else
    (* Greedily select the token with the max probability *)
    next_token <- mapM argmax logits ;;
    Ok (map Z.of_nat next_token, rng).

(** One iteration of the loop, without the test for [break]. *)
Definition decode_step (T : TorchRandom) (eos_id : PyObj) (temperature top_p : R)
           (prompt_tokens_mask : list (list bool)) (cur_pos : nat) (st : GenState T)
  : result (GenState T) :=
  '(logits, model) <- Transformer.forward (gen_model st)
                        (map (slice (cur_pos - 1) cur_pos) (tokens st)) cur_pos ;;
  logits <- last_row logits ;;
  '(next_token, rng) <- sample T temperature top_p logits (gen_rng st) ;;
  (* Only replace token if it is a padding token *)
  let mask_col := map (fun r => nth cur_pos r false) prompt_tokens_mask in
  let tok_col := map (fun r => nth cur_pos r 0%Z) (tokens st) in
  next_token <- broadcast_to (length (tokens st)) next_token ;;
  let next_token :=
    zip_with (fun (m : bool * Z) (s : Z) => if fst m then snd m else s)
             (combine mask_col tok_col) next_token in
  let tokens := zip_with (fun row v => set_nth cur_pos v row) (tokens st) next_token in
  (* EOS is reached only if we found an EOS token for a padding position *)
  let eos_reached :=
    zip_with orb (eos_reached st)
             (zip_with (fun (m : bool) (s : Z) => negb m && py_eq_int s eos_id)
                       mask_col next_token) in
  Ok (mkGen tokens eos_reached cur_pos model rng).

(** [for cur_pos in range(1, total_len): ...; if all(eos_reached): break] *)
Fixpoint decode_loop (T : TorchRandom) (eos_id : PyObj) (temperature top_p : R)
         (prompt_tokens_mask : list (list bool)) (positions : list nat) (st : GenState T)
  : result (GenState T) :=
  match positions with
  | [] => Ok st
  | cur_pos :: positions' =>
      st <- decode_step T eos_id temperature top_p prompt_tokens_mask cur_pos st ;;
      if forallb (fun b : bool => b) (eos_reached st) then Ok st
      else decode_loop T eos_id temperature top_p prompt_tokens_mask positions' st
  end.

(** [text_completion] up to the end of the loop.  [prompt_tokens] is the
    result of the external [tokenizer.encode] on the prompts. *)
Definition generate (T : TorchRandom) (self : t) (rng : Rng T)
           (prompt_tokens : list (list Z)) (temperature top_p : R) (max_gen_len : option Z)
  : result (GenState T) :=
  let max_gen_len := match max_gen_len with
                     | None => (ModelArgs.max_seq_len (args self) - 1)%Z
                     | Some n => n
                     end in
  (* Make sure the batch size is not too large *)
  let batch_size := length prompt_tokens in
  _ <- py_assert (Z.of_nat batch_size <=? ModelArgs.max_batch_size (args self))%Z
                 "batch size must be less than or equal to {self.args.max_batch_size}" ;;
  max_prompt_len <- py_max (map (@length Z) prompt_tokens) ;;
  (* Make sure the prompt length is not larger than the maximum sequence length *)
  _ <- py_assert (Z.of_nat max_prompt_len <=? ModelArgs.max_seq_len (args self))%Z
                 "prompt length must be less than or equal to {self.args.max_seq_len}" ;;
  let total_len := Z.min (ModelArgs.max_seq_len (args self))
                         (max_gen_len + Z.of_nat max_prompt_len) in
  total_len <- size_of total_len ;;
  let pad_id := Tokenizer.pad_id (tokenizer self) in
  tokens <- initial_tokens pad_id total_len prompt_tokens ;;
  let eos_reached := repeat false batch_size in
  let prompt_tokens_mask := prompt_mask pad_id tokens in
  decode_loop T (Tokenizer.eos_id (tokenizer self)) temperature top_p prompt_tokens_mask
              (seq 1 (total_len - 1))
              (mkGen tokens eos_reached 0 (model self) rng).

(** Cut to the EOS token, if present. *)
Definition cut_at_eos (eos_id : PyObj) (current_prompt_tokens : list Z) : result (list Z) :=
  if py_in eos_id current_prompt_tokens then
    eos_idx <- py_index eos_id current_prompt_tokens ;;
    Ok (firstn eos_idx current_prompt_tokens)
  else Ok current_prompt_tokens.

(** The result is the pair returned by the method, and the object and the
    generator after the call. *)
Definition text_completion (T : TorchRandom) (self : t) (rng : Rng T)
           (prompt_tokens : list (list Z)) (temperature top_p : R) (max_gen_len : option Z)
  : result ((list (list Z) * list string) * t * Rng T) :=
  st <- generate T self rng prompt_tokens temperature top_p max_gen_len ;;
  out_tokens <- mapM (cut_at_eos (Tokenizer.eos_id (tokenizer self))) (tokens st) ;;
  let out_text := map (Tokenizer.decode (tokenizer self)) out_tokens in
  Ok ((out_tokens, out_text), mk (gen_model st) (tokenizer self) (args self), gen_rng st).
End LLaMA.

(** The value that one iteration stores at [cur_pos] of a row whose sampled
    token is [s]. *)
Definition committed (cur_pos : nat) (mask_row : list bool) (row : list Z) (s : Z) : Z :=
  if nth cur_pos mask_row false then nth cur_pos row 0%Z else s.

(** ** What one decoding call stores in the cache *)

(** The block of shape (H_KV, Head_Dim) that [SelfAttention.forward] stores
    in [cache_k] for one position whose layer input is [x], rotated with the
    table row [frow]; and the block that it stores in [cache_v]. *)
Definition key_block (self : SelfAttention.t) (x : Vec) (frow : list C) : result Mat :=
  nkv <- size_of (SelfAttention.n_kv_heads self) ;;
  hd <- size_of (SelfAttention.head_dim self) ;;
  heads <- view_heads nkv hd (linear (SelfAttention.wk self) x) ;;
  mapM (rotary_vec frow) heads.

Definition value_block (self : SelfAttention.t) (x : Vec) : result Mat :=
  nkv <- size_of (SelfAttention.n_kv_heads self) ;;
  hd <- size_of (SelfAttention.head_dim self) ;;
  view_heads nkv hd (linear (SelfAttention.wv self) x).

(** The cache has room for [nb] rows of [ns] positions. *)
Definition cache_dims (cache : Tensor4) (nb ns : nat) : Prop :=
  (nb <= length cache)%nat /\ Forall (fun r => (ns <= length r)%nat) cache.

(** Two states of a layer that differ in the content of the caches only. *)
Definition same_weights (l l' : EncoderBlock.t) : Prop :=
  EncoderBlock.update_attention l
    (SelfAttention.update_cache (EncoderBlock.attention l)
       (SelfAttention.cache_k (EncoderBlock.attention l'))
       (SelfAttention.cache_v (EncoderBlock.attention l'))) = l'.

(** The caches of [l] and [l'] agree at every position for which [keep]
    holds. *)
Definition same_cache_where (keep : nat -> Prop) (l l' : EncoderBlock.t) : Prop :=
  forall b j, keep j ->
    get2 (SelfAttention.cache_k (EncoderBlock.attention l')) b j
      = get2 (SelfAttention.cache_k (EncoderBlock.attention l)) b j /\
    get2 (SelfAttention.cache_v (EncoderBlock.attention l')) b j
      = get2 (SelfAttention.cache_v (EncoderBlock.attention l)) b j.

(** The cache [c'] has the rows of [c], changed at position [p] at most. *)
Definition cache_frame (p : nat) (c c' : Tensor4) : Prop :=
  length c' = length c /\
  forall b row, nth_error c b = Some row ->
    exists row', nth_error c' b = Some row' /\ length row' = length row /\
                 forall j, j <> p -> nth_error row' j = nth_error row j.

(** The computation does not end in an assertion error. *)
Definition no_assertion {A} (r : result A) : Prop :=
  forall msg, r <> Raise (AssertionError msg).

(** The first layer [l0'] holds, for batch row [b] and at cache position
    [i + 1], the key block of the token [tok] rotated with row [i + 1] of the
    rotary table, and its value block; [l0] gives the weights of the layer
    and [m] the embedding and rotary tables. *)
Definition stores_token (m : Transformer.t) (l0 l0' : EncoderBlock.t) (b i : nat) (tok : Z)
  : Prop :=
  exists emb frow K V,
    (0 <= tok)%Z /\
    nth_error (Transformer.tok_embeddings m) (Z.to_nat tok) = Some emb /\
    nth_error (Transformer.freqs_complex m) (i + 1) = Some frow /\
    key_block (EncoderBlock.attention l0)
              (RMSNorm.forward_vec (EncoderBlock.attention_norm l0) emb) frow = Ok K /\
    value_block (EncoderBlock.attention l0)
                (RMSNorm.forward_vec (EncoderBlock.attention_norm l0) emb) = Ok V /\
    get2 (SelfAttention.cache_k (EncoderBlock.attention l0')) b (i + 1) = Some K /\
    get2 (SelfAttention.cache_v (EncoderBlock.attention l0')) b (i + 1) = Some V.

(** ** One attention layer fed position by position *)

(** The two halves of [SelfAttention.forward], as the proofs take the call
    apart: the projections of the input with their rotation, and the
    attention of the queries over the keys and values read from the caches.
    Between the two, [SelfAttention.forward] writes the caches. *)
Definition projections (self : SelfAttention.t) (x : Tensor3) (freqs_complex : list (list C))
  : result (Tensor4 * Tensor4 * Tensor4) :=
  nq <- size_of (SelfAttention.n_heads_q self) ;;
  nkv <- size_of (SelfAttention.n_kv_heads self) ;;
  hd <- size_of (SelfAttention.head_dim self) ;;
  xq <- view4 (linear3 (SelfAttention.wq self) x) nq hd ;;
  xk <- view4 (linear3 (SelfAttention.wk self) x) nkv hd ;;
  xv <- view4 (linear3 (SelfAttention.wv self) x) nkv hd ;;
  xq <- rotary_embeddings xq freqs_complex ;;
  xk <- rotary_embeddings xk freqs_complex ;;
  Ok (xq, xk, xv).

Definition attention_output (self : SelfAttention.t) (xq keys values : Tensor4) : result Tensor3 :=
  n_rep <- size_of (SelfAttention.n_rep self) ;;
  let keys := map (@transpose Vec) (repeat_kv keys n_rep) in
  let values := map (@transpose Vec) (repeat_kv values n_rep) in
  qkv <- zip_strict (map (@transpose Vec) xq) (combine keys values) ;;
  output <- mapM (fun p => SelfAttention.attend (SelfAttention.head_dim self)
                             (fst p) (fst (snd p)) (snd (snd p))) qkv ;;
  Ok (linear3 (SelfAttention.wo self)
              (map (fun o => map (@concat R) (transpose o)) output)).

(** The cache after [cache[:B, sp : sp + S] = x] when the slice fits. *)
Definition written (c : Tensor4) (B sp S : nat) (x : Tensor4) : Tensor4 :=
  map (fun p => firstn sp (fst p) ++ snd p ++ skipn (sp + S) (fst p))
      (combine (firstn B c) x) ++ skipn B c.

(** The output of one head for one query vector [q]; [kv] are the keys and
    the values of that head, of shape (Seq_Len_KV, Head_Dim). *)
Definition attend_head (head_dim : Z) (kv : Mat * Mat) (q : Vec) : Vec :=
  map (fun col =>
         dot (softmax (map (fun a => a / sqrt (IZR head_dim))
                           (map (fun k => dot q k) (transpose (transpose (fst kv)))))) col)
      (transpose (snd kv)).

(** One such function per head. *)
Definition heads_of (head_dim : Z) (kv : Tensor3 * Tensor3) : list (Vec -> Vec) :=
  map (attend_head head_dim) (combine (fst kv) (snd kv)).

(** The output of the layer for one position whose rotated queries are
    [row], of shape (H_Q, Head_Dim). *)
Definition attention_row (self : SelfAttention.t) (kv : Tensor3 * Tensor3) (row : Mat) : Vec :=
  linear (SelfAttention.wo self)
         (concat (zip_with (fun (g : Vec -> Vec) q => g q)
                           (heads_of (SelfAttention.head_dim self) kv) row)).

(** The output of the layer for every batch row and position. *)
Definition attention_rows (self : SelfAttention.t) (xq : Tensor4)
           (KV : list (Tensor3 * Tensor3)) : Tensor3 :=
  map (fun p => map (attention_row self (snd p)) (fst p)) (combine xq KV).

(** Keys and values per batch row as [attend] receives them: heads repeated
    and moved in front of the positions. *)
Definition heads_kv (n_rep : nat) (keys values : Tensor4) : list (Tensor3 * Tensor3) :=
  combine (map (@transpose Vec) (repeat_kv keys n_rep))
          (map (@transpose Vec) (repeat_kv values n_rep)).

(** The shapes under which [attend] accepts its operands: [nq] query heads
    at every position, and as many key and value heads. *)
Definition attention_fits (nq : nat) (xq : Tensor4) (KV : list (Tensor3 * Tensor3)) : Prop :=
  length xq = length KV /\
  Forall (fun p => fst p <> [] /\ Forall (fun r => length r = nq) (fst p) /\
                   length (fst (snd p)) = nq /\ length (snd (snd p)) = nq)
         (combine xq KV).

(** [repeat_kv] on the positions of one batch row. *)
Definition repeat_rows (n_rep : nat) (M : Tensor3) : Tensor3 :=
  if n_rep =? 1 then M else map (fun heads => concat (expand_heads n_rep heads)) M.

(** The layer inputs of all positions are [x], of shape (B, Seq_Len, Dim).
    [feed_position] passes the input of position [i] alone, with
    [start_pos = i + shift] and the rotary rows of that start position, as
    [Transformer.forward] calls the layer.  With [shift = 0] the start
    position of a token is its index in the sequence; with [shift = 1] it is
    one more, as in the loop of [LLaMA.text_completion]. *)
Definition feed_position (self : SelfAttention.t) (x : Tensor3) (freqs : list (list C))
           (shift i : nat) : result (Tensor3 * SelfAttention.t) :=
  SelfAttention.forward self (map (slice i (i + 1)) x) (i + shift)
                        (slice (i + shift) (i + shift + 1) freqs).

(** The layer after the first [n] positions. *)
Fixpoint feed_prefix (self : SelfAttention.t) (x : Tensor3) (freqs : list (list C))
         (shift n : nat) : result SelfAttention.t :=
  match n with
  | O => Ok self
  | S n' =>
      self' <- feed_prefix self x freqs shift n' ;;
      '(_, self'') <- feed_position self' x freqs shift n' ;;
      Ok self''
  end.

(** The output for position [p], the earlier positions being in the cache. *)
Definition decoded_output (self : SelfAttention.t) (x : Tensor3) (freqs : list (list C))
           (shift p : nat) : result Tensor3 :=
  self' <- feed_prefix self x freqs shift p ;;
  '(out, _) <- feed_position self' x freqs shift p ;;
  Ok out.

(** ** Definitions for the further properties *)

(** The lookup of one token in [Transformer.embedding], under a name. *)
Definition lookup_token (weight : Mat) (tok : Z) : result Vec :=
  if (tok <? 0)%Z then Raise IndexError
  else match nth_error weight (Z.to_nat tok) with
       | Some v => Ok v
       | None => Raise IndexError
       end.

(** The candidates among the sorted entries [l], the entries before them
    having the sum [acc]; [s] is the sum that the weights are divided by. *)
Definition candidates_from (p s acc : R) (l : list (R * nat)) : list nat :=
  map snd (filter (fun wt : R * nat => if Rlt_dec 0 (fst wt) then true else false)
                  (combine (map (fun a => a / s)
                                (masked_fill (top_p_mask p (cumsum_from acc (map fst l))
                                                         (map fst l))
                                             (map fst l) 0))
                           (map snd l))).

(** The state of the loop with another state of the random generator. *)
Definition with_rng {T : TorchRandom} (rng : Rng T) (st : LLaMA.GenState T)
  : LLaMA.GenState T :=
  LLaMA.mkGen (LLaMA.tokens st) (LLaMA.eos_reached st) (LLaMA.cur_pos st)
              (LLaMA.gen_model st) rng.

(** The computation raises no exception other than [RuntimeError]. *)
Definition only_RuntimeError {A} (r : result A) : Prop :=
  forall e, r = Raise e -> e = RuntimeError.

(** ** Concrete instances used in the examples *)

(** A generator that initialises every parameter with zeros and always draws
    the first sorted position. *)
Definition zero_random : TorchRandom :=
  {| Rng := unit;
     rand_matrix := fun _ o i => (repeat (repeat 0 i) o, tt);
     multinomial := fun _ _ => Ok (0%nat, tt) |}.

(** A configuration with a vocabulary but with [dim % n_heads = 1] and
    [n_heads % n_kv_heads = 1]. *)
Definition indivisible_args : ModelArgs.t :=
  ModelArgs.mk 10 1 3 (Some 2%Z) 8 4 None (1 / 100000) 1 2.

(** The sizes under which no allocation of [Transformer.__init__] can fail. *)
Definition sizes_ok (args : ModelArgs.t) : Prop :=
  (0 <= ModelArgs.vocab_size args)%Z /\
  (0 <= ModelArgs.dim args)%Z /\
  (0 < ModelArgs.n_heads args)%Z /\
  match ModelArgs.n_kv_heads args with Some k => (0 < k)%Z | None => True end /\
  (0 < ModelArgs.multiple_of args)%Z /\
  match ModelArgs.ffn_dim_multiplier args with Some m => (0 <= Qnum m)%Z | None => True end /\
  (0 <= ModelArgs.max_batch_size args)%Z /\
  (0 <= ModelArgs.max_seq_len args)%Z.

(** A model with one layer, one head of dimension 2 and a vocabulary of two
    tokens, as [Transformer.__init__] builds it from [tiny_args] with
    [zero_random]: all weights are zero, so the logits of every token are
    equal and the greedy choice is token 0. *)
Definition tiny_args : ModelArgs.t :=
  ModelArgs.mk 2 1 1 None 2 1 None (1 / 100000) 1 4.

Definition zeros (rows cols : nat) : Mat := repeat (repeat 0 cols) rows.

Definition tiny_attention : SelfAttention.t :=
  SelfAttention.mk 1 1 1 2 (zeros 2 2) (zeros 2 2) (zeros 2 2) (zeros 2 2)
                   [repeat [[0; 0]] 4] [repeat [[0; 0]] 4].

Definition tiny_layer : EncoderBlock.t :=
  EncoderBlock.mk 1 2 2 tiny_attention
                  (FeedForward.mk (zeros 5 2) (zeros 2 5) (zeros 5 2))
                  (RMSNorm.mk (1 / 100000) [1; 1]) (RMSNorm.mk (1 / 100000) [1; 1]).

Definition tiny_table : list (list C) :=
  match theta_pos_freq 2 8 10000 with
  | Ok table => table
  | Raise _ => []
  end.

Definition tiny_model : Transformer.t :=
  Transformer.mk tiny_args 2 1 (zeros 2 2) [tiny_layer]
                 (RMSNorm.mk (1 / 100000) [1; 1]) (zeros 2 2) tiny_table.

Definition no_text (_ : list Z) : string := EmptyString.

(** A tokenizer whose pad id 1 is an ordinary token of the vocabulary. *)
Definition pad_token_llama : LLaMA.t :=
  LLaMA.mk tiny_model (Tokenizer.mk 1 (PyInt 7) no_text) tiny_args.

(** A tokenizer with the interface of [SentencePieceProcessor]: [pad_id()]
    is -1 and [eos_id] is a method (that would return 0). *)
Definition sentencepiece_llama : LLaMA.t :=
  LLaMA.mk tiny_model (Tokenizer.mk (-1) (PyBoundMethod 0) no_text) tiny_args.

(** An attention layer with one head of dimension 2 whose value and output
    projections are the identity and whose query and key projections are
    zero (all scores are equal), with the zero caches of [__init__]. *)
Definition value_identity_attention : SelfAttention.t :=
  SelfAttention.mk 1 1 1 2 (zeros 2 2) (zeros 2 2) [[1; 0]; [0; 1]] [[1; 0]; [0; 1]]
                   [repeat [[0; 0]] 4] [repeat [[0; 0]] 4].

(** A model as [tiny_model] whose embedding table and whose key and value
    projections are the identity: what the first layer stores for a token
    is not zero. *)
Definition key_value_attention : SelfAttention.t :=
  SelfAttention.mk 1 1 1 2 (zeros 2 2) [[1; 0]; [0; 1]] [[1; 0]; [0; 1]] (zeros 2 2)
                   [repeat [[0; 0]] 4] [repeat [[0; 0]] 4].

Definition key_value_layer : EncoderBlock.t :=
  EncoderBlock.mk 1 2 2 key_value_attention
                  (FeedForward.mk (zeros 5 2) (zeros 2 5) (zeros 5 2))
                  (RMSNorm.mk (1 / 100000) [1; 1]) (RMSNorm.mk (1 / 100000) [1; 1]).

Definition key_value_model : Transformer.t :=
  Transformer.mk tiny_args 2 1 [[1; 0]; [0; 1]] [key_value_layer]
                 (RMSNorm.mk (1 / 100000) [1; 1]) (zeros 2 2) tiny_table.

Definition key_value_llama : LLaMA.t :=
  LLaMA.mk key_value_model (Tokenizer.mk (-1) (PyBoundMethod 0) no_text) tiny_args.

(* ================================================================== *)
(** * Properties *)
(* ================================================================== *)

(** ** Generic facts about the error monad and nested lists *)

Lemma bind_Ok_inv {A B} (c : result A) (k : A -> result B) (b : B) :
  bind c k = Ok b -> exists a, c = Ok a /\ k a = Ok b.
Proof.
  destruct c as [a|e]; simpl; intros H; [exists a; auto | discriminate].
Qed.

Lemma mapM_Ok_length {A B} (f : A -> result B) (l : list A) (l' : list B) :
  mapM f l = Ok l' -> length l' = length l.
Proof.
  revert l'; induction l as [|a l IH]; simpl; intros l' H.
  - inversion H; reflexivity.
  - apply bind_Ok_inv in H as (b & Hb & H).
    apply bind_Ok_inv in H as (bs & Hbs & H).
    inversion H; subst; simpl; f_equal; auto.
Qed.

Lemma mapM_Ok_nth {A B} (f : A -> result B) (l : list A) (l' : list B) (i : nat) (a : A) :
  mapM f l = Ok l' -> nth_error l i = Some a ->
  exists b, nth_error l' i = Some b /\ f a = Ok b.
Proof.
  revert l' i; induction l as [|x l IH]; simpl; intros l' i H Hn.
  - destruct i; discriminate.
  - apply bind_Ok_inv in H as (b & Hb & H).
    apply bind_Ok_inv in H as (bs & Hbs & H).
    inversion H; subst; clear H.
    destruct i; simpl in *.
    + inversion Hn; subst; eauto.
    + eauto.
Qed.

Lemma mapM_total {A B} (f : A -> result B) (l : list A) :
  (forall a, In a l -> exists b, f a = Ok b) -> exists l', mapM f l = Ok l'.
Proof.
  induction l as [|a l IH]; simpl; intros H; [eauto|].
  destruct (H a) as (b & Hb); auto.
  destruct IH as (bs & Hbs); auto.
  rewrite Hb, Hbs; simpl; eauto.
Qed.

Lemma broadcast_to_same {A} (n : nat) (l : list A) :
  length l = n -> broadcast_to n l = Ok l.
Proof.
  intros H; unfold broadcast_to. rewrite H, Nat.eqb_refl; reflexivity.
Qed.

(** ** Grouped-query head expansion *)

Lemma nth_error_repeat {A} (a : A) (n i : nat) :
  (i < n)%nat -> nth_error (repeat a n) i = Some a.
Proof.
  revert i; induction n; intros i Hi; [lia|].
  destruct i; simpl; [reflexivity | apply IHn; lia].
Qed.

Lemma expand_heads_nth (n_rep : nat) (heads : Mat) (h : nat) :
  (1 <= n_rep)%nat -> (h < length heads * n_rep)%nat ->
  nth_error (concat (expand_heads n_rep heads)) h = nth_error heads (h / n_rep).
Proof.
  intros Hn; revert h; induction heads as [|v heads IH]; simpl; intros h Hh; [lia|].
  destruct (Nat.lt_ge_cases h n_rep) as [Hlt|Hge].
  - rewrite nth_error_app1 by (rewrite repeat_length; exact Hlt).
    rewrite Nat.div_small by exact Hlt.
    simpl; apply nth_error_repeat; exact Hlt.
  - rewrite nth_error_app2 by (rewrite repeat_length; exact Hge).
    rewrite repeat_length.
    replace h with ((h - n_rep) + 1 * n_rep)%nat at 2 by lia.
    rewrite Nat.div_add by lia.
    rewrite Nat.add_1_r; simpl.
    apply IH; lia.
Qed.

Lemma expand_heads_length (n_rep : nat) (heads : Mat) :
  length (concat (expand_heads n_rep heads)) = (length heads * n_rep)%nat.
Proof.
  induction heads as [|v heads IH]; simpl; [reflexivity|].
  rewrite length_app, repeat_length, IH; reflexivity.
Qed.

Lemma expand_heads_Forall (P : Vec -> Prop) (n_rep : nat) (heads : Mat) :
  Forall P heads -> Forall P (concat (expand_heads n_rep heads)).
Proof.
  induction 1 as [|v heads Hv _ IH]; simpl; [constructor|].
  apply Forall_app; split; [|exact IH].
  apply Forall_forall; intros w Hw; apply repeat_spec in Hw; subst; exact Hv.
Qed.

Lemma repeat_kv_shape (x : Tensor4) (B S H D n_rep : nat) :
  has_shape4 x B S H D -> has_shape4 (repeat_kv x n_rep) B S (H * n_rep) D.
Proof.
  intros [HB Hx]; unfold repeat_kv.
  destruct (Nat.eqb_spec n_rep 1) as [->|_].
  - rewrite Nat.mul_1_r; split; assumption.
  - split; [rewrite length_map; exact HB|].
    apply Forall_map; eapply Forall_impl; [|exact Hx].
    intros xb [HS Hxb]; split; [rewrite length_map; exact HS|].
    apply Forall_map; eapply Forall_impl; [|exact Hxb].
    intros heads [HH Hheads]; split.
    + unfold has_shape1 in *; rewrite expand_heads_length, HH; reflexivity.
    + apply expand_heads_Forall; exact Hheads.
Qed.

Lemma repeat_kv_get3 (x : Tensor4) (n_rep b s h : nat) (heads : Mat) :
  (1 <= n_rep)%nat -> get2 x b s = Some heads -> (h < length heads * n_rep)%nat ->
  get3 (repeat_kv x n_rep) b s h = nth_error heads (h / n_rep).
Proof.
  intros Hn Hget Hh; unfold repeat_kv.
  destruct (Nat.eqb_spec n_rep 1) as [->|_].
  - rewrite Nat.div_1_r. unfold get3, get2 in *.
    destruct (nth_error x b) as [xb|]; [|discriminate].
    rewrite Hget; reflexivity.
  - unfold get3, get2 in *. rewrite nth_error_map.
    destruct (nth_error x b) as [xb|]; [simpl|discriminate].
    rewrite nth_error_map, Hget; simpl.
    apply expand_heads_nth; assumption.
Qed.

(** C9. For a tensor [x] of shape (batch, seq, n_kv_heads, head_dim) and
    [n_rep >= 1], [repeat_kv x n_rep] has shape
    (batch, seq, n_kv_heads * n_rep, head_dim), its head [h] is the original
    head [h / n_rep] for every [h < n_kv_heads * n_rep], and
    [repeat_kv x 1] is [x] itself. *)
Theorem repeat_kv_head_div (x : Tensor4) (B S H D n_rep : nat) :
  has_shape4 x B S H D -> (1 <= n_rep)%nat ->
  has_shape4 (repeat_kv x n_rep) B S (H * n_rep) D /\
  (forall b s h, (b < B)%nat -> (s < S)%nat -> (h < H * n_rep)%nat ->
     exists v, get3 x b s (h / n_rep) = Some v /\
               get3 (repeat_kv x n_rep) b s h = Some v) /\
  repeat_kv x 1 = x.
Proof.
  intros Hx Hn; split; [apply repeat_kv_shape; exact Hx|]; split; [|reflexivity].
  intros b s h Hb Hs Hh.
  destruct Hx as [HB Hx].
  destruct (nth_error x b) as [xb|] eqn:Exb;
    [|apply nth_error_None in Exb; lia].
  pose proof (proj1 (Forall_forall _ _) Hx xb (nth_error_In _ _ Exb)) as [HS Hxb].
  destruct (nth_error xb s) as [heads|] eqn:Eh;
    [|apply nth_error_None in Eh; lia].
  pose proof (proj1 (Forall_forall _ _) Hxb heads (nth_error_In _ _ Eh)) as [HH _].
  unfold has_shape1 in HH.
  assert (Hget : get2 x b s = Some heads) by (unfold get2; rewrite Exb; exact Eh).
  assert (Hdiv : (h / n_rep < length heads)%nat).
  { rewrite HH. apply Nat.Div0.div_lt_upper_bound; lia. }
  destruct (nth_error heads (h / n_rep)) as [v|] eqn:Ev;
    [|apply nth_error_None in Ev; lia].
  exists v; split.
  - unfold get3, get2; rewrite Exb, Eh; exact Ev.
  - rewrite (repeat_kv_get3 x n_rep b s h heads Hn Hget) by (rewrite HH; exact Hh). exact Ev.
Qed.

Lemma repeat_kv_head_div_witness :
  let x : Tensor4 := [[[[1; 2]; [3; 4]]]] in
  get3 (repeat_kv x 2) 0 0 3 = Some [3; 4] /\
  get3 (repeat_kv x 2) 0 0 1 = Some [1; 2].
Proof.
  intros x.
  assert (Hx : has_shape4 x 1 1 2 2).
  { repeat (split; [reflexivity|]); repeat constructor. }
  destruct (repeat_kv_head_div x 1 1 2 2 2 Hx) as (_ & Hh & _); [lia|].
  split.
  - destruct (Hh 0%nat 0%nat 3%nat) as (v & Hv & Hr); try lia.
    rewrite Hr, <- Hv; reflexivity.
  - destruct (Hh 0%nat 0%nat 1%nat) as (v & Hv & Hr); try lia.
    rewrite Hr, <- Hv; reflexivity.
Defined.

(** ** Rotary position encoding *)

Lemma mapM_Forall2 {A B} (f : A -> result B) (P : A -> B -> Prop) (l : list A) :
  (forall a, In a l -> exists b, f a = Ok b /\ P a b) ->
  exists l', mapM f l = Ok l' /\ Forall2 P l l'.
Proof.
  induction l as [|a l IH]; simpl; intros H; [eauto|].
  destruct (H a) as (b & Hb & Pb); auto.
  destruct IH as (bs & Hbs & Pbs); auto.
  rewrite Hb, Hbs; simpl; eauto.
Qed.

Lemma Forall2_combine_fst {A B D} (Q : A -> D -> Prop) (l1 : list A) (l2 : list B) (l' : list D) :
  length l1 = length l2 ->
  Forall2 (fun p d => Q (fst p) d) (combine l1 l2) l' -> Forall2 Q l1 l'.
Proof.
  revert l2 l'; induction l1 as [|a l1 IH]; intros [|b l2] l' Hlen HF;
    simpl in *; try discriminate.
  - inversion HF; constructor.
  - inversion HF; subst; constructor; [assumption|].
    eapply IH; [|eassumption]. congruence.
Qed.

Lemma Forall2_nth_error {A B} (P : A -> B -> Prop) (l : list A) (l' : list B) (i : nat) (a : A) :
  Forall2 P l l' -> nth_error l i = Some a ->
  exists b, nth_error l' i = Some b /\ P a b.
Proof.
  intros HF; revert i; induction HF as [|x y l l' Hxy _ IH]; intros i Hi.
  - destruct i; discriminate.
  - destruct i; simpl in *; [inversion Hi; subst; eauto | eauto].
Qed.

Lemma Cmul_unit_norm (c f : C) :
  is_unit f -> pair_norm (Cmul c f) = pair_norm c.
Proof.
  unfold is_unit, pair_norm, Cmul; destruct c as [a b], f as [u w]; simpl.
  intros Hf; f_equal.
  replace ((a * u - b * w) * (a * u - b * w) + (a * w + b * u) * (a * w + b * u))
    with ((a * a + b * b) * (u * u + w * w)) by ring.
  rewrite Hf; ring.
Qed.

Lemma polar_unit (angle : R) : is_unit (polar 1 angle).
Proof.
  unfold is_unit, polar; simpl.
  pose proof (sin2_cos2 angle) as H; unfold Rsqr in H. lra.
Qed.

Lemma theta_pos_freq_rows (head_dim seq_len : Z) (theta : R) (table : list (list C)) :
  theta_pos_freq head_dim seq_len theta = Ok table ->
  length table = Z.to_nat seq_len /\
  Forall (fun f => length f = Nat.div2 (Z.to_nat head_dim + 1) /\ Forall is_unit f) table.
Proof.
  unfold theta_pos_freq, outer, arange, arange_by2.
  destruct (head_dim <? 0)%Z; [discriminate|].
  destruct (seq_len <? 0)%Z; [discriminate|].
  simpl; intros H; inversion H; subst; clear H; split.
  - rewrite !length_map, length_seq; reflexivity.
  - rewrite !map_map. apply Forall_map, Forall_forall; intros m _; split.
    + rewrite !length_map, length_seq; reflexivity.
    + rewrite !map_map. apply Forall_map, Forall_forall; intros i _.
      apply polar_unit.
Qed.

Lemma theta_pos_freq_total (head_dim seq_len : Z) (theta : R) :
  (0 <= head_dim)%Z -> (0 <= seq_len)%Z ->
  exists table, theta_pos_freq head_dim seq_len theta = Ok table.
Proof.
  intros Hh Hs; unfold theta_pos_freq, arange, arange_by2.
  destruct (Z.ltb_spec head_dim 0); [lia|].
  destruct (Z.ltb_spec seq_len 0); [lia|].
  simpl; eauto.
Qed.

Lemma view_as_complex_even (k : nat) (v : Vec) :
  length v = (2 * k)%nat -> exists cs, view_as_complex v = Ok cs /\ length cs = k.
Proof.
  revert v; induction k as [|k IH]; intros v Hv.
  - destruct v; [simpl; eauto | discriminate].
  - destruct v as [|a [|b v]]; simpl in Hv; try lia.
    destruct (IH v) as (cs & Hcs & Hlen); [lia|].
    simpl; rewrite Hcs; simpl; eexists; split; [reflexivity|simpl; lia].
Qed.

Lemma view_as_complex_real (cs : list C) :
  view_as_complex (view_as_real cs) = Ok cs.
Proof.
  induction cs as [|[a b] cs IH]; simpl; [reflexivity|].
  rewrite IH; reflexivity.
Qed.

Lemma view_as_real_length (cs : list C) :
  length (view_as_real cs) = (2 * length cs)%nat.
Proof.
  induction cs as [|c cs IH]; simpl; [reflexivity | rewrite IH; lia].
Qed.

Lemma zip_with_Cmul_norms (cs f : list C) :
  length f = length cs -> Forall is_unit f ->
  length (zip_with Cmul cs f) = length cs /\
  map pair_norm (zip_with Cmul cs f) = map pair_norm cs.
Proof.
  unfold zip_with.
  revert f; induction cs as [|c cs IH]; intros [|u f] Hlen Hf; simpl in *;
    try discriminate; [split; reflexivity|].
  inversion Hf; subst.
  destruct (IH f) as [Hl Hn]; [lia | assumption |].
  split; [lia|]. rewrite Cmul_unit_norm by assumption. f_equal; exact Hn.
Qed.

Lemma rotary_vec_norms (k : nat) (f : list C) (v : Vec) :
  length v = (2 * k)%nat -> length f = k -> Forall is_unit f ->
  exists v', rotary_vec f v = Ok v' /\ same_pair_norms v v'.
Proof.
  intros Hv Hf Hu; unfold rotary_vec, same_pair_norms, pair_norms.
  destruct (view_as_complex_even k v Hv) as (cs & Hcs & Hlen).
  rewrite Hcs; simpl.
  rewrite broadcast_to_same by congruence; simpl.
  destruct (zip_with_Cmul_norms cs f) as [Hl Hn]; [congruence | assumption |].
  eexists; split; [reflexivity|]; split.
  - rewrite view_as_real_length, Hl; lia.
  - rewrite view_as_complex_real; simpl. rewrite Hn; reflexivity.
Qed.

Lemma rotary_embeddings_norms (k : nat) (x : Tensor4) (freqs : list (list C)) (B S H : nat) :
  has_shape4 x B S H (2 * k) -> length freqs = S ->
  Forall (fun f => length f = k /\ Forall is_unit f) freqs ->
  exists out, rotary_embeddings x freqs = Ok out /\
              Forall2 (Forall2 (Forall2 same_pair_norms)) x out.
Proof.
  intros [HB Hx] HS Hfreqs; unfold rotary_embeddings.
  apply mapM_Forall2; intros xb Hxb.
  pose proof (proj1 (Forall_forall _ _) Hx xb Hxb) as [HSb Hrows].
  rewrite broadcast_to_same by congruence; simpl.
  destruct (mapM_Forall2
              (fun p : list (list R) * list C => mapM (rotary_vec (snd p)) (fst p))
              (fun p out_s => Forall2 same_pair_norms (fst p) out_s)
              (combine xb freqs)) as (out_b & Hout & HF).
  { intros [heads f] Hp; simpl.
    pose proof (in_combine_l _ _ _ _ Hp) as Hheads.
    pose proof (in_combine_r _ _ _ _ Hp) as Hf.
    pose proof (proj1 (Forall_forall _ _) Hrows heads Hheads) as [_ Hvs].
    pose proof (proj1 (Forall_forall _ _) Hfreqs f Hf) as [Hlf Huf].
    apply mapM_Forall2; intros v Hv.
    apply (rotary_vec_norms k); auto.
    exact (proj1 (Forall_forall _ _) Hvs v Hv). }
  exists out_b; split; [exact Hout|].
  eapply Forall2_combine_fst; [|exact HF]. congruence.
Qed.

Lemma slice_length {A} (start stop : nat) (l : list A) :
  (stop <= length l)%nat -> length (slice start stop l) = (stop - start)%nat.
Proof.
  intros H; unfold slice. rewrite length_firstn, length_skipn; lia.
Qed.

Lemma Forall_firstn' {A} (P : A -> Prop) (n : nat) (l : list A) :
  Forall P l -> Forall P (firstn n l).
Proof.
  intros H; rewrite <- (firstn_skipn n l) in H.
  apply Forall_app in H; tauto.
Qed.

Lemma Forall_skipn' {A} (P : A -> Prop) (n : nat) (l : list A) :
  Forall P l -> Forall P (skipn n l).
Proof.
  intros H; rewrite <- (firstn_skipn n l) in H.
  apply Forall_app in H; tauto.
Qed.

Lemma slice_Forall {A} (P : A -> Prop) (start stop : nat) (l : list A) :
  Forall P l -> Forall P (slice start stop l).
Proof.
  intros H; unfold slice. apply Forall_firstn', Forall_skipn'; exact H.
Qed.

(** C10. The table built by [theta_pos_freq] for an even [head_dim] exists,
    and applying [rotary_embeddings] with its rows
    [start_pos : start_pos + seq_len] to a tensor of shape
    (B, seq_len, H, head_dim) that holds a head vector (B, seq_len and H are
    at least 1) succeeds and leaves the L2 norm of every consecutive pair of
    components of every head vector unchanged (over the reals), whatever the
    positions are. *)
Theorem rotary_embeddings_preserves_pair_norms
    (k max_len : nat) (theta : R) (x : Tensor4) (B S H start_pos : nat) :
  has_shape4 x B S H (2 * k) -> (1 <= B)%nat -> (1 <= S)%nat -> (1 <= H)%nat ->
  (start_pos + S <= max_len)%nat ->
  exists table out,
    theta_pos_freq (Z.of_nat (2 * k)) (Z.of_nat max_len) theta = Ok table /\
    rotary_embeddings x (slice start_pos (start_pos + S) table) = Ok out /\
    forall b s h v, get3 x b s h = Some v ->
      exists v', get3 out b s h = Some v' /\
                 length v' = length v /\ pair_norms v' = pair_norms v.
Proof.
  intros Hx _ _ _ Hpos.
  destruct (theta_pos_freq_total (Z.of_nat (2 * k)) (Z.of_nat max_len) theta)
    as (table & Htable); [lia | lia |].
  destruct (theta_pos_freq_rows _ _ _ _ Htable) as [Hlen Hrows].
  rewrite !Nat2Z.id in *.
  assert (Hdiv : Nat.div2 (2 * k + 1) = k).
  { rewrite Nat.add_1_r. apply Nat.div2_succ_double. }
  rewrite Hdiv in Hrows.
  destruct (rotary_embeddings_norms k x (slice start_pos (start_pos + S) table) B S H Hx)
    as (out & Hout & HF).
  - rewrite slice_length by lia; lia.
  - apply slice_Forall; exact Hrows.
  - exists table, out; split; [exact Htable|]; split; [exact Hout|].
    intros b s h v Hget; unfold get3, get2 in *.
    destruct (nth_error x b) as [xb|] eqn:Eb; [|discriminate].
    destruct (Forall2_nth_error _ _ _ b _ HF Eb) as (ob & Eob & HFb); rewrite Eob.
    destruct (nth_error xb s) as [xs|] eqn:Es; [|discriminate].
    destruct (Forall2_nth_error _ _ _ s _ HFb Es) as (os & Eos & HFs); rewrite Eos.
    destruct (Forall2_nth_error _ _ _ h _ HFs Hget) as (v' & Ev' & Hlv & Hnv).
    exists v'; auto.
Qed.

Lemma rotary_embeddings_preserves_pair_norms_witness :
  exists table out,
    theta_pos_freq 2 8 10000 = Ok table /\
    rotary_embeddings [[[[3; 4]]]] (slice 5 6 table) = Ok out /\
    exists v', get3 out 0 0 0 = Some v' /\ pair_norms v' = pair_norms [3; 4].
Proof.
  assert (Hx : has_shape4 [[[[3; 4]]]] 1 1 1 (2 * 1)).
  { repeat (split; [reflexivity|]); repeat constructor. }
  assert (Hpos : (5 + 1 <= 8)%nat) by lia.
  assert (H1 : (1 <= 1)%nat) by lia.
  destruct (rotary_embeddings_preserves_pair_norms 1 8 10000 _ 1 1 1 5 Hx H1 H1 H1 Hpos)
    as (table & out & Htable & Hout & Hn).
  exists table, out; split; [exact Htable|]; split; [exact Hout|].
  destruct (Hn 0%nat 0%nat 0%nat [3; 4] eq_refl) as (v' & Hv' & _ & Hp).
  exists v'; split; assumption.
Defined.

(** ** Nucleus sampling *)

Local Abbreviation desc := (StronglySorted (fun a b : R * nat => fst b <= fst a)).

Lemma insert_desc_perm (a : R * nat) (l : list (R * nat)) :
  Permutation (insert_desc a l) (a :: l).
Proof.
  induction l as [|q l IH]; simpl; [reflexivity|].
  destruct (Rle_dec (fst q) (fst a)); [reflexivity|].
  rewrite IH; apply perm_swap.
Qed.

Lemma insert_desc_sorted (a : R * nat) (l : list (R * nat)) :
  desc l -> desc (insert_desc a l).
Proof.
  induction 1 as [|q l Hl IH Hq]; simpl; [repeat constructor|].
  destruct (Rle_dec (fst q) (fst a)) as [Hle|Hgt].
  - constructor; [constructor; assumption|].
    constructor; [exact Hle|].
    eapply Forall_impl; [|exact Hq]. simpl; intros b Hb; lra.
  - constructor; [exact IH|].
    eapply Permutation_Forall; [symmetry; apply insert_desc_perm|].
    constructor; [lra | exact Hq].
Qed.

Lemma sort_desc_perm (v : Vec) :
  Permutation (sort_desc v) (combine v (seq 0 (length v))).
Proof.
  unfold sort_desc. induction (combine v (seq 0 (length v))) as [|a l IH]; simpl.
  - reflexivity.
  - rewrite insert_desc_perm, IH; reflexivity.
Qed.

Lemma sort_desc_sorted (v : Vec) : desc (sort_desc v).
Proof.
  unfold sort_desc. induction (combine v (seq 0 (length v))) as [|a l IH]; simpl.
  - constructor.
  - apply insert_desc_sorted; exact IH.
Qed.

Lemma map_fst_combine_seq (v : Vec) (s : nat) :
  map fst (combine v (seq s (length v))) = v.
Proof.
  revert s; induction v as [|a v IH]; intros s; simpl; [reflexivity|].
  rewrite IH; reflexivity.
Qed.

Lemma In_combine_seq (v : Vec) (s i : nat) (a : R) :
  In (a, i) (combine v (seq s (length v))) ->
  (s <= i)%nat /\ nth_error v (i - s) = Some a.
Proof.
  revert s; induction v as [|x v IH]; intros s; simpl; [tauto|].
  intros [H|H].
  - inversion H; subst. rewrite Nat.sub_diag; split; [lia | reflexivity].
  - apply IH in H as [Hs Hn]. split; [lia|].
    replace (i - s)%nat with (S (i - S s)) by lia. exact Hn.
Qed.

Lemma sum_list_perm (l l' : Vec) : Permutation l l' -> sum_list l = sum_list l'.
Proof.
  induction 1; simpl; try lra.
Qed.

Lemma sum_list_nonneg (l : Vec) : Forall (fun x => 0 <= x) l -> 0 <= sum_list l.
Proof.
  induction 1; simpl; lra.
Qed.

Lemma sum_list_repeat0 (n : nat) : sum_list (repeat 0 n) = 0.
Proof.
  induction n; simpl; lra.
Qed.

(** The state of one row after the sort: the largest probability first. *)
Lemma sort_desc_head (probs : Vec) :
  Forall (fun x => 0 <= x) probs -> sum_list probs = 1 ->
  exists w top rest,
    sort_desc probs = (w, top) :: rest /\
    nth_error probs top = Some w /\ 0 < w /\
    (forall x, In x probs -> x <= w) /\
    Forall (fun x => 0 <= x) (map fst rest).
Proof.
  intros Hpos Hsum.
  pose proof (sort_desc_perm probs) as Hperm.
  pose proof (sort_desc_sorted probs) as Hsorted.
  assert (Hvals : Permutation (map fst (sort_desc probs)) probs).
  { rewrite <- (map_fst_combine_seq probs 0) at 2. apply Permutation_map; exact Hperm. }
  destruct (sort_desc probs) as [|[w top] rest] eqn:Es.
  - apply Permutation_nil in Hvals; subst probs; simpl in Hsum; lra.
  - assert (Hall : Forall (fun x => 0 <= x) (w :: map fst rest)).
    { eapply Permutation_Forall; [symmetry; exact Hvals | exact Hpos]. }
    inversion Hall as [|? ? Hw Hrest]; subst.
    inversion Hsorted as [|? ? _ Hmax]; subst.
    assert (Hle : Forall (fun x => x <= w) (map fst rest)).
    { apply Forall_map; exact Hmax. }
    assert (Hin : In (w, top) (combine probs (seq 0 (length probs)))).
    { eapply Permutation_in; [exact Hperm | left; reflexivity]. }
    apply In_combine_seq in Hin as [_ Hnth]; rewrite Nat.sub_0_r in Hnth.
    exists w, top, rest; repeat split; auto.
    + destruct (Rlt_dec 0 w) as [|Hn]; [assumption|exfalso].
      assert (Hs : sum_list (w :: map fst rest) = 1).
      { rewrite <- Hsum; apply sum_list_perm; exact Hvals. }
      assert (Hz : sum_list (map fst rest) <= 0).
      { clear - Hle Hn. induction Hle; simpl; lra. }
      simpl in Hs; lra.
    + intros x Hx.
      assert (Hx' : In x (w :: map fst rest)).
      { eapply Permutation_in; [symmetry; exact Hvals | exact Hx]. }
      destruct Hx' as [->|Hx']; [lra|].
      exact (proj1 (Forall_forall _ _) Hle x Hx').
Qed.

Lemma masked_tail_nonneg (p acc : R) (l : Vec) :
  Forall (fun x => 0 <= x) l ->
  Forall (fun x => 0 <= x) (masked_fill (top_p_mask p (cumsum_from acc l) l) l 0) /\
  length (masked_fill (top_p_mask p (cumsum_from acc l) l) l 0) = length l.
Proof.
  unfold masked_fill, top_p_mask, zip_with.
  intros H; revert acc; induction H as [|a l Ha Hl IH]; intros acc; simpl.
  - split; [constructor | reflexivity].
  - destruct (IH (acc + a)) as [IH1 IH2]. split.
    + constructor; [|exact IH1]. destruct (Rgt_dec (acc + a - a) p); lra.
    + f_equal; exact IH2.
Qed.

Lemma masked_tail_all (p acc : R) (l : Vec) :
  p < acc -> Forall (fun x => 0 <= x) l ->
  masked_fill (top_p_mask p (cumsum_from acc l) l) l 0 = repeat 0 (length l).
Proof.
  unfold masked_fill, top_p_mask, zip_with.
  intros Hp H; revert acc Hp; induction H as [|a l Ha Hl IH]; intros acc Hp; simpl.
  - reflexivity.
  - rewrite IH by lra.
    destruct (Rgt_dec (acc + a - a) p); [reflexivity | lra].
Qed.

Lemma masked_head (p w : R) (rest : Vec) :
  0 <= p ->
  masked_fill (top_p_mask p (cumsum (w :: rest)) (w :: rest)) (w :: rest) 0 =
  w :: masked_fill (top_p_mask p (cumsum_from (0 + w) rest) rest) rest 0.
Proof.
  intros Hp. unfold masked_fill, top_p_mask, zip_with, cumsum; simpl.
  destruct (Rgt_dec (0 + w - w) p); [lra | reflexivity].
Qed.

Lemma filter_zero_weights (total : R) (n : nat) (idx : list nat) :
  filter (fun wt : R * nat => if Rlt_dec 0 (fst wt) then true else false)
         (combine (map (fun a => a / total) (repeat 0 n)) idx) = [].
Proof.
  revert idx; induction n as [|n IH]; intros idx; simpl; [reflexivity|].
  destruct idx as [|i idx]; simpl; [reflexivity|].
  destruct (Rlt_dec 0 (0 / total)) as [H|_]; [|apply IH].
  unfold Rdiv in H; rewrite Rmult_0_l in H; lra.
Qed.

(** C7. For every probability distribution [probs] over the vocabulary
    (non-negative entries that sum to 1) there is a highest-probability token
    [top] such that, for every threshold [p > 0], [top] is among the tokens
    that [_sample_top_p] can draw (the candidate set is never empty), and for
    every [p > 0] below the highest probability the candidate set is exactly
    [[top]]. *)
Theorem sample_top_p_keeps_top1 (probs : Vec) :
  Forall (fun x => 0 <= x) probs -> sum_list probs = 1 ->
  exists top w,
    nth_error probs top = Some w /\ 0 < w /\
    (forall x, In x probs -> x <= w) /\
    (forall p, 0 < p -> In top (top_p_candidates probs p)) /\
    (forall p, 0 < p -> p < w -> top_p_candidates probs p = [top]).
Proof.
  intros Hpos Hsum.
  destruct (sort_desc_head probs Hpos Hsum) as (w & top & rest & Es & Hnth & Hw & Hmax & Hrest).
  exists top, w; repeat split; auto.
  - intros p Hp. unfold top_p_candidates, top_p_distribution.
    rewrite Es.
    change (map fst ((w, top) :: rest)) with (w :: map fst rest).
    rewrite masked_head by lra.
    destruct (masked_tail_nonneg p (0 + w) (map fst rest) Hrest) as [Hnn _].
    set (tail := masked_fill _ _ _) in *.
    pose proof (sum_list_nonneg tail Hnn) as Hs.
    simpl. destruct (Rlt_dec 0 (w / (w + sum_list tail))) as [_|Hn].
    + left; reflexivity.
    + exfalso; apply Hn. apply Rdiv_lt_0_compat; lra.
  - intros p Hp Hpw. unfold top_p_candidates, top_p_distribution.
    rewrite Es.
    change (map fst ((w, top) :: rest)) with (w :: map fst rest).
    rewrite masked_head by lra.
    rewrite masked_tail_all by (assumption || lra).
    simpl. rewrite sum_list_repeat0, filter_zero_weights.
    destruct (Rlt_dec 0 (w / (w + 0))) as [_|Hn]; [reflexivity|].
    exfalso; apply Hn. apply Rdiv_lt_0_compat; lra.
Qed.

Lemma sample_top_p_keeps_top1_witness :
  exists top w,
    nth_error [/ 4; 3 / 4] top = Some w /\
    (forall p, 0 < p -> In top (top_p_candidates [/ 4; 3 / 4] p)) /\
    (forall p, 0 < p -> p < w -> top_p_candidates [/ 4; 3 / 4] p = [top]).
Proof.
  assert (Hpos : Forall (fun x => 0 <= x) [/ 4; 3 / 4]).
  { repeat constructor; lra. }
  assert (Hsum : sum_list [/ 4; 3 / 4] = 1) by (simpl; lra).
  destruct (sample_top_p_keeps_top1 [/ 4; 3 / 4] Hpos Hsum)
    as (top & w & Hn & _ & _ & Hin & Hone).
  exists top, w; auto.
Defined.

(** ** Model construction *)

Lemma size_of_ok (n : Z) : (0 <= n)%Z -> size_of n = Ok (Z.to_nat n).
Proof.
  intros H; unfold size_of. destruct (Z.ltb_spec n 0); [lia | reflexivity].
Qed.

Lemma py_floordiv_ok (a b : Z) : b <> 0%Z -> py_floordiv a b = Ok (a / b)%Z.
Proof.
  intros H; unfold py_floordiv. destruct (Z.eqb_spec b 0); [contradiction | reflexivity].
Qed.

Lemma nn_Linear_ok (T : TorchRandom) (rng : Rng T) (i o : Z) :
  (0 <= i)%Z -> (0 <= o)%Z -> exists w rng', nn_Linear T rng i o = Ok (w, rng').
Proof.
  intros Hi Ho; unfold nn_Linear. rewrite !size_of_ok by assumption; simpl.
  destruct (rand_matrix T rng (Z.to_nat o) (Z.to_nat i)) as [w rng']; eauto.
Qed.

Lemma nn_Embedding_ok (T : TorchRandom) (rng : Rng T) (n d : Z) :
  (0 <= n)%Z -> (0 <= d)%Z -> exists w rng', nn_Embedding T rng n d = Ok (w, rng').
Proof.
  intros Hn Hd; unfold nn_Embedding. rewrite !size_of_ok by assumption; simpl.
  destruct (rand_matrix T rng (Z.to_nat n) (Z.to_nat d)) as [w rng']; eauto.
Qed.

Lemma torch_zeros4_ok (a b c d : Z) :
  (0 <= a)%Z -> (0 <= b)%Z -> (0 <= c)%Z -> (0 <= d)%Z ->
  exists z, torch_zeros4 a b c d = Ok z.
Proof.
  intros; unfold torch_zeros4. rewrite !size_of_ok by assumption; simpl; eauto.
Qed.

Lemma RMSNorm_init_ok (dim : Z) (eps : R) :
  (0 <= dim)%Z -> exists n, RMSNorm.__init__ dim eps = Ok n.
Proof.
  intros; unfold RMSNorm.__init__, torch_ones. rewrite size_of_ok by assumption; simpl; eauto.
Qed.

Lemma head_dim_nonneg (args : ModelArgs.t) :
  sizes_ok args -> (0 <= ModelArgs.dim args / ModelArgs.n_heads args)%Z.
Proof.
  intros (_ & Hd & Hh & _). apply Z.div_pos; lia.
Qed.

Ltac nonneg := solve [lia | apply Z.mul_nonneg_nonneg; lia].

(** One allocation step of a constructor: the next call in the goal is
    replaced by its successful result. *)
Ltac alloc_step :=
  match goal with
  | |- context [nn_Linear ?T ?r ?i ?o] =>
      destruct (nn_Linear_ok T r i o) as (? & ? & ->); [nonneg .. | cbn [bind]]
  | |- context [nn_Embedding ?T ?r ?n ?d] =>
      destruct (nn_Embedding_ok T r n d) as (? & ? & ->); [nonneg .. | cbn [bind]]
  | |- context [torch_zeros4 ?a ?b ?c ?d] =>
      destruct (torch_zeros4_ok a b c d) as (? & ->); [nonneg .. | cbn [bind]]
  | |- context [RMSNorm.__init__ ?d ?e] =>
      destruct (RMSNorm_init_ok d e) as (? & ->); [nonneg .. | cbn [bind]]
  | |- context [theta_pos_freq ?h ?n ?t] =>
      destruct (theta_pos_freq_total h n t) as (? & ->); [nonneg .. | cbn [bind]]
  end.

Lemma SelfAttention_init_ok (T : TorchRandom) (rng : Rng T) (args : ModelArgs.t) :
  sizes_ok args -> exists a rng', SelfAttention.__init__ T rng args = Ok (a, rng').
Proof.
  intros Hok. pose proof (head_dim_nonneg args Hok) as Hhd.
  destruct Hok as (Hv & Hd & Hh & Hkv & Hm & Hf & Hb & Hs).
  unfold SelfAttention.__init__.
  set (kv := match ModelArgs.n_kv_heads args with
             | Some k => k | None => ModelArgs.n_heads args end).
  assert (Hkv' : (0 < kv)%Z).
  { unfold kv; destruct (ModelArgs.n_kv_heads args); assumption. }
  rewrite !py_floordiv_ok by lia; cbn [bind].
  clearbody kv. repeat alloc_step. eauto.
Qed.

Lemma py_int_Q_nonneg (m : Q) (h : Z) :
  (0 <= Qnum m)%Z -> (0 <= h)%Z -> (0 <= py_int_Q (Qmult m (inject_Z h)))%Z.
Proof.
  intros Hm Hh; unfold py_int_Q; destruct m as [n d]; simpl in *.
  apply Z.quot_pos; [|lia]. apply Z.mul_nonneg_nonneg; lia.
Qed.

Lemma hidden_dim_ok (args : ModelArgs.t) :
  sizes_ok args -> exists h, FeedForward.hidden_dim_of args = Ok h /\ (0 <= h)%Z.
Proof.
  intros (Hv & Hd & Hh & Hkv & Hm & Hf & Hb & Hs).
  unfold FeedForward.hidden_dim_of.
  set (h0 := py_int_div (2 * (4 * ModelArgs.dim args)) 3).
  assert (H0 : (0 <= h0)%Z) by (unfold h0, py_int_div; apply Z.quot_pos; lia).
  set (h1 := match ModelArgs.ffn_dim_multiplier args with
             | Some m => py_int_Q (Qmult m (inject_Z h0)) | None => h0 end).
  assert (H1 : (0 <= h1)%Z).
  { unfold h1; destruct (ModelArgs.ffn_dim_multiplier args) as [m|]; [|exact H0].
    apply py_int_Q_nonneg; assumption. }
  rewrite py_floordiv_ok by lia; cbn [bind].
  eexists; split; [reflexivity|].
  apply Z.mul_nonneg_nonneg; [lia|]. apply Z.div_pos; lia.
Qed.

Lemma FeedForward_init_ok (T : TorchRandom) (rng : Rng T) (args : ModelArgs.t) :
  sizes_ok args -> exists f rng', FeedForward.__init__ T rng args = Ok (f, rng').
Proof.
  intros Hok. destruct (hidden_dim_ok args Hok) as (h & Eh & Hh).
  destruct Hok as (Hv & Hd & _).
  unfold FeedForward.__init__. rewrite Eh; cbn [bind].
  repeat alloc_step. eauto.
Qed.

Lemma EncoderBlock_init_ok (T : TorchRandom) (rng : Rng T) (args : ModelArgs.t) :
  sizes_ok args -> exists l rng', EncoderBlock.__init__ T rng args = Ok (l, rng').
Proof.
  intros Hok. unfold EncoderBlock.__init__.
  assert (Hd : (0 <= ModelArgs.dim args)%Z) by (destruct Hok as (_ & Hd & _); exact Hd).
  rewrite py_floordiv_ok by (destruct Hok as (_ & _ & Hh & _); lia); cbn [bind].
  destruct (SelfAttention_init_ok T rng args Hok) as (a & r1 & ->); cbn [bind].
  destruct (FeedForward_init_ok T r1 args Hok) as (f & r2 & ->); cbn [bind].
  repeat alloc_step. eauto.
Qed.

Lemma make_layers_ok (T : TorchRandom) (args : ModelArgs.t) (n : nat) (rng : Rng T) :
  sizes_ok args -> exists ls rng', Transformer.make_layers T rng args n = Ok (ls, rng').
Proof.
  intros Hok; revert rng; induction n as [|n IH]; intros rng; simpl; [eauto|].
  destruct (EncoderBlock_init_ok T rng args Hok) as (l & r1 & ->); cbn [bind].
  destruct (IH r1) as (ls & r2 & ->); cbn [bind].
  eauto.
Qed.

Lemma Transformer_init_ok (T : TorchRandom) (rng : Rng T) (args : ModelArgs.t) :
  sizes_ok args -> exists m rng', Transformer.__init__ T rng args = Ok (m, rng').
Proof.
  intros Hok. pose proof (head_dim_nonneg args Hok) as Hhd.
  pose proof Hok as (Hv & Hd & Hh & Hkv & Hm & Hf & Hb & Hs).
  unfold Transformer.__init__.
  destruct (Z.eqb_spec (ModelArgs.vocab_size args) (-1)) as [E|_]; [lia|].
  cbn [negb py_assert bind].
  alloc_step.
  match goal with
  | |- context [Transformer.make_layers ?T ?r ?a ?n] =>
      destruct (make_layers_ok T a n r Hok) as (ls & r2 & ->); cbn [bind]
  end.
  repeat alloc_step.
  rewrite py_floordiv_ok by lia; cbn [bind].
  repeat alloc_step. eauto.
Qed.

Lemma indivisible_args_sizes_ok : sizes_ok indivisible_args.
Proof.
  unfold sizes_ok, indivisible_args; simpl; repeat split; lia.
Qed.

(** C4, as stated, fails: a configuration with [dim % n_heads <> 0] and
    [n_heads % n_kv_heads <> 0] is constructed without error. *)
Lemma construction_accepts_indivisible_heads :
  (ModelArgs.dim indivisible_args mod ModelArgs.n_heads indivisible_args <> 0)%Z /\
  (ModelArgs.n_heads indivisible_args mod 2 <> 0)%Z /\
  ModelArgs.n_kv_heads indivisible_args = Some 2%Z /\
  exists m rng', Transformer.__init__ zero_random tt indivisible_args = Ok (m, rng').
Proof.
  split; [simpl; discriminate|]. split; [simpl; discriminate|]. split; [reflexivity|].
  apply Transformer_init_ok, indivisible_args_sizes_ok.
Qed.

(** C4, amended. Construction fails with the assertion error for every
    configuration whose vocabulary size is unset ([-1]); the divisibility of
    [dim] by [n_heads] and of [n_heads] by [n_kv_heads] is not checked, and
    construction succeeds for every configuration with a set vocabulary,
    positive head counts and granularity and non-negative sizes
    ([sizes_ok]), divisible or not. *)
Theorem construction_checks_vocab_only (T : TorchRandom) (rng : Rng T) (args : ModelArgs.t) :
  (ModelArgs.vocab_size args = (-1)%Z ->
   Transformer.__init__ T rng args = Raise (AssertionError "Vocab size must be set")) /\
  (sizes_ok args ->
   exists m rng', Transformer.__init__ T rng args = Ok (m, rng')).
Proof.
  split.
  - intros Hv; unfold Transformer.__init__. rewrite Hv; reflexivity.
  - apply Transformer_init_ok.
Qed.

Lemma construction_checks_vocab_only_witness :
  Transformer.__init__ zero_random tt ModelArgs.default
    = Raise (AssertionError "Vocab size must be set") /\
  exists m rng', Transformer.__init__ zero_random tt indivisible_args = Ok (m, rng').
Proof.
  split.
  - apply (proj1 (construction_checks_vocab_only zero_random tt ModelArgs.default)).
    reflexivity.
  - apply (proj2 (construction_checks_vocab_only zero_random tt indivisible_args)).
    unfold sizes_ok, indivisible_args; simpl; repeat split; lia.
Defined.

(** ** The tiny model *)

Ltac rcbv :=
  cbv -[Rplus Rminus Rmult Rdiv Rinv Ropp sqrt exp cos sin Rpower IZR INR
        Rlt_dec Rle_dec Rgt_dec].

Lemma tiny_model_constructed :
  Transformer.__init__ zero_random tt tiny_args = Ok (tiny_model, tt).
Proof.
  rcbv. reflexivity.
Qed.

Lemma dot_zero_weights (x w : Vec) : Forall (fun a => a = 0) w -> dot x w = 0.
Proof.
  unfold dot, zip_with. intros Hw; revert x; induction Hw as [|a w Ha _ IH]; intros [|b x];
    simpl; try reflexivity.
  rewrite IH, Ha; ring.
Qed.

Lemma linear3_zero_weights (W : Mat) (x : Tensor3) :
  Forall (Forall (fun a => a = 0)) W ->
  linear3 W x = map (map (fun _ => repeat 0 (length W))) x.
Proof.
  intros HW. unfold linear3. apply map_ext; intros xb. apply map_ext; intros v.
  unfold linear. induction HW as [|w W Hw _ IH]; simpl; [reflexivity|].
  rewrite dot_zero_weights by exact Hw. rewrite IH; reflexivity.
Qed.

(** Evaluation of a model whose weight matrices are zero: the structure is
    computed, every linear layer is replaced by its (zero) result before its
    argument is expanded, and the comparisons of reals are decided. *)
Ltac rcbv_lin :=
  cbv -[Rplus Rminus Rmult Rdiv Rinv Ropp sqrt exp cos sin Rpower IZR INR
        Rlt_dec Rle_dec Rgt_dec linear3].

Ltac decide_Rlt :=
  repeat match goal with
         | |- context [Rlt_dec ?a ?b] =>
             destruct (Rlt_dec a b); [exfalso; lra|]
         end.

Ltac eval_zero_weights :=
  repeat (progress (rcbv_lin;
                    rewrite ?linear3_zero_weights by (repeat constructor);
                    decide_Rlt)).

(** ** Lists: positions, zips and slices *)

Lemma nth_error_combine {A B} (l1 : list A) (l2 : list B) (i : nat) :
  nth_error (combine l1 l2) i =
  match nth_error l1 i, nth_error l2 i with
  | Some a, Some b => Some (a, b)
  | _, _ => None
  end.
Proof.
  revert l2 i; induction l1 as [|a l1 IH]; intros [|b l2] [|i]; simpl; try reflexivity.
  - destruct (nth_error l1 i); reflexivity.
  - apply IH.
Qed.

Lemma nth_error_zip_with {A B D} (f : A -> B -> D) (l1 : list A) (l2 : list B) (i : nat) :
  nth_error (zip_with f l1 l2) i =
  match nth_error l1 i, nth_error l2 i with
  | Some a, Some b => Some (f a b)
  | _, _ => None
  end.
Proof.
  unfold zip_with. rewrite nth_error_map, nth_error_combine.
  destruct (nth_error l1 i), (nth_error l2 i); reflexivity.
Qed.

Lemma length_zip_with {A B D} (f : A -> B -> D) (l1 : list A) (l2 : list B) :
  length (zip_with f l1 l2) = Nat.min (length l1) (length l2).
Proof.
  unfold zip_with. rewrite length_map, length_combine; reflexivity.
Qed.

Lemma nth_nth_error {A} (l : list A) (i : nat) (d a : A) :
  nth_error l i = Some a -> nth i l d = a.
Proof.
  revert i; induction l as [|x l IH]; intros [|i] H; simpl in *; try discriminate.
  - inversion H; reflexivity.
  - apply IH; exact H.
Qed.

Lemma nth_error_set_nth_same {A} (i : nat) (v : A) (row : list A) :
  (i < length row)%nat -> nth_error (set_nth i v row) i = Some v.
Proof.
  intros Hi; unfold set_nth.
  rewrite nth_error_app2 by (rewrite length_firstn; lia).
  rewrite length_firstn, Nat.min_l by lia. rewrite Nat.sub_diag; reflexivity.
Qed.

Lemma nth_error_set_nth_other {A} (i j : nat) (v : A) (row : list A) :
  j <> i -> (j < length row)%nat -> nth_error (set_nth i v row) j = nth_error row j.
Proof.
  intros Hji Hj; unfold set_nth.
  destruct (Nat.lt_ge_cases j i) as [Hlt|Hge].
  - rewrite nth_error_app1 by (rewrite length_firstn; lia).
    rewrite nth_error_firstn. destruct (Nat.ltb_spec j i); [reflexivity | lia].
  - rewrite nth_error_app2 by (rewrite length_firstn; lia).
    rewrite length_firstn, Nat.min_l by lia.
    replace (j - i)%nat with (S (j - S i)) by lia.
    change (nth_error (v :: skipn (S i) row) (S (j - S i)))
      with (nth_error (skipn (S i) row) (j - S i)).
    rewrite nth_error_skipn. f_equal; lia.
Qed.

Lemma length_set_nth {A} (i : nat) (v : A) (row : list A) :
  (i < length row)%nat -> length (set_nth i v row) = length row.
Proof.
  intros Hi; unfold set_nth.
  rewrite length_app, length_firstn.
  change (length (v :: skipn (S i) row)) with (S (length (skipn (S i) row))).
  rewrite length_skipn; lia.
Qed.

Lemma broadcast_to_Ok_length {A} (n : nat) (l l' : list A) :
  broadcast_to n l = Ok l' -> length l' = n.
Proof.
  unfold broadcast_to. destruct (Nat.eqb_spec (length l) n) as [E|_].
  - intros H; inversion H; subst l'; exact E.
  - destruct l as [|a [|b l]]; try discriminate.
    intros H; inversion H; apply repeat_length.
Qed.

(** ** One iteration of the generation loop *)

Lemma decode_step_Ok (T : TorchRandom) (eos : PyObj) (temperature top_p : R)
      (mask : list (list bool)) (p : nat) (st st' : LLaMA.GenState T) :
  LLaMA.decode_step T eos temperature top_p mask p st = Ok st' ->
  exists logits sampled,
    Transformer.forward (LLaMA.gen_model st)
      (map (slice (p - 1) p) (LLaMA.tokens st)) p = Ok (logits, LLaMA.gen_model st') /\
    length sampled = length (LLaMA.tokens st) /\
    let mask_col := map (fun r => nth p r false) mask in
    let next_token :=
      zip_with (fun (m : bool * Z) (s : Z) => if fst m then snd m else s)
               (combine mask_col (map (fun r => nth p r 0%Z) (LLaMA.tokens st))) sampled in
    LLaMA.tokens st' = zip_with (fun row v => set_nth p v row) (LLaMA.tokens st) next_token /\
    LLaMA.eos_reached st' =
      zip_with orb (LLaMA.eos_reached st)
        (zip_with (fun (m : bool) (s : Z) => negb m && py_eq_int s eos) mask_col next_token) /\
    LLaMA.cur_pos st' = p.
Proof.
  unfold LLaMA.decode_step; intros H.
  apply bind_Ok_inv in H as ([logits model] & Hf & H).
  apply bind_Ok_inv in H as (last & Hl & H).
  apply bind_Ok_inv in H as ([next rng] & Hs & H).
  apply bind_Ok_inv in H as (sampled & Hb & H).
  inversion H; subst st'; clear H; simpl.
  exists logits, sampled; repeat split; auto.
  eapply broadcast_to_Ok_length; exact Hb.
Qed.

Lemma decode_step_row (T : TorchRandom) (eos : PyObj) (temperature top_p : R)
      (mask : list (list bool)) (p : nat) (st st' : LLaMA.GenState T) :
  LLaMA.decode_step T eos temperature top_p mask p st = Ok st' ->
  length mask = length (LLaMA.tokens st) ->
  length (LLaMA.eos_reached st) = length (LLaMA.tokens st) ->
  length (LLaMA.tokens st') = length (LLaMA.tokens st) /\
  length (LLaMA.eos_reached st') = length (LLaMA.tokens st) /\
  LLaMA.cur_pos st' = p /\
  forall b mrow row e,
    nth_error mask b = Some mrow ->
    nth_error (LLaMA.tokens st) b = Some row ->
    nth_error (LLaMA.eos_reached st) b = Some e ->
    exists s,
      nth_error (LLaMA.tokens st') b = Some (set_nth p (committed p mrow row s) row) /\
      nth_error (LLaMA.eos_reached st') b =
        Some (e || (negb (nth p mrow false) && py_eq_int (committed p mrow row s) eos)).
Proof.
  intros H Hm He.
  apply decode_step_Ok in H as (logits & sampled & _ & Hlen & Htok & Heos & Hp).
  cbv zeta in Htok, Heos.
  rewrite Htok, Heos. rewrite !length_zip_with, length_combine, !length_map.
  split; [lia|]. split; [lia|]. split; [exact Hp|].
  intros b mrow row e Hmb Hrb Heb.
  assert (Hb : (b < length sampled)%nat).
  { rewrite Hlen. apply nth_error_Some; congruence. }
  destruct (nth_error sampled b) as [s|] eqn:Es; [|apply nth_error_None in Es; lia].
  exists s.
  rewrite !nth_error_zip_with, nth_error_combine, !nth_error_map.
  rewrite Hmb, Hrb, Heb, Es; simpl. unfold committed. split; reflexivity.
Qed.

(** ** The loop *)

(** What the rows of the grid and the flags look like after the loop has
    visited some of the positions [ps]: [rows0] is the grid before. *)
Lemma decode_loop_rows (T : TorchRandom) (eos : PyObj) (temperature top_p : R)
      (mask : list (list bool)) (ps : list nat) (st st' : LLaMA.GenState T) :
  LLaMA.decode_loop T eos temperature top_p mask ps st = Ok st' ->
  length mask = length (LLaMA.tokens st) ->
  length (LLaMA.eos_reached st) = length (LLaMA.tokens st) ->
  length (LLaMA.tokens st') = length (LLaMA.tokens st) /\
  forall b mrow row,
    nth_error mask b = Some mrow ->
    nth_error (LLaMA.tokens st) b = Some row ->
    Forall (fun p => (p < length row)%nat) ps ->
    exists row',
      nth_error (LLaMA.tokens st') b = Some row' /\
      length row' = length row /\
      forall j, (j < length row)%nat -> ~ In j ps \/ nth j mrow false = true ->
                nth_error row' j = nth_error row j.
Proof.
  revert st; induction ps as [|p ps IH]; intros st H Hm He; simpl in H.
  - inversion H; subst st'; split; [reflexivity|].
    intros b mrow row _ Hr _; exists row; auto.
  - apply bind_Ok_inv in H as (st1 & Hstep & H).
    destruct (decode_step_row _ _ _ _ _ _ _ _ Hstep Hm He) as (Hl1 & He1 & _ & Hrow).
    assert (Hrest : length (LLaMA.tokens st') = length (LLaMA.tokens st1) /\
              forall b mrow row,
                nth_error mask b = Some mrow ->
                nth_error (LLaMA.tokens st1) b = Some row ->
                Forall (fun p => (p < length row)%nat) ps ->
                exists row',
                  nth_error (LLaMA.tokens st') b = Some row' /\
                  length row' = length row /\
                  forall j, (j < length row)%nat -> ~ In j ps \/ nth j mrow false = true ->
                            nth_error row' j = nth_error row j).
    { destruct (forallb (fun b : bool => b) (LLaMA.eos_reached st1)).
      - inversion H; subst st'; split; [reflexivity|].
        intros b mrow row _ Hr _; exists row; auto.
      - apply IH; [exact H | congruence | congruence]. }
    destruct Hrest as [Hl' Hrows']. split; [congruence|].
    intros b mrow row Hmb Hrb Hps.
    inversion Hps as [|? ? Hp Hps']; subst.
    assert (Hbe : exists e, nth_error (LLaMA.eos_reached st) b = Some e).
    { destruct (nth_error (LLaMA.eos_reached st) b) eqn:E; [eauto|].
      apply nth_error_None in E. assert (b < length (LLaMA.tokens st))%nat
        by (apply nth_error_Some; congruence). lia. }
    destruct Hbe as (e & Heb).
    destruct (Hrow b mrow row e Hmb Hrb Heb) as (s & Hr1 & _).
    destruct (Hrows' b mrow _ Hmb Hr1) as (row' & Hr' & Hlen' & Hsame).
    { rewrite length_set_nth by exact Hp. exact Hps'. }
    exists row'; split; [exact Hr'|]. rewrite length_set_nth in Hlen' by exact Hp.
    split; [exact Hlen'|].
    intros j Hj Hcase. rewrite length_set_nth in Hsame by exact Hp.
    rewrite Hsame; [|exact Hj|].
    + destruct (Nat.eq_dec j p) as [->|Hne].
      * rewrite nth_error_set_nth_same by exact Hp.
        destruct Hcase as [Hn|Ht]; [exfalso; apply Hn; left; reflexivity|].
        unfold committed; rewrite Ht.
        destruct (nth_error row p) as [x|] eqn:Ex; [|apply nth_error_None in Ex; lia].
        rewrite (nth_nth_error row p 0%Z x Ex); reflexivity.
      * apply nth_error_set_nth_other; assumption.
    + destruct Hcase as [Hn|Ht]; [left; intros Hin; apply Hn; right; exact Hin | right; exact Ht].
Qed.

(** ** The token grid before the loop *)

Lemma slice_assign_prompt (pad : Z) (total : nat) (t row0 : list Z) :
  slice_assign 0 (length t) t (repeat pad total) = Ok row0 ->
  length row0 = total /\
  (forall j, (j < length t)%nat -> (j < total)%nat -> nth_error row0 j = nth_error t j) /\
  (forall j, (length t <= j)%nat -> (j < total)%nat -> nth_error row0 j = Some pad).
Proof.
  unfold slice_assign. rewrite repeat_length. simpl Nat.min.
  rewrite Nat.max_0_l, Nat.sub_0_r. simpl firstn. intros H.
  apply bind_Ok_inv in H as (src & Hb & H). inversion H; subst row0; clear H.
  simpl app. unfold broadcast_to in Hb.
  destruct (Nat.eqb_spec (length t) (Nat.min (length t) total)) as [E|E].
  - inversion Hb; subst src; clear Hb.
    assert (Hle : (length t <= total)%nat) by lia.
    rewrite Nat.min_l by exact Hle.
    split; [rewrite length_app, length_skipn, repeat_length; lia|]. split.
    + intros j Hj _. apply nth_error_app1; exact Hj.
    + intros j Hj Hjt. rewrite nth_error_app2 by exact Hj.
      rewrite nth_error_skipn. apply nth_error_repeat; lia.
  - destruct t as [|a [|b t]]; try discriminate.
    inversion Hb; subst src; clear Hb. simpl in E.
    assert (total = 0)%nat by (destruct total; [reflexivity | simpl in E; lia]).
    subst total; simpl. split; [reflexivity|]. split; intros; lia.
Qed.

Lemma initial_tokens_rows (pad : Z) (total : nat) (prompts rows0 : list (list Z)) :
  LLaMA.initial_tokens pad total prompts = Ok rows0 ->
  length rows0 = length prompts /\
  forall b t, nth_error prompts b = Some t ->
    exists row0, nth_error rows0 b = Some row0 /\ length row0 = total /\
      (forall j, (j < length t)%nat -> (j < total)%nat -> nth_error row0 j = nth_error t j) /\
      (forall j, (length t <= j)%nat -> (j < total)%nat -> nth_error row0 j = Some pad).
Proof.
  unfold LLaMA.initial_tokens; intros H. split; [eapply mapM_Ok_length; exact H|].
  intros b t Ht. destruct (mapM_Ok_nth _ _ _ _ _ H Ht) as (row0 & Hr & Hs).
  exists row0; split; [exact Hr|]. apply slice_assign_prompt; exact Hs.
Qed.

Lemma prompt_mask_nth (pad : Z) (rows : list (list Z)) (b : nat) (row : list Z) :
  nth_error rows b = Some row ->
  nth_error (LLaMA.prompt_mask pad rows) b =
    Some (map (fun tok => negb (tok =? pad)%Z) row).
Proof.
  intros H; unfold LLaMA.prompt_mask. rewrite nth_error_map, H; reflexivity.
Qed.

Lemma mask_row_true (pad : Z) (row : list Z) (j : nat) (tok : Z) :
  nth_error row j = Some tok -> tok <> pad ->
  nth j (map (fun tok => negb (tok =? pad)%Z) row) false = true.
Proof.
  intros Hj Hne. apply nth_nth_error. rewrite nth_error_map, Hj; simpl.
  destruct (Z.eqb_spec tok pad); [contradiction | reflexivity].
Qed.

Lemma generate_Ok (T : TorchRandom) (self : LLaMA.t) (rng : Rng T)
      (prompts : list (list Z)) (temperature top_p : R) (max_gen_len : option Z)
      (st : LLaMA.GenState T) :
  LLaMA.generate T self rng prompts temperature top_p max_gen_len = Ok st ->
  exists total rows0,
    LLaMA.initial_tokens (Tokenizer.pad_id (LLaMA.tokenizer self)) total prompts = Ok rows0 /\
    LLaMA.decode_loop T (Tokenizer.eos_id (LLaMA.tokenizer self)) temperature top_p
      (LLaMA.prompt_mask (Tokenizer.pad_id (LLaMA.tokenizer self)) rows0)
      (seq 1 (total - 1))
      (LLaMA.mkGen rows0 (repeat false (length prompts)) 0 (LLaMA.model self) rng) = Ok st /\
    (Z.of_nat (length prompts) <= ModelArgs.max_batch_size (LLaMA.args self))%Z /\
    (Z.of_nat total <= ModelArgs.max_seq_len (LLaMA.args self))%Z /\
    prompts <> [].
Proof.
  unfold LLaMA.generate; intros H.
  apply bind_Ok_inv in H as ([] & Ha1 & H).
  apply bind_Ok_inv in H as (mpl & Hmax & H).
  apply bind_Ok_inv in H as ([] & Ha2 & H).
  apply bind_Ok_inv in H as (total & Htot & H).
  apply bind_Ok_inv in H as (rows0 & Hinit & H).
  exists total, rows0; split; [exact Hinit|]; split; [exact H|].
  unfold py_assert in Ha1, Ha2.
  destruct (Z.leb_spec (Z.of_nat (length prompts))
              (ModelArgs.max_batch_size (LLaMA.args self))); [|discriminate].
  split; [assumption|]. split.
  - unfold size_of in Htot.
    destruct (Z.ltb_spec (Z.min (ModelArgs.max_seq_len (LLaMA.args self))
                (match max_gen_len with
                 | Some n => n
                 | None => ModelArgs.max_seq_len (LLaMA.args self) - 1
                 end + Z.of_nat mpl)) 0); [discriminate|].
    inversion Htot; lia.
  - intros ->; discriminate.
Qed.

Lemma seq_positions (total j : nat) : In j (seq 1 (total - 1)) -> (1 <= j < total)%nat.
Proof.
  intros H; apply in_seq in H; lia.
Qed.

(** The rows of the grid after [generate], relative to the prompts. *)
Lemma generate_rows (T : TorchRandom) (self : LLaMA.t) (rng : Rng T)
      (prompts : list (list Z)) (temperature top_p : R) (max_gen_len : option Z)
      (st : LLaMA.GenState T) :
  LLaMA.generate T self rng prompts temperature top_p max_gen_len = Ok st ->
  length (LLaMA.tokens st) = length prompts /\
  forall b t, nth_error prompts b = Some t ->
    exists row, nth_error (LLaMA.tokens st) b = Some row /\
      forall j tok, nth_error t j = Some tok -> (j < length row)%nat ->
        tok <> Tokenizer.pad_id (LLaMA.tokenizer self) \/ j = 0%nat ->
        nth_error row j = Some tok.
Proof.
  intros H. apply generate_Ok in H as (total & rows0 & Hinit & Hloop & _ & _ & _).
  destruct (initial_tokens_rows _ _ _ _ Hinit) as [Hlen Hrows0].
  set (pad := Tokenizer.pad_id (LLaMA.tokenizer self)) in *.
  destruct (decode_loop_rows _ _ _ _ _ _ _ _ Hloop) as [HlenL Hrows].
  { unfold LLaMA.prompt_mask; simpl; rewrite length_map; reflexivity. }
  { simpl; rewrite repeat_length; congruence. }
  simpl in HlenL, Hrows. split; [congruence|].
  intros b t Ht. destruct (Hrows0 b t Ht) as (row0 & Hr0 & Hl0 & Hpre & _).
  destruct (Hrows b _ row0 (prompt_mask_nth pad rows0 b row0 Hr0) Hr0) as (row & Hr & Hl & Hsame).
  { apply Forall_forall; intros q Hq. apply seq_positions in Hq; lia. }
  exists row; split; [exact Hr|].
  intros j tok Hj Hjr Hcase.
  assert (Hjt : (j < length t)%nat) by (apply nth_error_Some; congruence).
  rewrite Hsame; [rewrite Hpre by lia; exact Hj | lia |].
  destruct Hcase as [Hne| ->].
  - right. apply (mask_row_true pad row0 j tok); [|exact Hne].
    rewrite Hpre by lia; exact Hj.
  - left; intros Hin; apply seq_positions in Hin; lia.
Qed.

(** ** The result of [text_completion] *)

Lemma cut_at_eos_prefix (eos : PyObj) (row ret : list Z) :
  LLaMA.cut_at_eos eos row = Ok ret -> exists n, ret = firstn n row.
Proof.
  unfold LLaMA.cut_at_eos. destruct (py_in eos row).
  - intros H. apply bind_Ok_inv in H as (n & _ & H). inversion H; eauto.
  - intros H; inversion H; subst ret. exists (length row). symmetry; apply firstn_all.
Qed.

Lemma text_completion_Ok (T : TorchRandom) (self : LLaMA.t) (rng : Rng T)
      (prompts : list (list Z)) (temperature top_p : R) (max_gen_len : option Z)
      (out_tokens : list (list Z)) (out_text : list string) (self' : LLaMA.t) (rng' : Rng T) :
  LLaMA.text_completion T self rng prompts temperature top_p max_gen_len
    = Ok ((out_tokens, out_text), self', rng') ->
  exists st,
    LLaMA.generate T self rng prompts temperature top_p max_gen_len = Ok st /\
    mapM (LLaMA.cut_at_eos (Tokenizer.eos_id (LLaMA.tokenizer self))) (LLaMA.tokens st)
      = Ok out_tokens.
Proof.
  unfold LLaMA.text_completion; intros H.
  apply bind_Ok_inv in H as (st & Hg & H).
  apply bind_Ok_inv in H as (out & Hcut & H).
  inversion H; subst. eauto.
Qed.

(** C5, as stated, fails: with a tokenizer whose pad id (1) is an ordinary
    token, the prompt [[0; 1]] comes back as [[0; 0]]. *)
Lemma prompt_token_equal_to_pad_overwritten :
  exists out txt self' rng',
    LLaMA.text_completion zero_random pad_token_llama tt [[0; 1]]%Z 0 0 (Some 0%Z)
      = Ok ((out, txt), self', rng') /\
    get2 [[0; 1]]%Z 0 1 = Some 1%Z /\
    get2 out 0 1 = Some 0%Z.
Proof.
  do 4 eexists. split; [eval_zero_weights; reflexivity | split; reflexivity].
Qed.

(** C5, amended. For every call to [text_completion] that returns, with any
    temperature, nucleus-p and [max_gen_len], every position of a returned
    token sequence that is a prompt position whose input token differs from
    the pad id (and position 0 in any case) holds the input prompt token. *)
Theorem prompt_tokens_preserved (T : TorchRandom) (self : LLaMA.t) (rng : Rng T)
      (prompts : list (list Z)) (temperature top_p : R) (max_gen_len : option Z)
      (out_tokens : list (list Z)) (out_text : list string) (self' : LLaMA.t) (rng' : Rng T) :
  LLaMA.text_completion T self rng prompts temperature top_p max_gen_len
    = Ok ((out_tokens, out_text), self', rng') ->
  length out_tokens = length prompts /\
  forall b t ret, nth_error prompts b = Some t -> nth_error out_tokens b = Some ret ->
    forall j tok, nth_error t j = Some tok -> (j < length ret)%nat ->
      tok <> Tokenizer.pad_id (LLaMA.tokenizer self) \/ j = 0%nat ->
      nth_error ret j = Some tok.
Proof.
  intros H. apply text_completion_Ok in H as (st & Hg & Hcut).
  destruct (generate_rows _ _ _ _ _ _ _ _ Hg) as [Hlen Hrows].
  split; [rewrite (mapM_Ok_length _ _ _ Hcut); exact Hlen|].
  intros b t ret Ht Hret j tok Hj Hjr Hcase.
  destruct (Hrows b t Ht) as (row & Hr & Hsame).
  destruct (mapM_Ok_nth _ _ _ _ _ Hcut Hr) as (ret' & Hret' & Hc).
  assert (ret' = ret) by congruence; subst ret'.
  apply cut_at_eos_prefix in Hc as (n & ->).
  rewrite length_firstn in Hjr.
  rewrite nth_error_firstn. destruct (Nat.ltb_spec j n); [|lia].
  apply Hsame; [exact Hj | lia | exact Hcase].
Qed.

Lemma prompt_tokens_preserved_witness :
  exists out txt self' rng',
    LLaMA.text_completion zero_random pad_token_llama tt [[0; 1]]%Z 0 0 (Some 0%Z)
      = Ok ((out, txt), self', rng') /\
    get2 out 0 0 = Some 0%Z.
Proof.
  assert (H : exists out txt self' rng',
             LLaMA.text_completion zero_random pad_token_llama tt [[0; 1]]%Z 0 0 (Some 0%Z)
               = Ok ((out, txt), self', rng') /\ out = [[0; 0]]%Z).
  { do 4 eexists. split; [eval_zero_weights; reflexivity | reflexivity]. }
  destruct H as (out & txt & self' & rng' & H & Hout).
  exists out, txt, self', rng'; split; [exact H|].
  destruct (prompt_tokens_preserved _ _ _ _ _ _ _ _ _ _ _ H) as [_ Hp].
  subst out. unfold get2; simpl.
  apply (Hp 0%nat [0; 1]%Z [0; 0]%Z eq_refl eq_refl 0%nat 0%Z eq_refl); [simpl; lia|].
  right; reflexivity.
Defined.

(** C6. [prompt_mask] marks a grid position as a prompt position exactly
    when its token differs from the pad id.  Hence, in every run of the loop,
    a prompt position whose content changed held the pad id (and is not
    position 0): the prompt is preserved when no prompt token equals the pad
    id.  And a prompt token equal to the pad id is indeed overwritten in a
    run: with pad id 1, the grid of the prompt [[0; 1]] ends as [[0; 0]]. *)
Theorem prompt_mask_is_pad_test :
  (forall pad rows b j tok,
     get2 rows b j = Some tok ->
     get2 (LLaMA.prompt_mask pad rows) b j = Some (negb (tok =? pad)%Z)) /\
  (forall T self rng prompts temperature top_p max_gen_len st,
     LLaMA.generate T self rng prompts temperature top_p max_gen_len = Ok st ->
     forall b t j tok tok',
       nth_error prompts b = Some t -> nth_error t j = Some tok ->
       get2 (LLaMA.tokens st) b j = Some tok' -> tok' <> tok ->
       tok = Tokenizer.pad_id (LLaMA.tokenizer self) /\ (1 <= j)%nat) /\
  (exists st,
     LLaMA.generate zero_random pad_token_llama tt [[0; 1]]%Z 0 0 (Some 0%Z) = Ok st /\
     Tokenizer.pad_id (LLaMA.tokenizer pad_token_llama) = 1%Z /\
     get2 (LLaMA.tokens st) 0 1 = Some 0%Z).
Proof.
  split; [|split].
  - intros pad rows b j tok; unfold get2, LLaMA.prompt_mask.
    rewrite nth_error_map. destruct (nth_error rows b) as [row|]; [simpl|discriminate].
    rewrite nth_error_map. intros ->; reflexivity.
  - intros T self rng prompts temperature top_p max_gen_len st Hg b t j tok tok' Ht Hj Hget Hne.
    destruct (generate_rows _ _ _ _ _ _ _ _ Hg) as [_ Hrows].
    destruct (Hrows b t Ht) as (row & Hr & Hsame).
    unfold get2 in Hget; rewrite Hr in Hget.
    assert (Hjr : (j < length row)%nat) by (apply nth_error_Some; congruence).
    split.
    + destruct (Z.eq_dec tok (Tokenizer.pad_id (LLaMA.tokenizer self))) as [E|E]; [exact E|].
      exfalso; apply Hne. rewrite (Hsame j tok Hj Hjr (or_introl E)) in Hget. congruence.
    + destruct j; [|lia].
      exfalso; apply Hne. rewrite (Hsame 0%nat tok Hj Hjr (or_intror eq_refl)) in Hget. congruence.
  - eexists. split; [eval_zero_weights; reflexivity | split; reflexivity].
Qed.

Lemma prompt_mask_is_pad_test_witness :
  exists st,
    LLaMA.generate zero_random pad_token_llama tt [[0; 1]]%Z 0 0 (Some 0%Z) = Ok st /\
    1%Z = Tokenizer.pad_id (LLaMA.tokenizer pad_token_llama) /\ (1 <= 1)%nat.
Proof.
  destruct prompt_mask_is_pad_test as (_ & Hover & st & Hg & _ & Hget).
  exists st; split; [exact Hg|].
  apply (Hover _ _ _ _ _ _ _ _ Hg 0%nat [0; 1]%Z 1%nat 1%Z 0%Z eq_refl eq_refl Hget).
  discriminate.
Defined.

(** ** End-of-sequence handling *)

Lemma py_in_method (r : Z) (row : list Z) : py_in (PyBoundMethod r) row = false.
Proof.
  induction row as [|z row IH]; simpl; [reflexivity | exact IH].
Qed.

(** With a tokenizer whose [eos_id] is a method, nothing is ever cut. *)
Lemma cut_at_eos_method (r : Z) (row : list Z) :
  LLaMA.cut_at_eos (PyBoundMethod r) row = Ok row.
Proof.
  unfold LLaMA.cut_at_eos. rewrite py_in_method; reflexivity.
Qed.

Lemma py_index_int (e : Z) (row : list Z) (n : nat) :
  py_index (PyInt e) row = Ok n ->
  ~ In e (firstn n row) /\ exists rest, row = firstn n row ++ e :: rest.
Proof.
  revert n; induction row as [|z row IH]; intros n; simpl; [discriminate|].
  destruct (Z.eqb_spec z e) as [->|Hne].
  - intros H; inversion H; subst n; simpl. split; [tauto | eauto].
  - intros H. apply bind_Ok_inv in H as (i & Hi & H). inversion H; subst n; clear H.
    destruct (IH i Hi) as (Hnot & rest & Hrow). simpl; split.
    + intros [E|Hin]; [congruence | contradiction].
    + exists rest. f_equal; exact Hrow.
Qed.

(** With a tokenizer whose [eos_id] is the integer id, the cut keeps what
    precedes the first end marker. *)
Lemma cut_at_eos_int (e : Z) (row ret : list Z) :
  LLaMA.cut_at_eos (PyInt e) row = Ok ret ->
  ~ In e ret /\ (ret = row \/ exists rest, row = ret ++ e :: rest).
Proof.
  unfold LLaMA.cut_at_eos. destruct (py_in (PyInt e) row) eqn:Hin.
  - intros H. apply bind_Ok_inv in H as (n & Hn & H). inversion H; subst ret; clear H.
    destruct (py_index_int e row n Hn) as (Hnot & rest & Hrow). split; [exact Hnot|].
    right; exists rest; exact Hrow.
  - intros H; inversion H; subst ret; clear H. split; [|left; reflexivity].
    intros Hi. unfold py_in in Hin.
    assert (Ht : existsb (fun z => py_eq_int z (PyInt e)) row = true).
    { apply existsb_exists. exists e; split; [exact Hi | simpl; apply Z.eqb_refl]. }
    congruence.
Qed.

Lemma text_completion_method_eos_no_cut (T : TorchRandom) (self : LLaMA.t) (rng : Rng T)
      (prompts : list (list Z)) (temperature top_p : R) (max_gen_len : option Z)
      (out_tokens : list (list Z)) (out_text : list string) (self' : LLaMA.t) (rng' : Rng T)
      (r : Z) :
  Tokenizer.eos_id (LLaMA.tokenizer self) = PyBoundMethod r ->
  LLaMA.text_completion T self rng prompts temperature top_p max_gen_len
    = Ok ((out_tokens, out_text), self', rng') ->
  exists st,
    LLaMA.generate T self rng prompts temperature top_p max_gen_len = Ok st /\
    out_tokens = LLaMA.tokens st.
Proof.
  intros He H. apply text_completion_Ok in H as (st & Hg & Hcut).
  exists st; split; [exact Hg|]. rewrite He in Hcut. clear - Hcut.
  revert out_tokens Hcut. induction (LLaMA.tokens st) as [|row rows IH]; simpl; intros out H.
  - inversion H; reflexivity.
  - rewrite cut_at_eos_method in H; simpl in H.
    apply bind_Ok_inv in H as (outs & Ho & H). inversion H; subst out.
    f_equal; apply IH; exact Ho.
Qed.

(** With a tokenizer whose [eos_id] is a method, no flag is ever raised. *)
Lemma zip_with_orb_false (l1 l2 : list bool) :
  Forall (fun e => e = false) l1 -> Forall (fun e => e = false) l2 ->
  Forall (fun e => e = false) (zip_with orb l1 l2).
Proof.
  intros H1; revert l2; induction H1 as [|e l1 He _ IH]; intros l2 H2.
  - constructor.
  - destruct H2 as [|e2 l2 He2 H2]; [constructor|].
    unfold zip_with; simpl. constructor; [subst; reflexivity | apply IH; exact H2].
Qed.

Lemma zip_with_method_false (r : Z) (l1 : list bool) (l2 : list Z) :
  Forall (fun e => e = false)
         (zip_with (fun (m : bool) (s : Z) => negb m && py_eq_int s (PyBoundMethod r)) l1 l2).
Proof.
  unfold zip_with. apply Forall_map, Forall_forall. intros [m s] _; simpl.
  apply andb_false_r.
Qed.

Lemma forallb_all_false (l : list bool) :
  l <> [] -> Forall (fun e => e = false) l -> forallb (fun b : bool => b) l = false.
Proof.
  intros Hne H; destruct H as [|e l He _]; [contradiction|]. subst e; reflexivity.
Qed.

(** No end marker is ever seen, so the loop visits every position. *)
Lemma decode_loop_method_runs_all (T : TorchRandom) (r : Z) (temperature top_p : R)
      (mask : list (list bool)) (ps : list nat) :
  forall (st st' : LLaMA.GenState T),
  LLaMA.decode_loop T (PyBoundMethod r) temperature top_p mask ps st = Ok st' ->
  length mask = length (LLaMA.tokens st) ->
  length (LLaMA.eos_reached st) = length (LLaMA.tokens st) ->
  LLaMA.tokens st <> [] ->
  Forall (fun e => e = false) (LLaMA.eos_reached st) ->
  ps <> [] -> LLaMA.cur_pos st' = last ps 0%nat.
Proof.
  induction ps as [|p ps IH]; intros st st' Hloop Hm He Hne Hfalse Hps; [contradiction|].
  simpl in Hloop. apply bind_Ok_inv in Hloop as (st1 & Hstep & Hloop).
  destruct (decode_step_row _ _ _ _ _ _ _ _ Hstep Hm He) as (Hl1 & He1 & Hcur1 & _).
  destruct (decode_step_Ok _ _ _ _ _ _ _ _ Hstep) as (logits & sampled & _ & _ & Hrest).
  cbv zeta in Hrest. destruct Hrest as (_ & Heos & _).
  assert (Hfalse1 : Forall (fun e => e = false) (LLaMA.eos_reached st1)).
  { rewrite Heos. apply zip_with_orb_false; [exact Hfalse | apply zip_with_method_false]. }
  assert (Hne1 : LLaMA.eos_reached st1 <> []).
  { intros E. rewrite E in He1. simpl in He1.
    destruct (LLaMA.tokens st); [contradiction | discriminate]. }
  rewrite (forallb_all_false _ Hne1 Hfalse1) in Hloop.
  destruct ps as [|q ps].
  - simpl in Hloop. inversion Hloop; subst st'. exact Hcur1.
  - change (last (p :: q :: ps) 0%nat) with (last (q :: ps) 0%nat).
    apply (IH st1 st' Hloop); try congruence.
    intros E. rewrite E in Hl1. destruct (LLaMA.tokens st); [contradiction | discriminate].
Qed.

(** C8 on the code. The tokenizer is a [SentencePieceProcessor], whose end
    marker id is the value of the call [eos_id()] (here 0); the model emits
    token 0 at the generated position 1 of the only row.  The loop does not
    stop there, and the returned sequence contains the end marker and what
    follows it. *)
Theorem eos_marker_returned_with_method_eos_id :
  Tokenizer.eos_id (LLaMA.tokenizer sentencepiece_llama) = PyBoundMethod 0 /\
  exists txt self' rng',
    LLaMA.text_completion zero_random sentencepiece_llama tt [[1]]%Z 0 0 (Some 2%Z)
      = Ok (([[1; 0; 0]]%Z, txt), self', rng').
Proof.
  split; [reflexivity|].
  do 3 eexists. eval_zero_weights. reflexivity.
Qed.

(** ** The cache writes of one forward call *)

Lemma slice_one {A} (p : nat) (l : list A) :
  slice p (p + 1) l = match nth_error l p with Some a => [a] | None => [] end.
Proof.
  unfold slice. replace (p + 1 - p)%nat with 1%nat by lia.
  revert p; induction l as [|a l IH]; intros [|p]; simpl; try reflexivity.
  apply IH.
Qed.

Lemma slice_assign_one {A} (p : nat) (src dst row' : list A) :
  slice_assign p (p + 1) src dst = Ok row' ->
  length row' = length dst /\
  (forall j, j <> p -> nth_error row' j = nth_error dst j) /\
  (forall K, (p < length dst)%nat -> src = [K] -> nth_error row' p = Some K).
Proof.
  unfold slice_assign; intros H.
  apply bind_Ok_inv in H as (src' & Hb & H). inversion H; subst row'; clear H.
  apply broadcast_to_Ok_length in Hb as Hlen.
  destruct (Nat.lt_ge_cases p (length dst)) as [Hp|Hp].
  - rewrite (Nat.min_l p) in * by lia. rewrite (Nat.min_l (p + 1)) in * by lia.
    rewrite Nat.max_r in * by lia.
    replace (p + 1 - p)%nat with 1%nat in * by lia.
    destruct src' as [|a [|? ?]]; try discriminate.
    replace (p + 1)%nat with (S p) by lia.
    change (firstn p dst ++ [a] ++ skipn (S p) dst) with (set_nth p a dst).
    split; [apply length_set_nth; exact Hp|]. split.
    + intros j Hj. destruct (Nat.lt_ge_cases j (length dst)) as [Hjl|Hjl].
      * apply nth_error_set_nth_other; assumption.
      * rewrite (proj2 (nth_error_None dst j)) by exact Hjl.
        apply nth_error_None. rewrite length_set_nth by exact Hp. exact Hjl.
    + intros K _ ->. unfold broadcast_to in Hb; simpl in Hb. inversion Hb; subst a.
      apply nth_error_set_nth_same; exact Hp.
  - rewrite (Nat.min_r p) in * by lia. rewrite (Nat.min_r (p + 1)) in * by lia.
    rewrite Nat.max_id, Nat.sub_diag in *.
    destruct src' as [|? ?]; try discriminate.
    rewrite firstn_all, skipn_all; simpl. rewrite app_nil_r.
    split; [reflexivity|]. split; [reflexivity|]. intros; lia.
Qed.

Lemma cache_write_effect (c c' : Tensor4) (B p : nat) (x : Tensor4) :
  cache_write c B p 1 x = Ok c' ->
  length c' = length c /\
  (forall b row, nth_error c b = Some row ->
     exists row', nth_error c' b = Some row' /\ length row' = length row /\
                  forall j, j <> p -> nth_error row' j = nth_error row j) /\
  (forall b K row, (B <= length c)%nat -> length x = B ->
     nth_error x b = Some [K] -> nth_error c b = Some row -> (p < length row)%nat ->
     get2 c' b p = Some K).
Proof.
  unfold cache_write; intros H.
  apply bind_Ok_inv in H as (rows & Hb & H).
  apply bind_Ok_inv in H as (new_rows & Hm & H). inversion H; subst c'; clear H.
  pose proof (broadcast_to_Ok_length _ _ _ Hb) as Hrows.
  pose proof (mapM_Ok_length _ _ _ Hm) as Hnew.
  rewrite length_combine, length_firstn, Hrows in Hnew.
  set (nb := Nat.min B (length c)) in *.
  assert (Hnb : (nb <= length c)%nat) by (unfold nb; lia).
  assert (Hnew' : length new_rows = nb) by lia.
  assert (Hrow_of : forall b row, nth_error c b = Some row -> (b < nb)%nat ->
            exists src row', nth_error rows b = Some src /\ nth_error new_rows b = Some row' /\
                             slice_assign p (p + 1) src row = Ok row').
  { intros b row Hr Hbn.
    destruct (nth_error rows b) as [src|] eqn:Es; [|apply nth_error_None in Es; lia].
    assert (Hc : nth_error (combine (firstn nb c) rows) b = Some (row, src)).
    { rewrite nth_error_combine, nth_error_firstn, Es.
      destruct (Nat.ltb_spec b nb); [rewrite Hr; reflexivity | lia]. }
    destruct (mapM_Ok_nth _ _ _ _ _ Hm Hc) as (row' & Hr' & Hs). simpl in Hs.
    exists src, row'; auto. }
  split; [rewrite length_app, length_skipn; lia|]. split.
  - intros b row Hr. destruct (Nat.lt_ge_cases b nb) as [Hbn|Hbn].
    + destruct (Hrow_of b row Hr Hbn) as (src & row' & _ & Hr' & Hs).
      exists row'. rewrite nth_error_app1 by lia. split; [exact Hr'|].
      destruct (slice_assign_one _ _ _ _ Hs) as (Hl & Hf & _). auto.
    + exists row. rewrite nth_error_app2 by lia. rewrite nth_error_skipn.
      replace (nb + (b - length new_rows))%nat with b by lia. auto.
  - intros b K row HB Hx Hxb Hr Hp.
    assert (HnbB : nb = B) by (unfold nb; lia).
    assert (Hrx : rows = x).
    { unfold broadcast_to in Hb. replace (length x =? nb) with true in Hb
        by (symmetry; apply Nat.eqb_eq; lia). inversion Hb; reflexivity. }
    assert (Hbn : (b < nb)%nat).
    { rewrite HnbB, <- Hx. apply nth_error_Some. congruence. }
    destruct (Hrow_of b row Hr Hbn) as (src & row' & Hsrc & Hr' & Hs).
    rewrite Hrx in Hsrc. assert (Hsk : src = [K]) by congruence.
    unfold get2. rewrite nth_error_app1 by lia. rewrite Hr'.
    destruct (slice_assign_one _ _ _ _ Hs) as (_ & _ & Hw). apply Hw; auto.
Qed.

Lemma view4_single (W : Mat) (x : Tensor3) (n d : nat) (y : Tensor4) (b : nat) (v : Vec) :
  view4 (linear3 W x) n d = Ok y -> nth_error x b = Some [v] ->
  exists heads, view_heads n d (linear W v) = Ok heads /\ nth_error y b = Some [heads].
Proof.
  unfold view4, linear3; intros H Hx.
  assert (Hl : nth_error (map (map (linear W)) x) b = Some [linear W v]).
  { rewrite nth_error_map, Hx; reflexivity. }
  destruct (mapM_Ok_nth _ _ _ _ _ H Hl) as (yb & Hy & Hm). simpl in Hm.
  apply bind_Ok_inv in Hm as (heads & Hh & Hm). simpl in Hm. inversion Hm; subst yb.
  eauto.
Qed.

Lemma view4_length (x : Tensor3) (n d : nat) (y : Tensor4) :
  view4 x n d = Ok y -> length y = length x.
Proof.
  apply mapM_Ok_length.
Qed.

Lemma rotary_single (x y : Tensor4) (frow : list C) (b : nat) (heads : Mat) :
  rotary_embeddings x [frow] = Ok y -> nth_error x b = Some [heads] ->
  exists K, mapM (rotary_vec frow) heads = Ok K /\ nth_error y b = Some [K].
Proof.
  unfold rotary_embeddings; intros H Hx.
  destruct (mapM_Ok_nth _ _ _ _ _ H Hx) as (yb & Hy & Hm). simpl in Hm.
  apply bind_Ok_inv in Hm as (K & HK & Hm). simpl in Hm. inversion Hm; subst yb.
  eauto.
Qed.

Lemma rotary_empty_table (x y : Tensor4) (b : nat) (heads : Mat) :
  rotary_embeddings x [] = Ok y -> nth_error x b = Some [heads] -> False.
Proof.
  unfold rotary_embeddings; intros H Hx.
  destruct (mapM_Ok_nth _ _ _ _ _ H Hx) as (yb & Hy & Hm). simpl in Hm. discriminate.
Qed.

Lemma shape2_single {A} (x : list (list A)) :
  x <> [] -> Forall (fun xb => length xb = 1%nat) x -> shape2 x = (length x, 1%nat).
Proof.
  intros Hne Hall; unfold shape2. destruct x as [|xb x]; [contradiction|].
  inversion Hall; subst. f_equal; assumption.
Qed.

(** The effect of one call of [SelfAttention.forward] with one position per
    row on the layer: only the caches change, and only at [start_pos], where
    the rotated key block and the value block of the input are stored. *)
Lemma SelfAttention_forward_cache (self self' : SelfAttention.t) (x out : Tensor3)
      (p : nat) (table : list (list C)) :
  SelfAttention.forward self x p (slice p (p + 1) table) = Ok (out, self') ->
  x <> [] -> Forall (fun xb => length xb = 1%nat) x ->
  self' = SelfAttention.update_cache self (SelfAttention.cache_k self')
                                     (SelfAttention.cache_v self') /\
  cache_frame p (SelfAttention.cache_k self) (SelfAttention.cache_k self') /\
  cache_frame p (SelfAttention.cache_v self) (SelfAttention.cache_v self') /\
  forall b v rowk rowv,
    nth_error x b = Some [v] ->
    (length x <= length (SelfAttention.cache_k self))%nat ->
    (length x <= length (SelfAttention.cache_v self))%nat ->
    nth_error (SelfAttention.cache_k self) b = Some rowk -> (p < length rowk)%nat ->
    nth_error (SelfAttention.cache_v self) b = Some rowv -> (p < length rowv)%nat ->
    exists frow K V,
      nth_error table p = Some frow /\
      key_block self v frow = Ok K /\ value_block self v = Ok V /\
      get2 (SelfAttention.cache_k self') b p = Some K /\
      get2 (SelfAttention.cache_v self') b p = Some V.
Proof.
  intros H Hne Hall. unfold SelfAttention.forward in H.
  rewrite (shape2_single x Hne Hall) in H.
  apply bind_Ok_inv in H as (nq & Hnq & H).
  apply bind_Ok_inv in H as (nkv & Hnkv & H).
  apply bind_Ok_inv in H as (hd & Hhd & H).
  apply bind_Ok_inv in H as (xq & Hxq & H).
  apply bind_Ok_inv in H as (xk & Hxk & H).
  apply bind_Ok_inv in H as (xv & Hxv & H).
  apply bind_Ok_inv in H as (xq' & Hxq' & H).
  apply bind_Ok_inv in H as (xk' & Hxk' & H).
  apply bind_Ok_inv in H as (ck & Hck & H).
  apply bind_Ok_inv in H as (cv & Hcv & H).
  apply bind_Ok_inv in H as (nrep & Hnrep & H).
  apply bind_Ok_inv in H as (qkv & Hqkv & H).
  apply bind_Ok_inv in H as (output & Hout & H).
  inversion H; subst out self'; clear H. simpl.
  destruct (cache_write_effect _ _ _ _ _ Hck) as (Hlk & Hfk & Hwk).
  destruct (cache_write_effect _ _ _ _ _ Hcv) as (Hlv & Hfv & Hwv).
  split; [reflexivity|]. split; [split; assumption|]. split; [split; assumption|].
  intros b v rowk rowv Hxb HBk HBv Hrk Hpk Hrv Hpv.
  destruct (view4_single _ _ _ _ _ _ _ Hxk Hxb) as (hk & Hhk & Hyk).
  destruct (view4_single _ _ _ _ _ _ _ Hxv Hxb) as (hv & Hhv & Hyv).
  rewrite slice_one in Hxk'.
  destruct (nth_error table p) as [frow|] eqn:Et;
    [|exfalso; eapply rotary_empty_table; eassumption].
  destruct (rotary_single _ _ _ _ _ Hxk' Hyk) as (K & HK & HyK).
  exists frow, K, hv. split; [reflexivity|].
  unfold key_block, value_block. rewrite Hnkv, Hhd; simpl. rewrite Hhk, Hhv; simpl.
  split; [exact HK|]. split; [reflexivity|].
  assert (Hlxk : length xk' = length x).
  { unfold rotary_embeddings in Hxk'. rewrite (mapM_Ok_length _ _ _ Hxk').
    rewrite (view4_length _ _ _ _ Hxk). unfold linear3; apply length_map. }
  assert (Hlxv : length xv = length x).
  { rewrite (view4_length _ _ _ _ Hxv). unfold linear3; apply length_map. }
  split.
  - apply (Hwk b K rowk); auto.
  - apply (Hwv b hv rowv); auto.
Qed.

(** Positions below the start position are out of reach of a cache write,
    whatever the shapes are. *)
Lemma slice_assign_below {A} (start stop : nat) (src dst row' : list A) :
  slice_assign start stop src dst = Ok row' ->
  forall j, (j < start)%nat -> nth_error row' j = nth_error dst j.
Proof.
  unfold slice_assign; intros H j Hj.
  apply bind_Ok_inv in H as (src' & Hb & H). inversion H; subst row'; clear H.
  apply broadcast_to_Ok_length in Hb.
  destruct (Nat.lt_ge_cases j (length dst)) as [Hjl|Hjl].
  - destruct (Nat.lt_ge_cases start (length dst)) as [Hs|Hs].
    + rewrite (Nat.min_l start) by lia.
      rewrite nth_error_app1 by (rewrite length_firstn; lia).
      rewrite nth_error_firstn. destruct (Nat.ltb_spec j start); [reflexivity | lia].
    + rewrite (Nat.min_r start) by lia.
      rewrite nth_error_app1 by (rewrite length_firstn; lia).
      rewrite nth_error_firstn. destruct (Nat.ltb_spec j (length dst)); [reflexivity | lia].
  - rewrite (Nat.min_r start) in * by lia.
    assert (Hz : (Nat.max (length dst) (Nat.min stop (length dst)) = length dst)%nat) by lia.
    rewrite Hz in *. rewrite Nat.sub_diag in Hb.
    destruct src' as [|? ?]; [|discriminate].
    rewrite firstn_all, skipn_all; simpl. rewrite app_nil_r. reflexivity.
Qed.

Lemma cache_write_below (c c' : Tensor4) (B p S : nat) (x : Tensor4) :
  cache_write c B p S x = Ok c' ->
  forall b j, (j < p)%nat -> get2 c' b j = get2 c b j.
Proof.
  unfold cache_write; intros H b j Hj.
  apply bind_Ok_inv in H as (rows & Hb & H).
  apply bind_Ok_inv in H as (new_rows & Hm & H). inversion H; subst c'; clear H.
  pose proof (broadcast_to_Ok_length _ _ _ Hb) as Hrows.
  pose proof (mapM_Ok_length _ _ _ Hm) as Hnew.
  rewrite length_combine, length_firstn, Hrows in Hnew.
  set (nb := Nat.min B (length c)) in *.
  assert (Hnew' : length new_rows = nb) by (unfold nb in *; lia).
  unfold get2. destruct (Nat.lt_ge_cases b nb) as [Hbn|Hbn].
  - rewrite nth_error_app1 by lia.
    destruct (nth_error c b) as [row|] eqn:Er; [|apply nth_error_None in Er; unfold nb in *; lia].
    destruct (nth_error rows b) as [src|] eqn:Es; [|apply nth_error_None in Es; lia].
    assert (Hc : nth_error (combine (firstn nb c) rows) b = Some (row, src)).
    { rewrite nth_error_combine, nth_error_firstn, Es.
      destruct (Nat.ltb_spec b nb); [rewrite Er; reflexivity | lia]. }
    destruct (mapM_Ok_nth _ _ _ _ _ Hm Hc) as (row' & Hr' & Hs). simpl in Hs.
    rewrite Hr'. eapply slice_assign_below; eassumption.
  - rewrite nth_error_app2 by lia. rewrite nth_error_skipn.
    replace (nb + (b - length new_rows))%nat with b by lia. reflexivity.
Qed.

Lemma SelfAttention_forward_below (self self' : SelfAttention.t) (x out : Tensor3)
      (p : nat) (freqs : list (list C)) :
  SelfAttention.forward self x p freqs = Ok (out, self') ->
  self' = SelfAttention.update_cache self (SelfAttention.cache_k self')
                                     (SelfAttention.cache_v self') /\
  forall b j, (j < p)%nat ->
    get2 (SelfAttention.cache_k self') b j = get2 (SelfAttention.cache_k self) b j /\
    get2 (SelfAttention.cache_v self') b j = get2 (SelfAttention.cache_v self) b j.
Proof.
  intros H. unfold SelfAttention.forward in H.
  destruct (shape2 x) as [batch_size seq_len].
  apply bind_Ok_inv in H as (nq & Hnq & H).
  apply bind_Ok_inv in H as (nkv & Hnkv & H).
  apply bind_Ok_inv in H as (hd & Hhd & H).
  apply bind_Ok_inv in H as (xq & Hxq & H).
  apply bind_Ok_inv in H as (xk & Hxk & H).
  apply bind_Ok_inv in H as (xv & Hxv & H).
  apply bind_Ok_inv in H as (xq' & Hxq' & H).
  apply bind_Ok_inv in H as (xk' & Hxk' & H).
  apply bind_Ok_inv in H as (ck & Hck & H).
  apply bind_Ok_inv in H as (cv & Hcv & H).
  apply bind_Ok_inv in H as (nrep & Hnrep & H).
  apply bind_Ok_inv in H as (qkv & Hqkv & H).
  apply bind_Ok_inv in H as (output & Hout & H).
  inversion H; subst out self'; clear H. simpl.
  split; [reflexivity|]. intros b j Hj; split.
  - eapply cache_write_below; eassumption.
  - eapply cache_write_below; eassumption.
Qed.

Lemma EncoderBlock_forward_inv (l l' : EncoderBlock.t) (h out : Tensor3)
      (p : nat) (freqs : list (list C)) :
  EncoderBlock.forward l h p freqs = Ok (out, l') ->
  exists a,
    SelfAttention.forward (EncoderBlock.attention l)
      (RMSNorm.forward (EncoderBlock.attention_norm l) h) p freqs
      = Ok (a, EncoderBlock.attention l') /\
    l' = EncoderBlock.update_attention l (EncoderBlock.attention l').
Proof.
  unfold EncoderBlock.forward; intros H.
  apply bind_Ok_inv in H as ([a att] & Ha & H). inversion H; subst out l'; clear H.
  exists a; split; [exact Ha | reflexivity].
Qed.

Lemma EncoderBlock_forward_below (l l' : EncoderBlock.t) (h out : Tensor3)
      (p : nat) (freqs : list (list C)) :
  EncoderBlock.forward l h p freqs = Ok (out, l') ->
  same_weights l l' /\ same_cache_where (fun j => (j < p)%nat) l l'.
Proof.
  intros H. apply EncoderBlock_forward_inv in H as (a & Ha & Hl).
  apply SelfAttention_forward_below in Ha as (Hs & Hb).
  split.
  - unfold same_weights. rewrite <- Hs. symmetry; exact Hl.
  - intros b j Hj; apply Hb; exact Hj.
Qed.

Lemma run_layers_below (ls ls' : list EncoderBlock.t) (h h' : Tensor3)
      (p : nat) (freqs : list (list C)) :
  Transformer.run_layers ls h p freqs = Ok (h', ls') ->
  Forall2 (fun l l' => same_weights l l' /\ same_cache_where (fun j => (j < p)%nat) l l')
          ls ls'.
Proof.
  revert h ls'; induction ls as [|l ls IH]; intros h ls' H; simpl in H.
  - inversion H; constructor.
  - apply bind_Ok_inv in H as ([h1 l1] & Hl & H).
    apply bind_Ok_inv in H as ([h2 ls1] & Hls & H). inversion H; subst h' ls'; clear H.
    constructor; [eapply EncoderBlock_forward_below; exact Hl | eapply IH; exact Hls].
Qed.

Lemma Transformer_forward_inv (m m' : Transformer.t) (toks : list (list Z)) (p : nat)
      (logits : Tensor3) :
  Transformer.forward m toks p = Ok (logits, m') ->
  snd (shape2 toks) = 1%nat /\
  exists h h',
    Transformer.embedding (Transformer.tok_embeddings m) toks = Ok h /\
    Transformer.run_layers (Transformer.layers m) h p
      (slice p (p + 1) (Transformer.freqs_complex m)) = Ok (h', Transformer.layers m') /\
    m' = Transformer.update_layers m (Transformer.layers m').
Proof.
  unfold Transformer.forward; intros H.
  destruct (shape2 toks) as [batch_size seq_len] eqn:Es. simpl.
  apply bind_Ok_inv in H as ([] & Ha & H).
  unfold py_assert in Ha. destruct (Nat.eqb_spec seq_len 1) as [->|]; [|discriminate].
  apply bind_Ok_inv in H as (h & Hh & H).
  apply bind_Ok_inv in H as ([h' ls'] & Hls & H). inversion H; subst logits m'; clear H.
  split; [reflexivity|]. exists h, h'; simpl. auto.
Qed.

(** ** The assertion of [Transformer.forward] *)

Lemma no_assertion_Ok {A} (a : A) : no_assertion (Ok a).
Proof. intros msg; discriminate. Qed.

Lemma no_assertion_RuntimeError {A} : no_assertion (@Raise A RuntimeError).
Proof. intros msg; discriminate. Qed.

Lemma no_assertion_IndexError {A} : no_assertion (@Raise A IndexError).
Proof. intros msg; discriminate. Qed.

Lemma no_assertion_bind {A B} (c : result A) (k : A -> result B) :
  no_assertion c -> (forall a, no_assertion (k a)) -> no_assertion (bind c k).
Proof.
  intros Hc Hk msg. destruct c as [a|e]; simpl; [apply Hk|].
  intros E; apply (Hc msg). inversion E; reflexivity.
Qed.

Lemma no_assertion_mapM {A B} (f : A -> result B) (l : list A) :
  (forall a, no_assertion (f a)) -> no_assertion (mapM f l).
Proof.
  intros Hf; induction l as [|a l IH]; simpl; [apply no_assertion_Ok|].
  apply no_assertion_bind; [apply Hf|]. intros b.
  apply no_assertion_bind; [exact IH|]. intros bs. apply no_assertion_Ok.
Qed.

Create HintDb noassert.
#[local] Hint Resolve no_assertion_Ok no_assertion_RuntimeError no_assertion_IndexError
  : noassert.

Ltac no_assert :=
  repeat first
    [ solve [auto with noassert]
    | apply no_assertion_Ok
    | apply no_assertion_RuntimeError
    | apply no_assertion_IndexError
    | apply no_assertion_bind; [|intros ?]
    | apply no_assertion_mapM; intros ?
    | match goal with
      | |- no_assertion (match ?x with (_, _) => _ end) => destruct x
      | |- no_assertion (if ?b then _ else _) => destruct b
      | |- no_assertion (match ?x with [] => _ | _ :: _ => _ end) => destruct x
      | |- no_assertion (match ?x with Some _ => _ | None => _ end) => destruct x
      end ].

Lemma no_assertion_size_of (n : Z) : no_assertion (size_of n).
Proof. unfold size_of; no_assert. Qed.

Lemma no_assertion_broadcast_to {A} (n : nat) (l : list A) : no_assertion (broadcast_to n l).
Proof. unfold broadcast_to; no_assert. Qed.

Lemma no_assertion_view_as_complex (v : Vec) : no_assertion (view_as_complex v).
Proof.
  assert (H : no_assertion (view_as_complex v) /\
              forall a, no_assertion (view_as_complex (a :: v))).
  { induction v as [|b v [IH1 IH2]]; split.
    - apply no_assertion_Ok.
    - intros a; apply no_assertion_RuntimeError.
    - apply IH2.
    - intros a. simpl view_as_complex.
      apply no_assertion_bind; [exact IH1 | intros; apply no_assertion_Ok]. }
  exact (proj1 H).
Qed.

#[local] Hint Resolve no_assertion_size_of no_assertion_broadcast_to
  no_assertion_view_as_complex : noassert.

Lemma no_assertion_rotary_embeddings (x : Tensor4) (f : list (list C)) :
  no_assertion (rotary_embeddings x f).
Proof. unfold rotary_embeddings, rotary_vec; no_assert. Qed.

Lemma no_assertion_view4 (x : Tensor3) (n d : nat) : no_assertion (view4 x n d).
Proof. unfold view4, view_heads; no_assert. Qed.

Lemma no_assertion_cache_write (c : Tensor4) (B p S : nat) (x : Tensor4) :
  no_assertion (cache_write c B p S x).
Proof. unfold cache_write, slice_assign; no_assert. Qed.

Lemma no_assertion_zip_strict {A B} (l1 : list A) (l2 : list B) :
  no_assertion (zip_strict l1 l2).
Proof. unfold zip_strict; no_assert. Qed.

#[local] Hint Resolve no_assertion_rotary_embeddings no_assertion_view4
  no_assertion_cache_write no_assertion_zip_strict : noassert.

Lemma no_assertion_SelfAttention_forward (self : SelfAttention.t) (x : Tensor3) (p : nat)
      (f : list (list C)) :
  no_assertion (SelfAttention.forward self x p f).
Proof.
  unfold SelfAttention.forward, SelfAttention.attend.
  destruct (shape2 x) as [batch_size seq_len]. no_assert.
Qed.

#[local] Hint Resolve no_assertion_SelfAttention_forward : noassert.

Lemma no_assertion_EncoderBlock_forward (l : EncoderBlock.t) (h : Tensor3) (p : nat)
      (f : list (list C)) :
  no_assertion (EncoderBlock.forward l h p f).
Proof. unfold EncoderBlock.forward; no_assert. Qed.

#[local] Hint Resolve no_assertion_EncoderBlock_forward : noassert.

Lemma no_assertion_run_layers (ls : list EncoderBlock.t) (h : Tensor3) (p : nat)
      (f : list (list C)) :
  no_assertion (Transformer.run_layers ls h p f).
Proof.
  revert h; induction ls as [|l ls IH]; intros h; simpl; [apply no_assertion_Ok|].
  apply no_assertion_bind; [auto with noassert|]. intros [h1 l1].
  apply no_assertion_bind; [apply IH|]. intros [h2 ls1]. apply no_assertion_Ok.
Qed.

Lemma no_assertion_embedding (w : Mat) (toks : list (list Z)) :
  no_assertion (Transformer.embedding w toks).
Proof. unfold Transformer.embedding; no_assert. Qed.

(** C2, as stated, fails: a priming call with the whole prompt [1, 0, 1] at
    [start_pos = 0] is refused by the assertion. *)
Lemma priming_call_rejected :
  Transformer.forward tiny_model [[1; 0; 1]]%Z 0
    = Raise (AssertionError "Only one token at a time can be processed").
Proof.
  reflexivity.
Qed.

(** C2, amended. [Transformer.forward] has no priming call: on every call,
    the first one at [start_pos = 0] included, it raises the assertion error
    when the sequence length of [tokens] is not exactly 1, before anything
    else is computed, and it raises no assertion error when the length
    is 1. *)
Theorem forward_asserts_single_position (self : Transformer.t) (tokens : list (list Z))
        (start_pos : nat) :
  (snd (shape2 tokens) <> 1%nat ->
   Transformer.forward self tokens start_pos
     = Raise (AssertionError "Only one token at a time can be processed")) /\
  (snd (shape2 tokens) = 1%nat ->
   no_assertion (Transformer.forward self tokens start_pos)).
Proof.
  unfold Transformer.forward. destruct (shape2 tokens) as [batch_size seq_len]; simpl.
  split; intros H.
  - destruct (Nat.eqb_spec seq_len 1); [contradiction | reflexivity].
  - subst seq_len; simpl.
    apply no_assertion_bind; [apply no_assertion_embedding|]. intros h.
    apply no_assertion_bind; [apply no_assertion_run_layers|]. intros [h' ls].
    apply no_assertion_Ok.
Qed.

Lemma forward_asserts_single_position_witness :
  Transformer.forward tiny_model [[1; 0]]%Z 0
    = Raise (AssertionError "Only one token at a time can be processed") /\
  no_assertion (Transformer.forward tiny_model [[1]]%Z 0).
Proof.
  split.
  - apply (proj1 (forward_asserts_single_position tiny_model [[1; 0]]%Z 0)).
    simpl; lia.
  - apply (proj2 (forward_asserts_single_position tiny_model [[1]]%Z 0)).
    reflexivity.
Defined.

(** ** The cache during the generation loop *)

Lemma column_single (toks : list (list Z)) (a b : nat) (row : list Z) (tok : Z) :
  (1 <= a)%nat -> nth_error toks b = Some row -> nth_error row (a - 1) = Some tok ->
  nth_error (map (slice (a - 1) a) toks) b = Some [tok].
Proof.
  intros Ha Hr Ht. rewrite nth_error_map, Hr; simpl.
  replace a with (a - 1 + 1)%nat at 2 by lia. rewrite slice_one, Ht; reflexivity.
Qed.

Lemma embedding_single (w : Mat) (cols : list (list Z)) (h : Tensor3) (b : nat) (tok : Z) :
  Transformer.embedding w cols = Ok h -> nth_error cols b = Some [tok] ->
  exists emb, (0 <= tok)%Z /\ nth_error w (Z.to_nat tok) = Some emb /\
              nth_error h b = Some [emb].
Proof.
  unfold Transformer.embedding; intros H Hc.
  destruct (mapM_Ok_nth _ _ _ _ _ H Hc) as (hb & Hh & Hm). simpl in Hm.
  apply bind_Ok_inv in Hm as (emb & He & Hm). simpl in Hm. inversion Hm; subst hb.
  destruct (Z.ltb_spec tok 0); [discriminate|].
  destruct (nth_error w (Z.to_nat tok)) as [e|] eqn:E; [|discriminate].
  inversion He; subst e. exists emb; auto.
Qed.

Lemma embedding_shape (w : Mat) (cols : list (list Z)) (h : Tensor3) :
  Transformer.embedding w cols = Ok h ->
  length h = length cols /\
  (Forall (fun c => length c = 1%nat) cols -> Forall (fun hb => length hb = 1%nat) h).
Proof.
  unfold Transformer.embedding; intros H. split; [eapply mapM_Ok_length; exact H|].
  intros Hall. apply Forall_forall; intros hb Hin.
  apply In_nth_error in Hin as (b & Hb).
  assert (Hlt : (b < length cols)%nat).
  { rewrite <- (mapM_Ok_length _ _ _ H). apply nth_error_Some; congruence. }
  destruct (nth_error cols b) as [c|] eqn:Ec; [|apply nth_error_None in Ec; lia].
  destruct (mapM_Ok_nth _ _ _ _ _ H Ec) as (hb' & Hh & Hm).
  assert (hb' = hb) by congruence; subst hb'.
  rewrite (mapM_Ok_length _ _ _ Hm).
  exact (proj1 (Forall_forall _ _) Hall c (nth_error_In _ _ Ec)).
Qed.

Lemma same_weights_refl (l : EncoderBlock.t) : same_weights l l.
Proof.
  unfold same_weights. destruct l as [? ? ? [] ? ? ?]; reflexivity.
Qed.

Lemma same_weights_trans (l1 l2 l3 : EncoderBlock.t) :
  same_weights l1 l2 -> same_weights l2 l3 -> same_weights l1 l3.
Proof.
  unfold same_weights; intros <- <-. reflexivity.
Qed.

Lemma same_weights_blocks (l l' : EncoderBlock.t) :
  same_weights l l' ->
  EncoderBlock.attention_norm l' = EncoderBlock.attention_norm l /\
  (forall x f, key_block (EncoderBlock.attention l') x f
               = key_block (EncoderBlock.attention l) x f) /\
  (forall x, value_block (EncoderBlock.attention l') x
             = value_block (EncoderBlock.attention l) x).
Proof.
  unfold same_weights; intros <-. repeat split.
Qed.

Lemma Forall2_compose {A} (R1 R2 R3 : A -> A -> Prop) (l1 l2 l3 : list A) :
  (forall x y z, R1 x y -> R2 y z -> R3 x z) ->
  Forall2 R1 l1 l2 -> Forall2 R2 l2 l3 -> Forall2 R3 l1 l3.
Proof.
  intros Htr H12; revert l3; induction H12 as [|x y l1 l2 Hxy _ IH]; intros l3 H23.
  - inversion H23; constructor.
  - inversion H23; subst. constructor; [eapply Htr; eassumption | apply IH; assumption].
Qed.

Lemma Forall2_refl_list {A} (R : A -> A -> Prop) (l : list A) :
  (forall x, R x x) -> Forall2 R l l.
Proof.
  intros HR; induction l; constructor; auto.
Qed.

Lemma cache_frame_dims (p : nat) (c c' : Tensor4) (nb ns : nat) :
  cache_frame p c c' -> cache_dims c nb ns -> cache_dims c' nb ns.
Proof.
  intros [Hl Hf] [Hnb Hns]. split; [lia|].
  apply Forall_forall; intros row' Hin. apply In_nth_error in Hin as (b & Hb).
  destruct (nth_error c b) as [row|] eqn:Er.
  - destruct (Hf b row Er) as (row'' & Hr'' & Hlen & _).
    assert (row'' = row') by congruence; subst row''.
    rewrite Hlen. exact (proj1 (Forall_forall _ _) Hns row (nth_error_In _ _ Er)).
  - apply nth_error_None in Er.
    assert (b < length c')%nat by (apply nth_error_Some; congruence). lia.
Qed.

Lemma cache_frame_get2 (p : nat) (c c' : Tensor4) (b j : nat) :
  cache_frame p c c' -> j <> p -> get2 c' b j = get2 c b j.
Proof.
  intros [Hl Hf] Hj. unfold get2.
  destruct (nth_error c b) as [row|] eqn:Er.
  - destruct (Hf b row Er) as (row' & Hr' & _ & Hsame). rewrite Hr'. apply Hsame; exact Hj.
  - apply nth_error_None in Er.
    rewrite (proj2 (nth_error_None c' b)) by lia. reflexivity.
Qed.

(** The call that the loop makes at position [a]: the first layer stores
    the blocks of the tokens at grid index [a - 1] at cache position [a]. *)
Lemma forward_first_layer (m m' : Transformer.t) (toks : list (list Z)) (a : nat)
      (logits : Tensor3) (l0 : EncoderBlock.t) (ls : list EncoderBlock.t) :
  Transformer.forward m (map (slice (a - 1) a) toks) a = Ok (logits, m') ->
  (1 <= a)%nat -> toks <> [] -> Forall (fun row => (a <= length row)%nat) toks ->
  Transformer.layers m = l0 :: ls ->
  exists l0' ls',
    Transformer.layers m' = l0' :: ls' /\
    cache_frame a (SelfAttention.cache_k (EncoderBlock.attention l0))
                  (SelfAttention.cache_k (EncoderBlock.attention l0')) /\
    cache_frame a (SelfAttention.cache_v (EncoderBlock.attention l0))
                  (SelfAttention.cache_v (EncoderBlock.attention l0')) /\
    (cache_dims (SelfAttention.cache_k (EncoderBlock.attention l0)) (length toks) (a + 1) ->
     cache_dims (SelfAttention.cache_v (EncoderBlock.attention l0)) (length toks) (a + 1) ->
     forall b row tok, nth_error toks b = Some row -> nth_error row (a - 1) = Some tok ->
       stores_token m l0 l0' b (a - 1) tok).
Proof.
  intros H Ha Hne Hrows Hl.
  apply Transformer_forward_inv in H as (_ & h & h' & Hemb & Hrun & _).
  rewrite Hl in Hrun. simpl in Hrun.
  apply bind_Ok_inv in Hrun as ([h1 l0'] & Hfwd & Hrun).
  apply bind_Ok_inv in Hrun as ([h2 ls'] & _ & Hrun).
  inversion Hrun as [[Hh2 Hls']]; clear Hrun.
  apply EncoderBlock_forward_inv in Hfwd as (att_out & Hatt & _).
  set (cols := map (slice (a - 1) a) toks) in *.
  assert (Hcols : Forall (fun c => length c = 1%nat) cols).
  { unfold cols. apply Forall_map. eapply Forall_impl; [|exact Hrows].
    intros row Hr; simpl in *. rewrite slice_length by lia. lia. }
  destruct (embedding_shape _ _ _ Hemb) as [Hlh Hsh]. specialize (Hsh Hcols).
  assert (Hlc : length cols = length toks) by (unfold cols; apply length_map).
  set (x := RMSNorm.forward (EncoderBlock.attention_norm l0) h) in *.
  assert (Hlx : length x = length toks).
  { unfold x, RMSNorm.forward. rewrite length_map. congruence. }
  assert (Hxne : x <> []).
  { intros E. rewrite E in Hlx. destruct toks; [contradiction | discriminate]. }
  assert (Hx1 : Forall (fun xb => length xb = 1%nat) x).
  { unfold x, RMSNorm.forward. apply Forall_map. eapply Forall_impl; [|exact Hsh].
    intros hb Hhb; simpl in *. rewrite length_map; exact Hhb. }
  destruct (SelfAttention_forward_cache _ _ _ _ _ _ Hatt Hxne Hx1) as (_ & Hfk & Hfv & Hw).
  exists l0', ls'. split; [congruence|]. split; [exact Hfk|]. split; [exact Hfv|].
  intros [Hbk Hrk] [Hbv Hrv] b row tok Hr Ht.
  pose proof (column_single toks a b row tok Ha Hr Ht) as Hcol. fold cols in Hcol.
  destruct (embedding_single _ _ _ _ _ Hemb Hcol) as (emb & Htok & Hw_emb & Hhb).
  assert (Hxb : nth_error x b = Some [RMSNorm.forward_vec (EncoderBlock.attention_norm l0) emb]).
  { unfold x, RMSNorm.forward. rewrite nth_error_map, Hhb; reflexivity. }
  assert (Hb : (b < length toks)%nat) by (apply nth_error_Some; congruence).
  destruct (nth_error (SelfAttention.cache_k (EncoderBlock.attention l0)) b) as [rowk|] eqn:Ek;
    [|apply nth_error_None in Ek; lia].
  destruct (nth_error (SelfAttention.cache_v (EncoderBlock.attention l0)) b) as [rowv|] eqn:Ev;
    [|apply nth_error_None in Ev; lia].
  pose proof (proj1 (Forall_forall _ _) Hrk rowk (nth_error_In _ _ Ek)) as Hlk.
  pose proof (proj1 (Forall_forall _ _) Hrv rowv (nth_error_In _ _ Ev)) as Hlv.
  cbv beta in Hlk, Hlv.
  assert (H1 : (length x <= length (SelfAttention.cache_k (EncoderBlock.attention l0)))%nat)
    by lia.
  assert (H2 : (length x <= length (SelfAttention.cache_v (EncoderBlock.attention l0)))%nat)
    by lia.
  assert (H3 : (a < length rowk)%nat) by lia.
  assert (H4 : (a < length rowv)%nat) by lia.
  destruct (Hw b _ rowk rowv Hxb H1 H2 Ek H3 Ev H4)
    as (frow & K & V & Hfrow & HK & HV & HgK & HgV).
  unfold stores_token. replace (a - 1 + 1)%nat with a by lia.
  exists emb, frow, K, V. repeat split; assumption.
Qed.

Lemma stores_token_transfer (m m1 : Transformer.t) (l0 l1 l' : EncoderBlock.t)
      (b i : nat) (tok : Z) :
  Transformer.tok_embeddings m1 = Transformer.tok_embeddings m ->
  Transformer.freqs_complex m1 = Transformer.freqs_complex m ->
  same_weights l0 l1 ->
  stores_token m1 l1 l' b i tok -> stores_token m l0 l' b i tok.
Proof.
  intros He Hf Hw (emb & frow & K & V & Htok & Hemb & Hfrow & HK & HV & HgK & HgV).
  destruct (same_weights_blocks _ _ Hw) as (Hn & Hkb & Hvb).
  rewrite He in Hemb. rewrite Hf in Hfrow. rewrite Hn, Hkb in HK. rewrite Hn, Hvb in HV.
  exists emb, frow, K, V. repeat split; assumption.
Qed.

Lemma stores_token_frame (m : Transformer.t) (l0 l1 l' : EncoderBlock.t)
      (b i : nat) (tok : Z) :
  stores_token m l0 l1 b i tok ->
  same_cache_where (fun j => (j < S (i + 1))%nat) l1 l' ->
  stores_token m l0 l' b i tok.
Proof.
  intros (emb & frow & K & V & Htok & Hemb & Hfrow & HK & HV & HgK & HgV) Hs.
  destruct (Hs b (i + 1)%nat) as [Hk Hv]; [lia|].
  exists emb, frow, K, V. repeat split; try assumption; congruence.
Qed.

Lemma update_layers_id (m : Transformer.t) :
  Transformer.update_layers m (Transformer.layers m) = m.
Proof.
  destruct m; reflexivity.
Qed.

Lemma cache_dims_mono (c : Tensor4) (nb ns ns' : nat) :
  (ns' <= ns)%nat -> cache_dims c nb ns -> cache_dims c nb ns'.
Proof.
  intros Hle [Hb Hs]. split; [exact Hb|].
  eapply Forall_impl; [|exact Hs]. simpl; intros; lia.
Qed.

(** A position that the loop has passed keeps its token. *)
Lemma decode_loop_token_stable (T : TorchRandom) (eos : PyObj) (temperature top_p : R)
      (mask : list (list bool)) (ps : list nat) (st st' : LLaMA.GenState T)
      (b j : nat) (row' : list Z) :
  LLaMA.decode_loop T eos temperature top_p mask ps st = Ok st' ->
  length mask = length (LLaMA.tokens st) ->
  length (LLaMA.eos_reached st) = length (LLaMA.tokens st) ->
  Forall (fun row => Forall (fun p => (p < length row)%nat) ps) (LLaMA.tokens st) ->
  ~ In j ps ->
  nth_error (LLaMA.tokens st') b = Some row' ->
  exists row, nth_error (LLaMA.tokens st) b = Some row /\ length row' = length row /\
              ((j < length row)%nat -> nth_error row' j = nth_error row j).
Proof.
  intros Hloop Hm He Hps Hj Hr'.
  destruct (decode_loop_rows _ _ _ _ _ _ _ _ Hloop Hm He) as [Hlen Hrows].
  assert (Hb : (b < length (LLaMA.tokens st))%nat).
  { rewrite <- Hlen. apply nth_error_Some; congruence. }
  destruct (nth_error (LLaMA.tokens st) b) as [row|] eqn:Er;
    [|apply nth_error_None in Er; lia].
  destruct (nth_error mask b) as [mrow|] eqn:Em; [|apply nth_error_None in Em; lia].
  destruct (Hrows b mrow row Em Er) as (row'' & Hr'' & Hl & Hsame).
  { exact (proj1 (Forall_forall _ _) Hps row (nth_error_In _ _ Er)). }
  assert (row'' = row') by congruence; subst row''.
  exists row; split; [reflexivity|]. split; [exact Hl|].
  intros Hjl. apply Hsame; [exact Hjl | left; exact Hj].
Qed.

Lemma seq_rows_in_range (a n : nat) (rows : list (list Z)) :
  Forall (fun row => (a + n <= length row)%nat) rows ->
  Forall (fun row => Forall (fun p => (p < length row)%nat) (seq a n)) rows.
Proof.
  intros H. eapply Forall_impl; [|exact H]. intros row Hr; simpl in Hr.
  apply Forall_forall; intros q Hq. apply in_seq in Hq. lia.
Qed.

(** The invariant of the loop over the positions [a, a + 1, ..., a + n - 1]:
    the weights and tables stay, no layer changes a cache position below
    [a], and the first layer holds at every visited position [p] the blocks
    of the token at grid index [p - 1]. *)
Lemma decode_loop_cache (T : TorchRandom) (eos : PyObj) (temperature top_p : R)
      (mask : list (list bool)) (n : nat) :
  forall (a : nat) (st st' : LLaMA.GenState T),
  (1 <= a)%nat ->
  LLaMA.decode_loop T eos temperature top_p mask (seq a n) st = Ok st' ->
  length mask = length (LLaMA.tokens st) ->
  length (LLaMA.eos_reached st) = length (LLaMA.tokens st) ->
  LLaMA.tokens st <> [] ->
  (n <> 0%nat -> Forall (fun row => (a + n <= length row)%nat) (LLaMA.tokens st)) ->
  LLaMA.gen_model st'
    = Transformer.update_layers (LLaMA.gen_model st)
        (Transformer.layers (LLaMA.gen_model st')) /\
  Forall2 (fun l l' => same_weights l l' /\ same_cache_where (fun j => (j < a)%nat) l l')
          (Transformer.layers (LLaMA.gen_model st))
          (Transformer.layers (LLaMA.gen_model st')) /\
  (st' = st \/ (a <= LLaMA.cur_pos st' < a + n)%nat) /\
  forall l0 ls, Transformer.layers (LLaMA.gen_model st) = l0 :: ls ->
    exists l0' ls',
      Transformer.layers (LLaMA.gen_model st') = l0' :: ls' /\
      (cache_dims (SelfAttention.cache_k (EncoderBlock.attention l0))
                  (length (LLaMA.tokens st)) (a + n) ->
       cache_dims (SelfAttention.cache_v (EncoderBlock.attention l0))
                  (length (LLaMA.tokens st)) (a + n) ->
       st' <> st ->
       forall p b row tok, (a <= p <= LLaMA.cur_pos st')%nat ->
         nth_error (LLaMA.tokens st') b = Some row -> nth_error row (p - 1) = Some tok ->
         stores_token (LLaMA.gen_model st) l0 l0' b (p - 1) tok).
Proof.
  induction n as [|n IH]; intros a st st' Ha Hloop Hm He Hne Hrows.
  - simpl in Hloop; inversion Hloop; subst st'.
    split; [symmetry; apply update_layers_id|]. split.
    { apply Forall2_refl_list; intros l; split; [apply same_weights_refl|].
      intros b j _; split; reflexivity. }
    split; [left; reflexivity|].
    intros l0 ls Hl; exists l0, ls; split; [exact Hl|]. intros _ _ Hn; contradiction.
  - specialize (Hrows (Nat.neq_succ_0 n)).
    pose proof Hloop as Hloop0. simpl in Hloop.
    apply bind_Ok_inv in Hloop as (st1 & Hstep & Hloop).
    destruct (decode_step_Ok _ _ _ _ _ _ _ _ Hstep)
      as (logits & sampled & Hfwd & _ & _ & _ & Hcur1).
    destruct (decode_step_row _ _ _ _ _ _ _ _ Hstep Hm He) as (Hl1 & He1 & _ & Hrow1).
    destruct (Transformer_forward_inv _ _ _ _ _ Hfwd) as (_ & h & h' & Hemb & Hrun & Hm1).
    pose proof (run_layers_below _ _ _ _ _ _ Hrun) as Hbelow1.
    assert (Hrows_a : Forall (fun row => (a <= length row)%nat) (LLaMA.tokens st)).
    { eapply Forall_impl; [|exact Hrows]. simpl; intros; lia. }
    assert (Hrows1 : Forall (fun row => (S a + n <= length row)%nat) (LLaMA.tokens st1)).
    { apply Forall_forall; intros row1 Hin. apply In_nth_error in Hin as (b & Hb).
      assert (Hlt : (b < length (LLaMA.tokens st))%nat).
      { rewrite <- Hl1. apply nth_error_Some; congruence. }
      destruct (nth_error (LLaMA.tokens st) b) as [row|] eqn:Er;
        [|apply nth_error_None in Er; lia].
      destruct (nth_error mask b) as [mrow|] eqn:Em; [|apply nth_error_None in Em; lia].
      destruct (nth_error (LLaMA.eos_reached st) b) as [e|] eqn:Ee;
        [|apply nth_error_None in Ee; lia].
      destruct (Hrow1 b mrow row e Em Er Ee) as (s & Hr1 & _).
      assert (row1 = set_nth a (committed a mrow row s) row) by congruence. subst row1.
      pose proof (proj1 (Forall_forall _ _) Hrows row (nth_error_In _ _ Er)) as Hlr.
      simpl in Hlr. rewrite length_set_nth by lia. lia. }
    assert (Hne1 : LLaMA.tokens st1 <> []).
    { intros E. rewrite E in Hl1. destruct (LLaMA.tokens st); [contradiction|discriminate]. }
    assert (Hrest :
      LLaMA.gen_model st'
        = Transformer.update_layers (LLaMA.gen_model st1)
            (Transformer.layers (LLaMA.gen_model st')) /\
      Forall2 (fun l l' => same_weights l l' /\
                           same_cache_where (fun j => (j < S a)%nat) l l')
              (Transformer.layers (LLaMA.gen_model st1))
              (Transformer.layers (LLaMA.gen_model st')) /\
      (st' = st1 \/ (S a <= LLaMA.cur_pos st' < S a + n)%nat) /\
      forall l1 ls1, Transformer.layers (LLaMA.gen_model st1) = l1 :: ls1 ->
        exists l0' ls',
          Transformer.layers (LLaMA.gen_model st') = l0' :: ls' /\
          (cache_dims (SelfAttention.cache_k (EncoderBlock.attention l1))
                      (length (LLaMA.tokens st1)) (S a + n) ->
           cache_dims (SelfAttention.cache_v (EncoderBlock.attention l1))
                      (length (LLaMA.tokens st1)) (S a + n) ->
           st' <> st1 ->
           forall p b row tok, (S a <= p <= LLaMA.cur_pos st')%nat ->
             nth_error (LLaMA.tokens st') b = Some row -> nth_error row (p - 1) = Some tok ->
             stores_token (LLaMA.gen_model st1) l1 l0' b (p - 1) tok)).
    { destruct (forallb (fun b : bool => b) (LLaMA.eos_reached st1)).
      - inversion Hloop; subst st'.
        split; [symmetry; apply update_layers_id|]. split.
        { apply Forall2_refl_list; intros l; split; [apply same_weights_refl|].
          intros b j _; split; reflexivity. }
        split; [left; reflexivity|].
        intros l1 ls1 Hl; exists l1, ls1; split; [exact Hl|]. intros _ _ Hn; contradiction.
      - apply IH; try assumption; [lia | congruence | congruence | intros _; exact Hrows1]. }
    destruct Hrest as (Hm' & Hbelow' & Hcur' & Hfirst').
    assert (Hcur : (a <= LLaMA.cur_pos st' < a + S n)%nat).
    { destruct Hcur' as [->|Hc]; lia. }
    split.
    { rewrite Hm', Hm1. reflexivity. }
    split.
    { eapply Forall2_compose; [|exact Hbelow1|exact Hbelow'].
      intros x y z [Hw1 Hc1] [Hw2 Hc2]. split; [eapply same_weights_trans; eassumption|].
      intros b j Hj. destruct (Hc1 b j Hj) as [Hk1 Hv1].
      destruct (Hc2 b j) as [Hk2 Hv2]; [simpl; lia|]. split; congruence. }
    split; [right; exact Hcur|].
    intros l0 ls Hl0.
    destruct (forward_first_layer _ _ _ _ _ _ _ Hfwd Ha Hne Hrows_a Hl0)
      as (l1 & ls1 & Hl1' & Hfk & Hfv & Hstore).
    destruct (Hfirst' l1 ls1 Hl1') as (l0' & ls' & Hl' & Hstore').
    exists l0', ls'. split; [exact Hl'|].
    intros Hdk Hdv _ p b row tok Hp Hr Ht.
    rewrite Hl0 in Hbelow1. rewrite Hl1' in Hbelow1, Hbelow'. rewrite Hl' in Hbelow'.
    apply Forall2_cons_iff in Hbelow1 as [[Hw01 _] _].
    apply Forall2_cons_iff in Hbelow' as [[_ Hc1'] _].
    destruct (Nat.eq_dec p a) as [Epa|Hpa]; [subst p|].
    + (* the position written by this iteration *)
      destruct (decode_loop_token_stable _ _ _ _ _ _ _ _ b (a - 1)%nat row
                  Hloop0 Hm He (seq_rows_in_range _ _ _ Hrows))
        as (row0 & Hr0 & Hlen0 & Hsame0); [intros Hin; apply in_seq in Hin; lia | exact Hr |].
      pose proof (proj1 (Forall_forall _ _) Hrows row0 (nth_error_In _ _ Hr0)) as Hlr0.
      simpl in Hlr0. rewrite Hsame0 in Ht by lia.
      eapply stores_token_frame.
      * apply (fun H1 H2 => Hstore H1 H2 b row0 tok Hr0 Ht);
          (eapply cache_dims_mono; [|eassumption]; lia).
      * replace (a - 1 + 1)%nat with a by lia. exact Hc1'.
    + (* a position written by a later iteration *)
      assert (Hst : st' <> st1).
      { intros ->. rewrite Hcur1 in Hp. lia. }
      apply (stores_token_transfer (LLaMA.gen_model st) (LLaMA.gen_model st1) l0 l1 l0').
      * rewrite Hm1; reflexivity.
      * rewrite Hm1; reflexivity.
      * exact Hw01.
      * apply (fun H1 H2 => Hstore' H1 H2 Hst p b row tok); try assumption; [| |lia].
        -- rewrite Hl1. eapply cache_frame_dims; [exact Hfk|].
           replace (S a + n)%nat with (a + S n)%nat by lia. exact Hdk.
        -- rewrite Hl1. eapply cache_frame_dims; [exact Hfv|].
           replace (S a + n)%nat with (a + S n)%nat by lia. exact Hdv.
Qed.

Lemma cache_dims_weaken (c : Tensor4) (nb ns nb' ns' : nat) :
  (nb' <= nb)%nat -> (ns' <= ns)%nat -> cache_dims c nb ns -> cache_dims c nb' ns'.
Proof.
  intros Hb Hs [Hnb Hns]. split; [lia|].
  eapply Forall_impl; [|exact Hns]. simpl; intros; lia.
Qed.

Lemma linear3_unfold (W : Mat) (x : Tensor3) : linear3 W x = map (map (linear W)) x.
Proof. reflexivity. Qed.

Ltac eval_weights :=
  repeat (progress (rcbv_lin;
                    repeat match goal with
                           | |- context [linear3 ?W ?x] =>
                               first [ rewrite (linear3_zero_weights W x) by (repeat constructor)
                                     | rewrite (linear3_unfold W x) ]
                           end;
                    decide_Rlt)).


(** The positions that the loop has visited: it stops after the last
    position, or before it when every row has reached the end marker. *)
Lemma decode_loop_visits (T : TorchRandom) (eos : PyObj) (temperature top_p : R)
      (mask : list (list bool)) (n : nat) :
  forall (a : nat) (st st' : LLaMA.GenState T),
  LLaMA.decode_loop T eos temperature top_p mask (seq a (S n)) st = Ok st' ->
  (a <= LLaMA.cur_pos st' <= a + n)%nat /\
  (LLaMA.cur_pos st' = (a + n)%nat \/
   forallb (fun b : bool => b) (LLaMA.eos_reached st') = true).
Proof.
  induction n as [|n IH]; intros a st st' H; cbn [seq LLaMA.decode_loop] in H;
    apply bind_Ok_inv in H as (st1 & Hstep & H);
    destruct (decode_step_Ok _ _ _ _ _ _ _ _ Hstep) as (_ & _ & _ & _ & _ & _ & Hcur);
    destruct (forallb (fun b : bool => b) (LLaMA.eos_reached st1)) eqn:Eeos.
  - inversion H; subst st'. split; [lia|]. right; exact Eeos.
  - inversion H; subst st'. split; [lia|]. left; lia.
  - inversion H; subst st'. split; [lia|]. right; exact Eeos.
  - destruct (IH (S a) st1 st' H) as [Hr Hend]. split; [lia|].
    destruct Hend as [Hend|Hend]; [left; lia | right; exact Hend].
Qed.

Lemma generate_total_len (T : TorchRandom) (self : LLaMA.t) (rng : Rng T)
      (prompts : list (list Z)) (temperature top_p : R) (max_gen_len : option Z)
      (st : LLaMA.GenState T) :
  LLaMA.generate T self rng prompts temperature top_p max_gen_len = Ok st ->
  exists longest total rows0,
    py_max (map (@length Z) prompts) = Ok longest /\
    Z.of_nat total = Z.min (ModelArgs.max_seq_len (LLaMA.args self))
                           (match max_gen_len with
                            | Some n => n
                            | None => ModelArgs.max_seq_len (LLaMA.args self) - 1
                            end + Z.of_nat longest) /\
    LLaMA.initial_tokens (Tokenizer.pad_id (LLaMA.tokenizer self)) total prompts = Ok rows0 /\
    LLaMA.decode_loop T (Tokenizer.eos_id (LLaMA.tokenizer self)) temperature top_p
      (LLaMA.prompt_mask (Tokenizer.pad_id (LLaMA.tokenizer self)) rows0)
      (seq 1 (total - 1))
      (LLaMA.mkGen rows0 (repeat false (length prompts)) 0 (LLaMA.model self) rng) = Ok st /\
    (Z.of_nat (length prompts) <= ModelArgs.max_batch_size (LLaMA.args self))%Z /\
    prompts <> [].
Proof.
  unfold LLaMA.generate; intros H.
  apply bind_Ok_inv in H as ([] & Ha1 & H).
  apply bind_Ok_inv in H as (mpl & Hmax & H).
  apply bind_Ok_inv in H as ([] & _ & H).
  apply bind_Ok_inv in H as (total & Htot & H).
  apply bind_Ok_inv in H as (rows0 & Hinit & H).
  exists mpl, total, rows0. split; [exact Hmax|].
  split; [|split; [exact Hinit | split; [exact H|split]]].
  - unfold size_of in Htot.
    destruct (Z.ltb_spec (Z.min (ModelArgs.max_seq_len (LLaMA.args self))
                (match max_gen_len with
                 | Some n => n
                 | None => ModelArgs.max_seq_len (LLaMA.args self) - 1
                 end + Z.of_nat mpl)) 0); [discriminate|].
    inversion Htot. lia.
  - unfold py_assert in Ha1.
    destruct (Z.leb_spec (Z.of_nat (length prompts))
                (ModelArgs.max_batch_size (LLaMA.args self))); [assumption | discriminate].
  - intros ->; discriminate.
Qed.

(** C3. In every generation call that returns, the loop passes the token at
    grid index [cur_pos - 1] to [Transformer.forward] with start position
    [cur_pos], for [cur_pos = 1, 2, ...]: no layer changes its weights or
    position 0 of its caches.  The grid has
    [total_len = min(max_seq_len, max_gen_len + longest prompt)] columns; when
    there are two or more, the loop has run: the last position [cur_pos]
    that it visited is at least 1, and it is [total_len - 1] unless every row
    has reached the end marker.  For every grid index [i] below the last
    visited position (and the caches of the first layer having the
    configured sizes) the first layer holds at cache position [i + 1] the key
    block of the token at grid index [i], rotated with row [i + 1] of the
    rotary table, and its value block. *)
Theorem generation_cache_shifted_by_one (T : TorchRandom) (self : LLaMA.t) (rng : Rng T)
      (prompts : list (list Z)) (temperature top_p : R) (max_gen_len : option Z)
      (st : LLaMA.GenState T) :
  LLaMA.generate T self rng prompts temperature top_p max_gen_len = Ok st ->
  Forall2 (fun l l' => same_weights l l' /\ same_cache_where (fun j => j = 0%nat) l l')
          (Transformer.layers (LLaMA.model self))
          (Transformer.layers (LLaMA.gen_model st)) /\
  (exists longest total,
     py_max (map (@length Z) prompts) = Ok longest /\
     Z.of_nat total = Z.min (ModelArgs.max_seq_len (LLaMA.args self))
                            (match max_gen_len with
                             | Some n => n
                             | None => ModelArgs.max_seq_len (LLaMA.args self) - 1
                             end + Z.of_nat longest) /\
     LLaMA.tokens st <> [] /\
     Forall (fun row => length row = total) (LLaMA.tokens st) /\
     ((2 <= total)%nat ->
      (1 <= LLaMA.cur_pos st <= total - 1)%nat /\
      (LLaMA.cur_pos st = (total - 1)%nat \/
       forallb (fun b : bool => b) (LLaMA.eos_reached st) = true))) /\
  forall l0 ls, Transformer.layers (LLaMA.model self) = l0 :: ls ->
    exists l0' ls',
      Transformer.layers (LLaMA.gen_model st) = l0' :: ls' /\
      (cache_dims (SelfAttention.cache_k (EncoderBlock.attention l0))
                  (Z.to_nat (ModelArgs.max_batch_size (LLaMA.args self)))
                  (Z.to_nat (ModelArgs.max_seq_len (LLaMA.args self))) ->
       cache_dims (SelfAttention.cache_v (EncoderBlock.attention l0))
                  (Z.to_nat (ModelArgs.max_batch_size (LLaMA.args self)))
                  (Z.to_nat (ModelArgs.max_seq_len (LLaMA.args self))) ->
       forall i b row tok, (i + 1 <= LLaMA.cur_pos st)%nat ->
         nth_error (LLaMA.tokens st) b = Some row -> nth_error row i = Some tok ->
         stores_token (LLaMA.model self) l0 l0' b i tok).
Proof.
  intros Hg.
  apply generate_total_len in Hg
    as (longest & total & rows0 & Hmax & Htot & Hinit & Hloop & HB & Hne).
  assert (HS : (Z.of_nat total <= ModelArgs.max_seq_len (LLaMA.args self))%Z) by lia.
  destruct (initial_tokens_rows _ _ _ _ Hinit) as [Hlen0 Hrows0].
  set (st0 := LLaMA.mkGen rows0 (repeat false (length prompts)) 0 (LLaMA.model self) rng) in *.
  assert (Hlen_rows : Forall (fun row : list Z => length row = total) rows0).
  { apply Forall_forall; intros row Hin. apply In_nth_error in Hin as (b & Hb).
    assert (Hlt : (b < length prompts)%nat).
    { rewrite <- Hlen0. apply nth_error_Some; congruence. }
    destruct (nth_error prompts b) as [t|] eqn:Et; [|apply nth_error_None in Et; lia].
    destruct (Hrows0 b t Et) as (row0 & Hr0 & Hl0 & _). congruence. }
  assert (Hmask : length (LLaMA.prompt_mask (Tokenizer.pad_id (LLaMA.tokenizer self)) rows0)
                  = length (LLaMA.tokens st0))
    by (unfold LLaMA.prompt_mask; simpl; rewrite length_map; reflexivity).
  assert (Heos0 : length (LLaMA.eos_reached st0) = length (LLaMA.tokens st0))
    by (simpl; rewrite repeat_length; congruence).
  assert (Hne0 : LLaMA.tokens st0 <> []).
  { simpl. intros E. rewrite E in Hlen0. destruct prompts; [contradiction|discriminate]. }
  destruct (decode_loop_cache T _ _ _ _ (total - 1) 1 st0 st (le_n 1) Hloop Hmask Heos0 Hne0)
    as (Hm & Hbelow & Hcur & Hfirst).
  { intros Hn. simpl. eapply Forall_impl; [|exact Hlen_rows]. simpl; intros; lia. }
  simpl in Hbelow, Hfirst. split; [|split].
  - eapply Forall2_impl; [|exact Hbelow]. intros l l' [Hw Hc]. split; [exact Hw|].
    intros b j ->. apply Hc. lia.
  - exists longest, total. split; [exact Hmax|]. split; [exact Htot|].
    destruct (decode_loop_rows _ _ _ _ _ _ _ _ Hloop Hmask Heos0) as [HlenL Hrows].
    split; [|split].
    + intros E. rewrite E in HlenL. simpl in HlenL. apply Hne0. simpl.
      destruct rows0; [reflexivity | discriminate].
    + apply Forall_forall. intros row Hin. apply In_nth_error in Hin as (b & Hb).
      assert (Hlt : (b < length rows0)%nat).
      { simpl in HlenL. rewrite <- HlenL. apply nth_error_Some; congruence. }
      destruct (nth_error rows0 b) as [row0|] eqn:Er0; [|apply nth_error_None in Er0; lia].
      pose proof (proj1 (Forall_forall _ _) Hlen_rows row0 (nth_error_In _ _ Er0)) as Hl0.
      simpl in Hl0.
      destruct (Hrows b _ row0 (prompt_mask_nth _ rows0 b row0 Er0) Er0)
        as (row' & Hr' & Hl' & _).
      { apply Forall_forall; intros q Hq. apply seq_positions in Hq; lia. }
      congruence.
    + intros H2. destruct total as [|[|n]]; try lia.
      replace (S (S n) - 1)%nat with (S n) in * by lia.
      destruct (decode_loop_visits _ _ _ _ _ _ _ _ _ Hloop) as [Hr Hend].
      split; [lia|]. destruct Hend as [Hend|Hend]; [left; lia | right; exact Hend].
  - intros l0 ls Hl0. destruct (Hfirst l0 ls Hl0) as (l0' & ls' & Hl' & Hstore).
    exists l0', ls'. split; [exact Hl'|].
    intros Hdk Hdv i b row tok Hi Hr Ht.
    assert (Hst : st <> st0).
    { intros E. rewrite E in Hi. simpl in Hi. lia. }
    destruct Hcur as [E|Hcur]; [contradiction|].
    replace i with (i + 1 - 1)%nat by lia.
    apply (fun H1 H2 => Hstore H1 H2 Hst (i + 1)%nat b row tok).
    + eapply cache_dims_weaken; [| |exact Hdk]; lia.
    + eapply cache_dims_weaken; [| |exact Hdv]; lia.
    + lia.
    + exact Hr.
    + replace (i + 1 - 1)%nat with i by lia. exact Ht.
Qed.

Lemma generation_cache_shifted_by_one_witness :
  exists st l0',
    LLaMA.generate zero_random key_value_llama tt [[1]]%Z 0 0 (Some 2%Z) = Ok st /\
    Transformer.layers (LLaMA.gen_model st) = [l0'] /\
    LLaMA.cur_pos st = 2%nat /\
    stores_token key_value_model key_value_layer l0' 0 0 1 /\
    stores_token key_value_model key_value_layer l0' 0 1 0 /\
    get2 (SelfAttention.cache_k (EncoderBlock.attention l0')) 0 0 = Some [[0; 0]] /\
    exists v0 v1,
      get2 (SelfAttention.cache_v (EncoderBlock.attention l0')) 0 1 = Some [[v0; v1]] /\
      0 < v1.
Proof.
  assert (H : exists st,
             LLaMA.generate zero_random key_value_llama tt [[1]]%Z 0 0 (Some 2%Z) = Ok st /\
             LLaMA.cur_pos st = 2%nat /\ LLaMA.tokens st = [[1; 0; 0]]%Z).
  { eexists. split; [eval_weights; reflexivity | split; reflexivity]. }
  destruct H as (st & Hg & Hcur & Htok).
  destruct (generation_cache_shifted_by_one _ _ _ _ _ _ _ _ Hg) as (Hall & _ & Hfirst).
  destruct (Hfirst key_value_layer [] eq_refl) as (l0' & ls' & Hl' & Hstore).
  simpl in Hall. rewrite Hl' in Hall.
  apply Forall2_cons_iff in Hall as [[_ Hzero] Hnil]. inversion Hnil; subst ls'.
  assert (Hdk : cache_dims (SelfAttention.cache_k (EncoderBlock.attention key_value_layer))
                  (Z.to_nat (ModelArgs.max_batch_size (LLaMA.args key_value_llama)))
                  (Z.to_nat (ModelArgs.max_seq_len (LLaMA.args key_value_llama)))).
  { split; [simpl; lia|]. repeat constructor. }
  assert (Hdv : cache_dims (SelfAttention.cache_v (EncoderBlock.attention key_value_layer))
                  (Z.to_nat (ModelArgs.max_batch_size (LLaMA.args key_value_llama)))
                  (Z.to_nat (ModelArgs.max_seq_len (LLaMA.args key_value_llama)))).
  { split; [simpl; lia|]. repeat constructor. }
  assert (Hs0 : stores_token key_value_model key_value_layer l0' 0 0 1).
  { apply (Hstore Hdk Hdv 0%nat 0%nat [1; 0; 0]%Z 1%Z).
    - rewrite Hcur; lia.
    - rewrite Htok; reflexivity.
    - reflexivity. }
  exists st, l0'. split; [exact Hg|]. split; [exact Hl'|]. split; [exact Hcur|].
  split; [exact Hs0|]. split; [|split].
  - apply (Hstore Hdk Hdv 1%nat 0%nat [1; 0; 0]%Z 0%Z).
    + rewrite Hcur; lia.
    + rewrite Htok; reflexivity.
    + reflexivity.
  - rewrite (proj1 (Hzero 0%nat 0%nat eq_refl)). reflexivity.
  - destruct Hs0 as (emb & frow & K & V & _ & Hemb & _ & _ & HV & _ & HgV).
    simpl in HgV. cbn in Hemb. injection Hemb as Hemb. subst emb.
    revert HV. unfold value_block. rcbv. intros HV. injection HV as HV. subst V.
    eexists _, _. split; [exact HgV|].
    assert (Hpos : 0 < / sqrt ((0 * 0 + (1 * 1 + 0)) / (1 + 1) + 1 / 100000)).
    { apply Rinv_0_lt_compat, sqrt_lt_R0. lra. }
    lra.
Defined.

(** ** The two halves of one attention call *)

Lemma forward_phases (self : SelfAttention.t) (x : Tensor3) (start_pos : nat)
      (freqs : list (list C)) :
  SelfAttention.forward self x start_pos freqs =
  ('(xq, xk, xv) <- projections self x freqs ;;
   cache_k <- cache_write (SelfAttention.cache_k self) (fst (shape2 x)) start_pos
                          (snd (shape2 x)) xk ;;
   cache_v <- cache_write (SelfAttention.cache_v self) (fst (shape2 x)) start_pos
                          (snd (shape2 x)) xv ;;
   out <- attention_output self xq
            (cache_read cache_k (fst (shape2 x)) (start_pos + snd (shape2 x)))
            (cache_read cache_v (fst (shape2 x)) (start_pos + snd (shape2 x))) ;;
   Ok (out, SelfAttention.update_cache self cache_k cache_v)).
Proof.
  unfold SelfAttention.forward, projections, attention_output.
  destruct (shape2 x) as [B S]; cbn [fst snd].
  destruct (size_of (SelfAttention.n_heads_q self)) as [nq|]; cbn [bind]; [|reflexivity].
  destruct (size_of (SelfAttention.n_kv_heads self)) as [nkv|]; cbn [bind]; [|reflexivity].
  destruct (size_of (SelfAttention.head_dim self)) as [hd|]; cbn [bind]; [|reflexivity].
  destruct (view4 (linear3 (SelfAttention.wq self) x) nq hd) as [xq|];
    cbn [bind]; [|reflexivity].
  destruct (view4 (linear3 (SelfAttention.wk self) x) nkv hd) as [xk|];
    cbn [bind]; [|reflexivity].
  destruct (view4 (linear3 (SelfAttention.wv self) x) nkv hd) as [xv|];
    cbn [bind]; [|reflexivity].
  destruct (rotary_embeddings xq freqs) as [xq'|]; cbn [bind]; [|reflexivity].
  destruct (rotary_embeddings xk freqs) as [xk'|]; cbn [bind]; [|reflexivity].
  destruct (cache_write (SelfAttention.cache_k self) B start_pos S xk') as [ck|];
    cbn [bind]; [|reflexivity].
  destruct (cache_write (SelfAttention.cache_v self) B start_pos S xv) as [cv|];
    cbn [bind]; [|reflexivity].
  cbn [SelfAttention.update_cache SelfAttention.n_rep SelfAttention.head_dim
       SelfAttention.wo].
  destruct (size_of (SelfAttention.n_rep self)); cbn [bind]; [|reflexivity].
  destruct (zip_strict _ _); cbn [bind]; [|reflexivity].
  destruct (mapM _ _); reflexivity.
Qed.

(** ** Slices of nested lists *)

Lemma slice_map {A B} (f : A -> B) (a b : nat) (l : list A) :
  slice a b (map f l) = map f (slice a b l).
Proof.
  unfold slice. rewrite skipn_map, firstn_map. reflexivity.
Qed.

Lemma combine_skipn' {A B} (n : nat) (l1 : list A) (l2 : list B) :
  combine (skipn n l1) (skipn n l2) = skipn n (combine l1 l2).
Proof.
  revert l1 l2; induction n as [|n IH]; intros [|a l1] [|b l2]; simpl; try reflexivity.
  - destruct (skipn n l1); reflexivity.
  - apply IH.
Qed.

Lemma combine_slice {A B} (a b : nat) (l1 : list A) (l2 : list B) :
  combine (slice a b l1) (slice a b l2) = slice a b (combine l1 l2).
Proof.
  unfold slice. rewrite <- combine_skipn', combine_firstn. reflexivity.
Qed.

Lemma mapM_firstn {A B} (f : A -> result B) (n : nat) (l : list A) (l' : list B) :
  mapM f l = Ok l' -> mapM f (firstn n l) = Ok (firstn n l').
Proof.
  revert n l'; induction l as [|a l IH]; intros n l' H.
  - simpl in H. inversion H. destruct n; reflexivity.
  - simpl in H. apply bind_Ok_inv in H as (b & Hb & H).
    apply bind_Ok_inv in H as (bs & Hbs & H). inversion H; subst l'.
    destruct n as [|n]; [reflexivity|]. simpl. rewrite Hb; simpl.
    rewrite (IH n bs Hbs). reflexivity.
Qed.

Lemma mapM_skipn {A B} (f : A -> result B) (n : nat) (l : list A) (l' : list B) :
  mapM f l = Ok l' -> mapM f (skipn n l) = Ok (skipn n l').
Proof.
  revert n l'; induction l as [|a l IH]; intros n l' H.
  - simpl in H. inversion H. destruct n; reflexivity.
  - destruct n as [|n]; [exact H|].
    simpl in H. apply bind_Ok_inv in H as (b & Hb & H).
    apply bind_Ok_inv in H as (bs & Hbs & H). inversion H; subst l'.
    simpl. apply IH; exact Hbs.
Qed.

Lemma mapM_slice {A B} (f : A -> result B) (a b : nat) (l : list A) (l' : list B) :
  mapM f l = Ok l' -> mapM f (slice a b l) = Ok (slice a b l').
Proof.
  intros H; unfold slice. apply mapM_firstn, mapM_skipn, H.
Qed.

(** A computation on every element commutes with a change of the elements
    that it commutes with. *)
Lemma mapM_map_Ok {A A' B B'} (f : A -> result B) (g : A' -> result B')
      (h : A -> A') (k : B -> B') (l : list A) (l' : list B) :
  (forall a b, In a l -> f a = Ok b -> g (h a) = Ok (k b)) ->
  mapM f l = Ok l' -> mapM g (map h l) = Ok (map k l').
Proof.
  revert l'; induction l as [|a l IH]; intros l' Hfg H.
  - simpl in H; inversion H; reflexivity.
  - simpl in H. apply bind_Ok_inv in H as (b & Hb & H).
    apply bind_Ok_inv in H as (bs & Hbs & H). inversion H; subst l'.
    simpl. rewrite (Hfg a b (or_introl eq_refl) Hb); simpl.
    rewrite (IH bs); [reflexivity | | exact Hbs].
    intros a' b' Hin; apply Hfg; right; exact Hin.
Qed.

Lemma slice_single_length {A} (i : nat) (l : list A) :
  (i < length l)%nat -> length (slice i (i + 1) l) = 1%nat.
Proof.
  intros H; rewrite slice_length by lia. lia.
Qed.

Lemma firstn_app_slice {A} (i : nat) (l : list A) :
  firstn i l ++ slice i (i + 1) l = firstn (i + 1) l.
Proof.
  unfold slice. replace (i + 1 - i)%nat with 1%nat by lia.
  revert l; induction i as [|i IH]; intros [|a l]; simpl; try reflexivity.
  f_equal; apply IH.
Qed.

Lemma slice_firstn {A} (i n : nat) (l : list A) :
  (i < n)%nat -> slice i (i + 1) (firstn n l) = slice i (i + 1) l.
Proof.
  intros H. rewrite !slice_one, nth_error_firstn.
  destruct (Nat.ltb_spec i n); [reflexivity | lia].
Qed.

(** ** The projections of one position *)

Lemma view4_slice (x : Tensor3) (n d a b : nat) (y : Tensor4) :
  view4 x n d = Ok y -> view4 (map (slice a b) x) n d = Ok (map (slice a b) y).
Proof.
  unfold view4. apply mapM_map_Ok. intros xb yb _. apply mapM_slice.
Qed.

Lemma mapM_Ok_Forall {A B} (f : A -> result B) (P : B -> Prop) (l : list A) (l' : list B) :
  (forall a b, In a l -> f a = Ok b -> P b) -> mapM f l = Ok l' -> Forall P l'.
Proof.
  revert l'; induction l as [|a l IH]; intros l' HP H.
  - simpl in H; inversion H; constructor.
  - simpl in H. apply bind_Ok_inv in H as (b & Hb & H).
    apply bind_Ok_inv in H as (bs & Hbs & H). inversion H; subst l'.
    constructor; [apply (HP a b (or_introl eq_refl) Hb)|].
    apply IH; [|exact Hbs]. intros a' b' Hin; apply HP; right; exact Hin.
Qed.

Lemma view_heads_length (n d : nat) (v : Vec) (m : Mat) :
  view_heads n d v = Ok m -> length m = n.
Proof.
  unfold view_heads. destruct (length v =? n * d)%nat; [|discriminate].
  intros H; inversion H. rewrite length_map, length_seq. reflexivity.
Qed.

Lemma view4_shape (x : Tensor3) (n d S : nat) (y : Tensor4) :
  view4 x n d = Ok y -> Forall (fun r => length r = S) x ->
  has_shape3 y (length x) S n.
Proof.
  unfold view4; intros H Hx. split; [apply (mapM_Ok_length _ _ _ H)|].
  revert H. apply mapM_Ok_Forall. intros xb yb Hin Hm.
  rewrite Forall_forall in Hx. split.
  - unfold has_shape1. rewrite (mapM_Ok_length _ _ _ Hm). apply Hx, Hin.
  - revert Hm. apply mapM_Ok_Forall. intros v m _. apply view_heads_length.
Qed.

Lemma rotary_shape (x y : Tensor4) (freqs : list (list C)) (B S n : nat) :
  rotary_embeddings x freqs = Ok y -> has_shape3 x B S n -> length freqs = S ->
  has_shape3 y B S n.
Proof.
  unfold rotary_embeddings; intros H [HB Hx] Hf.
  split; [rewrite (mapM_Ok_length _ _ _ H); exact HB|].
  revert H. apply mapM_Ok_Forall. intros xb yb Hin Hm.
  rewrite Forall_forall in Hx. destruct (Hx xb Hin) as [Hxl Hxh].
  unfold has_shape1 in Hxl.
  rewrite broadcast_to_same in Hm by congruence. simpl in Hm. split.
  - unfold has_shape1. rewrite (mapM_Ok_length _ _ _ Hm), length_combine. lia.
  - revert Hm. apply mapM_Ok_Forall. intros [heads frow] heads' Hin' Hm'.
    simpl in Hm'. unfold has_shape1. rewrite (mapM_Ok_length _ _ _ Hm').
    apply in_combine_l in Hin'. rewrite Forall_forall in Hxh. apply Hxh, Hin'.
Qed.

Lemma rotary_slice (x y : Tensor4) (freqs : list (list C)) (i : nat) :
  rotary_embeddings x freqs = Ok y ->
  Forall (fun r => length r = length freqs) x -> (i < length freqs)%nat ->
  rotary_embeddings (map (slice i (i + 1)) x) (slice i (i + 1) freqs)
    = Ok (map (slice i (i + 1)) y).
Proof.
  unfold rotary_embeddings; intros H Hx Hi. revert H.
  apply mapM_map_Ok. intros xb yb Hin Hm.
  rewrite Forall_forall in Hx. specialize (Hx xb Hin).
  rewrite broadcast_to_same in Hm by (symmetry; exact Hx). simpl in Hm.
  rewrite broadcast_to_same
    by (rewrite !slice_single_length by lia; reflexivity).
  simpl. rewrite combine_slice. apply mapM_slice; exact Hm.
Qed.

Lemma linear3_slice (W : Mat) (a b : nat) (x : Tensor3) :
  linear3 W (map (slice a b) x) = map (slice a b) (linear3 W x).
Proof.
  unfold linear3. rewrite !map_map. apply map_ext. intros r.
  symmetry; apply slice_map.
Qed.

Lemma linear3_rows (W : Mat) (x : Tensor3) (S : nat) :
  Forall (fun r => length r = S) x -> Forall (fun r => length r = S) (linear3 W x).
Proof.
  intros H; unfold linear3. apply Forall_map. revert H; apply Forall_impl.
  intros r Hr. rewrite length_map; exact Hr.
Qed.

(** The projections of position [i] alone are the projections of all
    positions at [i]. *)
Lemma project_slice (self : SelfAttention.t) (x : Tensor3) (freqs : list (list C))
      (xq xk xv : Tensor4) (i : nat) :
  projections self x freqs = Ok (xq, xk, xv) ->
  Forall (fun r => length r = length freqs) x -> (i < length freqs)%nat ->
  projections self (map (slice i (i + 1)) x) (slice i (i + 1) freqs)
    = Ok (map (slice i (i + 1)) xq, map (slice i (i + 1)) xk, map (slice i (i + 1)) xv).
Proof.
  unfold projections; intros H Hx Hi.
  apply bind_Ok_inv in H as (nq & -> & H). apply bind_Ok_inv in H as (nkv & -> & H).
  apply bind_Ok_inv in H as (hd & -> & H). cbn [bind].
  apply bind_Ok_inv in H as (q & Hq & H). apply bind_Ok_inv in H as (k & Hk & H).
  apply bind_Ok_inv in H as (v & Hv & H).
  apply bind_Ok_inv in H as (q' & Hq' & H). apply bind_Ok_inv in H as (k' & Hk' & H).
  inversion H; subst xq xk xv; clear H.
  rewrite !linear3_slice.
  rewrite (view4_slice _ _ _ _ _ _ Hq), (view4_slice _ _ _ _ _ _ Hk),
    (view4_slice _ _ _ _ _ _ Hv). cbn [bind].
  assert (Hqs := view4_shape _ _ _ _ _ Hq (linear3_rows _ _ _ Hx)).
  assert (Hks := view4_shape _ _ _ _ _ Hk (linear3_rows _ _ _ Hx)).
  rewrite (rotary_slice _ _ _ _ Hq'), (rotary_slice _ _ _ _ Hk'); try assumption.
  - reflexivity.
  - destruct Hks as [_ Hks]. revert Hks; apply Forall_impl. intros r [Hr _]; exact Hr.
  - destruct Hqs as [_ Hqs]. revert Hqs; apply Forall_impl. intros r [Hr _]; exact Hr.
Qed.

Lemma project_shapes (self : SelfAttention.t) (x : Tensor3) (freqs : list (list C))
      (xq xk xv : Tensor4) :
  projections self x freqs = Ok (xq, xk, xv) ->
  Forall (fun r => length r = length freqs) x ->
  exists nq nkv,
    size_of (SelfAttention.n_heads_q self) = Ok nq /\
    size_of (SelfAttention.n_kv_heads self) = Ok nkv /\
    has_shape3 xq (length x) (length freqs) nq /\
    has_shape3 xk (length x) (length freqs) nkv /\
    has_shape3 xv (length x) (length freqs) nkv.
Proof.
  unfold projections; intros H Hx.
  apply bind_Ok_inv in H as (nq & Hnq & H). apply bind_Ok_inv in H as (nkv & Hnkv & H).
  apply bind_Ok_inv in H as (hd & _ & H).
  apply bind_Ok_inv in H as (q & Hq & H). apply bind_Ok_inv in H as (k & Hk & H).
  apply bind_Ok_inv in H as (v & Hv & H).
  apply bind_Ok_inv in H as (q' & Hq' & H). apply bind_Ok_inv in H as (k' & Hk' & H).
  inversion H; subst xq xk xv; clear H.
  assert (Hqs := view4_shape _ _ _ _ _ Hq (linear3_rows _ _ _ Hx)).
  assert (Hks := view4_shape _ _ _ _ _ Hk (linear3_rows _ _ _ Hx)).
  assert (Hvs := view4_shape _ _ _ _ _ Hv (linear3_rows _ _ _ Hx)).
  unfold linear3 in Hqs, Hks, Hvs. rewrite length_map in Hqs, Hks, Hvs.
  exists nq, nkv. repeat split; try assumption.
  - apply (rotary_shape _ _ _ _ _ _ Hq' Hqs eq_refl).
  - apply (rotary_shape _ _ _ _ _ _ Hq' Hqs eq_refl).
  - apply (rotary_shape _ _ _ _ _ _ Hk' Hks eq_refl).
  - apply (rotary_shape _ _ _ _ _ _ Hk' Hks eq_refl).
  - apply Hvs.
  - apply Hvs.
Qed.

(** ** Reading the cache after a write *)

Lemma mapM_pure {A B} (f : A -> result B) (g : A -> B) (l : list A) :
  (forall a, In a l -> f a = Ok (g a)) -> mapM f l = Ok (map g l).
Proof.
  induction l as [|a l IH]; intros H; [reflexivity|].
  simpl. rewrite (H a (or_introl eq_refl)); simpl.
  rewrite IH by (intros a' Hin; apply H; right; exact Hin). reflexivity.
Qed.

Lemma slice_assign_fits {A} (sp S : nat) (src dst : list A) :
  length src = S -> (sp + S <= length dst)%nat ->
  slice_assign sp (sp + S) src dst = Ok (firstn sp dst ++ src ++ skipn (sp + S) dst).
Proof.
  intros Hs Hd; unfold slice_assign.
  rewrite (Nat.min_l sp) by lia. rewrite (Nat.min_l (sp + S)) by lia.
  rewrite Nat.max_r by lia.
  rewrite broadcast_to_same by lia. reflexivity.
Qed.

Lemma cache_write_fits (c : Tensor4) (B sp S : nat) (x : Tensor4) :
  cache_dims c B (sp + S) -> length x = B -> Forall (fun r => length r = S) x ->
  cache_write c B sp S x = Ok (written c B sp S x).
Proof.
  intros [HB Hc] Hx Hr; unfold cache_write, written.
  rewrite Nat.min_l by exact HB.
  rewrite broadcast_to_same by exact Hx. cbn [bind].
  rewrite (mapM_pure _ (fun p => firstn sp (fst p) ++ snd p ++ skipn (sp + S) (fst p))).
  - reflexivity.
  - intros [dst src] Hin. cbn [fst snd]. apply slice_assign_fits.
    + apply in_combine_r in Hin. rewrite Forall_forall in Hr. apply Hr, Hin.
    + apply in_combine_l in Hin. rewrite Forall_forall in Hc. apply Hc.
      rewrite <- (firstn_skipn B c). apply in_or_app; left; exact Hin.
Qed.

Lemma written_dims (c : Tensor4) (B sp S nb ns : nat) (x : Tensor4) :
  cache_dims c B (sp + S) -> length x = B -> Forall (fun r => length r = S) x ->
  cache_dims c nb ns -> cache_dims (written c B sp S x) nb ns.
Proof.
  intros [HB Hc] Hx Hr [Hnb Hns]; unfold written. split.
  - rewrite length_app, length_map, length_combine, length_firstn, length_skipn. lia.
  - apply Forall_app; split; [|apply Forall_skipn'; exact Hns].
    apply Forall_map, Forall_forall. intros [dst src] Hin. cbn [fst snd].
    assert (Hd : In dst c).
    { apply in_combine_l in Hin. rewrite <- (firstn_skipn B c).
      apply in_or_app; left; exact Hin. }
    apply in_combine_r in Hin.
    rewrite Forall_forall in Hr, Hc, Hns.
    specialize (Hr src Hin). specialize (Hc dst Hd). specialize (Hns dst Hd).
    rewrite !length_app, length_firstn, length_skipn. lia.
Qed.

Lemma zip_with_map_l {A A' B D} (f : A' -> B -> D) (h : A -> A') (l1 : list A) (l2 : list B) :
  zip_with f (map h l1) l2 = map (fun p => f (h (fst p)) (snd p)) (combine l1 l2).
Proof.
  unfold zip_with. revert l2; induction l1 as [|a l1 IH]; intros [|b l2]; simpl;
    try reflexivity.
  f_equal; apply IH.
Qed.

Lemma cache_read_written (c : Tensor4) (B sp S : nat) (x : Tensor4) :
  cache_dims c B (sp + S) -> length x = B -> Forall (fun r => length r = S) x ->
  cache_read (written c B sp S x) B (sp + S) = zip_with (@app (list Vec)) (cache_read c B sp) x.
Proof.
  intros [HB Hc] Hx Hr; unfold cache_read, written.
  rewrite firstn_app, length_map, length_combine, length_firstn.
  replace (B - Nat.min (Nat.min B (length c)) (length x))%nat with 0%nat by lia.
  rewrite firstn_O, app_nil_r.
  rewrite firstn_all2 by (rewrite length_map, length_combine, length_firstn; lia).
  rewrite zip_with_map_l, map_map. apply map_ext_in. intros [dst src] Hin. cbn [fst snd].
  assert (Hd : In dst c).
  { apply in_combine_l in Hin. rewrite <- (firstn_skipn B c).
    apply in_or_app; left; exact Hin. }
  apply in_combine_r in Hin.
  rewrite Forall_forall in Hr, Hc. specialize (Hr src Hin). specialize (Hc dst Hd).
  rewrite app_assoc, firstn_app.
  rewrite length_app, length_firstn.
  replace (sp + S - (Nat.min sp (length dst) + length src))%nat with 0%nat by lia.
  rewrite firstn_O, app_nil_r.
  apply firstn_all2. rewrite length_app, length_firstn. lia.
Qed.

(** ** Transposition *)

Lemma transpose_singletons {A} (l : list A) :
  l <> [] -> transpose (map (fun a => [a]) l) = [l].
Proof.
  induction l as [|a l IH]; intros Hne; [contradiction|].
  destruct l as [|b l]; [reflexivity|].
  change (transpose (map (fun a => [a]) (a :: b :: l)))
    with (zip_with cons [a] (transpose (map (fun a => [a]) (b :: l)))).
  rewrite IH by discriminate. reflexivity.
Qed.

Lemma length_transpose {A} (m : list (list A)) (n : nat) :
  m <> [] -> Forall (fun r => length r = n) m -> length (transpose m) = n.
Proof.
  induction m as [|r m IH]; intros Hne Hall; [contradiction|].
  inversion Hall as [|r' m' Hr Hm]; subst.
  destruct m as [|r2 m].
  - simpl. rewrite length_map. reflexivity.
  - change (transpose (r :: r2 :: m)) with (zip_with cons r (transpose (r2 :: m))).
    rewrite length_zip_with, IH by (discriminate || assumption). lia.
Qed.

Lemma transpose_zip_cons {A} (a : list A) (M : list (list A)) :
  length a = length M -> a <> [] -> transpose (zip_with cons a M) = a :: transpose M.
Proof.
  revert M; induction a as [|a1 a IH]; intros M Hlen Hne; [contradiction|].
  destruct M as [|m1 M]; [discriminate|].
  destruct a as [|a2 a].
  - destruct M; [reflexivity | discriminate].
  - destruct M as [|m2 M]; [discriminate|].
    change (zip_with cons (a1 :: a2 :: a) (m1 :: m2 :: M))
      with ((a1 :: m1) :: (a2 :: m2) :: zip_with cons a M).
    change (transpose ((a1 :: m1) :: (a2 :: m2) :: zip_with cons a M))
      with (zip_with cons (a1 :: m1) (transpose (zip_with cons (a2 :: a) (m2 :: M)))).
    rewrite IH by (simpl in *; lia || discriminate). reflexivity.
Qed.

Lemma zip_with_singletons {X Y} (Gs : list (X -> Y)) (r : list X) :
  zip_with (fun g col => map g col) Gs (map (fun a => [a]) r)
    = map (fun a => [a]) (zip_with (fun g q => g q) Gs r).
Proof.
  unfold zip_with. revert r; induction Gs as [|g Gs IH]; intros [|q r]; simpl;
    try reflexivity.
  f_equal; apply IH.
Qed.

Lemma zip_with_map_cons {X Y} (Gs : list (X -> Y)) (r : list X) (T : list (list X)) :
  zip_with (fun g col => map g col) Gs (zip_with cons r T)
    = zip_with cons (zip_with (fun g q => g q) Gs r)
                    (zip_with (fun g col => map g col) Gs T).
Proof.
  unfold zip_with. revert r T; induction Gs as [|g Gs IH]; intros [|q r] [|t T]; simpl;
    try reflexivity.
  f_equal; apply IH.
Qed.

(** Functions applied column by column to the transpose are, after
    transposing back, applied row by row. *)
Lemma transpose_pointwise {X Y} (Gs : list (X -> Y)) (Q : list (list X)) :
  Gs <> [] -> Forall (fun r => length r = length Gs) Q ->
  transpose (zip_with (fun g col => map g col) Gs (transpose Q))
    = map (fun row => zip_with (fun g q => g q) Gs row) Q.
Proof.
  intros HG; induction Q as [|r Q IH]; intros Hall.
  - simpl. unfold zip_with. rewrite combine_nil. reflexivity.
  - inversion Hall as [|r' Q' Hr HQ]; subst.
    assert (HL : zip_with (fun (g : X -> Y) q => g q) Gs r <> []).
    { intros E. apply (f_equal (@length Y)) in E. rewrite length_zip_with in E.
      destruct Gs; [contradiction|]. destruct r; simpl in *; discriminate. }
    destruct Q as [|r2 Q].
    + simpl. rewrite zip_with_singletons. apply transpose_singletons; exact HL.
    + change (transpose (r :: r2 :: Q)) with (zip_with cons r (transpose (r2 :: Q))).
      rewrite zip_with_map_cons, transpose_zip_cons; [|  | exact HL].
      * rewrite IH by exact HQ. reflexivity.
      * rewrite !length_zip_with.
        rewrite (length_transpose (r2 :: Q) (length Gs)) by (discriminate || exact HQ).
        lia.
Qed.

(** ** Attention row by row *)

Lemma attend_heads (hd : Z) (QT KT VT : Tensor3) :
  length QT = length KT -> length KT = length VT ->
  SelfAttention.attend hd QT KT VT
    = Ok (zip_with (fun (g : Vec -> Vec) col => map g col) (heads_of hd (KT, VT)) QT).
Proof.
  intros H1 H2; unfold SelfAttention.attend, zip_strict.
  rewrite H1, Nat.eqb_refl. cbn [bind].
  rewrite !length_map, length_combine, H1, H2, Nat.min_id, Nat.eqb_refl. cbn [bind].
  f_equal. unfold heads_of, zip_with; cbn [fst snd]. clear H1 H2.
  revert KT VT; induction QT as [|q QT IH]; intros KT VT.
  - simpl. rewrite combine_nil. reflexivity.
  - destruct KT as [|k KT]; [reflexivity|]. destruct VT as [|v VT]; [reflexivity|].
    simpl. f_equal; [|apply IH].
    unfold matmul, attend_head; cbn [fst snd].
    rewrite !map_map. reflexivity.
Qed.

Lemma attend_Ok_lengths (hd : Z) (QT KT VT O : Tensor3) :
  SelfAttention.attend hd QT KT VT = Ok O -> length QT = length KT /\ length KT = length VT.
Proof.
  unfold SelfAttention.attend, zip_strict; intros H.
  destruct (Nat.eqb_spec (length QT) (length KT)) as [E1|]; [|discriminate].
  cbn [bind] in H. rewrite !length_map, length_combine in H.
  destruct (Nat.eqb_spec (Nat.min (length QT) (length KT)) (length VT)) as [E2|];
    [|discriminate].
  split; lia.
Qed.

Lemma combine_map_l {A A' B} (h : A -> A') (l1 : list A) (l2 : list B) :
  combine (map h l1) l2 = map (fun p => (h (fst p), snd p)) (combine l1 l2).
Proof.
  revert l2; induction l1 as [|a l1 IH]; intros [|b l2]; simpl; try reflexivity.
  f_equal; apply IH.
Qed.

Lemma mapM_Ok_In {A B} (f : A -> result B) (l : list A) (l' : list B) (a : A) :
  mapM f l = Ok l' -> In a l -> exists b, f a = Ok b.
Proof.
  intros H Hin. apply In_nth_error in Hin as (i & Hi).
  destruct (mapM_Ok_nth _ _ _ _ _ H Hi) as (b & _ & Hb). eauto.
Qed.

Lemma zip_strict_Ok {A B} (l1 : list A) (l2 : list B) (l : list (A * B)) :
  zip_strict l1 l2 = Ok l -> length l1 = length l2 /\ l = combine l1 l2.
Proof.
  unfold zip_strict. destruct (Nat.eqb_spec (length l1) (length l2)) as [E|];
    [|discriminate].
  intros H; inversion H; auto.
Qed.

Lemma heads_of_length (hd : Z) (kv : Tensor3 * Tensor3) (n : nat) :
  length (fst kv) = n -> length (snd kv) = n -> length (heads_of hd kv) = n.
Proof.
  intros H1 H2; unfold heads_of. rewrite length_map, length_combine. lia.
Qed.

(** When the shapes fit, the layer output is computed row by row. *)
Lemma attention_eq (self : SelfAttention.t) (xq keys values : Tensor4) (rep nq : nat) :
  size_of (SelfAttention.n_rep self) = Ok rep -> (1 <= nq)%nat ->
  attention_fits nq xq (heads_kv rep keys values) ->
  attention_output self xq keys values = Ok (attention_rows self xq (heads_kv rep keys values)).
Proof.
  intros Hrep Hnq [Hlen Hfit]; unfold attention_output. rewrite Hrep; cbn [bind].
  fold (heads_kv rep keys values). set (KV := heads_kv rep keys values) in *.
  unfold zip_strict. rewrite length_map, Hlen, Nat.eqb_refl. cbn [bind].
  rewrite combine_map_l.
  rewrite (mapM_pure _ (fun p => zip_with (fun (g : Vec -> Vec) col => map g col)
                                   (heads_of (SelfAttention.head_dim self) (snd p)) (fst p))).
  - cbn [bind]. f_equal. unfold linear3, attention_rows. rewrite !map_map.
    apply map_ext_in. intros [Q kv] Hin. cbn [fst snd].
    rewrite Forall_forall in Hfit. destruct (Hfit _ Hin) as (HQ & Hreg & Hk & Hv).
    cbn [fst snd] in HQ, Hreg, Hk, Hv.
    assert (HG := heads_of_length (SelfAttention.head_dim self) kv nq Hk Hv).
    rewrite transpose_pointwise.
    + rewrite !map_map. reflexivity.
    + intros E. rewrite E in HG. simpl in HG. lia.
    + rewrite HG. exact Hreg.
  - intros p Hin. apply in_map_iff in Hin as ([Q kv] & <- & Hin). cbn [fst snd].
    rewrite Forall_forall in Hfit. destruct (Hfit _ Hin) as (HQ & Hreg & Hk & Hv).
    cbn [fst snd] in HQ, Hreg, Hk, Hv.
    destruct kv as [KT VT]. cbn [fst snd] in *.
    apply attend_heads; [|congruence].
    rewrite (length_transpose Q nq HQ Hreg). congruence.
Qed.

Lemma attention_Ok_fits (self : SelfAttention.t) (xq keys values : Tensor4) (out : Tensor3)
      (nq : nat) :
  attention_output self xq keys values = Ok out ->
  Forall (fun Q => Q <> [] /\ Forall (fun r => length r = nq) Q) xq ->
  exists rep, size_of (SelfAttention.n_rep self) = Ok rep /\
              attention_fits nq xq (heads_kv rep keys values).
Proof.
  unfold attention_output; intros H Hxq.
  apply bind_Ok_inv in H as (rep & Hrep & H). exists rep. split; [exact Hrep|].
  fold (heads_kv rep keys values) in H. set (KV := heads_kv rep keys values) in *.
  apply bind_Ok_inv in H as (qkv & Hz & H).
  apply zip_strict_Ok in Hz as [Hlen ->]. rewrite length_map in Hlen.
  apply bind_Ok_inv in H as (output & Hm & _).
  split; [exact Hlen|]. apply Forall_forall. intros [Q kv] Hin. cbn [fst snd].
  rewrite Forall_forall in Hxq.
  destruct (Hxq Q (in_combine_l _ _ _ _ Hin)) as [HQ Hreg].
  rewrite combine_map_l in Hm.
  destruct (mapM_Ok_In _ _ _ (transpose Q, kv) Hm) as (O & HO).
  { apply in_map_iff. exists (Q, kv). split; [reflexivity | exact Hin]. }
  cbn [fst snd] in HO. apply attend_Ok_lengths in HO as [H1 H2].
  rewrite (length_transpose Q nq HQ Hreg) in H1. repeat split; congruence.
Qed.

(** ** Keys and values per batch row *)

Lemma repeat_kv_rows (x : Tensor4) (n_rep : nat) :
  repeat_kv x n_rep = map (repeat_rows n_rep) x.
Proof.
  unfold repeat_kv, repeat_rows. destruct (n_rep =? 1)%nat; [|reflexivity].
  symmetry; apply map_id.
Qed.

Lemma repeat_rows_firstn (n_rep j : nat) (M : Tensor3) :
  repeat_rows n_rep (firstn j M) = firstn j (repeat_rows n_rep M).
Proof.
  unfold repeat_rows. destruct (n_rep =? 1)%nat; [reflexivity|].
  symmetry; apply firstn_map.
Qed.

Lemma repeat_rows_regular (n_rep n : nat) (M : Tensor3) :
  Forall (fun r => length r = n) M ->
  exists m, Forall (fun r => length r = m) (repeat_rows n_rep M).
Proof.
  intros H; unfold repeat_rows. destruct (n_rep =? 1)%nat; [eauto|].
  exists (n * n_rep)%nat. apply Forall_map. revert H; apply Forall_impl.
  intros r Hr. rewrite expand_heads_length, Hr. reflexivity.
Qed.

Lemma heads_kv_nth (n_rep : nat) (keys values : Tensor4) (b : nat) :
  nth_error (heads_kv n_rep keys values) b =
  match nth_error keys b, nth_error values b with
  | Some Kb, Some Vb =>
      Some (transpose (repeat_rows n_rep Kb), transpose (repeat_rows n_rep Vb))
  | _, _ => None
  end.
Proof.
  unfold heads_kv. rewrite nth_error_combine, !repeat_kv_rows, !nth_error_map.
  destruct (nth_error keys b), (nth_error values b); reflexivity.
Qed.

Lemma heads_kv_length (n_rep : nat) (keys values : Tensor4) :
  length (heads_kv n_rep keys values) = Nat.min (length keys) (length values).
Proof.
  unfold heads_kv. rewrite length_combine, !length_map, !repeat_kv_rows, !length_map.
  reflexivity.
Qed.

Lemma Forall_combine_nth {A B} (P : A * B -> Prop) (l1 : list A) (l2 : list B) :
  Forall P (combine l1 l2) <->
  (forall i a b, nth_error l1 i = Some a -> nth_error l2 i = Some b -> P (a, b)).
Proof.
  rewrite Forall_forall. split.
  - intros H i a b Ha Hb. apply H. apply (nth_error_In _ i).
    rewrite nth_error_combine, Ha, Hb. reflexivity.
  - intros H [a b] Hin. apply In_nth_error in Hin as (i & Hi).
    rewrite nth_error_combine in Hi.
    destruct (nth_error l1 i) as [a'|] eqn:Ha; [|discriminate].
    destruct (nth_error l2 i) as [b'|] eqn:Hb; [|discriminate].
    inversion Hi; subst. apply (H i); assumption.
Qed.

Lemma length_transpose_firstn {A} (M : list (list A)) (m j : nat) :
  Forall (fun r => length r = m) M -> (1 <= j)%nat ->
  length (transpose (firstn j M)) = length (transpose M).
Proof.
  intros Hreg Hj. destruct M as [|r M]; [rewrite firstn_nil; reflexivity|].
  rewrite (length_transpose (r :: M) m) by (discriminate || exact Hreg).
  apply length_transpose; [|apply Forall_firstn'; exact Hreg].
  destruct j; [lia | discriminate].
Qed.

(** The shapes still fit when the queries of one position meet the keys and
    values of the first [j] positions. *)
Lemma attention_fits_prefix (nq n_rep j : nat) (xq keys values : Tensor4) :
  attention_fits nq xq (heads_kv n_rep keys values) ->
  Forall (fun M => exists n, Forall (fun r => length r = n) M) keys ->
  Forall (fun M => exists n, Forall (fun r => length r = n) M) values ->
  (1 <= j)%nat ->
  attention_fits nq xq (heads_kv n_rep (map (firstn j) keys) (map (firstn j) values)).
Proof.
  intros [Hlen Hfit] Hk Hv Hj. split.
  - rewrite heads_kv_length, !length_map. rewrite heads_kv_length in Hlen. exact Hlen.
  - rewrite Forall_combine_nth in Hfit |- *. intros b Q kv HQ Hkv.
    rewrite heads_kv_nth, !nth_error_map in Hkv.
    destruct (nth_error keys b) as [Kb|] eqn:HKb; [|discriminate].
    destruct (nth_error values b) as [Vb|] eqn:HVb; [|discriminate].
    simpl in Hkv. inversion Hkv; subst kv; clear Hkv. cbn [fst snd].
    assert (Hkv : nth_error (heads_kv n_rep keys values) b
                  = Some (transpose (repeat_rows n_rep Kb), transpose (repeat_rows n_rep Vb)))
      by (rewrite heads_kv_nth, HKb, HVb; reflexivity).
    destruct (Hfit b Q _ HQ Hkv) as (H1 & H2 & H3 & H4). cbn [fst snd] in H1, H2, H3, H4.
    rewrite Forall_forall in Hk, Hv.
    destruct (Hk Kb (nth_error_In _ _ HKb)) as (nk & Hnk).
    destruct (Hv Vb (nth_error_In _ _ HVb)) as (nv & Hnv).
    destruct (repeat_rows_regular n_rep nk Kb Hnk) as (mk & Hmk).
    destruct (repeat_rows_regular n_rep nv Vb Hnv) as (mv & Hmv).
    rewrite !repeat_rows_firstn.
    rewrite (length_transpose_firstn _ mk j Hmk Hj), (length_transpose_firstn _ mv j Hmv Hj).
    auto.
Qed.

Lemma attention_fits_slice (nq i : nat) (xq : Tensor4) (KV : list (Tensor3 * Tensor3)) :
  attention_fits nq xq KV -> Forall (fun Q => (i < length Q)%nat) xq ->
  attention_fits nq (map (slice i (i + 1)) xq) KV.
Proof.
  intros [Hlen Hfit] Hi. split; [rewrite length_map; exact Hlen|].
  rewrite Forall_combine_nth in Hfit |- *. intros b Q' kv HQ' Hkv.
  rewrite nth_error_map in HQ'.
  destruct (nth_error xq b) as [Q|] eqn:HQ; [|discriminate].
  simpl in HQ'. inversion HQ'; subst Q'; clear HQ'. cbn [fst snd].
  destruct (Hfit b Q kv HQ Hkv) as (H1 & H2 & H3 & H4). cbn [fst snd] in H1, H2, H3, H4.
  rewrite Forall_forall in Hi. specialize (Hi Q (nth_error_In _ _ HQ)).
  repeat split; try assumption.
  - intros E. apply (f_equal (@length Mat)) in E.
    rewrite slice_single_length in E by exact Hi. discriminate.
  - apply slice_Forall; exact H2.
Qed.

Lemma attention_rows_slice (self : SelfAttention.t) (a b : nat) (xq : Tensor4)
      (KV : list (Tensor3 * Tensor3)) :
  attention_rows self (map (slice a b) xq) KV = map (slice a b) (attention_rows self xq KV).
Proof.
  unfold attention_rows. rewrite combine_map_l, !map_map. apply map_ext.
  intros [Q kv]; cbn [fst snd]. symmetry; apply slice_map.
Qed.

(** ** One layer fed position by position *)

Lemma map_snd_combine' {A B} (l1 : list A) (l2 : list B) :
  (length l2 <= length l1)%nat -> map snd (combine l1 l2) = l2.
Proof.
  revert l2; induction l1 as [|a l1 IH]; intros [|b l2] H; simpl in *;
    try reflexivity; [lia|].
  f_equal; apply IH; lia.
Qed.

Lemma cache_read_length (c : Tensor4) (B T : nat) :
  (B <= length c)%nat -> length (cache_read c B T) = B.
Proof.
  intros H; unfold cache_read. rewrite length_map, length_firstn. lia.
Qed.

Lemma cache_read_nothing (c : Tensor4) (B : nat) (x : Tensor4) :
  (B <= length c)%nat -> length x = B -> cache_read c B 0 = map (firstn 0) x.
Proof.
  intros Hc Hx; unfold cache_read.
  assert (Hl : length (firstn B c) = length x) by (rewrite length_firstn; lia).
  revert Hl. generalize (firstn B c). clear. intros l; revert x.
  induction l as [|a l IH]; intros [|b x] H; simpl in *; try discriminate; try reflexivity.
  f_equal; apply IH; lia.
Qed.

Lemma zip_with_firstn_slice {A} (i : nat) (l : list (list A)) :
  zip_with (@app A) (map (firstn i) l) (map (slice i (i + 1)) l) = map (firstn (i + 1)) l.
Proof.
  unfold zip_with. induction l as [|r l IH]; simpl; [reflexivity|].
  rewrite firstn_app_slice. f_equal; exact IH.
Qed.

Lemma map_firstn_all {A} (n : nat) (l : list (list A)) :
  Forall (fun r => length r = n) l -> map (firstn n) l = l.
Proof.
  induction 1 as [|r l Hr _ IH]; simpl; [reflexivity|].
  rewrite IH, firstn_all2 by lia. reflexivity.
Qed.

Lemma shape2_rows {A} (x : list (list A)) (S : nat) :
  x <> [] -> Forall (fun r => length r = S) x -> shape2 x = (length x, S).
Proof.
  intros Hne Hall; unfold shape2. destruct x as [|r x]; [contradiction|].
  inversion Hall; subst. reflexivity.
Qed.

Lemma update_cache_id (self : SelfAttention.t) :
  SelfAttention.update_cache self (SelfAttention.cache_k self) (SelfAttention.cache_v self)
    = self.
Proof.
  destruct self; reflexivity.
Qed.

Lemma zip_with_app_nothing {A} (l : list (list A)) :
  zip_with (@app A) (map (firstn 0) l) l = l.
Proof.
  unfold zip_with. induction l as [|r l IH]; simpl; [reflexivity|].
  f_equal; exact IH.
Qed.

Lemma size_of_positive (n : Z) (k : nat) :
  size_of n = Ok k -> (0 < n)%Z -> (1 <= k)%nat.
Proof.
  unfold size_of. destruct (n <? 0)%Z; [discriminate|].
  intros H; inversion H. lia.
Qed.

Lemma shape3_rows (y : Tensor4) (B S n : nat) :
  has_shape3 y B S n -> Forall (fun r => length r = S) y.
Proof.
  intros [_ H]. revert H; apply Forall_impl. intros r [Hr _]; exact Hr.
Qed.

Lemma shape3_regular (y : Tensor4) (B S n : nat) :
  has_shape3 y B S n ->
  Forall (fun M => exists n, Forall (fun r : Mat => length r = n) M) y.
Proof.
  intros [_ H]. revert H; apply Forall_impl. intros r [_ Hr]; exists n; exact Hr.
Qed.

Lemma slice_table {A} (freqs : list A) (p i : nat) :
  (i <= p)%nat -> slice i (i + 1) freqs = slice i (i + 1) (slice 0 (S p) freqs).
Proof.
  intros Hi. unfold slice at 3. rewrite Nat.sub_0_r. simpl skipn.
  symmetry; apply slice_firstn; lia.
Qed.

Lemma table_length {A} (freqs : list A) (p : nat) :
  (p < length freqs)%nat -> length (slice 0 (S p) freqs) = S p.
Proof.
  intros H. rewrite slice_length by lia. lia.
Qed.

Section FedByPosition.

Variables (self : SelfAttention.t) (x : Tensor3) (freqs : list (list C)) (p : nat).
Variables (xq xk xv : Tensor4) (rep nq nkv : nat).

Hypothesis Hx : x <> [].
Hypothesis Hrows : Forall (fun r => length r = S p) x.
Hypothesis Hfreqs : (p < length freqs)%nat.
Hypothesis Hproject : projections self x (slice 0 (S p) freqs) = Ok (xq, xk, xv).
Hypothesis Hrep : size_of (SelfAttention.n_rep self) = Ok rep.
Hypothesis Hnq : (1 <= nq)%nat.
Hypothesis Hq : has_shape3 xq (length x) (S p) nq.
Hypothesis Hk : has_shape3 xk (length x) (S p) nkv.
Hypothesis Hv : has_shape3 xv (length x) (S p) nkv.
Hypothesis Hfits : attention_fits nq xq (heads_kv rep xk xv).

(** One call at the right position, on caches that hold the keys and the
    values of the positions before it. *)
Lemma feed_position_cached (i : nat) (ck cv : Tensor4) :
  (i <= p)%nat ->
  cache_dims ck (length x) (S p) -> cache_dims cv (length x) (S p) ->
  cache_read ck (length x) i = map (firstn i) xk ->
  cache_read cv (length x) i = map (firstn i) xv ->
  exists ck' cv',
    feed_position (SelfAttention.update_cache self ck cv) x freqs 0 i
      = Ok (attention_rows self (map (slice i (i + 1)) xq)
              (heads_kv rep (map (firstn (i + 1)) xk) (map (firstn (i + 1)) xv)),
            SelfAttention.update_cache self ck' cv') /\
    cache_dims ck' (length x) (S p) /\ cache_dims cv' (length x) (S p) /\
    cache_read ck' (length x) (i + 1) = map (firstn (i + 1)) xk /\
    cache_read cv' (length x) (i + 1) = map (firstn (i + 1)) xv.
Proof.
  intros Hi Hck Hcv Hrk Hrv.
  assert (Hone : forall y : Tensor4, Forall (fun r => length r = S p) y ->
                 Forall (fun r => length r = 1%nat) (map (slice i (i + 1)) y)).
  { intros y Hy. apply Forall_map. revert Hy; apply Forall_impl.
    intros r Hr. apply slice_single_length; lia. }
  assert (Hx1 : shape2 (map (slice i (i + 1)) x) = (length x, 1%nat)).
  { rewrite shape2_single; [rewrite length_map; reflexivity | |].
    - destruct x; [contradiction | discriminate].
    - apply Forall_map. revert Hrows; apply Forall_impl.
      intros r Hr. apply slice_single_length; lia. }
  assert (Hp : projections (SelfAttention.update_cache self ck cv) (map (slice i (i + 1)) x)
                       (slice i (i + 1) freqs)
               = Ok (map (slice i (i + 1)) xq, map (slice i (i + 1)) xk,
                     map (slice i (i + 1)) xv)).
  { rewrite (slice_table freqs p i Hi).
    change (projections (SelfAttention.update_cache self ck cv)) with (projections self).
    apply project_slice; [exact Hproject | | rewrite table_length by exact Hfreqs; lia].
    rewrite table_length by exact Hfreqs; exact Hrows. }
  assert (Hdk : cache_dims ck (length x) (i + 1))
    by (apply (cache_dims_mono ck (length x) (S p)); [lia | exact Hck]).
  assert (Hdv : cache_dims cv (length x) (i + 1))
    by (apply (cache_dims_mono cv (length x) (S p)); [lia | exact Hcv]).
  assert (Hlk : length (map (slice i (i + 1)) xk) = length x)
    by (rewrite length_map; apply Hk).
  assert (Hlv : length (map (slice i (i + 1)) xv) = length x)
    by (rewrite length_map; apply Hv).
  exists (written ck (length x) i 1 (map (slice i (i + 1)) xk)),
         (written cv (length x) i 1 (map (slice i (i + 1)) xv)).
  assert (Hnk : cache_read (written ck (length x) i 1 (map (slice i (i + 1)) xk))
                           (length x) (i + 1) = map (firstn (i + 1)) xk).
  { rewrite cache_read_written; [|exact Hdk | exact Hlk | apply Hone, (shape3_rows xk _ _ nkv Hk)].
    rewrite Hrk. apply zip_with_firstn_slice. }
  assert (Hnv : cache_read (written cv (length x) i 1 (map (slice i (i + 1)) xv))
                           (length x) (i + 1) = map (firstn (i + 1)) xv).
  { rewrite cache_read_written; [|exact Hdv | exact Hlv | apply Hone, (shape3_rows xv _ _ nkv Hv)].
    rewrite Hrv. apply zip_with_firstn_slice. }
  split; [|split; [|split; [|split; assumption]]].
  - unfold feed_position. rewrite !Nat.add_0_r, forward_phases, Hp, Hx1. cbn [bind fst snd].
    change (SelfAttention.cache_k (SelfAttention.update_cache self ck cv)) with ck.
    change (SelfAttention.cache_v (SelfAttention.update_cache self ck cv)) with cv.
    rewrite (cache_write_fits ck (length x) i 1) by
      (try assumption; apply Hone, (shape3_rows xk _ _ nkv Hk)).
    rewrite (cache_write_fits cv (length x) i 1) by
      (try assumption; apply Hone, (shape3_rows xv _ _ nkv Hv)).
    cbn [bind]. rewrite Hnk, Hnv.
    change (attention_output (SelfAttention.update_cache self ck cv)) with (attention_output self).
    rewrite (attention_eq self _ _ _ rep nq Hrep Hnq).
    + reflexivity.
    + apply attention_fits_slice.
      * apply attention_fits_prefix;
          [exact Hfits | apply (shape3_regular xk _ _ nkv Hk)
           | apply (shape3_regular xv _ _ nkv Hv) | lia].
      * destruct Hq as [_ Hq']. revert Hq'; apply Forall_impl.
        intros Q [HQ _]. unfold has_shape1 in HQ. lia.
  - apply written_dims; try assumption. apply Hone, (shape3_rows xk _ _ nkv Hk).
  - apply written_dims; try assumption. apply Hone, (shape3_rows xv _ _ nkv Hv).
Qed.

Hypothesis Hck : cache_dims (SelfAttention.cache_k self) (length x) (S p).
Hypothesis Hcv : cache_dims (SelfAttention.cache_v self) (length x) (S p).

(** After the first [i] positions, the caches hold their keys and values. *)
Lemma feed_prefix_cached (i : nat) :
  (i <= S p)%nat ->
  exists ck cv,
    feed_prefix self x freqs 0 i = Ok (SelfAttention.update_cache self ck cv) /\
    cache_dims ck (length x) (S p) /\ cache_dims cv (length x) (S p) /\
    cache_read ck (length x) i = map (firstn i) xk /\
    cache_read cv (length x) i = map (firstn i) xv.
Proof.
  induction i as [|i IH]; intros Hi.
  - exists (SelfAttention.cache_k self), (SelfAttention.cache_v self).
    simpl. rewrite update_cache_id. repeat split; try apply Hck; try apply Hcv.
    + apply cache_read_nothing; [apply Hck | apply Hk].
    + apply cache_read_nothing; [apply Hcv | apply Hv].
  - destruct IH as (ck & cv & Hf & Hdk & Hdv & Hrk & Hrv); [lia|].
    destruct (feed_position_cached i ck cv) as (ck' & cv' & Hstep & Hdk' & Hdv' & Hrk' & Hrv');
      try assumption; [lia|].
    exists ck', cv'. simpl. rewrite Hf; cbn [bind]. rewrite Hstep; cbn [bind].
    rewrite Nat.add_1_r in Hrk', Hrv'. auto.
Qed.

(** The output for position [p] through the cache is row [p] of the
    attention of all queries over all keys and values. *)
Lemma decoded_output_cached :
  decoded_output self x freqs 0 p
    = Ok (map (slice p (p + 1)) (attention_rows self xq (heads_kv rep xk xv))).
Proof.
  unfold decoded_output.
  destruct (feed_prefix_cached p) as (ck & cv & Hf & Hdk & Hdv & Hrk & Hrv); [lia|].
  destruct (feed_position_cached p ck cv) as (ck' & cv' & Hstep & _);
    try assumption; [lia|].
  rewrite Hf; cbn [bind]. rewrite Hstep; cbn [bind]. f_equal.
  rewrite Nat.add_1_r.
  rewrite (map_firstn_all (S p) xk) by apply (shape3_rows xk _ _ nkv Hk).
  rewrite (map_firstn_all (S p) xv) by apply (shape3_rows xv _ _ nkv Hv).
  rewrite <- Nat.add_1_r. apply attention_rows_slice.
Qed.

End FedByPosition.

(** X8. The cache is exact for a layer that is driven at the right
    positions: when one pass of [SelfAttention.forward] over the positions 0
    to [p] returns, feeding the same inputs one position at a time, position
    [i] with [start_pos = i], returns too, and its output for position [p]
    is row [p] of that pass. *)
Lemma cached_attention_equals_full_pass (self self_full : SelfAttention.t) (x out_full : Tensor3)
      (freqs : list (list C)) (p : nat) :
  x <> [] -> Forall (fun r => length r = S p) x -> (p < length freqs)%nat ->
  (0 < SelfAttention.n_heads_q self)%Z ->
  cache_dims (SelfAttention.cache_k self) (length x) (S p) ->
  cache_dims (SelfAttention.cache_v self) (length x) (S p) ->
  SelfAttention.forward self x 0 (slice 0 (S p) freqs) = Ok (out_full, self_full) ->
  decoded_output self x freqs 0 p = Ok (map (slice p (p + 1)) out_full).
Proof.
  intros Hx Hrows Hf Hpos Hck Hcv H.
  rewrite forward_phases, (shape2_rows x (S p) Hx Hrows) in H. cbn [fst snd] in H.
  apply bind_Ok_inv in H as ([[xq xk] xv] & Hp & H).
  assert (Hrows' : Forall (fun r : Mat => length r = length (slice 0 (S p) freqs)) x)
    by (rewrite (table_length freqs p Hf); exact Hrows).
  destruct (project_shapes _ _ _ _ _ _ Hp Hrows') as (nq & nkv & Hnq & _ & Hq & Hk & Hv).
  rewrite (table_length freqs p Hf) in Hq, Hk, Hv.
  assert (Hkr := shape3_rows xk _ _ nkv Hk). assert (Hvr := shape3_rows xv _ _ nkv Hv).
  rewrite (cache_write_fits _ (length x) 0 (S p) xk) in H
    by (try assumption; apply Hk).
  rewrite (cache_write_fits _ (length x) 0 (S p) xv) in H
    by (try assumption; apply Hv).
  cbn [bind] in H.
  rewrite !cache_read_written in H by (try assumption; apply Hk || apply Hv).
  rewrite (cache_read_nothing _ (length x) xk) in H by (apply Hck || apply Hk).
  rewrite (cache_read_nothing _ (length x) xv) in H by (apply Hcv || apply Hv).
  rewrite !zip_with_app_nothing in H.
  apply bind_Ok_inv in H as (out & Hatt & H). inversion H; subst out_full self_full; clear H.
  assert (Hne : Forall (fun Q : Tensor3 => Q <> [] /\ Forall (fun r => length r = nq) Q) xq).
  { destruct Hq as [_ Hq']. revert Hq'; apply Forall_impl. intros Q [HQ Hreg]. split.
    - intros E; rewrite E in HQ; discriminate.
    - exact Hreg. }
  destruct (attention_Ok_fits _ _ _ _ _ nq Hatt Hne) as (rep & Hrep & Hfits).
  assert (Hnq1 := size_of_positive _ _ Hnq Hpos).
  rewrite (attention_eq _ _ _ _ rep nq Hrep Hnq1 Hfits) in Hatt.
  inversion Hatt; subst out.
  apply (decoded_output_cached self x freqs p xq xk xv rep nq nkv); assumption.
Qed.

Lemma cached_attention_equals_full_pass_witness :
  exists out_full self_full,
    SelfAttention.forward value_identity_attention [[[1; 0]; [0; 1]]] 0 (slice 0 2 tiny_table)
      = Ok (out_full, self_full) /\
    decoded_output value_identity_attention [[[1; 0]; [0; 1]]] tiny_table 0 1
      = Ok (map (slice 1 2) out_full).
Proof.
  do 2 eexists. split; [rcbv; reflexivity|].
  eapply (cached_attention_equals_full_pass value_identity_attention _ [[[1; 0]; [0; 1]]] _
            tiny_table 1).
  - discriminate.
  - repeat constructor.
  - unfold tiny_table; rcbv; lia.
  - simpl; lia.
  - split; [simpl; lia | repeat constructor; simpl; lia].
  - split; [simpl; lia | repeat constructor; simpl; lia].
  - rcbv; reflexivity.
Defined.

(** ** Attention through the cache and in one pass *)

Ltac exp_of_zero :=
  repeat match goal with
         | |- context [exp ?a] =>
             replace (exp a) with 1
               by (replace a with 0 by (unfold Rdiv; ring); symmetry; apply exp_0)
         end.

(** Fed with start positions one too high, as the generation loop does, the
    same layer gives for the second of two positions the output [1/3; 1/3],
    where the pass over both positions gives [1/2; 1/2]. *)
Lemma shifted_positions_two_tokens :
  exists out_full self_full out_loop,
    SelfAttention.forward value_identity_attention [[[1; 0]; [0; 1]]] 0 (slice 0 2 tiny_table)
      = Ok (out_full, self_full) /\
    decoded_output value_identity_attention [[[1; 0]; [0; 1]]] tiny_table 1 1 = Ok out_loop /\
    map (slice 1 2) out_full = [[[1 / 2; 1 / 2]]] /\
    out_loop = [[[1 / 3; 1 / 3]]].
Proof.
  do 3 eexists.
  split; [rcbv; reflexivity|]. split; [rcbv; reflexivity|].
  assert (H1 : forall a b c d : R, a = c -> b = d -> [[[a; b]]] = [[[c; d]]])
    by (intros; subst; reflexivity).
  split; rcbv; apply H1; exp_of_zero; field.
Qed.

(** C1 on the code. The layer has zero caches, as after [__init__], and the
    input of the only token of the sequence is [1; 0].  One full pass over
    position 0 ([start_pos = 0]) gives the attention output [1; 0].  The
    generation loop passes the token of grid index 0 with [start_pos = 1]
    (see [decode_loop_cache]): the layer then attends to cache
    positions 0 and 1, position 0 being the never written zero entry, and
    the attention output is [1/2; 0]. *)
Theorem decode_attention_differs_from_full_pass :
  exists out_full out_loop a_full a_loop,
    SelfAttention.forward value_identity_attention [[[1; 0]]] 0 (slice 0 1 tiny_table)
      = Ok (out_full, a_full) /\
    SelfAttention.forward value_identity_attention [[[1; 0]]] 1 (slice 1 2 tiny_table)
      = Ok (out_loop, a_loop) /\
    out_full = [[[1; 0]]] /\
    out_loop = [[[1 / 2; 0]]] /\
    out_full <> out_loop.
Proof.
  do 4 eexists.
  split; [rcbv; reflexivity|]. split; [rcbv; reflexivity|].
  assert (H1 : forall a b c d : R, a = c -> b = d -> [[[a; b]]] = [[[c; d]]])
    by (intros; subst; reflexivity).
  match goal with
  | |- ?f = _ /\ ?l = _ /\ _ =>
      assert (Hf : f = [[[1; 0]]]) by (apply H1; exp_of_zero; field);
      assert (Hl : l = [[[1 / 2; 0]]]) by (apply H1; exp_of_zero; field)
  end.
  split; [exact Hf|]. split; [exact Hl|].
  rewrite Hf, Hl. intros E. injection E as E. lra.
Qed.

(* ================================================================== *)
(** * Further properties of the code *)
(* ================================================================== *)

(** ** Rotary encoding and relative positions *)

Lemma polar_add (a b : R) : polar 1 (a + b) = Cmul (polar 1 a) (polar 1 b).
Proof.
  unfold polar, Cmul; simpl. rewrite cos_plus, sin_plus. f_equal; ring.
Qed.

Lemma Cmul_assoc (a b c : C) : Cmul (Cmul a b) c = Cmul a (Cmul b c).
Proof.
  unfold Cmul; simpl. f_equal; ring.
Qed.

Lemma Cmul_unit_dot (a b f : C) :
  is_unit f ->
  fst (Cmul a f) * fst (Cmul b f) + snd (Cmul a f) * snd (Cmul b f)
    = fst a * fst b + snd a * snd b.
Proof.
  unfold is_unit, Cmul; simpl; intros Hf.
  transitivity ((fst a * fst b + snd a * snd b) * (fst f * fst f + snd f * snd f));
    [ring | rewrite Hf; ring].
Qed.

(** The angles of one table row: [m * theta_i]. *)
Lemma theta_pos_freq_entries (head_dim seq_len : Z) (theta : R) (table : list (list C)) :
  theta_pos_freq head_dim seq_len theta = Ok table ->
  exists thetas,
    length thetas = Nat.div2 (Z.to_nat head_dim + 1) /\
    forall m, (m < Z.to_nat seq_len)%nat ->
      nth_error table m = Some (map (fun t => polar 1 (INR m * t)) thetas).
Proof.
  unfold theta_pos_freq, outer, arange, arange_by2.
  destruct (head_dim <? 0)%Z; [discriminate|].
  destruct (seq_len <? 0)%Z; [discriminate|].
  cbn [bind]; intros H; inversion H; subst; clear H.
  exists (map (fun n => 1 / Rpower theta (n / IZR head_dim))
              (map (fun i => INR (2 * i)) (seq 0 (Nat.div2 (Z.to_nat head_dim + 1))))).
  split; [rewrite !length_map, length_seq; reflexivity|].
  intros m Hm. rewrite !map_map, nth_error_map.
  assert (Hs : nth_error (seq 0 (Z.to_nat seq_len)) m = Some m).
  { rewrite nth_error_nth' with (d := 0%nat) by (rewrite length_seq; exact Hm).
    rewrite seq_nth by exact Hm. reflexivity. }
  rewrite Hs. cbn [option_map]. rewrite !map_map. reflexivity.
Qed.

Lemma polar_shift (m s : nat) (t : R) :
  polar 1 (INR (m + s) * t) = Cmul (polar 1 (INR m * t)) (polar 1 (INR s * t)).
Proof.
  rewrite plus_INR, Rmult_plus_distr_r. apply polar_add.
Qed.

Lemma dot_pairs (a1 a2 b1 b2 : R) (u v : Vec) :
  dot (a1 :: a2 :: u) (b1 :: b2 :: v) = a1 * b1 + a2 * b2 + dot u v.
Proof.
  unfold dot, zip_with; simpl. ring.
Qed.

Lemma zip_with_nil_r {A B D} (f : A -> B -> D) (l : list A) : zip_with f l [] = [].
Proof.
  unfold zip_with. rewrite combine_nil. reflexivity.
Qed.

(** The dot product of two vectors rotated with the rows [m + s] and
    [n + s] of a table is their dot product rotated with the rows [m] and
    [n]. *)
Lemma dot_rotated_shift (thetas : list R) (m n s : nat) (cs ds : list C) :
  dot (view_as_real (zip_with Cmul cs (map (fun t => polar 1 (INR (m + s) * t)) thetas)))
      (view_as_real (zip_with Cmul ds (map (fun t => polar 1 (INR (n + s) * t)) thetas)))
  = dot (view_as_real (zip_with Cmul cs (map (fun t => polar 1 (INR m * t)) thetas)))
        (view_as_real (zip_with Cmul ds (map (fun t => polar 1 (INR n * t)) thetas))).
Proof.
  revert cs ds; induction thetas as [|t thetas IH]; intros cs ds.
  - cbn [map]. rewrite !zip_with_nil_r. reflexivity.
  - destruct cs as [|c cs]; [reflexivity|]. destruct ds as [|d ds]; [reflexivity|].
    cbn [map].
    change (zip_with Cmul (c :: cs) (?f :: ?l)) with (Cmul c f :: zip_with Cmul cs l).
    repeat match goal with
           | |- context [zip_with Cmul (?a :: ?l) (?f :: ?l')] =>
               change (zip_with Cmul (a :: l) (f :: l')) with (Cmul a f :: zip_with Cmul l l')
           end.
    cbn [view_as_real]. rewrite !dot_pairs, (IH cs ds).
    rewrite !polar_shift, <- !Cmul_assoc.
    rewrite (Cmul_unit_dot (Cmul c (polar 1 (INR m * t))) (Cmul d (polar 1 (INR n * t)))
                           (polar 1 (INR s * t)) (polar_unit _)).
    reflexivity.
Qed.

Lemma rotary_one_vector (f : list C) (q q' : Vec) :
  rotary_vec f q = Ok q' -> rotary_embeddings [[[q]]] [f] = Ok [[[q']]].
Proof.
  intros H; unfold rotary_embeddings. simpl. rewrite H. reflexivity.
Qed.

Lemma rotary_vec_row (k m : nat) (thetas : list R) (q : Vec) :
  length q = (2 * k)%nat -> length thetas = k ->
  exists cs, view_as_complex q = Ok cs /\
    rotary_vec (map (fun t => polar 1 (INR m * t)) thetas) q
      = Ok (view_as_real (zip_with Cmul cs (map (fun t => polar 1 (INR m * t)) thetas))).
Proof.
  intros Hq Ht. destruct (view_as_complex_even k q Hq) as (cs & Hcs & Hlen).
  exists cs; split; [exact Hcs|]. unfold rotary_vec. rewrite Hcs; cbn [bind].
  rewrite broadcast_to_same by (rewrite length_map; congruence). reflexivity.
Qed.

(** X1. Relative positions.  For an even head dimension, the dot product of
    a query rotated for position [m + s] and a key rotated for position
    [n + s] is the dot product of the query rotated for [m] and the key
    rotated for [n]: the attention score of two tokens depends on their
    positions through the offset only. *)
Theorem rotary_scores_depend_on_offset (k seq_len m n s : nat) (theta : R) (q key : Vec) :
  length q = (2 * k)%nat -> length key = (2 * k)%nat ->
  (m + s < seq_len)%nat -> (n + s < seq_len)%nat ->
  exists table qm kn qms kns,
    theta_pos_freq (Z.of_nat (2 * k)) (Z.of_nat seq_len) theta = Ok table /\
    rotary_embeddings [[[q]]] (slice m (m + 1) table) = Ok [[[qm]]] /\
    rotary_embeddings [[[key]]] (slice n (n + 1) table) = Ok [[[kn]]] /\
    rotary_embeddings [[[q]]] (slice (m + s) (m + s + 1) table) = Ok [[[qms]]] /\
    rotary_embeddings [[[key]]] (slice (n + s) (n + s + 1) table) = Ok [[[kns]]] /\
    dot qms kns = dot qm kn.
Proof.
  intros Hq Hk Hm Hn.
  destruct (theta_pos_freq_total (Z.of_nat (2 * k)) (Z.of_nat seq_len) theta)
    as (table & Htable); [lia | lia |].
  destruct (theta_pos_freq_entries _ _ _ _ Htable) as (thetas & Hlen & Hrow).
  rewrite !Nat2Z.id in *.
  assert (Hdiv : Nat.div2 (2 * k + 1) = k).
  { rewrite Nat.add_1_r. apply Nat.div2_succ_double. }
  rewrite Hdiv in Hlen.
  destruct (view_as_complex_even k q Hq) as (cs & Hcs & _).
  destruct (view_as_complex_even k key Hk) as (ds & Hds & _).
  assert (Hrot : forall i v es, (i < seq_len)%nat -> length v = (2 * k)%nat ->
            view_as_complex v = Ok es ->
            rotary_embeddings [[[v]]] (slice i (i + 1) table)
              = Ok [[[view_as_real
                        (zip_with Cmul es (map (fun t => polar 1 (INR i * t)) thetas))]]]).
  { intros i v es Hi Hv Hes. rewrite slice_one, (Hrow i Hi).
    apply rotary_one_vector.
    destruct (rotary_vec_row k i thetas v Hv Hlen) as (es' & Hes' & Hr).
    rewrite Hes in Hes'; inversion Hes'; subst es'. exact Hr. }
  exists table. do 4 eexists.
  split; [exact Htable|].
  split; [apply (Hrot m q cs); [lia | exact Hq | exact Hcs]|].
  split; [apply (Hrot n key ds); [lia | exact Hk | exact Hds]|].
  split; [apply (Hrot (m + s)%nat q cs); [lia | exact Hq | exact Hcs]|].
  split; [apply (Hrot (n + s)%nat key ds); [lia | exact Hk | exact Hds]|].
  apply dot_rotated_shift.
Qed.

Lemma rotary_scores_depend_on_offset_witness :
  exists table qm kn qms kns,
    theta_pos_freq 2 8 10000 = Ok table /\
    rotary_embeddings [[[[1; 2]]]] (slice 0 1 table) = Ok [[[qm]]] /\
    rotary_embeddings [[[[3; 4]]]] (slice 2 3 table) = Ok [[[kn]]] /\
    rotary_embeddings [[[[1; 2]]]] (slice 5 6 table) = Ok [[[qms]]] /\
    rotary_embeddings [[[[3; 4]]]] (slice 7 8 table) = Ok [[[kns]]] /\
    dot qms kns = dot qm kn.
Proof.
  apply (rotary_scores_depend_on_offset 1 8 0 2 5 10000 [1; 2] [3; 4]);
    simpl; lia.
Defined.

(** ** The first position *)

Lemma Cmul_polar_zero (c : C) (t : R) : Cmul c (polar 1 (INR 0 * t)) = c.
Proof.
  unfold Cmul, polar. simpl INR. rewrite Rmult_0_l, cos_0, sin_0.
  destruct c as [a b]; simpl. f_equal; ring.
Qed.

Lemma rotate_row_zero (thetas : list R) (cs : list C) :
  length thetas = length cs ->
  zip_with Cmul cs (map (fun t => polar 1 (INR 0 * t)) thetas) = cs.
Proof.
  unfold zip_with. revert cs; induction thetas as [|t thetas IH]; intros [|c cs] H;
    simpl in H; try discriminate; [reflexivity|].
  cbn [map combine fst snd]. rewrite Cmul_polar_zero, IH by lia. reflexivity.
Qed.

Lemma view_as_real_complex (v : Vec) (cs : list C) :
  view_as_complex v = Ok cs -> view_as_real cs = v.
Proof.
  revert cs. 
  assert (H : forall n (v : Vec), (length v <= n)%nat ->
              forall cs, view_as_complex v = Ok cs -> view_as_real cs = v).
  { induction n as [|n IH]; intros w Hw cs Hcs.
    - destruct w; [|simpl in Hw; lia]. simpl in Hcs. inversion Hcs; reflexivity.
    - destruct w as [|a [|b w]]; simpl in Hcs.
      + inversion Hcs; reflexivity.
      + discriminate.
      + apply bind_Ok_inv in Hcs as (cs' & Hcs' & Hcs). inversion Hcs; subst cs.
        simpl. rewrite (IH w); [reflexivity | simpl in Hw; lia | exact Hcs']. }
  intros cs. apply (H (length v)). lia.
Qed.

Lemma mapM_same {A} (f : A -> result A) (l : list A) :
  (forall a, In a l -> f a = Ok a) -> mapM f l = Ok l.
Proof.
  intros H. rewrite (mapM_pure f (fun a => a) l H), map_id. reflexivity.
Qed.

(** X2. The first position is not rotated: with row 0 of the table of
    [theta_pos_freq], [rotary_embeddings] returns its input, a tensor of
    shape (B, 1, H, Head_Dim) with at least one batch row and one head, for
    every even head dimension. *)
Theorem rotary_embeddings_first_position (k seq_len : nat) (theta : R) (x : Tensor4)
        (B H : nat) :
  has_shape4 x B 1 H (2 * k) -> (1 <= B)%nat -> (1 <= H)%nat -> (1 <= seq_len)%nat ->
  exists table,
    theta_pos_freq (Z.of_nat (2 * k)) (Z.of_nat seq_len) theta = Ok table /\
    rotary_embeddings x (slice 0 1 table) = Ok x.
Proof.
  intros [_ Hx] _ _ Hs.
  destruct (theta_pos_freq_total (Z.of_nat (2 * k)) (Z.of_nat seq_len) theta)
    as (table & Htable); [lia | lia |].
  destruct (theta_pos_freq_entries _ _ _ _ Htable) as (thetas & Hlen & Hrow).
  rewrite !Nat2Z.id in *.
  assert (Hdiv : Nat.div2 (2 * k + 1) = k).
  { rewrite Nat.add_1_r. apply Nat.div2_succ_double. }
  rewrite Hdiv in Hlen.
  exists table; split; [exact Htable|].
  change (slice 0 1 table) with (slice 0 (0 + 1) table).
  rewrite (slice_one 0 table), (Hrow 0%nat) by lia.
  unfold rotary_embeddings. apply mapM_same. intros xb Hxb.
  rewrite Forall_forall in Hx. destruct (Hx xb Hxb) as [HS Hpos].
  unfold has_shape1 in HS. rewrite broadcast_to_same by (simpl; congruence). cbn [bind].
  destruct xb as [|heads [|? ?]]; try discriminate. cbn [combine mapM fst snd].
  apply Forall_inv in Hpos. destruct Hpos as [_ Hheads].
  rewrite mapM_same; [reflexivity|].
  intros v Hv. rewrite Forall_forall in Hheads. specialize (Hheads v Hv).
  unfold has_shape1 in Hheads.
  destruct (rotary_vec_row k 0 thetas v Hheads Hlen) as (cs & Hcs & Hr).
  rewrite Hr. f_equal.
  destruct (view_as_complex_even k v Hheads) as (cs' & Hcs' & Hl).
  rewrite Hcs in Hcs'; inversion Hcs'; subst cs'.
  rewrite rotate_row_zero by congruence. apply view_as_real_complex; exact Hcs.
Qed.

Lemma rotary_embeddings_first_position_witness :
  exists table,
    theta_pos_freq 4 8 10000 = Ok table /\
    rotary_embeddings [[[[1; 2; 3; 4]; [5; 6; 7; 8]]]] (slice 0 1 table)
      = Ok [[[[1; 2; 3; 4]; [5; 6; 7; 8]]]].
Proof.
  apply (rotary_embeddings_first_position 2 8 10000 [[[[1; 2; 3; 4]; [5; 6; 7; 8]]]] 1 2).
  - repeat (split; [reflexivity|]); repeat constructor.
  - lia.
  - lia.
  - lia.
Defined.

(** ** An odd head dimension *)

Lemma view_as_complex_odd (k : nat) (v : Vec) :
  length v = (2 * k + 1)%nat -> view_as_complex v = Raise RuntimeError.
Proof.
  revert v; induction k as [|k IH]; intros v Hv.
  - destruct v as [|a [|b v]]; simpl in Hv; try lia. reflexivity.
  - destruct v as [|a [|b v]]; simpl in Hv; try lia.
    simpl. rewrite IH by lia. reflexivity.
Qed.

Lemma broadcast_to_RuntimeError {A} (n : nat) (l : list A) (e : PyError) :
  broadcast_to n l = Raise e -> e = RuntimeError.
Proof.
  unfold broadcast_to. destruct (length l =? n)%nat; [discriminate|].
  destruct l as [|a [|b l]]; intros H; inversion H; reflexivity.
Qed.

(** X3. An odd head dimension cannot be paired: on every non-empty tensor
    whose last dimension is odd, [rotary_embeddings] raises the runtime
    error of the reshape, whatever the table. *)
Theorem rotary_embeddings_odd_dimension (x : Tensor4) (freqs : list (list C))
        (B S H k : nat) :
  has_shape4 x B S H (2 * k + 1) -> (1 <= B)%nat -> (1 <= S)%nat -> (1 <= H)%nat ->
  rotary_embeddings x freqs = Raise RuntimeError.
Proof.
  intros [HB Hx] H1 H2 H3. unfold rotary_embeddings.
  destruct x as [|xb x]; [simpl in HB; lia|].
  apply Forall_inv in Hx. destruct Hx as [HS Hxb]. unfold has_shape1 in HS.
  cbn [mapM].
  destruct (broadcast_to (length xb) freqs) as [fs|e] eqn:Hfs.
  - apply broadcast_to_Ok_length in Hfs. cbn [bind].
    destruct xb as [|heads xb]; [simpl in HS; lia|].
    destruct fs as [|f fs]; [discriminate|].
    apply Forall_inv in Hxb. destruct Hxb as [HH Hheads]. unfold has_shape1 in HH.
    destruct heads as [|v heads]; [simpl in HH; lia|].
    apply Forall_inv in Hheads. unfold has_shape1 in Hheads.
    cbn [combine mapM fst snd]. unfold rotary_vec at 1.
    rewrite (view_as_complex_odd k v Hheads). reflexivity.
  - apply broadcast_to_RuntimeError in Hfs. subst e. reflexivity.
Qed.

Lemma rotary_embeddings_odd_dimension_witness :
  rotary_embeddings [[[[1; 2; 3]]]] [[(1, 0)]] = Raise RuntimeError.
Proof.
  apply (rotary_embeddings_odd_dimension [[[[1; 2; 3]]]] [[(1, 0)]] 1 1 1 1); try lia.
  repeat (split; [reflexivity|]); repeat constructor.
Defined.

(** ** RMSNorm *)

Lemma sum_list_scale (c : R) (l : Vec) :
  sum_list (map (fun a => a * c) l) = sum_list l * c.
Proof.
  induction l as [|a l IH]; simpl; [ring|]. rewrite IH; ring.
Qed.

Lemma sum_squares_nonneg (l : Vec) : 0 <= sum_list (map (fun a => a * a) l).
Proof.
  apply sum_list_nonneg, Forall_map, Forall_forall. intros a _. nra.
Qed.

Lemma mean_squares_nonneg (l : Vec) : l <> [] -> 0 <= RMSNorm.mean (map (fun a => a * a) l).
Proof.
  intros Hne; unfold RMSNorm.mean. rewrite length_map.
  apply Rmult_le_pos; [apply sum_squares_nonneg|].
  apply Rlt_le, Rinv_0_lt_compat, lt_0_INR.
  destruct l; [contradiction | simpl; lia].
Qed.

Lemma zip_with_ones (v : Vec) : zip_with Rmult (repeat 1 (length v)) v = v.
Proof.
  unfold zip_with. induction v as [|a v IH]; simpl; [reflexivity|].
  rewrite IH. f_equal; ring.
Qed.

(** X4. A freshly constructed [RMSNorm] (weight of ones) with a positive
    [eps] maps a non-empty vector [x] of its dimension to a vector of the
    same length whose mean square is [ms / (ms + eps)], [ms] being the mean
    square of [x]: it is below 1, and the zero vector is mapped to itself
    without a division by zero. *)
Theorem RMSNorm_mean_square (dim : Z) (eps : R) (self : RMSNorm.t) (x : Vec) :
  RMSNorm.__init__ dim eps = Ok self -> 0 < eps ->
  length x = Z.to_nat dim -> x <> [] ->
  let ms := RMSNorm.mean (map (fun a => a * a) x) in
  let y := RMSNorm.forward_vec self x in
  length y = length x /\
  RMSNorm.mean (map (fun a => a * a) y) = ms / (ms + eps) /\
  RMSNorm.mean (map (fun a => a * a) y) < 1 /\
  (Forall (fun a => a = 0) x -> y = x).
Proof.
  intros Hinit Heps Hlen Hne ms y. unfold RMSNorm.__init__, torch_ones, size_of in Hinit.
  destruct (dim <? 0)%Z; [discriminate|]. cbn [bind] in Hinit.
  inversion Hinit; subst self; clear Hinit.
  assert (Hms : 0 <= ms) by (apply mean_squares_nonneg; exact Hne).
  set (r := / sqrt (ms + eps)).
  assert (Hy : y = map (fun a => a * r) x).
  { unfold y, RMSNorm.forward_vec, RMSNorm._norm; cbn [RMSNorm.weight RMSNorm.eps].
    fold ms. fold r. rewrite <- Hlen, <- (length_map (fun a => a * r) x).
    apply zip_with_ones. }
  assert (Hr : r * r = / (ms + eps)).
  { unfold r. rewrite <- Rinv_mult. f_equal. apply sqrt_sqrt; lra. }
  assert (Hmean : RMSNorm.mean (map (fun a => a * a) y) = ms / (ms + eps)).
  { rewrite Hy, map_map. unfold RMSNorm.mean. rewrite !length_map.
    rewrite (map_ext (fun a => a * r * (a * r)) (fun a => a * a * (r * r)))
      by (intros; ring).
    rewrite <- (map_map (fun a => a * a) (fun b => b * (r * r))), sum_list_scale, Hr.
    unfold ms, RMSNorm.mean. rewrite length_map. unfold Rdiv. ring. }
  repeat split.
  - rewrite Hy, length_map; reflexivity.
  - exact Hmean.
  - rewrite Hmean. apply (Rmult_lt_reg_r (ms + eps)); [lra|].
    unfold Rdiv. rewrite Rmult_assoc, Rinv_l by lra. lra.
  - intros Hz. rewrite Hy. clearbody r. clear - Hz.
    induction Hz as [|a l Ha _ IH]; simpl; [reflexivity|].
    rewrite IH, Ha. f_equal; ring.
Qed.

Lemma RMSNorm_mean_square_witness :
  exists self,
    RMSNorm.__init__ 2 (1 / 100000) = Ok self /\
    RMSNorm.mean (map (fun a => a * a) (RMSNorm.forward_vec self [3; 4])) < 1.
Proof.
  eexists; split; [reflexivity|].
  apply (RMSNorm_mean_square 2 (1 / 100000) _ [3; 4]); try reflexivity;
    [lra | discriminate].
Defined.

(** ** The hidden size of the feed-forward block *)




(** ** Division by zero at construction *)

Lemma size_of_RuntimeError (n : Z) (e : PyError) : size_of n = Raise e -> e = RuntimeError.
Proof.
  unfold size_of. destruct (n <? 0)%Z; intros H; inversion H; reflexivity.
Qed.

Lemma nn_Linear_RuntimeError (T : TorchRandom) (rng : Rng T) (i o : Z) (e : PyError) :
  nn_Linear T rng i o = Raise e -> e = RuntimeError.
Proof.
  unfold nn_Linear.
  destruct (size_of i) eqn:Ei; cbn [bind];
    [|intros H; inversion H; subst; eapply size_of_RuntimeError; eassumption].
  destruct (size_of o) eqn:Eo; cbn [bind];
    [discriminate | intros H; inversion H; subst; eapply size_of_RuntimeError; eassumption].
Qed.

Lemma torch_zeros4_RuntimeError (a b c d : Z) (e : PyError) :
  torch_zeros4 a b c d = Raise e -> e = RuntimeError.
Proof.
  unfold torch_zeros4.
  repeat match goal with
         | |- bind (size_of ?n) _ = _ -> _ =>
             let E := fresh "E" in
             destruct (size_of n) eqn:E; cbn [bind];
             [|intros H; inversion H; subst; eapply size_of_RuntimeError; eassumption]
         end.
  discriminate.
Qed.

(** X6. [SelfAttention.__init__] raises [ZeroDivisionError] exactly when the
    number of key/value heads ([n_kv_heads], or [n_heads] when it is not
    given) or [n_heads] is zero: the two floor divisions are its only source. *)
Theorem SelfAttention_init_zero_division (T : TorchRandom) (rng : Rng T) (args : ModelArgs.t) :
  SelfAttention.__init__ T rng args = Raise ZeroDivisionError <->
  (match ModelArgs.n_kv_heads args with
   | None => ModelArgs.n_heads args
   | Some k => k
   end = 0%Z \/ ModelArgs.n_heads args = 0%Z).
Proof.
  unfold SelfAttention.__init__, py_floordiv.
  set (nkv := match ModelArgs.n_kv_heads args with
              | None => ModelArgs.n_heads args
              | Some k => k
              end).
  destruct (Z.eqb_spec nkv 0) as [E1|N1]; cbn [bind]; [tauto|].
  destruct (Z.eqb_spec (ModelArgs.n_heads args) 0) as [E2|N2]; cbn [bind]; [tauto|].
  split; [|tauto]. intros H. exfalso.
  repeat match type of H with
         | bind (nn_Linear ?T ?r ?i ?o) _ = _ =>
             let E := fresh "E" in
             destruct (nn_Linear T r i o) as [[? ?]|?] eqn:E; cbn [bind] in H;
             [|inversion H; subst; apply nn_Linear_RuntimeError in E; discriminate]
         | bind (torch_zeros4 ?a ?b ?c ?d) _ = _ =>
             let E := fresh "E" in
             destruct (torch_zeros4 a b c d) eqn:E; cbn [bind] in H;
             [|inversion H; subst; apply torch_zeros4_RuntimeError in E; discriminate]
         end.
  discriminate.
Qed.

(** ** The freshly constructed model *)

Lemma torch_zeros4_Ok (a b c d : Z) (z : Tensor4) :
  torch_zeros4 a b c d = Ok z ->
  z = repeat (repeat (repeat (repeat 0 (Z.to_nat d)) (Z.to_nat c)) (Z.to_nat b)) (Z.to_nat a).
Proof.
  unfold torch_zeros4, size_of.
  destruct (a <? 0)%Z; [discriminate|]. destruct (b <? 0)%Z; [discriminate|].
  destruct (c <? 0)%Z; [discriminate|]. destruct (d <? 0)%Z; [discriminate|].
  cbn [bind]. intros H; inversion H; reflexivity.
Qed.

Lemma SelfAttention_init_caches (T : TorchRandom) (rng rng' : Rng T) (args : ModelArgs.t)
      (a : SelfAttention.t) :
  SelfAttention.__init__ T rng args = Ok (a, rng') ->
  let nkv := match ModelArgs.n_kv_heads args with
             | None => ModelArgs.n_heads args
             | Some k => k
             end in
  let zero := repeat (repeat (repeat (repeat 0
                (Z.to_nat (ModelArgs.dim args / ModelArgs.n_heads args)))
                (Z.to_nat nkv)) (Z.to_nat (ModelArgs.max_seq_len args)))
                (Z.to_nat (ModelArgs.max_batch_size args)) in
  SelfAttention.cache_k a = zero /\ SelfAttention.cache_v a = zero.
Proof.
  intros H nkv zero. unfold SelfAttention.__init__, py_floordiv in H.
  fold nkv in H.
  destruct (nkv =? 0)%Z; [discriminate|]. cbn [bind] in H.
  destruct (ModelArgs.n_heads args =? 0)%Z; [discriminate|]. cbn [bind] in H.
  repeat match type of H with
         | bind (nn_Linear ?T ?r ?i ?o) _ = _ =>
             destruct (nn_Linear T r i o) as [[? ?]|?]; cbn [bind] in H; [|discriminate]
         end.
  apply bind_Ok_inv in H as (ck & Hck & H). apply bind_Ok_inv in H as (cv & Hcv & H).
  inversion H; subst; clear H. cbn [SelfAttention.cache_k SelfAttention.cache_v].
  split; eapply torch_zeros4_Ok; eassumption.
Qed.

Lemma EncoderBlock_init_attention (T : TorchRandom) (rng rng' : Rng T) (args : ModelArgs.t)
      (l : EncoderBlock.t) :
  EncoderBlock.__init__ T rng args = Ok (l, rng') ->
  exists r1 r2, SelfAttention.__init__ T r1 args = Ok (EncoderBlock.attention l, r2).
Proof.
  unfold EncoderBlock.__init__. intros H.
  apply bind_Ok_inv in H as (hd & _ & H).
  apply bind_Ok_inv in H as ([a r1] & Ha & H).
  apply bind_Ok_inv in H as ([f r2] & _ & H).
  apply bind_Ok_inv in H as (n1 & _ & H). apply bind_Ok_inv in H as (n2 & _ & H).
  inversion H; subst; clear H. cbn [EncoderBlock.attention]. eauto.
Qed.

Lemma make_layers_Ok (T : TorchRandom) (args : ModelArgs.t) (n : nat) :
  forall (rng rng' : Rng T) (ls : list EncoderBlock.t),
  Transformer.make_layers T rng args n = Ok (ls, rng') ->
  length ls = n /\
  Forall (fun l => exists r1 r2,
            SelfAttention.__init__ T r1 args = Ok (EncoderBlock.attention l, r2)) ls.
Proof.
  induction n as [|n IH]; intros rng rng' ls H; simpl in H.
  - inversion H; subst. split; [reflexivity | constructor].
  - apply bind_Ok_inv in H as ([l r1] & Hl & H).
    apply bind_Ok_inv in H as ([ls' r2] & Hls & H). inversion H; subst; clear H.
    destruct (IH _ _ _ Hls) as [Hlen Hall]. split; [simpl; congruence|].
    constructor; [|exact Hall]. eapply EncoderBlock_init_attention; eassumption.
Qed.

(** X7. For every configuration with a set vocabulary and sizes that the
    allocations accept ([sizes_ok]), [Transformer.__init__] returns a model
    with [n_layers] layers and a rotary table with one row for each of
    [2 * max_seq_len] positions; in every layer the two caches are equal:
    all zero, with [max_batch_size] rows of [max_seq_len] positions of
    [n_kv_heads] heads of dimension [dim // n_heads]. *)
Theorem constructed_model_caches (T : TorchRandom) (rng : Rng T) (args : ModelArgs.t) :
  sizes_ok args ->
  let nkv := match ModelArgs.n_kv_heads args with
             | None => ModelArgs.n_heads args
             | Some k => k
             end in
  let zero := repeat (repeat (repeat (repeat 0
                (Z.to_nat (ModelArgs.dim args / ModelArgs.n_heads args)))
                (Z.to_nat nkv)) (Z.to_nat (ModelArgs.max_seq_len args)))
                (Z.to_nat (ModelArgs.max_batch_size args)) in
  exists m rng',
    Transformer.__init__ T rng args = Ok (m, rng') /\
    length (Transformer.layers m) = Z.to_nat (ModelArgs.n_layers args) /\
    length (Transformer.freqs_complex m) = Z.to_nat (2 * ModelArgs.max_seq_len args) /\
    Forall (fun l => SelfAttention.cache_k (EncoderBlock.attention l) = zero /\
                     SelfAttention.cache_v (EncoderBlock.attention l) = zero)
           (Transformer.layers m).
Proof.
  intros Hok nkv zero.
  destruct (Transformer_init_ok T rng args Hok) as (m & rng' & Hinit).
  exists m, rng'. split; [exact Hinit|].
  unfold Transformer.__init__ in Hinit.
  apply bind_Ok_inv in Hinit as (_ & _ & H).
  apply bind_Ok_inv in H as ([emb r1] & _ & H).
  apply bind_Ok_inv in H as ([ls r2] & Hls & H).
  apply bind_Ok_inv in H as (norm & _ & H).
  apply bind_Ok_inv in H as ([out r3] & _ & H).
  apply bind_Ok_inv in H as (hd & _ & H).
  apply bind_Ok_inv in H as (table & Htable & H).
  inversion H; subst; clear H. cbn [Transformer.layers Transformer.freqs_complex].
  destruct (make_layers_Ok _ _ _ _ _ _ Hls) as [Hlen Hall].
  destruct (theta_pos_freq_rows _ _ _ _ Htable) as [Hrows _].
  split; [exact Hlen|]. split; [rewrite Hrows; f_equal; lia|].
  revert Hall; apply Forall_impl. intros l (ra & rb & Ha).
  apply (SelfAttention_init_caches _ _ _ _ _ Ha).
Qed.

Lemma constructed_model_caches_witness :
  exists m rng',
    Transformer.__init__ zero_random tt tiny_args = Ok (m, rng') /\
    length (Transformer.layers m) = 1%nat /\
    length (Transformer.freqs_complex m) = 8%nat /\
    Forall (fun l => SelfAttention.cache_k (EncoderBlock.attention l) = [repeat [[0; 0]] 4] /\
                     SelfAttention.cache_v (EncoderBlock.attention l) = [repeat [[0; 0]] 4])
           (Transformer.layers m).
Proof.
  apply (constructed_model_caches zero_random tt tiny_args).
  unfold sizes_ok, tiny_args; simpl; repeat split; lia.
Defined.

(** ** What a call leaves alone *)

Lemma slice_assign_frame {A} (start stop : nat) (src dst row' : list A) :
  slice_assign start stop src dst = Ok row' ->
  length row' = length dst /\
  forall j, (j < start)%nat \/ (stop <= j)%nat -> nth_error row' j = nth_error dst j.
Proof.
  unfold slice_assign; intros H.
  apply bind_Ok_inv in H as (src' & Hb & H). inversion H; subst row'; clear H.
  apply broadcast_to_Ok_length in Hb.
  set (lo := Nat.min start (length dst)) in *.
  set (hi := Nat.max lo (Nat.min stop (length dst))) in *.
  assert (Hlen : length (firstn lo dst ++ src' ++ skipn hi dst) = length dst).
  { rewrite !length_app, length_firstn, length_skipn. unfold hi, lo in *; lia. }
  split; [exact Hlen|]. intros j Hj.
  destruct (Nat.lt_ge_cases j (length dst)) as [Hin|Hout].
  - destruct (Nat.lt_ge_cases j lo) as [Hlo|Hlo].
    + rewrite nth_error_app1 by (rewrite length_firstn; lia).
      rewrite nth_error_firstn. destruct (Nat.ltb_spec j lo); [reflexivity | lia].
    + assert (Hhi : (hi <= j)%nat) by (unfold hi, lo in *; lia).
      rewrite nth_error_app2 by (rewrite length_firstn; lia).
      rewrite nth_error_app2 by (rewrite length_firstn; lia).
      rewrite nth_error_skipn. f_equal. rewrite length_firstn. unfold hi, lo in *; lia.
  - rewrite (proj2 (nth_error_None dst j)) by exact Hout.
    apply nth_error_None. lia.
Qed.

(** [cache[:B, start : start + S] = x] keeps the size of the cache and
    every entry outside of the first [B] rows and of the positions from
    [start] to [start + S - 1]. *)
Lemma cache_write_frame (c c' : Tensor4) (B start S : nat) (x : Tensor4) :
  cache_write c B start S x = Ok c' ->
  length c' = length c /\
  forall b row, nth_error c b = Some row ->
    exists row', nth_error c' b = Some row' /\ length row' = length row /\
      forall j, (B <= b)%nat \/ (j < start)%nat \/ (start + S <= j)%nat ->
                nth_error row' j = nth_error row j.
Proof.
  unfold cache_write; intros H.
  apply bind_Ok_inv in H as (rows & Hb & H).
  apply bind_Ok_inv in H as (new_rows & Hm & H). inversion H; subst c'; clear H.
  pose proof (broadcast_to_Ok_length _ _ _ Hb) as Hrows.
  pose proof (mapM_Ok_length _ _ _ Hm) as Hnew.
  rewrite length_combine, length_firstn, Hrows in Hnew.
  set (nb := Nat.min B (length c)) in *.
  assert (Hnew' : length new_rows = nb) by (unfold nb in *; lia).
  split; [rewrite length_app, length_skipn; unfold nb in *; lia|].
  intros b row Hrow.
  assert (Hbc : (b < length c)%nat) by (apply nth_error_Some; congruence).
  destruct (Nat.lt_ge_cases b nb) as [Hbn|Hbn].
  - rewrite nth_error_app1 by lia.
    destruct (nth_error rows b) as [src|] eqn:Es; [|apply nth_error_None in Es; lia].
    assert (Hc : nth_error (combine (firstn nb c) rows) b = Some (row, src)).
    { rewrite nth_error_combine, nth_error_firstn, Es.
      destruct (Nat.ltb_spec b nb); [rewrite Hrow; reflexivity | lia]. }
    destruct (mapM_Ok_nth _ _ _ _ _ Hm Hc) as (row' & Hr' & Hs). cbn [fst snd] in Hs.
    destruct (slice_assign_frame _ _ _ _ _ Hs) as [Hl Hf].
    exists row'. split; [exact Hr'|]. split; [exact Hl|].
    intros j [HB|Hj]; [unfold nb in *; lia | apply Hf; exact Hj].
  - rewrite nth_error_app2 by lia. rewrite nth_error_skipn.
    replace (nb + (b - length new_rows))%nat with b by lia.
    exists row. split; [exact Hrow|]. split; reflexivity.
Qed.

Lemma cache_write_frame_get2 (c c' : Tensor4) (B start S : nat) (x : Tensor4) :
  cache_write c B start S x = Ok c' ->
  forall b j, (B <= b)%nat \/ (j < start)%nat \/ (start + S <= j)%nat ->
    get2 c' b j = get2 c b j.
Proof.
  intros H b j Hj. destruct (cache_write_frame _ _ _ _ _ _ H) as [Hlen Hf].
  unfold get2. destruct (nth_error c b) as [row|] eqn:Hrow.
  - destruct (Hf b row Hrow) as (row' & -> & _ & Hj'). apply Hj'; exact Hj.
  - apply nth_error_None in Hrow.
    rewrite (proj2 (nth_error_None c' b)) by lia. reflexivity.
Qed.

Lemma SelfAttention_forward_writes (self self' : SelfAttention.t) (x out : Tensor3)
      (p : nat) (freqs : list (list C)) :
  SelfAttention.forward self x p freqs = Ok (out, self') ->
  exists xk xv,
    cache_write (SelfAttention.cache_k self) (fst (shape2 x)) p (snd (shape2 x)) xk
      = Ok (SelfAttention.cache_k self') /\
    cache_write (SelfAttention.cache_v self) (fst (shape2 x)) p (snd (shape2 x)) xv
      = Ok (SelfAttention.cache_v self') /\
    self' = SelfAttention.update_cache self (SelfAttention.cache_k self')
                                       (SelfAttention.cache_v self').
Proof.
  rewrite forward_phases. intros H.
  apply bind_Ok_inv in H as ([[xq xk] xv] & _ & H).
  apply bind_Ok_inv in H as (ck & Hck & H).
  apply bind_Ok_inv in H as (cv & Hcv & H).
  apply bind_Ok_inv in H as (o & _ & H). inversion H; subst out self'; clear H.
  exists xk, xv. cbn [SelfAttention.update_cache SelfAttention.cache_k SelfAttention.cache_v].
  auto.
Qed.

(** X9. [SelfAttention.forward] changes nothing of the layer but the two
    caches, keeps their sizes, and changes no cache entry outside of the rows
    of the batch ([b < B]) and of the positions that the call processes
    ([start_pos <= j < start_pos + Seq_Len]). *)
Theorem SelfAttention_forward_frame (self self' : SelfAttention.t) (x out : Tensor3)
        (start_pos : nat) (freqs : list (list C)) :
  SelfAttention.forward self x start_pos freqs = Ok (out, self') ->
  self' = SelfAttention.update_cache self (SelfAttention.cache_k self')
                                     (SelfAttention.cache_v self') /\
  length (SelfAttention.cache_k self') = length (SelfAttention.cache_k self) /\
  length (SelfAttention.cache_v self') = length (SelfAttention.cache_v self) /\
  forall b j,
    (fst (shape2 x) <= b)%nat \/ (j < start_pos)%nat \/
    (start_pos + snd (shape2 x) <= j)%nat ->
    get2 (SelfAttention.cache_k self') b j = get2 (SelfAttention.cache_k self) b j /\
    get2 (SelfAttention.cache_v self') b j = get2 (SelfAttention.cache_v self) b j.
Proof.
  intros H. destruct (SelfAttention_forward_writes _ _ _ _ _ _ H) as (xk & xv & Hk & Hv & Hs).
  split; [exact Hs|].
  split; [apply (cache_write_frame _ _ _ _ _ _ Hk)|].
  split; [apply (cache_write_frame _ _ _ _ _ _ Hv)|].
  intros b j Hj. split.
  - apply (cache_write_frame_get2 _ _ _ _ _ _ Hk); exact Hj.
  - apply (cache_write_frame_get2 _ _ _ _ _ _ Hv); exact Hj.
Qed.

Lemma SelfAttention_forward_frame_witness :
  exists out self',
    SelfAttention.forward value_identity_attention [[[1; 0]]] 1 (slice 1 2 tiny_table)
      = Ok (out, self') /\
    get2 (SelfAttention.cache_v self') 0 3
      = get2 (SelfAttention.cache_v value_identity_attention) 0 3.
Proof.
  do 2 eexists. split; [rcbv; reflexivity|].
  eapply (SelfAttention_forward_frame value_identity_attention _ [[[1; 0]]] _ 1
            (slice 1 2 tiny_table)).
  - rcbv; reflexivity.
  - right; right; simpl; lia.
Defined.

Lemma cache_write_full (c c' : Tensor4) (B start S : nat) (x : Tensor4) :
  cache_write c B start S x = Ok c' ->
  Forall (fun row => (length row <= start)%nat) c -> c' = c.
Proof.
  intros H Hfull. destruct (cache_write_frame _ _ _ _ _ _ H) as [Hlen Hf].
  apply nth_error_ext. intros b.
  destruct (nth_error c b) as [row|] eqn:Hrow.
  - destruct (Hf b row Hrow) as (row' & Hr' & Hl & Hj). rewrite Hr'. f_equal.
    rewrite Forall_forall in Hfull. specialize (Hfull row (nth_error_In _ _ Hrow)).
    apply nth_error_ext. intros j.
    destruct (Nat.lt_ge_cases j start) as [Hlt|Hge]; [apply Hj; auto|].
    rewrite (proj2 (nth_error_None row j)) by lia.
    apply nth_error_None. lia.
  - apply nth_error_None in Hrow. apply nth_error_None. lia.
Qed.

(** X10. Past the end of the cache nothing is stored and nothing is raised
    for it: when [start_pos] is not below the number of positions of the
    caches, a call of [SelfAttention.forward] that returns leaves the layer
    as it was (the slice assignment is empty), so the keys and values of the
    processed positions are lost. *)
Theorem SelfAttention_forward_past_capacity (self self' : SelfAttention.t) (x out : Tensor3)
        (start_pos : nat) (freqs : list (list C)) :
  SelfAttention.forward self x start_pos freqs = Ok (out, self') ->
  Forall (fun row => (length row <= start_pos)%nat) (SelfAttention.cache_k self) ->
  Forall (fun row => (length row <= start_pos)%nat) (SelfAttention.cache_v self) ->
  self' = self.
Proof.
  intros H Hk Hv.
  destruct (SelfAttention_forward_writes _ _ _ _ _ _ H) as (xk & xv & Hwk & Hwv & Hs).
  rewrite Hs, (cache_write_full _ _ _ _ _ _ Hwk Hk), (cache_write_full _ _ _ _ _ _ Hwv Hv).
  apply update_cache_id.
Qed.

Lemma SelfAttention_forward_past_capacity_witness :
  exists out,
    SelfAttention.forward value_identity_attention [[[1; 0]]] 4 (slice 4 5 tiny_table)
      = Ok (out, value_identity_attention).
Proof.
  assert (H : exists out self',
             SelfAttention.forward value_identity_attention [[[1; 0]]] 4 (slice 4 5 tiny_table)
               = Ok (out, self')) by (do 2 eexists; rcbv; reflexivity).
  destruct H as (out & self' & H). exists out.
  rewrite H. do 2 f_equal.
  apply (SelfAttention_forward_past_capacity value_identity_attention self' [[[1; 0]]] out 4
           (slice 4 5 tiny_table) H);
    repeat constructor.
Defined.

(** ** The whole stack *)

Lemma EncoderBlock_forward_frame (l l' : EncoderBlock.t) (h out : Tensor3)
      (p : nat) (freqs : list (list C)) :
  EncoderBlock.forward l h p freqs = Ok (out, l') ->
  same_weights l l' /\
  forall b j,
    (fst (shape2 h) <= b)%nat \/ (j < p)%nat \/ (p + snd (shape2 h) <= j)%nat ->
    get2 (SelfAttention.cache_k (EncoderBlock.attention l')) b j
      = get2 (SelfAttention.cache_k (EncoderBlock.attention l)) b j /\
    get2 (SelfAttention.cache_v (EncoderBlock.attention l')) b j
      = get2 (SelfAttention.cache_v (EncoderBlock.attention l)) b j.
Proof.
  intros H. apply EncoderBlock_forward_inv in H as (a & Ha & Hl).
  destruct (SelfAttention_forward_writes _ _ _ _ _ _ Ha) as (xk & xv & Hk & Hv & Hs).
  split.
  - unfold same_weights. rewrite <- Hs. symmetry; exact Hl.
  - intros b j Hj.
    assert (Hshape : shape2 (RMSNorm.forward (EncoderBlock.attention_norm l) h) = shape2 h).
    { unfold RMSNorm.forward, shape2. rewrite length_map.
      destruct h as [|r h]; [reflexivity|]. simpl. rewrite length_map. reflexivity. }
    rewrite Hshape in Hk, Hv. split.
    + apply (cache_write_frame_get2 _ _ _ _ _ _ Hk); exact Hj.
    + apply (cache_write_frame_get2 _ _ _ _ _ _ Hv); exact Hj.
Qed.

Lemma shape2_zip_with_le {A B D} (g : A -> B -> D) (a : list (list A)) (b : list (list B)) :
  (fst (shape2 (zip_with (zip_with g) a b)) <= fst (shape2 a))%nat /\
  (snd (shape2 (zip_with (zip_with g) a b)) <= snd (shape2 a))%nat.
Proof.
  unfold shape2; cbn [fst snd]. split.
  - rewrite length_zip_with. lia.
  - destruct a as [|r a]; [unfold zip_with; simpl; lia|].
    destruct b as [|s b]; [unfold zip_with; simpl; lia|].
    change (zip_with (zip_with g) (r :: a) (s :: b))
      with (zip_with g r s :: zip_with (zip_with g) a b).
    cbv beta iota. rewrite length_zip_with. lia.
Qed.

Lemma EncoderBlock_forward_shape (l l' : EncoderBlock.t) (h out : Tensor3)
      (p : nat) (freqs : list (list C)) :
  EncoderBlock.forward l h p freqs = Ok (out, l') ->
  (snd (shape2 out) <= snd (shape2 h))%nat.
Proof.
  unfold EncoderBlock.forward; intros H.
  apply bind_Ok_inv in H as ([a att] & _ & H). inversion H; subst out l'; clear H.
  unfold EncoderBlock.add3.
  etransitivity; [apply shape2_zip_with_le|]. apply shape2_zip_with_le.
Qed.

Lemma run_layers_frame (ls ls' : list EncoderBlock.t) (h h' : Tensor3)
      (p S : nat) (freqs : list (list C)) :
  Transformer.run_layers ls h p freqs = Ok (h', ls') ->
  (snd (shape2 h) <= S)%nat ->
  Forall2 (fun l l' => same_weights l l' /\
                       same_cache_where (fun j => (j < p)%nat \/ (p + S <= j)%nat) l l')
          ls ls'.
Proof.
  revert h ls'; induction ls as [|l ls IH]; intros h ls' H HS; simpl in H.
  - inversion H; constructor.
  - apply bind_Ok_inv in H as ([h1 l1] & Hl & H).
    apply bind_Ok_inv in H as ([h2 ls1] & Hls & H). inversion H; subst h' ls'; clear H.
    pose proof (EncoderBlock_forward_shape _ _ _ _ _ _ Hl) as Hshape.
    constructor; [|apply (IH h1 ls1 Hls); lia].
    destruct (EncoderBlock_forward_frame _ _ _ _ _ _ Hl) as [Hw Hf].
    split; [exact Hw|]. intros b j Hj. apply Hf. lia.
Qed.

(** X11. A call of [Transformer.forward] that returns changes nothing of
    the model but the caches of its layers: the embedding, the norms, the
    output projection, the rotary table and the weights of every layer are
    kept, and in every layer every cache entry at a position other than
    [start_pos] is kept. *)
Theorem Transformer_forward_frame (m m' : Transformer.t) (tokens : list (list Z))
        (start_pos : nat) (logits : Tensor3) :
  Transformer.forward m tokens start_pos = Ok (logits, m') ->
  m' = Transformer.update_layers m (Transformer.layers m') /\
  Forall2 (fun l l' => same_weights l l' /\
                       same_cache_where (fun j => j <> start_pos) l l')
          (Transformer.layers m) (Transformer.layers m').
Proof.
  intros H. apply Transformer_forward_inv in H as (Hone & h & h' & Hemb & Hrun & Hm).
  split; [exact Hm|].
  assert (Hh : (snd (shape2 h) <= 1)%nat).
  { unfold Transformer.embedding in Hemb. unfold shape2 in *.
    destruct tokens as [|r tokens]; simpl in Hemb.
    - inversion Hemb; simpl; lia.
    - apply bind_Ok_inv in Hemb as (hb & Hhb & Hemb).
      apply bind_Ok_inv in Hemb as (hs & _ & Hemb). inversion Hemb; subst h.
      cbn [snd] in *. rewrite (mapM_Ok_length _ _ _ Hhb). lia. }
  pose proof (run_layers_frame _ _ _ _ _ 1 _ Hrun Hh) as HF.
  revert HF. apply Forall2_impl. intros l l' [Hw Hc]. split; [exact Hw|].
  intros b j Hj. apply Hc. lia.
Qed.

Lemma Transformer_forward_frame_witness :
  exists logits m',
    Transformer.forward tiny_model [[0]]%Z 1 = Ok (logits, m') /\
    Forall2 (fun l l' => same_weights l l' /\ same_cache_where (fun j => j <> 1%nat) l l')
            (Transformer.layers tiny_model) (Transformer.layers m').
Proof.
  assert (H : exists logits m', Transformer.forward tiny_model [[0]]%Z 1 = Ok (logits, m'))
    by (do 2 eexists; eval_zero_weights; reflexivity).
  destruct H as (logits & m' & H). exists logits, m'. split; [exact H|].
  apply (Transformer_forward_frame tiny_model m' [[0]]%Z 1 logits H).
Defined.

(** ** Tokens outside of the vocabulary *)

Lemma mapM_raises {A B} (f : A -> result B) (e : PyError) (l : list A) :
  (forall a e', In a l -> f a = Raise e' -> e' = e) ->
  (exists a, In a l /\ f a = Raise e) ->
  mapM f l = Raise e.
Proof.
  induction l as [|a l IH]; intros Honly (a0 & Hin & Ha0); [destruct Hin|].
  simpl. destruct (f a) as [b|e'] eqn:Ea.
  - cbn [bind]. rewrite IH; [reflexivity | |].
    + intros a' e'' Hin'; apply Honly; right; exact Hin'.
    + destruct Hin as [->|Hin]; [congruence|]. eauto.
  - cbn [bind]. f_equal. apply (Honly a); [left; reflexivity | exact Ea].
Qed.

Lemma lookup_token_IndexError (weight : Mat) (tok : Z) (e : PyError) :
  lookup_token weight tok = Raise e -> e = IndexError.
Proof.
  unfold lookup_token. destruct (tok <? 0)%Z; [intros H; inversion H; reflexivity|].
  destruct (nth_error weight (Z.to_nat tok)); [discriminate|].
  intros H; inversion H; reflexivity.
Qed.

Lemma lookup_token_outside (weight : Mat) (tok : Z) :
  (tok < 0)%Z \/ (Z.of_nat (length weight) <= tok)%Z ->
  lookup_token weight tok = Raise IndexError.
Proof.
  intros H; unfold lookup_token. destruct (Z.ltb_spec tok 0); [reflexivity|].
  destruct H as [H|H]; [lia|].
  rewrite (proj2 (nth_error_None weight (Z.to_nat tok))) by lia. reflexivity.
Qed.

Lemma embedding_IndexError (weight : Mat) (tokens : list (list Z)) (tok : Z) :
  (exists row, In row tokens /\ In tok row) ->
  (tok < 0)%Z \/ (Z.of_nat (length weight) <= tok)%Z ->
  Transformer.embedding weight tokens = Raise IndexError.
Proof.
  intros (row & Hrow & Htok) Hout. unfold Transformer.embedding.
  fold (lookup_token weight).
  change (fun tok0 : Z => lookup_token weight tok0) with (lookup_token weight).
  assert (Honly : forall (r : list Z) e, mapM (lookup_token weight) r = Raise e ->
                                         e = IndexError).
  { intros r; induction r as [|t r IH]; intros e H; simpl in H; [discriminate|].
    destruct (lookup_token weight t) eqn:Et; cbn [bind] in H.
    - destruct (mapM (lookup_token weight) r); cbn [bind] in H; [discriminate|].
      inversion H; subst. apply IH; reflexivity.
    - inversion H; subst. eapply lookup_token_IndexError; exact Et. }
  apply mapM_raises.
  - intros r e _ H. apply (Honly r e H).
  - exists row. split; [exact Hrow|]. apply mapM_raises.
    + intros t e _ H. eapply lookup_token_IndexError; exact H.
    + exists tok. split; [exact Htok | apply lookup_token_outside; exact Hout].
Qed.

(** X12. A token id outside of the vocabulary is refused: when the
    sequences have length 1 and some token is negative (as the pad id -1 of
    the tokenizer) or not below the number of embeddings,
    [Transformer.forward] raises [IndexError]; no layer is run. *)
Theorem Transformer_forward_unknown_token (self : Transformer.t) (tokens : list (list Z))
        (start_pos : nat) (tok : Z) :
  snd (shape2 tokens) = 1%nat ->
  (exists row, In row tokens /\ In tok row) ->
  (tok < 0)%Z \/ (Z.of_nat (length (Transformer.tok_embeddings self)) <= tok)%Z ->
  Transformer.forward self tokens start_pos = Raise IndexError.
Proof.
  intros Hone Hin Hout. unfold Transformer.forward.
  destruct (shape2 tokens) as [batch_size seq_len]. cbn [snd] in Hone. subst seq_len.
  cbn [Nat.eqb py_assert bind].
  rewrite (embedding_IndexError _ _ tok Hin Hout). reflexivity.
Qed.

Lemma Transformer_forward_unknown_token_witness :
  Transformer.forward tiny_model [[0]; [-1]]%Z 1 = Raise IndexError /\
  Transformer.forward tiny_model [[2]]%Z 1 = Raise IndexError.
Proof.
  split.
  - apply (Transformer_forward_unknown_token tiny_model [[0]; [-1]]%Z 1 (-1)%Z).
    + reflexivity.
    + exists [-1]%Z. simpl; auto.
    + left; lia.
  - apply (Transformer_forward_unknown_token tiny_model [[2]]%Z 1 2%Z).
    + reflexivity.
    + exists [2]%Z. simpl; auto.
    + right; simpl; lia.
Defined.

(** ** The argument checks of [text_completion] *)

Lemma fold_left_max_ge (l : list nat) (a : nat) :
  (a <= fold_left Nat.max l a)%nat /\ forall x, In x l -> (x <= fold_left Nat.max l a)%nat.
Proof.
  revert a; induction l as [|b l IH]; intros a; simpl.
  - split; [lia | intros x []].
  - destruct (IH (Nat.max a b)) as [H1 H2]. split; [lia|].
    intros x [->|Hx]; [lia | apply H2; exact Hx].
Qed.

Lemma py_max_ge (l : list nat) (m : nat) :
  py_max l = Ok m -> forall x, In x l -> (x <= m)%nat.
Proof.
  destruct l as [|a l]; [discriminate|]. simpl. intros H; inversion H; subst m.
  destruct (fold_left_max_ge l a) as [H1 H2].
  intros x [->|Hx]; [exact H1 | apply H2; exact Hx].
Qed.

Lemma py_max_in (l : list nat) (m : nat) : py_max l = Ok m -> In m l.
Proof.
  destruct l as [|a l]; [discriminate|]. simpl. intros H; inversion H; subst m. clear H.
  revert a; induction l as [|b l IH]; intros a; simpl; [left; reflexivity|].
  destruct (IH (Nat.max a b)) as [E|Hin]; [|right; right; exact Hin].
  destruct (Nat.max_spec a b) as [[_ Hm]|[_ Hm]]; rewrite Hm in *.
  - right; left; exact E.
  - left; exact E.
Qed.

(** X13. [text_completion] checks its arguments before it creates the
    token grid or calls the model: it raises an assertion error when there
    are more prompts than [max_batch_size], and when there is a prompt but
    some prompt has more tokens than [max_seq_len]. *)
Theorem text_completion_size_checks (T : TorchRandom) (self : LLaMA.t) (rng : Rng T)
        (prompts : list (list Z)) (temperature top_p : R) (max_gen_len : option Z) :
  (ModelArgs.max_batch_size (LLaMA.args self) < Z.of_nat (length prompts))%Z \/
  (exists t, In t prompts /\
             (ModelArgs.max_seq_len (LLaMA.args self) < Z.of_nat (length t))%Z) ->
  exists msg,
    LLaMA.text_completion T self rng prompts temperature top_p max_gen_len
      = Raise (AssertionError msg).
Proof.
  intros H. unfold LLaMA.text_completion, LLaMA.generate, py_assert.
  destruct (Z.leb_spec (Z.of_nat (length prompts))
                       (ModelArgs.max_batch_size (LLaMA.args self))) as [Hb|Hb];
    [|eexists; reflexivity].
  destruct H as [H|(t & Hin & Hlong)]; [lia|]. cbn [bind].
  destruct (py_max (map (@length Z) prompts)) as [mx|e] eqn:Emax.
  - cbn [bind].
    assert (Hmx : (length t <= mx)%nat)
      by (apply (py_max_ge _ _ Emax); apply in_map; exact Hin).
    destruct (Z.leb_spec (Z.of_nat mx) (ModelArgs.max_seq_len (LLaMA.args self)));
      [lia | eexists; reflexivity].
  - destruct prompts; [destruct Hin | discriminate].
Qed.

Lemma text_completion_size_checks_witness :
  (exists msg, LLaMA.text_completion zero_random pad_token_llama tt [[0]; [0]]%Z 0 0 None
               = Raise (AssertionError msg)) /\
  (exists msg, LLaMA.text_completion zero_random pad_token_llama tt [[0; 0; 0; 0; 0]]%Z 0 0 None
               = Raise (AssertionError msg)).
Proof.
  split.
  - apply (text_completion_size_checks zero_random pad_token_llama tt [[0]; [0]]%Z 0 0 None).
    left; simpl; lia.
  - apply (text_completion_size_checks zero_random pad_token_llama tt
             [[0; 0; 0; 0; 0]]%Z 0 0 None).
    right. exists [0; 0; 0; 0; 0]%Z. split; [left; reflexivity | simpl; lia].
Defined.

(** X14. An empty list of prompts is not an empty result: when
    [max_batch_size] is not negative, [text_completion] raises the
    [ValueError] of [max()] on an empty sequence. *)
Theorem text_completion_no_prompt (T : TorchRandom) (self : LLaMA.t) (rng : Rng T)
        (temperature top_p : R) (max_gen_len : option Z) :
  (0 <= ModelArgs.max_batch_size (LLaMA.args self))%Z ->
  LLaMA.text_completion T self rng [] temperature top_p max_gen_len = Raise ValueError.
Proof.
  intros H. unfold LLaMA.text_completion, LLaMA.generate, py_assert.
  cbn [length map].
  destruct (Z.leb_spec (Z.of_nat 0) (ModelArgs.max_batch_size (LLaMA.args self))) as [_|Hn];
    [|simpl in Hn; lia].
  reflexivity.
Qed.

Lemma text_completion_no_prompt_witness :
  LLaMA.text_completion zero_random pad_token_llama tt [] 0 0 None = Raise ValueError.
Proof.
  apply (text_completion_no_prompt zero_random pad_token_llama tt 0 0 None).
  simpl; lia.
Defined.

(** ** The shape of the result *)

Lemma generate_row_lengths (T : TorchRandom) (self : LLaMA.t) (rng : Rng T)
      (prompts : list (list Z)) (temperature top_p : R) (max_gen_len : option Z)
      (st : LLaMA.GenState T) :
  LLaMA.generate T self rng prompts temperature top_p max_gen_len = Ok st ->
  exists longest,
    py_max (map (@length Z) prompts) = Ok longest /\
    length (LLaMA.tokens st) = length prompts /\
    Forall (fun row =>
              Z.of_nat (length row)
              = Z.min (ModelArgs.max_seq_len (LLaMA.args self))
                      (match max_gen_len with
                       | Some n => n
                       | None => ModelArgs.max_seq_len (LLaMA.args self) - 1
                       end + Z.of_nat longest))
           (LLaMA.tokens st).
Proof.
  unfold LLaMA.generate; intros H.
  apply bind_Ok_inv in H as ([] & _ & H).
  apply bind_Ok_inv in H as (mpl & Hmax & H).
  apply bind_Ok_inv in H as ([] & _ & H).
  apply bind_Ok_inv in H as (total & Htot & H).
  apply bind_Ok_inv in H as (rows0 & Hinit & Hloop).
  exists mpl. split; [exact Hmax|].
  destruct (initial_tokens_rows _ _ _ _ Hinit) as [Hlen Hrows0].
  set (pad := Tokenizer.pad_id (LLaMA.tokenizer self)) in *.
  destruct (decode_loop_rows _ _ _ _ _ _ _ _ Hloop) as [HlenL Hrows].
  { unfold LLaMA.prompt_mask; simpl; rewrite length_map; reflexivity. }
  { simpl; rewrite repeat_length; congruence. }
  simpl in HlenL, Hrows. split; [congruence|].
  assert (Htotal : Z.of_nat total
                   = Z.min (ModelArgs.max_seq_len (LLaMA.args self))
                           (match max_gen_len with
                            | Some n => n
                            | None => ModelArgs.max_seq_len (LLaMA.args self) - 1
                            end + Z.of_nat mpl)).
  { unfold size_of in Htot.
    destruct (Z.ltb_spec (Z.min (ModelArgs.max_seq_len (LLaMA.args self))
                (match max_gen_len with
                 | Some n => n
                 | None => ModelArgs.max_seq_len (LLaMA.args self) - 1
                 end + Z.of_nat mpl)) 0); [discriminate|].
    inversion Htot; lia. }
  rewrite <- Htotal. apply Forall_forall. intros row Hin.
  apply In_nth_error in Hin as (b & Hb).
  assert (Hbl : (b < length prompts)%nat).
  { rewrite <- Hlen, <- HlenL. apply nth_error_Some; congruence. }
  destruct (nth_error prompts b) as [t|] eqn:Ht; [|apply nth_error_None in Ht; lia].
  destruct (Hrows0 b t Ht) as (row0 & Hr0 & Hl0 & _).
  destruct (Hrows b _ row0 (prompt_mask_nth pad rows0 b row0 Hr0) Hr0) as (row' & Hr & Hl & _).
  { apply Forall_forall; intros q Hq. apply seq_positions in Hq; lia. }
  rewrite Hb in Hr; inversion Hr; subst row'. f_equal. congruence.
Qed.

(** X15. A call of [text_completion] that returns gives one token sequence
    and one text for each prompt, the text being the decoding of the
    sequence; no sequence is longer than
    [min(max_seq_len, max_gen_len + longest prompt)], and the tokenizer and
    the configuration of the object are unchanged. *)
Theorem text_completion_result_shape (T : TorchRandom) (self self' : LLaMA.t) (rng rng' : Rng T)
        (prompts : list (list Z)) (temperature top_p : R) (max_gen_len : option Z)
        (out_tokens : list (list Z)) (out_text : list string) :
  LLaMA.text_completion T self rng prompts temperature top_p max_gen_len
    = Ok ((out_tokens, out_text), self', rng') ->
  length out_tokens = length prompts /\
  length out_text = length prompts /\
  out_text = map (Tokenizer.decode (LLaMA.tokenizer self)) out_tokens /\
  (exists longest,
     py_max (map (@length Z) prompts) = Ok longest /\
     Forall (fun row =>
               (Z.of_nat (length row)
                <= Z.min (ModelArgs.max_seq_len (LLaMA.args self))
                         (match max_gen_len with
                          | Some n => n
                          | None => ModelArgs.max_seq_len (LLaMA.args self) - 1
                          end + Z.of_nat longest))%Z)
            out_tokens) /\
  LLaMA.tokenizer self' = LLaMA.tokenizer self /\ LLaMA.args self' = LLaMA.args self.
Proof.
  unfold LLaMA.text_completion; intros H.
  apply bind_Ok_inv in H as (st & Hg & H).
  apply bind_Ok_inv in H as (out & Hcut & H).
  inversion H; subst out_tokens out_text self' rng'; clear H.
  destruct (generate_row_lengths _ _ _ _ _ _ _ _ Hg) as (longest & Hmax & Hlen & Hrows).
  pose proof (mapM_Ok_length _ _ _ Hcut) as Hout.
  split; [congruence|]. split; [rewrite length_map; congruence|].
  split; [reflexivity|]. split; [|split; reflexivity].
  exists longest. split; [exact Hmax|].
  apply Forall_forall. intros ret Hin. apply In_nth_error in Hin as (b & Hb).
  assert (Hbl : (b < length (LLaMA.tokens st))%nat).
  { rewrite <- Hout. apply nth_error_Some; congruence. }
  destruct (nth_error (LLaMA.tokens st) b) as [row|] eqn:Hrow;
    [|apply nth_error_None in Hrow; lia].
  destruct (mapM_Ok_nth _ _ _ _ _ Hcut Hrow) as (ret' & Hret & Hc).
  rewrite Hb in Hret; inversion Hret; subst ret'.
  destruct (cut_at_eos_prefix _ _ _ Hc) as (n & ->).
  rewrite Forall_forall in Hrows. specialize (Hrows row (nth_error_In _ _ Hrow)).
  rewrite length_firstn. lia.
Qed.

Lemma text_completion_result_shape_witness :
  exists out_tokens out_text self' rng',
    LLaMA.text_completion zero_random sentencepiece_llama tt [[1]]%Z 0 0 (Some 2%Z)
      = Ok ((out_tokens, out_text), self', rng') /\
    length out_tokens = 1%nat /\ length out_text = 1%nat.
Proof.
  assert (H : exists res,
             LLaMA.text_completion zero_random sentencepiece_llama tt [[1]]%Z 0 0 (Some 2%Z)
               = Ok res) by (eexists; eval_zero_weights; reflexivity).
  destruct H as ([[[out_tokens out_text] self'] rng'] & H).
  exists out_tokens, out_text, self', rng'. split; [exact H|].
  destruct (text_completion_result_shape _ _ _ _ _ _ _ _ _ _ _ H) as (H1 & H2 & _).
  split; assumption.
Defined.

(** ** The truncated distribution *)

Lemma map_snd_combine_seq (v : Vec) (s : nat) :
  map snd (combine v (seq s (length v))) = seq s (length v).
Proof.
  revert s; induction v as [|a v IH]; intros s; simpl; [reflexivity|].
  rewrite IH; reflexivity.
Qed.

Lemma sum_list_div (l : Vec) (s : R) :
  sum_list (map (fun a => a / s) l) = sum_list l / s.
Proof.
  induction l as [|a l IH]; simpl; [unfold Rdiv; ring|].
  rewrite IH. unfold Rdiv; ring.
Qed.

(** The sorted row of a distribution, and what is left of it after the
    mask: the first entry is kept and positive. *)
Lemma masked_distribution (probs : Vec) (p : R) :
  Forall (fun x => 0 <= x) probs -> sum_list probs = 1 -> 0 <= p ->
  let masked := masked_fill (top_p_mask p (cumsum (map fst (sort_desc probs)))
                                        (map fst (sort_desc probs)))
                            (map fst (sort_desc probs)) 0 in
  0 < sum_list masked /\ Forall (fun x => 0 <= x) masked /\
  length masked = length probs.
Proof.
  intros Hpos Hsum Hp masked.
  destruct (sort_desc_head probs Hpos Hsum) as (w & top & rest & Es & _ & Hw & _ & Hrest).
  assert (Hlen : length (sort_desc probs) = length probs).
  { rewrite (Permutation_length (sort_desc_perm probs)), length_combine, length_seq. lia. }
  unfold masked. rewrite Es in *.
  change (map fst ((w, top) :: rest)) with (w :: map fst rest).
  rewrite masked_head by exact Hp.
  destruct (masked_tail_nonneg p (0 + w) (map fst rest) Hrest) as [Hnn Hl].
  pose proof (sum_list_nonneg _ Hnn) as Hs.
  repeat split.
  - simpl. lra.
  - constructor; [lra | exact Hnn].
  - simpl. rewrite Hl, length_map. simpl in Hlen. exact Hlen.
Qed.

(** X16. The weights that [_sample_top_p] gives to [torch.multinomial].
    For a probability distribution [probs] and a threshold [p >= 0], they
    are a probability distribution again (non-negative, of sum 1, one weight
    for each token), and the vocabulary indices that go with them are a
    permutation of the vocabulary. *)
Theorem top_p_distribution_normalised (probs : Vec) (p : R) :
  Forall (fun x => 0 <= x) probs -> sum_list probs = 1 -> 0 <= p ->
  sum_list (fst (top_p_distribution probs p)) = 1 /\
  Forall (fun x => 0 <= x) (fst (top_p_distribution probs p)) /\
  length (fst (top_p_distribution probs p)) = length probs /\
  Permutation (snd (top_p_distribution probs p)) (seq 0 (length probs)).
Proof.
  intros Hpos Hsum Hp.
  destruct (masked_distribution probs p Hpos Hsum Hp) as (Hs & Hnn & Hl).
  unfold top_p_distribution; cbn [fst snd].
  set (masked := masked_fill _ _ _) in *.
  repeat split.
  - rewrite sum_list_div. unfold Rdiv. apply Rinv_r. lra.
  - apply Forall_map. revert Hnn; apply Forall_impl. intros a Ha.
    apply Rmult_le_pos; [exact Ha|]. apply Rlt_le, Rinv_0_lt_compat; exact Hs.
  - rewrite length_map; exact Hl.
  - rewrite <- (map_snd_combine_seq probs 0). apply Permutation_map, sort_desc_perm.
Qed.

Lemma top_p_distribution_normalised_witness :
  sum_list (fst (top_p_distribution [/ 4; 3 / 4] (1 / 2))) = 1.
Proof.
  apply (top_p_distribution_normalised [/ 4; 3 / 4] (1 / 2)).
  - repeat constructor; lra.
  - simpl; lra.
  - lra.
Defined.

Lemma masked_none (p acc : R) (l : Vec) :
  Forall (fun x => 0 <= x) l -> acc + sum_list l <= p ->
  masked_fill (top_p_mask p (cumsum_from acc l) l) l 0 = l.
Proof.
  unfold masked_fill, top_p_mask, zip_with.
  intros H; revert acc; induction H as [|a l Ha Hl IH]; intros acc Hacc; simpl.
  - reflexivity.
  - simpl in Hacc. pose proof (sum_list_nonneg l Hl) as Hs.
    rewrite IH by lra.
    destruct (Rgt_dec (acc + a - a) p); [lra | reflexivity].
Qed.

(** X17. A threshold [p >= 1] truncates nothing: the weights are the sorted
    probabilities themselves. *)
Theorem top_p_one_keeps_all (probs : Vec) (p : R) :
  Forall (fun x => 0 <= x) probs -> sum_list probs = 1 -> 1 <= p ->
  fst (top_p_distribution probs p) = map fst (sort_desc probs).
Proof.
  intros Hpos Hsum Hp.
  assert (Hvals : Permutation (map fst (sort_desc probs)) probs).
  { rewrite <- (map_fst_combine_seq probs 0) at 2. apply Permutation_map, sort_desc_perm. }
  assert (Hs : sum_list (map fst (sort_desc probs)) = 1)
    by (rewrite (sum_list_perm _ _ Hvals); exact Hsum).
  assert (Hnn : Forall (fun x => 0 <= x) (map fst (sort_desc probs)))
    by (eapply Permutation_Forall; [symmetry; exact Hvals | exact Hpos]).
  unfold top_p_distribution; cbn [fst]. unfold cumsum.
  rewrite masked_none by (assumption || lra).
  rewrite Hs. rewrite <- (map_id (map fst (sort_desc probs))) at 2.
  apply map_ext. intros a. unfold Rdiv. rewrite Rinv_1. ring.
Qed.

Lemma top_p_one_keeps_all_witness :
  fst (top_p_distribution [/ 4; 3 / 4] 1) = map fst (sort_desc [/ 4; 3 / 4]).
Proof.
  apply (top_p_one_keeps_all [/ 4; 3 / 4] 1).
  - repeat constructor; lra.
  - simpl; lra.
  - lra.
Defined.

(** ** The candidates are the most probable tokens *)

Lemma top_p_candidates_from (probs : Vec) (p : R) :
  top_p_candidates probs p
  = candidates_from p
      (sum_list (masked_fill (top_p_mask p (cumsum (map fst (sort_desc probs)))
                                         (map fst (sort_desc probs)))
                             (map fst (sort_desc probs)) 0))
      0 (sort_desc probs).
Proof.
  reflexivity.
Qed.

Lemma candidates_from_cons (p s acc x : R) (i : nat) (l : list (R * nat)) :
  0 < s ->
  candidates_from p s acc ((x, i) :: l)
  = (if Rle_dec acc p then if Rlt_dec 0 x then [i] else [] else [])
      ++ candidates_from p s (acc + x) l.
Proof.
  intros Hs. unfold candidates_from, masked_fill, top_p_mask, zip_with.
  cbn [map combine cumsum_from fst snd filter].
  destruct (Rgt_dec (acc + x - x) p) as [Hgt|Hle]; cbn [fst snd].
  - destruct (Rlt_dec 0 (0 / s)) as [H|_];
      [unfold Rdiv in H; rewrite Rmult_0_l in H; lra|].
    destruct (Rle_dec acc p); [lra | reflexivity].
  - destruct (Rle_dec acc p) as [_|Hn]; [|lra].
    destruct (Rlt_dec 0 (x / s)) as [H|H]; destruct (Rlt_dec 0 x) as [Hx|Hx];
      try reflexivity; exfalso.
    + apply Hx. apply (Rmult_lt_reg_r (/ s)); [apply Rinv_0_lt_compat; exact Hs|].
      unfold Rdiv in H. lra.
    + apply H. apply Rdiv_lt_0_compat; assumption.
Qed.

Lemma In_candidates_from (p s : R) (j : nat) (l : list (R * nat)) :
  0 < s -> Forall (fun e => 0 <= fst e) l ->
  forall acc,
  In j (candidates_from p s acc l) <->
  exists x pre post, l = pre ++ (x, j) :: post /\
                     acc + sum_list (map fst pre) <= p /\ 0 < x.
Proof.
  intros Hs Hnn. induction Hnn as [|[x i] l Hx Hl IH]; intros acc.
  - split; [intros [] | intros (x & pre & post & E & _)].
    destruct pre; discriminate.
  - rewrite candidates_from_cons by exact Hs. rewrite in_app_iff, IH. cbn [fst] in Hx.
    split.
    + intros [Hhead|(y & pre & post & E & Hacc & Hy)].
      * destruct (Rle_dec acc p) as [Ha|]; [|destruct Hhead].
        destruct (Rlt_dec 0 x) as [Hpos|]; [|destruct Hhead].
        destruct Hhead as [<-|[]].
        exists x, [], l. simpl. repeat split; [lra | exact Hpos].
      * exists y, ((x, i) :: pre), post. subst l. simpl. repeat split; [lra | exact Hy].
    + intros (y & pre & post & E & Hacc & Hy).
      destruct pre as [|e pre]; simpl in E; inversion E; subst.
      * left. simpl in Hacc.
        destruct (Rle_dec acc p) as [_|Hn]; [|lra].
        destruct (Rlt_dec 0 y) as [_|Hn]; [left; reflexivity | lra].
      * right. exists y, pre, post. simpl in Hacc. repeat split; [lra | exact Hy].
Qed.

Lemma desc_after (pre post : list (R * nat)) (a : R * nat) :
  StronglySorted (fun a b : R * nat => fst b <= fst a) (pre ++ a :: post) ->
  Forall (fun b => fst b <= fst a) post.
Proof.
  induction pre as [|e pre IH]; simpl; intros H.
  - inversion H; assumption.
  - inversion H; auto.
Qed.

Lemma In_combine_nth (v : Vec) (i : nat) (a : R) :
  nth_error v i = Some a -> In (a, i) (combine v (seq 0 (length v))).
Proof.
  intros H. apply (nth_error_In _ i). rewrite nth_error_combine, H.
  assert (Hi : (i < length v)%nat) by (apply nth_error_Some; congruence).
  rewrite nth_error_nth' with (d := 0%nat) by (rewrite length_seq; exact Hi).
  rewrite seq_nth by exact Hi. reflexivity.
Qed.

Lemma sorted_entry (probs : Vec) (x : R) (i : nat) :
  In (x, i) (sort_desc probs) <-> nth_error probs i = Some x.
Proof.
  split; intros H.
  - apply (Permutation_in _ (sort_desc_perm probs)) in H.
    apply In_combine_seq in H as [_ H]. rewrite Nat.sub_0_r in H. exact H.
  - apply (Permutation_in _ (Permutation_sym (sort_desc_perm probs))).
    apply In_combine_nth; exact H.
Qed.

(** X18. The candidates are the most probable tokens: when a token can be
    drawn, every token with a strictly larger probability can be drawn
    too. *)
Theorem top_p_candidates_upward_closed (probs : Vec) (p : R) (i j : nat) (xi xj : R) :
  Forall (fun x => 0 <= x) probs -> sum_list probs = 1 -> 0 <= p ->
  In i (top_p_candidates probs p) ->
  nth_error probs i = Some xi -> nth_error probs j = Some xj -> xi < xj ->
  In j (top_p_candidates probs p).
Proof.
  intros Hpos Hsum Hp Hi Hxi Hxj Hlt.
  destruct (masked_distribution probs p Hpos Hsum Hp) as (Hs & _ & _).
  rewrite top_p_candidates_from in *. set (s := sum_list (masked_fill _ _ _)) in *.
  assert (Hvals : Permutation (map fst (sort_desc probs)) probs).
  { rewrite <- (map_fst_combine_seq probs 0) at 2. apply Permutation_map, sort_desc_perm. }
  assert (Hnn : Forall (fun e : R * nat => 0 <= fst e) (sort_desc probs)).
  { apply Forall_map. eapply Permutation_Forall; [symmetry; exact Hvals | exact Hpos]. }
  apply (In_candidates_from p s i _ Hs Hnn) in Hi as (x & pre & post & E & Hacc & Hx).
  apply (In_candidates_from p s j _ Hs Hnn).
  assert (Hx' : x = xi).
  { assert (Hin : In (x, i) (sort_desc probs)) by (rewrite E; apply in_elt).
    apply sorted_entry in Hin. congruence. }
  subst x.
  assert (Hj : In (xj, j) (sort_desc probs)) by (apply sorted_entry; exact Hxj).
  pose proof (sort_desc_sorted probs) as Hsorted. rewrite E in Hsorted, Hj, Hnn.
  apply in_app_or in Hj. destruct Hj as [Hj|[Hj|Hj]].
  - apply in_split in Hj as (pre1 & pre2 & Epre).
    exists xj, pre1, (pre2 ++ (xi, i) :: post). split.
    + rewrite E, Epre, <- app_assoc. reflexivity.
    + split; [|lra].
      apply Forall_app in Hnn as [Hnn _]. rewrite Epre in Hnn, Hacc.
      apply Forall_app in Hnn as [_ Hnn2].
      rewrite map_app in Hacc. cbn [map fst] in Hacc.
      assert (Hsplit : sum_list (map fst pre1 ++ xj :: map fst pre2)
                       = sum_list (map fst pre1) + (xj + sum_list (map fst pre2))).
      { clear. induction (map fst pre1) as [|a l IH]; simpl; [ring|]. rewrite IH; ring. }
      rewrite Hsplit in Hacc.
      assert (H2 : 0 <= sum_list (map fst pre2)).
      { apply sum_list_nonneg, Forall_map. inversion Hnn2; assumption. }
      lra.
  - inversion Hj; lra.
  - apply desc_after in Hsorted. rewrite Forall_forall in Hsorted.
    specialize (Hsorted _ Hj). simpl in Hsorted. lra.
Qed.

Ltac decide_reals :=
  repeat match goal with
         | |- context [Rle_dec ?a ?b] => destruct (Rle_dec a b); try (exfalso; lra)
         | |- context [Rgt_dec ?a ?b] => destruct (Rgt_dec a b); try (exfalso; lra)
         | |- context [Rlt_dec ?a ?b] => destruct (Rlt_dec a b); try (exfalso; lra)
         end.

Lemma candidates_of_two : top_p_candidates [/ 4; 3 / 4] 1 = [1; 0]%nat.
Proof.
  unfold top_p_candidates, top_p_distribution, sort_desc. simpl.
  decide_reals. unfold cumsum, top_p_mask, masked_fill, zip_with. simpl.
  decide_reals. simpl. decide_reals. reflexivity.
Qed.

Lemma top_p_candidates_upward_closed_witness :
  In 1%nat (top_p_candidates [/ 4; 3 / 4] 1).
Proof.
  apply (top_p_candidates_upward_closed [/ 4; 3 / 4] 1 0 1 (/ 4) (3 / 4));
    try reflexivity; try lra.
  - repeat constructor; lra.
  - simpl; lra.
  - rewrite candidates_of_two. right; left; reflexivity.
Defined.

(** ** The probability of the candidates *)

Lemma masked_cons (p acc x : R) (l : Vec) :
  masked_fill (top_p_mask p (cumsum_from acc (x :: l)) (x :: l)) (x :: l) 0
  = (if Rle_dec acc p then x else 0)
      :: masked_fill (top_p_mask p (cumsum_from (acc + x) l) l) l 0.
Proof.
  unfold masked_fill, top_p_mask, zip_with. cbn [cumsum_from combine map fst snd].
  f_equal. destruct (Rgt_dec (acc + x - x) p); destruct (Rle_dec acc p);
    try reflexivity; lra.
Qed.

Lemma candidates_from_mass (val : nat -> R) (p s : R) (l : list (R * nat)) :
  0 < s -> Forall (fun e => 0 <= fst e /\ val (snd e) = fst e) l ->
  forall acc,
  sum_list (map val (candidates_from p s acc l))
  = sum_list (masked_fill (top_p_mask p (cumsum_from acc (map fst l)) (map fst l))
                          (map fst l) 0).
Proof.
  intros Hs H; induction H as [|[x i] l [Hx Hv] _ IH]; intros acc; [reflexivity|].
  cbn [fst snd] in Hx, Hv.
  rewrite candidates_from_cons by exact Hs. cbn [map fst].
  rewrite masked_cons, map_app.
  assert (Happ : forall u v : Vec, sum_list (u ++ v) = sum_list u + sum_list v).
  { intros u v; induction u as [|a u IHu]; simpl; [ring | rewrite IHu; ring]. }
  rewrite Happ, IH.
  set (rest := sum_list (masked_fill _ _ _)).
  change (sum_list (?a :: ?m)) with (a + sum_list m).
  fold rest.
  destruct (Rle_dec acc p); [|simpl; unfold rest; lra].
  destruct (Rlt_dec 0 x); simpl; [rewrite Hv|]; unfold rest; lra.
Qed.

Lemma masked_mass (p : R) (l : Vec) :
  Forall (fun x => 0 <= x) l ->
  forall acc, acc <= p ->
  p < acc + sum_list (masked_fill (top_p_mask p (cumsum_from acc l) l) l 0) \/
  masked_fill (top_p_mask p (cumsum_from acc l) l) l 0 = l.
Proof.
  induction 1 as [|x l Hx Hl IH]; intros acc Hacc; [right; reflexivity|].
  rewrite masked_cons. destruct (Rle_dec acc p) as [_|Hn]; [|lra].
  destruct (masked_tail_nonneg p (acc + x) l Hl) as [Hnn _].
  pose proof (sum_list_nonneg _ Hnn) as Hs.
  destruct (Rle_dec (acc + x) p) as [Hle|Hgt].
  - destruct (IH (acc + x) Hle) as [Hm|Hm].
    + left. simpl. lra.
    + right. rewrite Hm. reflexivity.
  - left. simpl. lra.
Qed.

(** X19. The nucleus: for a probability distribution and a threshold
    [0 <= p <= 1], the tokens that can be drawn have a total probability of
    at least [p]. *)
Theorem top_p_candidates_mass (probs : Vec) (p : R) :
  Forall (fun x => 0 <= x) probs -> sum_list probs = 1 -> 0 <= p -> p <= 1 ->
  p <= sum_list (map (fun i => nth i probs 0) (top_p_candidates probs p)).
Proof.
  intros Hpos Hsum Hp Hp1.
  destruct (masked_distribution probs p Hpos Hsum Hp) as (Hs & _ & _).
  rewrite top_p_candidates_from. set (s := sum_list (masked_fill _ _ _)) in *.
  assert (Hvals : Permutation (map fst (sort_desc probs)) probs).
  { rewrite <- (map_fst_combine_seq probs 0) at 2. apply Permutation_map, sort_desc_perm. }
  assert (Hnn : Forall (fun x => 0 <= x) (map fst (sort_desc probs)))
    by (eapply Permutation_Forall; [symmetry; exact Hvals | exact Hpos]).
  rewrite (candidates_from_mass (fun i => nth i probs 0) p s (sort_desc probs) Hs).
  - destruct (masked_mass p _ Hnn 0 Hp) as [Hm|Hm].
    + unfold cumsum in s. fold s in Hm. unfold s in *. lra.
    + rewrite Hm, (sum_list_perm _ _ Hvals). lra.
  - apply Forall_forall. intros [x i] Hin. cbn [fst snd]. split.
    + rewrite Forall_forall in Hnn. apply Hnn. apply (in_map fst) in Hin. exact Hin.
    + apply sorted_entry in Hin. apply nth_error_nth. exact Hin.
Qed.

Lemma top_p_candidates_mass_witness :
  1 / 2 <= sum_list (map (fun i => nth i [/ 4; 3 / 4] 0) (top_p_candidates [/ 4; 3 / 4] (1 / 2))).
Proof.
  apply (top_p_candidates_mass [/ 4; 3 / 4] (1 / 2)); try lra.
  - repeat constructor; lra.
  - simpl; lra.
Defined.

(** ** The greedy choice *)

Lemma argmax_from_spec (v : Vec) :
  forall (best : R) (bi i : nat),
  (argmax_from best bi i v = bi /\ Forall (fun a => a <= best) v) \/
  (exists k w, argmax_from best bi i v = (i + k)%nat /\ nth_error v k = Some w /\
               best < w /\ Forall (fun a => a <= w) v /\
               forall j a, (j < k)%nat -> nth_error v j = Some a -> a < w).
Proof.
  induction v as [|x v IH]; intros best bi i; simpl.
  - left; split; [reflexivity | constructor].
  - destruct (Rlt_dec best x) as [Hlt|Hge].
    + right.
      destruct (IH x i (S i)) as [[Hr Hall]|(k & w & Hr & Hk & Hw & Hall & Hfirst)].
      * exists 0%nat, x. rewrite Nat.add_0_r.
        split; [exact Hr|]. split; [reflexivity|]. split; [exact Hlt|].
        split; [constructor; [lra | exact Hall]|].
        intros j a Hj; exfalso; lia.
      * exists (S k), w. rewrite Hr.
        split; [lia|]. split; [exact Hk|]. split; [lra|].
        split; [constructor; [lra | exact Hall]|].
        intros j a Hj Ha. destruct j as [|j]; simpl in Ha.
        -- inversion Ha; subst; lra.
        -- apply (Hfirst j a); [lia | exact Ha].
    + destruct (IH best bi (S i)) as [[Hr Hall]|(k & w & Hr & Hk & Hw & Hall & Hfirst)].
      * left. split; [exact Hr | constructor; [lra | exact Hall]].
      * right. exists (S k), w. rewrite Hr.
        split; [lia|]. split; [exact Hk|]. split; [exact Hw|].
        split; [constructor; [lra | exact Hall]|].
        intros j a Hj Ha. destruct j as [|j]; simpl in Ha.
        -- inversion Ha; subst; lra.
        -- apply (Hfirst j a); [lia | exact Ha].
Qed.

Lemma argmax_spec (v : Vec) (g : nat) :
  argmax v = Ok g ->
  exists w, nth_error v g = Some w /\ Forall (fun a => a <= w) v /\
            forall j a, (j < g)%nat -> nth_error v j = Some a -> a < w.
Proof.
  destruct v as [|x v]; [discriminate|]. simpl. intros H; inversion H; subst g; clear H.
  destruct (argmax_from_spec v x 0 1) as [[Hr Hall]|(k & w & Hr & Hk & Hw & Hall & Hfirst)];
    rewrite Hr.
  - exists x. split; [reflexivity|]. split; [constructor; [lra | exact Hall]|].
    intros j a Hj; exfalso; lia.
  - exists w. split; [exact Hk|]. split; [constructor; [lra | exact Hall]|].
    intros j a Hj Ha. destruct j as [|j]; simpl in Ha.
    + inversion Ha; subst; lra.
    + apply (Hfirst j a); [lia | exact Ha].
Qed.

(** X20. Greedy decoding.  When [temperature] is not positive, the next
    token of every row is the first index at which the logits of the row are
    maximal; [top_p] is not used and the random generator is not touched. *)
Theorem sample_greedy (T : TorchRandom) (temperature top_p : R) (logits : Mat) (rng rng' : Rng T)
        (next_token : list Z) :
  temperature <= 0 ->
  LLaMA.sample T temperature top_p logits rng = Ok (next_token, rng') ->
  rng' = rng /\
  Forall2 (fun row tok =>
             exists g w, tok = Z.of_nat g /\ nth_error row g = Some w /\
                         Forall (fun a => a <= w) row /\
                         forall j a, (j < g)%nat -> nth_error row j = Some a -> a < w)
          logits next_token.
Proof.
  intros Ht. unfold LLaMA.sample. destruct (Rlt_dec 0 temperature) as [Hpos|_]; [lra|].
  intros H. apply bind_Ok_inv in H as (toks & Hm & H). inversion H; subst; clear H.
  split; [reflexivity|].
  revert toks Hm. induction logits as [|row logits IH]; intros toks Hm; simpl in Hm.
  - inversion Hm; constructor.
  - apply bind_Ok_inv in Hm as (g & Hg & Hm). apply bind_Ok_inv in Hm as (gs & Hgs & Hm).
    inversion Hm; subst toks; clear Hm. simpl. constructor; [|apply IH; exact Hgs].
    destruct (argmax_spec row g Hg) as (w & Hw & Hall & Hfirst).
    exists g, w. auto.
Qed.

Lemma sample_greedy_example :
  LLaMA.sample zero_random 0 (9 / 10) [[1; 3; 3]; [2; 1; 0]] tt = Ok ([1; 0]%Z, tt).
Proof.
  unfold LLaMA.sample. destruct (Rlt_dec 0 0) as [H|_]; [lra|].
  unfold argmax; simpl.
  repeat match goal with
         | |- context [Rlt_dec ?a ?b] => destruct (Rlt_dec a b); try (exfalso; lra)
         end.
  reflexivity.
Qed.

Lemma sample_greedy_witness :
  Forall2 (fun row tok =>
             exists g w, tok = Z.of_nat g /\ nth_error row g = Some w /\
                         Forall (fun a => a <= w) row /\
                         forall j a, (j < g)%nat -> nth_error row j = Some a -> a < w)
          [[1; 3; 3]; [2; 1; 0]] [1; 0]%Z.
Proof.
  apply (sample_greedy zero_random 0 (9 / 10) [[1; 3; 3]; [2; 1; 0]] tt tt [1; 0]%Z).
  - lra.
  - exact sample_greedy_example.
Defined.

(** ** Sampled tokens are vocabulary indices *)

Lemma sample_top_p_row_range (Rng : Type) (multinomial : Rng -> Vec -> result (nat * Rng))
      (rng rng' : Rng) (probs : Vec) (p : R) (tok : nat) :
  sample_top_p_row Rng multinomial rng probs p = Ok (tok, rng') ->
  (tok < length probs)%nat.
Proof.
  unfold sample_top_p_row, top_p_distribution. intros H.
  apply bind_Ok_inv in H as ([k r] & _ & H).
  destruct (nth_error (map snd (sort_desc probs)) k) as [t|] eqn:Hk; [|discriminate].
  inversion H; subst t r; clear H.
  apply nth_error_In in Hk. apply in_map_iff in Hk as ([x i] & Hi & Hin).
  cbn [snd] in Hi; subst i.
  apply (Permutation_in _ (sort_desc_perm probs)) in Hin.
  apply In_combine_seq in Hin as [_ Hn]. rewrite Nat.sub_0_r in Hn.
  apply nth_error_Some. congruence.
Qed.

Lemma sample_top_p_range (Rng : Type) (multinomial : Rng -> Vec -> result (nat * Rng))
      (p : R) (probs : Mat) :
  forall (rng rng' : Rng) (toks : list (list nat)),
  _sample_top_p Rng multinomial rng probs p = Ok (toks, rng') ->
  Forall2 (fun row tok => (tok < length row)%nat) probs (concat toks).
Proof.
  induction probs as [|row probs IH]; intros rng rng' toks H; simpl in H.
  - inversion H; constructor.
  - apply bind_Ok_inv in H as ([tok r1] & Htok & H).
    apply bind_Ok_inv in H as ([ts r2] & Hts & H). inversion H; subst; clear H.
    simpl. constructor; [|eapply IH; exact Hts].
    eapply sample_top_p_row_range; exact Htok.
Qed.

Lemma softmax_length (v : Vec) : length (softmax v) = length v.
Proof.
  unfold softmax. rewrite !length_map. reflexivity.
Qed.

Lemma Forall2_maps {A A' B B'} (P : A' -> B -> Prop) (Q : A -> B' -> Prop)
      (f : A -> A') (g : B -> B') (l : list A) :
  (forall a b, P (f a) b -> Q a (g b)) ->
  forall l', Forall2 P (map f l) l' -> Forall2 Q l (map g l').
Proof.
  intros HPQ; induction l as [|a l IH]; intros l' H; simpl in H.
  - inversion H; constructor.
  - inversion H; subst. simpl. constructor; [apply HPQ; assumption | apply IH; assumption].
Qed.

(** X21. Whatever the temperature, the threshold and the draw, every token
    that [sample] returns for a row of logits is an index of that row: it is
    not negative and below the size of the vocabulary. *)
Theorem sample_in_vocabulary (T : TorchRandom) (temperature top_p : R) (logits : Mat)
        (rng rng' : Rng T) (next_token : list Z) :
  LLaMA.sample T temperature top_p logits rng = Ok (next_token, rng') ->
  Forall2 (fun row tok => (0 <= tok < Z.of_nat (length row))%Z) logits next_token.
Proof.
  unfold LLaMA.sample. destruct (Rlt_dec 0 temperature) as [Hpos|Hneg]; intros H.
  - apply bind_Ok_inv in H as ([toks r] & Hs & H). inversion H; subst; clear H.
    apply sample_top_p_range in Hs.
    revert Hs. apply Forall2_maps. intros row tok Htok.
    rewrite softmax_length, length_map in Htok. lia.
  - apply bind_Ok_inv in H as (toks & Hm & H). inversion H; subst; clear H.
    revert toks Hm. induction logits as [|row logits IH]; intros toks Hm; simpl in Hm.
    + inversion Hm; constructor.
    + apply bind_Ok_inv in Hm as (g & Hg & Hm). apply bind_Ok_inv in Hm as (gs & Hgs & Hm).
      inversion Hm; subst toks; clear Hm. simpl. constructor; [|apply IH; exact Hgs].
      destruct (argmax_spec row g Hg) as (w & Hw & _).
      assert (g < length row)%nat by (apply nth_error_Some; congruence). lia.
Qed.

Lemma sample_in_vocabulary_witness :
  Forall2 (fun row tok => (0 <= tok < Z.of_nat (length row))%Z)
          [[1; 3; 3]; [2; 1; 0]] [1; 0]%Z.
Proof.
  apply (sample_in_vocabulary zero_random 0 (9 / 10) [[1; 3; 3]; [2; 1; 0]] tt tt [1; 0]%Z).
  exact sample_greedy_example.
Defined.

(** ** Sampling after the softmax *)

Lemma sum_exp_pos (v : Vec) : v <> [] -> 0 < sum_list (map exp v).
Proof.
  intros Hne. destruct v as [|a v]; [contradiction|]. simpl.
  assert (H : 0 <= sum_list (map exp v)).
  { apply sum_list_nonneg, Forall_map, Forall_forall. intros x _.
    apply Rlt_le, exp_pos. }
  pose proof (exp_pos a). lra.
Qed.

Lemma softmax_distribution (v : Vec) :
  v <> [] -> Forall (fun x => 0 <= x) (softmax v) /\ sum_list (softmax v) = 1.
Proof.
  intros Hne. pose proof (sum_exp_pos v Hne) as Hs. unfold softmax. split.
  - rewrite map_map. apply Forall_map, Forall_forall. intros x _.
    apply Rlt_le, Rdiv_lt_0_compat; [apply exp_pos | exact Hs].
  - induction (map exp v) as [|a l IH] in Hs |- *.
    + simpl in Hs; lra.
    + clear IH. set (s := sum_list (a :: l)) in *.
      assert (E : forall u : Vec, sum_list (map (fun x => x / s) u) = sum_list u / s).
      { induction u as [|b u IHu]; simpl; [unfold Rdiv; ring|].
        rewrite IHu. unfold Rdiv; ring. }
      rewrite E. fold s. unfold Rdiv. apply Rinv_r. lra.
Qed.

Lemma softmax_nth (v : Vec) (i : nat) :
  nth_error (softmax v) i
  = option_map (fun a => exp a / sum_list (map exp v)) (nth_error v i).
Proof.
  unfold softmax. rewrite map_map, nth_error_map. reflexivity.
Qed.

Lemma top_is_candidate (probs : Vec) (p w : R) (top : nat) (rest : list (R * nat)) :
  sort_desc probs = (w, top) :: rest -> 0 < w -> Forall (fun x => 0 <= x) (map fst rest) ->
  0 <= p -> In top (top_p_candidates probs p).
Proof.
  intros Es Hw Hrest Hp. unfold top_p_candidates, top_p_distribution. rewrite Es.
  change (map fst ((w, top) :: rest)) with (w :: map fst rest).
  rewrite masked_head by exact Hp.
  destruct (masked_tail_nonneg p (0 + w) (map fst rest) Hrest) as [Hnn _].
  set (tail := masked_fill _ _ _) in *.
  pose proof (sum_list_nonneg tail Hnn) as Hs.
  simpl. destruct (Rlt_dec 0 (w / (w + sum_list tail))) as [_|Hn].
  - left; reflexivity.
  - exfalso; apply Hn. apply Rdiv_lt_0_compat; lra.
Qed.

(** X22. In sampling mode the most likely token is never cut off: for a
    non-empty row of logits, a positive temperature and a threshold
    [p >= 0], the tokens that [_sample_top_p] can draw from the softmax of
    the scaled logits include a token whose logit is maximal. *)
Theorem sampling_keeps_a_best_token (row : Vec) (temperature p : R) :
  row <> [] -> 0 < temperature -> 0 <= p ->
  exists g w,
    In g (top_p_candidates (softmax (map (fun a => a / temperature) row)) p) /\
    nth_error row g = Some w /\ Forall (fun a => a <= w) row.
Proof.
  intros Hne Ht Hp.
  set (scaled := map (fun a => a / temperature) row).
  assert (Hsc : scaled <> []) by (unfold scaled; destruct row; [contradiction | discriminate]).
  destruct (softmax_distribution scaled Hsc) as [Hpos Hsum].
  destruct (sort_desc_head _ Hpos Hsum) as (pw & top & rest & Es & Hnth & Hw & Hmax & Hrest).
  pose proof (sum_exp_pos scaled Hsc) as HS.
  rewrite softmax_nth in Hnth. unfold scaled in Hnth at 2. rewrite nth_error_map in Hnth.
  destruct (nth_error row top) as [w|] eqn:Hrow; [|discriminate].
  cbn [option_map] in Hnth. inversion Hnth as [Hpw]; clear Hnth.
  exists top, w. split; [eapply top_is_candidate; eassumption|]. split; [exact Hrow|].
  apply Forall_forall. intros a Ha.
  assert (Hin : In (exp (a / temperature) / sum_list (map exp scaled)) (softmax scaled)).
  { unfold softmax. rewrite map_map. apply in_map_iff.
    exists (a / temperature). split; [reflexivity|].
    exact (in_map (fun x => x / temperature) row a Ha). }
  apply Hmax in Hin. rewrite <- Hpw in Hin.
  assert (Hexp : exp (a / temperature) <= exp (w / temperature)).
  { apply (Rmult_le_reg_r (/ sum_list (map exp scaled)));
      [apply Rinv_0_lt_compat; exact HS | exact Hin]. }
  destruct (Rle_dec a w) as [Hle|Hgt]; [exact Hle | exfalso].
  assert (Hlt : w / temperature < a / temperature).
  { unfold Rdiv. apply Rmult_lt_compat_r; [apply Rinv_0_lt_compat; exact Ht | lra]. }
  apply exp_increasing in Hlt. lra.
Qed.

Lemma sampling_keeps_a_best_token_witness :
  exists g w,
    In g (top_p_candidates (softmax (map (fun a => a / (6 / 10)) [1; 3; 2])) (9 / 10)) /\
    nth_error [1; 3; 2] g = Some w /\ Forall (fun a => a <= w) [1; 3; 2].
Proof.
  apply (sampling_keeps_a_best_token [1; 3; 2] (6 / 10) (9 / 10)).
  - discriminate.
  - lra.
  - lra.
Defined.

(** ** Greedy decoding and the random generator *)

Lemma sample_not_random (T : TorchRandom) (temperature p1 p2 : R) (logits : Mat)
      (rng1 rng2 : Rng T) :
  temperature <= 0 ->
  LLaMA.sample T temperature p2 logits rng2
  = match LLaMA.sample T temperature p1 logits rng1 with
    | Ok (toks, _) => Ok (toks, rng2)
    | Raise e => Raise e
    end.
Proof.
  intros Ht. unfold LLaMA.sample. destruct (Rlt_dec 0 temperature); [lra|].
  destruct (mapM argmax logits); reflexivity.
Qed.

Lemma decode_step_not_random (T : TorchRandom) (eos : PyObj) (temperature p1 p2 : R)
      (mask : list (list bool)) (pos : nat) (st : LLaMA.GenState T) (rng2 : Rng T) :
  temperature <= 0 ->
  LLaMA.decode_step T eos temperature p2 mask pos (with_rng rng2 st)
  = match LLaMA.decode_step T eos temperature p1 mask pos st with
    | Ok st' => Ok (with_rng rng2 st')
    | Raise e => Raise e
    end.
Proof.
  intros Ht. unfold LLaMA.decode_step, with_rng.
  cbn [LLaMA.tokens LLaMA.eos_reached LLaMA.cur_pos LLaMA.gen_model LLaMA.gen_rng].
  destruct (Transformer.forward _ _ _) as [[logits model]|]; cbn [bind]; [|reflexivity].
  destruct (last_row logits) as [rows|]; cbn [bind]; [|reflexivity].
  rewrite (sample_not_random T temperature p1 p2 rows (LLaMA.gen_rng st) rng2 Ht).
  destruct (LLaMA.sample T temperature p1 rows (LLaMA.gen_rng st)) as [[toks r]|];
    cbn [bind]; [|reflexivity].
  destruct (broadcast_to _ toks); reflexivity.
Qed.

Lemma decode_loop_not_random (T : TorchRandom) (eos : PyObj) (temperature p1 p2 : R)
      (mask : list (list bool)) (rng2 : Rng T) (ps : list nat) :
  temperature <= 0 ->
  forall st : LLaMA.GenState T,
  LLaMA.decode_loop T eos temperature p2 mask ps (with_rng rng2 st)
  = match LLaMA.decode_loop T eos temperature p1 mask ps st with
    | Ok st' => Ok (with_rng rng2 st')
    | Raise e => Raise e
    end.
Proof.
  intros Ht. induction ps as [|pos ps IH]; intros st; [reflexivity|].
  cbn [LLaMA.decode_loop].
  rewrite (decode_step_not_random T eos temperature p1 p2 mask pos st rng2 Ht).
  destruct (LLaMA.decode_step T eos temperature p1 mask pos st) as [st1|]; cbn [bind];
    [|reflexivity].
  change (LLaMA.eos_reached (with_rng rng2 st1)) with (LLaMA.eos_reached st1).
  destruct (forallb (fun b : bool => b) (LLaMA.eos_reached st1)); [reflexivity|].
  apply IH.
Qed.

Lemma generate_not_random (T : TorchRandom) (self : LLaMA.t) (rng1 rng2 : Rng T)
      (prompts : list (list Z)) (temperature p1 p2 : R) (max_gen_len : option Z) :
  temperature <= 0 ->
  LLaMA.generate T self rng2 prompts temperature p2 max_gen_len
  = match LLaMA.generate T self rng1 prompts temperature p1 max_gen_len with
    | Ok st => Ok (with_rng rng2 st)
    | Raise e => Raise e
    end.
Proof.
  intros Ht. unfold LLaMA.generate.
  destruct (py_assert _ _); cbn [bind]; [|reflexivity].
  destruct (py_max _); cbn [bind]; [|reflexivity].
  destruct (py_assert _ _); cbn [bind]; [|reflexivity].
  destruct (size_of _) as [total|]; cbn [bind]; [|reflexivity].
  destruct (LLaMA.initial_tokens _ total prompts) as [rows|]; cbn [bind]; [|reflexivity].
  apply (decode_loop_not_random T _ temperature p1 p2 _ rng2 _ Ht
           (LLaMA.mkGen rows (repeat false (length prompts)) 0 (LLaMA.model self) rng1)).
Qed.

(** X23. Greedy decoding is reproducible: when [temperature] is not
    positive, the result of [text_completion] (tokens, texts, caches or
    exception) depends neither on the state of the random generator nor on
    [top_p], and the generator is left in the state it was in. *)
Theorem text_completion_greedy_not_random (T : TorchRandom) (self : LLaMA.t)
        (rng1 rng2 : Rng T) (prompts : list (list Z)) (temperature p1 p2 : R)
        (max_gen_len : option Z) :
  temperature <= 0 ->
  LLaMA.text_completion T self rng2 prompts temperature p2 max_gen_len
  = match LLaMA.text_completion T self rng1 prompts temperature p1 max_gen_len with
    | Ok (out, self', _) => Ok (out, self', rng2)
    | Raise e => Raise e
    end.
Proof.
  intros Ht. unfold LLaMA.text_completion.
  rewrite (generate_not_random T self rng1 rng2 prompts temperature p1 p2 max_gen_len Ht).
  destruct (LLaMA.generate T self rng1 prompts temperature p1 max_gen_len) as [st|];
    cbn [bind]; [|reflexivity].
  change (LLaMA.tokens (with_rng rng2 st)) with (LLaMA.tokens st).
  destruct (mapM _ (LLaMA.tokens st)); reflexivity.
Qed.

Lemma text_completion_greedy_not_random_witness :
  LLaMA.text_completion zero_random sentencepiece_llama tt [[1]]%Z 0 (1 / 2) (Some 2%Z)
  = match LLaMA.text_completion zero_random sentencepiece_llama tt [[1]]%Z 0 (9 / 10)
            (Some 2%Z) with
    | Ok (out, self', _) => Ok (out, self', tt)
    | Raise e => Raise e
    end.
Proof.
  apply (text_completion_greedy_not_random zero_random sentencepiece_llama tt tt [[1]]%Z
           0 (9 / 10) (1 / 2) (Some 2%Z)).
  lra.
Defined.

(** ** The tokens that the loop writes *)

Lemma forward_logits_rows (m m' : Transformer.t) (toks : list (list Z)) (p : nat)
      (logits : Tensor3) :
  Transformer.forward m toks p = Ok (logits, m') ->
  Forall (Forall (fun v => length v = length (Transformer.output m))) logits /\
  Transformer.output m' = Transformer.output m.
Proof.
  unfold Transformer.forward; intros H.
  destruct (shape2 toks) as [batch_size seq_len].
  apply bind_Ok_inv in H as ([] & _ & H).
  apply bind_Ok_inv in H as (h & _ & H).
  apply bind_Ok_inv in H as ([h' ls'] & _ & H). inversion H; subst logits m'; clear H.
  split; [|reflexivity]. unfold linear3, linear. cbn [Transformer.output Transformer.update_layers].
  apply Forall_forall; intros r Hr. apply in_map_iff in Hr as (r0 & <- & _).
  apply Forall_forall; intros v Hv. apply in_map_iff in Hv as (v0 & <- & _).
  apply length_map.
Qed.

Lemma last_row_Forall {A} (P : A -> Prop) (x : list (list A)) (l : list A) :
  Forall (Forall P) x -> last_row x = Ok l -> Forall P l.
Proof.
  intros HP H. unfold last_row in H. revert H. apply mapM_Ok_Forall.
  intros r a Hr Ha. destruct (rev r) as [|a' r'] eqn:Er; [discriminate|].
  inversion Ha; subst a'; clear Ha.
  rewrite Forall_forall in HP. specialize (HP r Hr). rewrite Forall_forall in HP.
  apply HP. apply in_rev. rewrite Er. left; reflexivity.
Qed.

Lemma sample_tokens_below (T : TorchRandom) (temperature top_p : R) (logits : Mat)
      (rng rng' : Rng T) (next_token : list Z) (V : nat) :
  Forall (fun row => length row = V) logits ->
  LLaMA.sample T temperature top_p logits rng = Ok (next_token, rng') ->
  Forall (fun tok => (0 <= tok < Z.of_nat V)%Z) next_token.
Proof.
  intros HV H.
  assert (H2 : Forall2 (fun row tok => (0 <= tok < Z.of_nat (length row))%Z)
                       logits next_token).
  { revert H. unfold LLaMA.sample. destruct (Rlt_dec 0 temperature) as [Hpos|Hneg]; intros H.
    - apply bind_Ok_inv in H as ([toks r] & Hs & H). inversion H; subst; clear H.
      apply sample_top_p_range in Hs.
      revert Hs. apply Forall2_maps. intros row tok Htok.
      rewrite softmax_length, length_map in Htok. lia.
    - apply bind_Ok_inv in H as (toks & Hm & H). inversion H; subst; clear H.
      clear HV. revert toks Hm.
      induction logits as [|row logits IH]; intros toks Hm; simpl in Hm.
      + inversion Hm; constructor.
      + apply bind_Ok_inv in Hm as (g & Hg & Hm). apply bind_Ok_inv in Hm as (gs & Hgs & Hm).
        inversion Hm; subst toks; clear Hm. simpl. constructor; [|apply IH; exact Hgs].
        destruct (argmax_spec row g Hg) as (w & Hw & _).
        assert (g < length row)%nat by (apply nth_error_Some; congruence). lia. }
  clear H. induction H2 as [|row tok logits' toks Hrt _ IH]; [constructor|].
  inversion HV; subst. constructor; [lia | apply IH; assumption].
Qed.

Lemma broadcast_to_Forall {A} (P : A -> Prop) (n : nat) (l l' : list A) :
  Forall P l -> broadcast_to n l = Ok l' -> Forall P l'.
Proof.
  unfold broadcast_to. intros HP. destruct (length l =? n).
  - intros H; inversion H; subst; exact HP.
  - destruct l as [|a [|b l]]; try discriminate.
    intros H; inversion H; subst. apply Forall_forall; intros x Hx.
    apply repeat_spec in Hx; subst x. inversion HP; assumption.
Qed.

(** One iteration: the sampled tokens are indices of the output layer, and
    the output layer is the one of the model before. *)
Lemma decode_step_sampled (T : TorchRandom) (eos : PyObj) (temperature top_p : R)
      (mask : list (list bool)) (p : nat) (st st' : LLaMA.GenState T) :
  LLaMA.decode_step T eos temperature top_p mask p st = Ok st' ->
  exists sampled,
    length sampled = length (LLaMA.tokens st) /\
    Forall (fun s => (0 <= s < Z.of_nat (length (Transformer.output (LLaMA.gen_model st))))%Z)
           sampled /\
    Transformer.output (LLaMA.gen_model st') = Transformer.output (LLaMA.gen_model st) /\
    LLaMA.tokens st' =
      zip_with (fun row v => set_nth p v row) (LLaMA.tokens st)
        (zip_with (fun (m : bool * Z) (s : Z) => if fst m then snd m else s)
           (combine (map (fun r => nth p r false) mask)
                    (map (fun r => nth p r 0%Z) (LLaMA.tokens st))) sampled) /\
    length (LLaMA.eos_reached st') =
      Nat.min (length (LLaMA.eos_reached st))
              (Nat.min (length mask)
                       (Nat.min (Nat.min (length mask) (length (LLaMA.tokens st)))
                                (length sampled))).
Proof.
  unfold LLaMA.decode_step; intros H.
  apply bind_Ok_inv in H as ([logits model] & Hf & H).
  apply bind_Ok_inv in H as (last & Hl & H).
  apply bind_Ok_inv in H as ([next rng] & Hs & H).
  apply bind_Ok_inv in H as (sampled & Hb & H).
  inversion H; subst st'; clear H. cbn [LLaMA.tokens LLaMA.gen_model LLaMA.eos_reached].
  destruct (forward_logits_rows _ _ _ _ _ Hf) as [Hrows Hout].
  exists sampled. split; [eapply broadcast_to_Ok_length; exact Hb|].
  split; [|split; [exact Hout|split; [reflexivity|]]].
  - eapply broadcast_to_Forall; [|exact Hb].
    eapply sample_tokens_below; [|exact Hs].
    eapply last_row_Forall; [exact Hrows | exact Hl].
  - rewrite !length_zip_with, length_combine, !length_map. reflexivity.
Qed.

(** The rows after the loop: at every position the token of the grid
    before the loop, or an index of the output layer. *)
Lemma decode_loop_vocabulary (T : TorchRandom) (eos : PyObj) (temperature top_p : R)
      (mask : list (list bool)) (ps : list nat) :
  forall (st st' : LLaMA.GenState T),
  LLaMA.decode_loop T eos temperature top_p mask ps st = Ok st' ->
  length mask = length (LLaMA.tokens st) ->
  length (LLaMA.eos_reached st) = length (LLaMA.tokens st) ->
  forall b row row',
    nth_error (LLaMA.tokens st) b = Some row ->
    nth_error (LLaMA.tokens st') b = Some row' ->
    Forall (fun p => (p < length row)%nat) ps ->
    forall j tok, nth_error row' j = Some tok ->
      nth_error row j = Some tok \/
      (0 <= tok < Z.of_nat (length (Transformer.output (LLaMA.gen_model st))))%Z.
Proof.
  induction ps as [|p ps IH]; intros st st' H Hm He b row row' Hr Hr' Hps j tok Hj; simpl in H.
  - inversion H; subst st'. left. congruence.
  - apply bind_Ok_inv in H as (st1 & Hstep & H).
    destruct (decode_step_sampled _ _ _ _ _ _ _ _ Hstep)
      as (sampled & Hlen & Hrange & Hout & Htok & Heos).
    inversion Hps as [|? ? Hp Hps']; subst.
    assert (Hb : (b < length (LLaMA.tokens st))%nat) by (apply nth_error_Some; congruence).
    destruct (nth_error sampled b) as [s|] eqn:Es; [|apply nth_error_None in Es; lia].
    destruct (nth_error mask b) as [mrow|] eqn:Em; [|apply nth_error_None in Em; lia].
    assert (Hr1 : nth_error (LLaMA.tokens st1) b
                  = Some (set_nth p (if nth p mrow false then nth p row 0%Z else s) row)).
    { rewrite Htok. rewrite !nth_error_zip_with, nth_error_combine, !nth_error_map.
      rewrite Hr, Em, Es. reflexivity. }
    assert (Hs : (0 <= s < Z.of_nat (length (Transformer.output (LLaMA.gen_model st))))%Z).
    { rewrite Forall_forall in Hrange. apply Hrange. eapply nth_error_In; exact Es. }
    assert (Hl1 : length (LLaMA.tokens st1) = length (LLaMA.tokens st)).
    { rewrite Htok. rewrite !length_zip_with, length_combine, !length_map. lia. }
    assert (Hone : forall tok',
               nth_error (set_nth p (if nth p mrow false then nth p row 0%Z else s) row) j
                 = Some tok' ->
               nth_error row j = Some tok' \/
               (0 <= tok' < Z.of_nat (length (Transformer.output (LLaMA.gen_model st))))%Z).
    { intros tok' Ht.
      assert (Hjl : (j < length row)%nat).
      { rewrite <- (length_set_nth p (if nth p mrow false then nth p row 0%Z else s) row Hp).
        apply nth_error_Some. congruence. }
      destruct (Nat.eq_dec j p) as [->|Hne].
      - rewrite nth_error_set_nth_same in Ht by exact Hp. inversion Ht; subst tok'; clear Ht.
        destruct (nth p mrow false).
        + left. destruct (nth_error row p) as [x|] eqn:Ex; [|apply nth_error_None in Ex; lia].
          rewrite (nth_nth_error row p 0%Z x Ex). reflexivity.
        + right; exact Hs.
      - rewrite nth_error_set_nth_other in Ht by assumption.
        left; exact Ht. }
    destruct (forallb (fun b : bool => b) (LLaMA.eos_reached st1)).
    + inversion H; subst st'. rewrite Hr1 in Hr'. inversion Hr'; subst row'.
      apply Hone; exact Hj.
    + assert (Hm1 : length mask = length (LLaMA.tokens st1)) by congruence.
      assert (He1 : length (LLaMA.eos_reached st1) = length (LLaMA.tokens st1))
        by (rewrite Heos; lia).
      assert (Hps1 : Forall (fun q => (q < length (set_nth p (if nth p mrow false
                                         then nth p row 0%Z else s) row))%nat) ps)
        by (rewrite length_set_nth by exact Hp; exact Hps').
      destruct (IH st1 st' H Hm1 He1 b _ row' Hr1 Hr' Hps1 j tok Hj) as [Hin|Hin].
      * apply Hone; exact Hin.
      * right. rewrite Hout in Hin. exact Hin.
Qed.

(** X24. The tokens of a completion.  When [text_completion] returns,
    every token of a returned sequence is the token of the prompt at that
    position, or the pad id at a position after the prompt (a position that
    the loop did not reach), or a token that the loop chose: an index of the
    output layer, not negative and below its number of rows. *)
Theorem generated_tokens_in_vocabulary (T : TorchRandom) (self self' : LLaMA.t)
        (rng rng' : Rng T) (prompts : list (list Z)) (temperature top_p : R)
        (max_gen_len : option Z) (out_tokens : list (list Z)) (out_text : list string) :
  LLaMA.text_completion T self rng prompts temperature top_p max_gen_len
    = Ok ((out_tokens, out_text), self', rng') ->
  forall b t ret, nth_error prompts b = Some t -> nth_error out_tokens b = Some ret ->
    forall j tok, nth_error ret j = Some tok ->
      nth_error t j = Some tok \/
      ((length t <= j)%nat /\ tok = Tokenizer.pad_id (LLaMA.tokenizer self)) \/
      (0 <= tok < Z.of_nat (length (Transformer.output (LLaMA.model self))))%Z.
Proof.
  intros H b t ret Ht Hret j tok Hj.
  apply text_completion_Ok in H as (st & Hgen & Hcut).
  apply generate_Ok in Hgen as (total & rows0 & Hinit & Hloop & _ & _ & _).
  destruct (initial_tokens_rows _ _ _ _ Hinit) as [Hlen Hrows0].
  destruct (Hrows0 b t Ht) as (row0 & Hr0 & Hl0 & Hpre & Hpad).
  assert (Hrow : exists row, nth_error (LLaMA.tokens st) b = Some row /\
                             LLaMA.cut_at_eos (Tokenizer.eos_id (LLaMA.tokenizer self)) row
                             = Ok ret).
  { destruct (nth_error (LLaMA.tokens st) b) as [row|] eqn:Er.
    - destruct (mapM_Ok_nth _ _ _ _ _ Hcut Er) as (ret' & Hret' & Hc).
      exists row. split; [reflexivity|]. congruence.
    - apply nth_error_None in Er. apply mapM_Ok_length in Hcut.
      assert (b < length out_tokens)%nat by (apply nth_error_Some; congruence). lia. }
  destruct Hrow as (row & Hr & Hc).
  apply cut_at_eos_prefix in Hc as (n & ->).
  assert (Hjrow : nth_error row j = Some tok).
  { destruct (Nat.lt_ge_cases j n) as [Hlt|Hge].
    - rewrite nth_error_firstn in Hj.
      destruct (Nat.ltb_spec j n); [exact Hj | lia].
    - exfalso. assert (j < length (firstn n row))%nat by (apply nth_error_Some; congruence).
      rewrite length_firstn in *. lia. }
  assert (Hm0 : length (LLaMA.prompt_mask (Tokenizer.pad_id (LLaMA.tokenizer self)) rows0)
                = length rows0)
    by (unfold LLaMA.prompt_mask; rewrite length_map; reflexivity).
  assert (Hps0 : Forall (fun q => (q < length row0)%nat) (seq 1 (total - 1)))
    by (apply Forall_forall; intros q Hq; apply seq_positions in Hq; lia).
  destruct (decode_loop_vocabulary _ _ _ _ _ _ _ _ Hloop Hm0
              ltac:(simpl; rewrite repeat_length; congruence)
              b row0 row Hr0 Hr Hps0 j tok Hjrow) as [Hgrid|Hvoc].
  - assert (Hjt : (j < total)%nat) by (rewrite <- Hl0; apply nth_error_Some; congruence).
    destruct (Nat.lt_ge_cases j (length t)) as [Hlt|Hge].
    + left. rewrite <- Hpre by assumption. exact Hgrid.
    + right; left. split; [exact Hge|]. rewrite Hpad in Hgrid by assumption. congruence.
  - right; right. exact Hvoc.
Qed.

Lemma generated_tokens_in_vocabulary_witness :
  exists out_text self' rng',
    LLaMA.text_completion zero_random sentencepiece_llama tt [[1]]%Z 0 0 (Some 2%Z)
      = Ok (([[1; 0; 0]]%Z, out_text), self', rng') /\
    (nth_error [1]%Z 2 = Some 0%Z \/
     ((length [1]%Z <= 2)%nat /\ 0%Z = Tokenizer.pad_id (LLaMA.tokenizer sentencepiece_llama)) \/
     (0 <= 0 < Z.of_nat (length (Transformer.output (LLaMA.model sentencepiece_llama))))%Z).
Proof.
  assert (H : exists out_text self' rng',
             LLaMA.text_completion zero_random sentencepiece_llama tt [[1]]%Z 0 0 (Some 2%Z)
               = Ok (([[1; 0; 0]]%Z, out_text), self', rng'))
    by (do 3 eexists; eval_zero_weights; reflexivity).
  destruct H as (out_text & self' & rng' & H).
  exists out_text, self', rng'. split; [exact H|].
  apply (generated_tokens_in_vocabulary _ _ _ _ _ _ _ _ _ _ _ H 0%nat [1]%Z [1; 0; 0]%Z
           eq_refl eq_refl 2%nat 0%Z eq_refl).
Defined.

(** ** A grid that is shorter than a prompt *)

Lemma slice_assign_RuntimeError {A} (start stop : nat) (src dst : list A) (e : PyError) :
  slice_assign start stop src dst = Raise e -> e = RuntimeError.
Proof.
  unfold slice_assign, broadcast_to.
  destruct (length src =? _); [discriminate|].
  destruct src as [|a [|b src]]; cbn [bind]; intros H; inversion H; reflexivity.
Qed.

Lemma slice_assign_too_long {A} (t : list A) (pad : A) (total : nat) :
  (total < length t)%nat -> (2 <= length t)%nat ->
  slice_assign 0 (length t) t (repeat pad total) = Raise RuntimeError.
Proof.
  intros Hlt H2. unfold slice_assign, broadcast_to. rewrite repeat_length.
  cbn [Nat.min]. rewrite Nat.max_0_l, Nat.sub_0_r, (Nat.min_r (length t) total) by lia.
  destruct (Nat.eqb_spec (length t) total) as [E|_]; [lia|].
  destruct t as [|a [|b t]]; simpl in H2; try lia. reflexivity.
Qed.

(** X25. A negative [max_gen_len] is not refused by a check of its own:
    when the two assertions pass and the longest prompt has two tokens or
    more, the token grid is shorter than that prompt (or its size is
    negative) and [text_completion] raises the [RuntimeError] of PyTorch,
    before the model is called. *)
Theorem text_completion_negative_max_gen_len (T : TorchRandom) (self : LLaMA.t) (rng : Rng T)
        (prompts : list (list Z)) (temperature top_p : R) (n : Z) (longest : nat) :
  (Z.of_nat (length prompts) <= ModelArgs.max_batch_size (LLaMA.args self))%Z ->
  py_max (map (@length Z) prompts) = Ok longest ->
  (Z.of_nat longest <= ModelArgs.max_seq_len (LLaMA.args self))%Z ->
  (n < 0)%Z -> (2 <= longest)%nat ->
  LLaMA.text_completion T self rng prompts temperature top_p (Some n) = Raise RuntimeError.
Proof.
  intros Hb Hmax Hl Hn H2. unfold LLaMA.text_completion, LLaMA.generate.
  destruct (Z.leb_spec (Z.of_nat (length prompts))
              (ModelArgs.max_batch_size (LLaMA.args self))) as [_|]; [|lia].
  cbn [py_assert bind]. rewrite Hmax. cbn [bind].
  destruct (Z.leb_spec (Z.of_nat longest) (ModelArgs.max_seq_len (LLaMA.args self)))
    as [_|]; [|lia].
  cbn [py_assert bind]. unfold size_of.
  destruct (Z.ltb_spec (Z.min (ModelArgs.max_seq_len (LLaMA.args self))
                              (n + Z.of_nat longest)) 0) as [|Hnn]; [reflexivity|].
  cbn [bind]. unfold LLaMA.initial_tokens.
  rewrite (mapM_raises _ RuntimeError); [reflexivity | |].
  - intros t e _ He. eapply slice_assign_RuntimeError; exact He.
  - apply py_max_in in Hmax. apply in_map_iff in Hmax as (t & Ht & Hin).
    exists t. split; [exact Hin|]. apply slice_assign_too_long; lia.
Qed.

Lemma text_completion_negative_max_gen_len_witness :
  LLaMA.text_completion zero_random sentencepiece_llama tt [[1; 0]]%Z 0 0 (Some (-1)%Z)
    = Raise RuntimeError.
Proof.
  apply (text_completion_negative_max_gen_len zero_random sentencepiece_llama tt
           [[1; 0]]%Z 0 0 (-1)%Z 2%nat).
  - vm_compute. discriminate.
  - reflexivity.
  - vm_compute. discriminate.
  - lia.
  - lia.
Defined.

(** ** A model with an odd head dimension *)

Lemma mapM_Raise_In {A B} (f : A -> result B) (l : list A) (e : PyError) :
  mapM f l = Raise e -> exists a, In a l /\ f a = Raise e.
Proof.
  induction l as [|a l IH]; simpl; [discriminate|].
  destruct (f a) as [b|e'] eqn:Ea; cbn [bind].
  - destruct (mapM f l) as [bs|e'']; cbn [bind]; [discriminate|].
    intros H; inversion H; subst e''. destruct IH as (a' & Hin & Ha'); [reflexivity|].
    exists a'; split; [right; exact Hin | exact Ha'].
  - intros H; inversion H; subst e'. exists a; split; [left; reflexivity | exact Ea].
Qed.

Lemma view4_RuntimeError (x : Tensor3) (n d : nat) (e : PyError) :
  view4 x n d = Raise e -> e = RuntimeError.
Proof.
  unfold view4. intros H.
  apply mapM_Raise_In in H as (xb & _ & H). apply mapM_Raise_In in H as (v & _ & H).
  unfold view_heads in H. destruct (length v =? n * d)%nat; [discriminate|].
  inversion H; reflexivity.
Qed.

Lemma SelfAttention_init_fields (T : TorchRandom) (rng rng' : Rng T) (args : ModelArgs.t)
      (a : SelfAttention.t) :
  SelfAttention.__init__ T rng args = Ok (a, rng') ->
  SelfAttention.head_dim a = (ModelArgs.dim args / ModelArgs.n_heads args)%Z /\
  SelfAttention.n_heads_q a = ModelArgs.n_heads args /\
  ModelArgs.n_heads args <> 0%Z.
Proof.
  intros H. unfold SelfAttention.__init__, py_floordiv in H.
  destruct (match ModelArgs.n_kv_heads args with
            | Some k => k
            | None => ModelArgs.n_heads args
            end =? 0)%Z; [discriminate|]. cbn [bind] in H.
  destruct (Z.eqb_spec (ModelArgs.n_heads args) 0) as [|Hne]; [discriminate|].
  cbn [bind] in H.
  repeat match type of H with
         | bind (nn_Linear ?T ?r ?i ?o) _ = _ =>
             destruct (nn_Linear T r i o) as [[? ?]|?]; cbn [bind] in H; [|discriminate]
         end.
  apply bind_Ok_inv in H as (ck & _ & H). apply bind_Ok_inv in H as (cv & _ & H).
  inversion H; subst; clear H. cbn [SelfAttention.head_dim SelfAttention.n_heads_q].
  auto.
Qed.

(** The layer on an input with a first position: the queries of that
    position cannot be paired. *)
Lemma SelfAttention_forward_odd (self : SelfAttention.t) (r : Vec) (xb : Mat) (x : Tensor3)
      (start_pos : nat) (freqs : list (list C)) :
  Z.odd (SelfAttention.head_dim self) = true -> SelfAttention.n_heads_q self <> 0%Z ->
  SelfAttention.forward self ((r :: xb) :: x) start_pos freqs = Raise RuntimeError.
Proof.
  intros Hodd Hnq. unfold SelfAttention.forward. cbn [shape2].
  unfold size_of at 1. destruct (Z.ltb_spec (SelfAttention.n_heads_q self) 0) as [|Hq0];
    [reflexivity|]. cbn [bind].
  unfold size_of at 1. destruct (SelfAttention.n_kv_heads self <? 0)%Z; [reflexivity|].
  cbn [bind].
  unfold size_of at 1. destruct (Z.ltb_spec (SelfAttention.head_dim self) 0) as [|Hd0];
    [reflexivity|]. cbn [bind].
  set (nq := Z.to_nat (SelfAttention.n_heads_q self)).
  set (hd := Z.to_nat (SelfAttention.head_dim self)).
  assert (Hnq1 : (1 <= nq)%nat) by (unfold nq; lia).
  assert (Hhd : exists k, hd = (2 * k + 1)%nat).
  { rewrite Z.odd_spec in Hodd. destruct Hodd as (k & Hk).
    exists (Z.to_nat k). unfold hd. lia. }
  destruct Hhd as (k & Hhd).
  destruct (view4 (linear3 (SelfAttention.wq self) ((r :: xb) :: x)) nq hd) as [xq|e] eqn:Hxq;
    [|apply view4_RuntimeError in Hxq; subst e; reflexivity].
  cbn [bind].
  destruct (view4 (linear3 (SelfAttention.wk self) ((r :: xb) :: x)) _ hd) as [xk|e] eqn:Hxk;
    [|apply view4_RuntimeError in Hxk; subst e; reflexivity].
  cbn [bind].
  destruct (view4 (linear3 (SelfAttention.wv self) ((r :: xb) :: x)) _ hd) as [xv|e] eqn:Hxv;
    [|apply view4_RuntimeError in Hxv; subst e; reflexivity].
  cbn [bind].
  assert (Hrot : rotary_embeddings xq freqs = Raise RuntimeError).
  { clear Hxk Hxv. unfold view4, linear3 in Hxq. cbn [map mapM] in Hxq.
    apply bind_Ok_inv in Hxq as (row & Hrow & Hxq).
    apply bind_Ok_inv in Hrow as (m0 & Hm0 & Hrow).
    apply bind_Ok_inv in Hrow as (ms & _ & Hrow). inversion Hrow; subst row; clear Hrow.
    apply bind_Ok_inv in Hxq as (rest & _ & Hxq). inversion Hxq; subst xq; clear Hxq.
    unfold view_heads in Hm0.
    destruct (Nat.eqb_spec (length (linear (SelfAttention.wq self) r)) (nq * hd)) as [Hl|];
      [|discriminate].
    inversion Hm0; subst m0; clear Hm0.
    destruct nq as [|nq']; [lia|]. cbn [seq map Nat.mul skipn] in *.
    unfold rotary_embeddings. cbn [mapM].
    destruct (broadcast_to _ freqs) as [fs|e] eqn:Hfs.
    - apply broadcast_to_Ok_length in Hfs. cbn [bind].
      destruct fs as [|f fs]; [discriminate|].
      cbn [combine mapM fst snd]. unfold rotary_vec at 1.
      rewrite (view_as_complex_odd k); [reflexivity|].
      rewrite length_firstn. simpl in Hl. lia.
    - apply broadcast_to_RuntimeError in Hfs. subst e. reflexivity. }
  rewrite Hrot. reflexivity.
Qed.

Lemma embedding_rows (weight : Mat) (tokens : list (list Z)) :
  Forall (Forall (fun tok => (0 <= tok < Z.of_nat (length weight))%Z)) tokens ->
  exists h, Transformer.embedding weight tokens = Ok h /\
            Forall2 (fun row hrow => length hrow = length row) tokens h.
Proof.
  intros H. unfold Transformer.embedding. apply mapM_Forall2.
  intros row Hrow. rewrite Forall_forall in H. specialize (H row Hrow).
  destruct (mapM_Forall2 (fun tok : Z =>
              if (tok <? 0)%Z then Raise IndexError
              else match nth_error weight (Z.to_nat tok) with
                   | Some v => Ok v
                   | None => Raise IndexError
                   end) (fun _ _ => True) row) as (hrow & Hh & _).
  - intros tok Htok. rewrite Forall_forall in H. specialize (H tok Htok).
    destruct (Z.ltb_spec tok 0); [lia|].
    destruct (nth_error weight (Z.to_nat tok)) as [v|] eqn:Ev; [eauto|].
    apply nth_error_None in Ev. lia.
  - exists hrow. split; [exact Hh|]. apply (mapM_Ok_length _ _ _ Hh).
Qed.

(** X26. The head dimension [dim // n_heads] is not checked for parity by
    the constructor, but a model with an odd one cannot run: for every model
    that [Transformer.__init__] returns for a configuration with at least one
    layer and an odd [dim // n_heads], [Transformer.forward] on a non-empty
    batch of single known tokens raises the [RuntimeError] of the reshape in
    [rotary_embeddings], whatever the start position. *)
Theorem odd_head_dim_model_cannot_run (T : TorchRandom) (rng rng' : Rng T)
        (args : ModelArgs.t) (m : Transformer.t) (tokens : list (list Z)) (start_pos : nat) :
  Transformer.__init__ T rng args = Ok (m, rng') ->
  (0 < ModelArgs.n_layers args)%Z ->
  Z.odd (ModelArgs.dim args / ModelArgs.n_heads args) = true ->
  tokens <> [] ->
  Forall (fun row => length row = 1%nat /\
                     Forall (fun tok => (0 <= tok
                                         < Z.of_nat (length (Transformer.tok_embeddings m)))%Z)
                            row) tokens ->
  Transformer.forward m tokens start_pos = Raise RuntimeError.
Proof.
  intros Hinit Hlayers Hodd Hne Htok.
  assert (Hm : exists l ls r1 r2,
             Transformer.layers m = l :: ls /\
             SelfAttention.__init__ T r1 args = Ok (EncoderBlock.attention l, r2)).
  { unfold Transformer.__init__ in Hinit.
    apply bind_Ok_inv in Hinit as ([] & _ & H).
    apply bind_Ok_inv in H as ([emb r1] & _ & H).
    apply bind_Ok_inv in H as ([ls r2] & Hls & H).
    apply bind_Ok_inv in H as (nrm & _ & H).
    apply bind_Ok_inv in H as ([out r3] & _ & H).
    apply bind_Ok_inv in H as (hd & _ & H).
    apply bind_Ok_inv in H as (fc & _ & H). inversion H; subst m; clear H.
    cbn [Transformer.layers].
    destruct (make_layers_Ok _ _ _ _ _ _ Hls) as [Hlen Hall].
    destruct ls as [|l ls]; [simpl in Hlen; lia|].
    apply Forall_inv in Hall. destruct Hall as (q1 & q2 & Ha).
    exists l, ls, q1, q2. split; [reflexivity | exact Ha]. }
  destruct Hm as (l & ls & r1 & r2 & Hl & Ha).
  apply SelfAttention_init_fields in Ha as (Hhd & Hnq & Hn0).
  destruct (embedding_rows (Transformer.tok_embeddings m) tokens) as (h & Hh & Hshape).
  { revert Htok. apply Forall_impl. intros row [_ H]; exact H. }
  unfold Transformer.forward.
  destruct tokens as [|row tokens]; [contradiction|].
  apply Forall_inv in Htok. destruct Htok as [Hone _].
  cbn [shape2]. rewrite Hone. cbn [Nat.eqb py_assert bind]. rewrite Hh. cbn [bind].
  inversion Hshape as [|? hrow ? h' Hrow _]; subst. rewrite Hone in Hrow.
  destruct hrow as [|v hrow]; [discriminate|].
  rewrite Hl. cbn [Transformer.run_layers]. unfold EncoderBlock.forward, RMSNorm.forward.
  cbn [map]. rewrite SelfAttention_forward_odd; [reflexivity | |].
  - rewrite Hhd; exact Hodd.
  - rewrite Hnq; exact Hn0.
Qed.

Lemma odd_head_dim_model_cannot_run_witness :
  exists m rng',
    Transformer.__init__ zero_random tt indivisible_args = Ok (m, rng') /\
    Transformer.forward m [[0]; [7]]%Z 1 = Raise RuntimeError.
Proof.
  assert (H : exists m rng',
             Transformer.__init__ zero_random tt indivisible_args = Ok (m, rng') /\
             length (Transformer.tok_embeddings m) = 8%nat).
  { do 2 eexists. split; [rcbv; reflexivity | reflexivity]. }
  destruct H as (m & rng' & H & Hlen). exists m, rng'. split; [exact H|].
  apply (odd_head_dim_model_cannot_run zero_random tt rng' indivisible_args m
           [[0]; [7]]%Z 1 H).
  - reflexivity.
  - reflexivity.
  - discriminate.
  - rewrite Hlen. repeat constructor; lia.
Defined.

(** ** Query heads that are not a multiple of the key heads *)

Lemma only_RuntimeError_Ok {A} (a : A) : only_RuntimeError (Ok a).
Proof. intros e; discriminate. Qed.

Lemma only_RuntimeError_Raise {A} : only_RuntimeError (@Raise A RuntimeError).
Proof. intros e H; inversion H; reflexivity. Qed.

Lemma only_RuntimeError_bind {A B} (c : result A) (k : A -> result B) :
  only_RuntimeError c -> (forall a, only_RuntimeError (k a)) -> only_RuntimeError (bind c k).
Proof.
  intros Hc Hk e. destruct c as [a|e']; simpl; [apply Hk|].
  intros E; inversion E; subst e'. apply Hc; reflexivity.
Qed.

Lemma only_RuntimeError_mapM {A B} (f : A -> result B) (l : list A) :
  (forall a, only_RuntimeError (f a)) -> only_RuntimeError (mapM f l).
Proof.
  intros Hf e H. apply mapM_Raise_In in H as (a & _ & H). apply (Hf a e H).
Qed.

Ltac only_runtime_with tac :=
  repeat first
    [ tac
    | apply only_RuntimeError_Ok
    | apply only_RuntimeError_Raise
    | apply only_RuntimeError_bind; [|intros ?]
    | apply only_RuntimeError_mapM; intros ?
    | match goal with
      | |- only_RuntimeError (match ?x with (_, _) => _ end) => destruct x
      | |- only_RuntimeError (if ?b then _ else _) => destruct b
      | |- only_RuntimeError (match ?x with [] => _ | _ :: _ => _ end) => destruct x
      end ].

Ltac only_runtime := only_runtime_with fail.

Lemma only_RuntimeError_view_as_complex (v : Vec) : only_RuntimeError (view_as_complex v).
Proof.
  assert (H : only_RuntimeError (view_as_complex v) /\
              forall a, only_RuntimeError (view_as_complex (a :: v))).
  { induction v as [|b v [IH1 IH2]]; split.
    - apply only_RuntimeError_Ok.
    - intros a; apply only_RuntimeError_Raise.
    - apply IH2.
    - intros a. simpl view_as_complex.
      apply only_RuntimeError_bind; [exact IH1 | intros; apply only_RuntimeError_Ok]. }
  exact (proj1 H).
Qed.

Lemma only_RuntimeError_rotary_embeddings (x : Tensor4) (f : list (list C)) :
  only_RuntimeError (rotary_embeddings x f).
Proof.
  unfold rotary_embeddings, rotary_vec, broadcast_to.
  only_runtime_with ltac:(apply only_RuntimeError_view_as_complex).
Qed.

Lemma only_RuntimeError_attention (self : SelfAttention.t) (x : Tensor3) (start_pos : nat)
      (freqs : list (list C)) :
  only_RuntimeError (SelfAttention.forward self x start_pos freqs).
Proof.
  rewrite forward_phases.
  apply only_RuntimeError_bind.
  - unfold projections, size_of, view4, view_heads.
    only_runtime_with ltac:(apply only_RuntimeError_rotary_embeddings).
  - intros [[xq xk] xv].
    unfold cache_write, slice_assign, broadcast_to, attention_output, size_of, zip_strict,
      SelfAttention.attend, zip_strict.
    only_runtime.
Qed.

(** The heads of the positions that a written cache holds. *)
Lemma cache_write_heads (n : nat) (c c' : Tensor4) (B sp S : nat) (x : Tensor4) :
  Forall (Forall (fun heads : Mat => length heads = n)) c ->
  Forall (Forall (fun heads : Mat => length heads = n)) x ->
  cache_write c B sp S x = Ok c' ->
  Forall (Forall (fun heads : Mat => length heads = n)) c'.
Proof.
  intros Hc Hx H. unfold cache_write in H.
  apply bind_Ok_inv in H as (rows & Hrows & H).
  apply bind_Ok_inv in H as (new_rows & Hnew & H). inversion H; subst c'; clear H.
  apply Forall_app. split; [|apply Forall_skipn'; exact Hc].
  assert (Hr : Forall (Forall (fun heads : Mat => length heads = n)) rows)
    by (eapply broadcast_to_Forall; [exact Hx | exact Hrows]).
  revert Hnew. apply mapM_Ok_Forall. intros [dst src] row Hin Hs. cbn [fst snd] in Hs.
  assert (Hdst : Forall (fun heads : Mat => length heads = n) dst).
  { apply in_combine_l in Hin. rewrite Forall_forall in Hc. apply Hc.
    revert Hin. clear. generalize (Nat.min B (length c)). intros k; revert c.
    induction k as [|k IH]; intros [|a c]; simpl; try tauto.
    intros [->|Hin]; [left; reflexivity | right; apply IH; exact Hin]. }
  assert (Hsrc : Forall (fun heads : Mat => length heads = n) src).
  { apply in_combine_r in Hin. rewrite Forall_forall in Hr. apply Hr; exact Hin. }
  unfold slice_assign in Hs. apply bind_Ok_inv in Hs as (src' & Hb & Hs).
  inversion Hs; subst row; clear Hs.
  apply Forall_app; split; [apply Forall_firstn'; exact Hdst|].
  apply Forall_app; split; [|apply Forall_skipn'; exact Hdst].
  eapply broadcast_to_Forall; [exact Hsrc | exact Hb].
Qed.

Lemma rotary_shape_kept (x y : Tensor4) (freqs : list (list C)) (B S n : nat) :
  rotary_embeddings x freqs = Ok y -> has_shape3 x B S n -> has_shape3 y B S n.
Proof.
  unfold rotary_embeddings; intros H [HB Hx].
  split; [rewrite (mapM_Ok_length _ _ _ H); exact HB|].
  revert H. apply mapM_Ok_Forall. intros xb yb Hin Hm.
  rewrite Forall_forall in Hx. destruct (Hx xb Hin) as [Hxl Hxh].
  unfold has_shape1 in Hxl.
  apply bind_Ok_inv in Hm as (fs & Hfs & Hm). apply broadcast_to_Ok_length in Hfs.
  split.
  - unfold has_shape1. rewrite (mapM_Ok_length _ _ _ Hm), length_combine. lia.
  - revert Hm. apply mapM_Ok_Forall. intros [heads frow] heads' Hin' Hm'.
    simpl in Hm'. unfold has_shape1. rewrite (mapM_Ok_length _ _ _ Hm').
    apply in_combine_l in Hin'. rewrite Forall_forall in Hxh. apply Hxh, Hin'.
Qed.

Lemma repeat_rows_heads (n_rep n : nat) (M : Tensor3) :
  Forall (fun heads => length heads = n) M ->
  Forall (fun heads => length heads = (n * n_rep)%nat) (repeat_rows n_rep M).
Proof.
  intros H. unfold repeat_rows. destruct (Nat.eqb_spec n_rep 1) as [->|_].
  - revert H. apply Forall_impl. intros heads Hh. lia.
  - apply Forall_map. revert H. apply Forall_impl. intros heads Hh.
    rewrite expand_heads_length, Hh. reflexivity.
Qed.

(** A call of the layer on single positions returns only if the query heads
    are as many as the repeated key heads. *)
Lemma SelfAttention_forward_heads (self self' : SelfAttention.t) (x out : Tensor3)
      (start_pos : nat) (freqs : list (list C)) :
  SelfAttention.forward self x start_pos freqs = Ok (out, self') ->
  x <> [] -> Forall (fun r => length r = 1%nat) x ->
  Forall (Forall (fun heads : Mat => length heads = Z.to_nat (SelfAttention.n_kv_heads self)))
         (SelfAttention.cache_k self) ->
  SelfAttention.n_heads_q self <> 0%Z ->
  (0 < SelfAttention.n_heads_q self)%Z /\
  Z.to_nat (SelfAttention.n_heads_q self)
  = (Z.to_nat (SelfAttention.n_kv_heads self) * Z.to_nat (SelfAttention.n_rep self))%nat.
Proof.
  intros H Hne Hx Hcache Hq. rewrite forward_phases in H.
  apply bind_Ok_inv in H as ([[xq xk] xv] & Hproj & H).
  apply bind_Ok_inv in H as (ck & Hck & H).
  apply bind_Ok_inv in H as (cv & _ & H).
  apply bind_Ok_inv in H as (out' & Hatt & _).
  unfold projections in Hproj.
  apply bind_Ok_inv in Hproj as (nq & Hnq & Hproj).
  apply bind_Ok_inv in Hproj as (nkv & Hnkv & Hproj).
  apply bind_Ok_inv in Hproj as (hd & _ & Hproj).
  apply bind_Ok_inv in Hproj as (q0 & Hq0 & Hproj).
  apply bind_Ok_inv in Hproj as (k0 & Hk0 & Hproj).
  apply bind_Ok_inv in Hproj as (v0 & _ & Hproj).
  apply bind_Ok_inv in Hproj as (q1 & Hq1 & Hproj).
  apply bind_Ok_inv in Hproj as (k1 & Hk1 & Hproj).
  inversion Hproj; subst q1 k1 v0; clear Hproj.
  assert (Hlin : forall W, Forall (fun r => length r = 1%nat) (linear3 W x)).
  { intros W. unfold linear3. apply Forall_map. revert Hx. apply Forall_impl.
    intros r Hr. rewrite length_map. exact Hr. }
  assert (Hsq : has_shape3 xq (length x) 1 nq).
  { eapply rotary_shape_kept; [exact Hq1|].
    pose proof (view4_shape _ _ _ 1 _ Hq0 (Hlin _)) as Hs.
    unfold linear3 in Hs. rewrite length_map in Hs. exact Hs. }
  assert (Hsk : has_shape3 xk (length x) 1 nkv).
  { eapply rotary_shape_kept; [exact Hk1|].
    pose proof (view4_shape _ _ _ 1 _ Hk0 (Hlin _)) as Hs.
    unfold linear3 in Hs. rewrite length_map in Hs. exact Hs. }
  assert (Enq : nq = Z.to_nat (SelfAttention.n_heads_q self) /\ (1 <= nq)%nat).
  { unfold size_of in Hnq. destruct (Z.ltb_spec (SelfAttention.n_heads_q self) 0);
      [discriminate|]. inversion Hnq. lia. }
  assert (Enkv : nkv = Z.to_nat (SelfAttention.n_kv_heads self)).
  { unfold size_of in Hnkv. destruct (SelfAttention.n_kv_heads self <? 0)%Z;
      [discriminate|]. inversion Hnkv; reflexivity. }
  destruct Enq as [Enq Hnq1].
  split; [lia|].
  destruct (attention_Ok_fits _ _ _ _ _ nq Hatt) as (rep & Hrep & Hlen & Hfits).
  { destruct Hsq as [_ Hsq]. revert Hsq. apply Forall_impl. intros Q [HQ1 HQ2].
    unfold has_shape1 in HQ1. split; [intros ->; discriminate | exact HQ2]. }
  assert (Erep : rep = Z.to_nat (SelfAttention.n_rep self)).
  { unfold size_of in Hrep. destruct (SelfAttention.n_rep self <? 0)%Z; [discriminate|].
    inversion Hrep; reflexivity. }
  set (keys := cache_read ck (fst (shape2 x)) (start_pos + snd (shape2 x))) in *.
  set (values := cache_read cv (fst (shape2 x)) (start_pos + snd (shape2 x))) in *.
  destruct xq as [|Q0 xq']; [destruct Hsq as [Hsq _]; destruct x; [contradiction|discriminate]|].
  destruct (heads_kv rep keys values) as [|kv0 KV] eqn:EKV; [discriminate|].
  cbn [combine] in Hfits. apply Forall_inv in Hfits. cbn [fst snd] in Hfits.
  destruct Hfits as (_ & _ & HK & _).
  pose proof (heads_kv_nth rep keys values 0) as Hnth. rewrite EKV in Hnth. cbn [nth_error] in Hnth.
  destruct keys as [|Kb keys'] eqn:Ekeys; [discriminate|].
  destruct values as [|Vb values']; [discriminate|].
  inversion Hnth; subst kv0; clear Hnth. cbn [fst] in HK.
  assert (HKb : Forall (fun heads : Mat => length heads = nkv) Kb).
  { assert (Hall : Forall (Forall (fun heads : Mat => length heads = nkv)) (Kb :: keys')).
    { rewrite <- Ekeys. unfold keys, cache_read. apply Forall_map.
      apply Forall_firstn'.
      assert (Hck' : Forall (Forall (fun heads : Mat => length heads = nkv)) ck).
      { eapply cache_write_heads; [| |exact Hck].
        - rewrite Enkv. exact Hcache.
        - destruct Hsk as [_ Hsk]. revert Hsk. apply Forall_impl.
          intros r [_ Hr]. exact Hr. }
      revert Hck'. apply Forall_impl. intros r Hr. apply Forall_firstn'; exact Hr. }
    apply Forall_inv in Hall; exact Hall. }
  clear Ekeys.
  destruct Kb as [|h Kb'].
  - exfalso. unfold repeat_rows in HK. destruct (rep =? 1)%nat; simpl in HK; lia.
  - rewrite (length_transpose _ (nkv * rep)) in HK.
    + rewrite <- Enq, <- Enkv, <- Erep. lia.
    + unfold repeat_rows. destruct (rep =? 1)%nat; discriminate.
    + apply repeat_rows_heads; exact HKb.
Qed.

Lemma SelfAttention_init_heads (T : TorchRandom) (rng rng' : Rng T) (args : ModelArgs.t)
      (a : SelfAttention.t) :
  SelfAttention.__init__ T rng args = Ok (a, rng') ->
  let nkv := match ModelArgs.n_kv_heads args with
             | None => ModelArgs.n_heads args
             | Some k => k
             end in
  SelfAttention.n_kv_heads a = nkv /\
  SelfAttention.n_rep a = (ModelArgs.n_heads args / nkv)%Z /\
  (0 <= nkv)%Z /\ nkv <> 0%Z.
Proof.
  intros H nkv. unfold SelfAttention.__init__, py_floordiv in H. fold nkv in H.
  destruct (Z.eqb_spec nkv 0) as [|Hk]; [discriminate|]. cbn [bind] in H.
  destruct (ModelArgs.n_heads args =? 0)%Z; [discriminate|]. cbn [bind] in H.
  repeat match type of H with
         | bind (nn_Linear ?T ?r ?i ?o) _ = _ =>
             destruct (nn_Linear T r i o) as [[? ?]|?]; cbn [bind] in H; [|discriminate]
         end.
  apply bind_Ok_inv in H as (ck & Hck & H). apply bind_Ok_inv in H as (cv & _ & H).
  inversion H; subst; clear H. cbn [SelfAttention.n_kv_heads SelfAttention.n_rep].
  split; [reflexivity|]. split; [reflexivity|]. split; [|exact Hk].
  unfold torch_zeros4, size_of in Hck.
  destruct (ModelArgs.max_batch_size args <? 0)%Z; [discriminate|]. cbn [bind] in Hck.
  destruct (ModelArgs.max_seq_len args <? 0)%Z; [discriminate|]. cbn [bind] in Hck.
  destruct (Z.ltb_spec nkv 0); [discriminate | assumption].
Qed.

(** X27. The constructor does not check that [n_heads] is a multiple of the
    number of key/value heads, but a model for which it is not cannot run:
    for every model that [Transformer.__init__] returns for a configuration
    with a positive [dim], at least one layer and
    [n_heads % n_kv_heads <> 0], the first call of [Transformer.forward], on a
    non-empty batch of single known tokens, raises [RuntimeError], whatever
    the start position.  (With [dim = 0] every projection is empty.) *)
Theorem indivisible_heads_model_cannot_run (T : TorchRandom) (rng rng' : Rng T)
        (args : ModelArgs.t) (m : Transformer.t) (tokens : list (list Z)) (start_pos : nat) :
  Transformer.__init__ T rng args = Ok (m, rng') ->
  (0 < ModelArgs.dim args)%Z ->
  (0 < ModelArgs.n_layers args)%Z ->
  (ModelArgs.n_heads args mod match ModelArgs.n_kv_heads args with
                              | None => ModelArgs.n_heads args
                              | Some k => k
                              end <> 0)%Z ->
  tokens <> [] ->
  Forall (fun row => length row = 1%nat /\
                     Forall (fun tok => (0 <= tok
                                         < Z.of_nat (length (Transformer.tok_embeddings m)))%Z)
                            row) tokens ->
  Transformer.forward m tokens start_pos = Raise RuntimeError.
Proof.
  intros Hinit _ Hlayers Hmod Hne Htok.
  assert (Hm : exists l ls r1 r2,
             Transformer.layers m = l :: ls /\
             SelfAttention.__init__ T r1 args = Ok (EncoderBlock.attention l, r2)).
  { unfold Transformer.__init__ in Hinit.
    apply bind_Ok_inv in Hinit as ([] & _ & H).
    apply bind_Ok_inv in H as ([emb r1] & _ & H).
    apply bind_Ok_inv in H as ([ls r2] & Hls & H).
    apply bind_Ok_inv in H as (nrm & _ & H).
    apply bind_Ok_inv in H as ([out r3] & _ & H).
    apply bind_Ok_inv in H as (hd & _ & H).
    apply bind_Ok_inv in H as (fc & _ & H). inversion H; subst m; clear H.
    cbn [Transformer.layers].
    destruct (make_layers_Ok _ _ _ _ _ _ Hls) as [Hlen Hall].
    destruct ls as [|l ls]; [simpl in Hlen; lia|].
    apply Forall_inv in Hall. destruct Hall as (q1 & q2 & Ha).
    exists l, ls, q1, q2. split; [reflexivity | exact Ha]. }
  destruct Hm as (l & ls & r1 & r2 & Hl & Ha).
  destruct (SelfAttention_init_fields _ _ _ _ _ Ha) as (_ & Hnq & Hn0).
  destruct (SelfAttention_init_heads _ _ _ _ _ Ha) as (Hnkv & Hrep & Hk0 & Hk1).
  destruct (SelfAttention_init_caches _ _ _ _ _ Ha) as [Hck _].
  cbv zeta in Hnkv, Hrep, Hk0, Hk1, Hck.
  set (nkv := match ModelArgs.n_kv_heads args with
              | None => ModelArgs.n_heads args
              | Some k => k
              end) in *.
  destruct (embedding_rows (Transformer.tok_embeddings m) tokens) as (h & Hh & Hshape).
  { revert Htok. apply Forall_impl. intros row [_ H]; exact H. }
  unfold Transformer.forward.
  assert (Hrows : Forall (fun r : Mat => length r = 1%nat) h).
  { clear - Htok Hshape. induction Hshape as [|row hrow toks h' Hr _ IH]; [constructor|].
    inversion Htok as [|? ? [Hone _] Hrest]; subst.
    constructor; [congruence | apply IH; exact Hrest]. }
  destruct tokens as [|row tokens]; [contradiction|].
  apply Forall_inv in Htok. destruct Htok as [Hone _].
  cbn [shape2]. rewrite Hone. cbn [Nat.eqb py_assert bind]. rewrite Hh. cbn [bind].
  destruct h as [|hrow h']; [inversion Hshape|].
  rewrite Hl. cbn [Transformer.run_layers]. unfold EncoderBlock.forward.
  destruct (SelfAttention.forward (EncoderBlock.attention l)
              (RMSNorm.forward (EncoderBlock.attention_norm l) (hrow :: h')) start_pos
              (slice start_pos (start_pos + 1) (Transformer.freqs_complex m)))
    as [[out a']|e] eqn:Hf.
  - exfalso. apply SelfAttention_forward_heads in Hf.
    + rewrite Hnq, Hnkv, Hrep in Hf. destruct Hf as [Hh0 Hf]. apply Hmod.
      assert (Hd : (0 <= ModelArgs.n_heads args / nkv)%Z) by (apply Z.div_pos; lia).
      apply Z.div_exact; [exact Hk1|].
      rewrite <- Nat2Z.inj_iff in Hf. rewrite Nat2Z.inj_mul, !Z2Nat.id in Hf by lia.
      exact Hf.
    + unfold RMSNorm.forward. discriminate.
    + unfold RMSNorm.forward. apply Forall_map. revert Hrows. apply Forall_impl.
      intros r Hr. rewrite length_map. exact Hr.
    + rewrite Hck, Hnkv. apply Forall_forall. intros r Hr. apply repeat_spec in Hr; subst r.
      apply Forall_forall. intros p Hp. apply repeat_spec in Hp; subst p.
      apply repeat_length.
    + rewrite Hnq; exact Hn0.
  - apply only_RuntimeError_attention in Hf. subst e. reflexivity.
Qed.

Lemma indivisible_heads_model_cannot_run_witness :
  exists m rng',
    Transformer.__init__ zero_random tt
      (ModelArgs.mk 12 1 3 (Some 2%Z) 2 1 None (1 / 100000) 1 4) = Ok (m, rng') /\
    Transformer.forward m [[1]]%Z 1 = Raise RuntimeError.
Proof.
  assert (H : exists m rng',
             Transformer.__init__ zero_random tt
               (ModelArgs.mk 12 1 3 (Some 2%Z) 2 1 None (1 / 100000) 1 4) = Ok (m, rng') /\
             length (Transformer.tok_embeddings m) = 2%nat).
  { do 2 eexists. split; [rcbv; reflexivity | reflexivity]. }
  destruct H as (m & rng' & H & Hlen). exists m, rng'. split; [exact H|].
  apply (indivisible_heads_model_cannot_run zero_random tt rng' _ m [[1]]%Z 1 H).
  - reflexivity.
  - reflexivity.
  - discriminate.
  - discriminate.
  - rewrite Hlen. repeat constructor; lia.
Defined.
